(* ===== verification/_CoqProject ===== *)
-Q . S2P
Prelude.v
Env.v
Json.v
GoStrings.v
JsonText.v
Regex.v
Paths.v
GoTime.v
Files.v
Backup.v
BackupSafety.v
BackupTrip.v
BackupDemo.v
Auth.v
Config.v
Domain.v
StateMachine.v
Schema.v
Migrations.v
SessionRepo.v
Journal.v
Projection.v
ApprovalStore.v
Approval.v
Lifecycle.v
Identity.v
Ws.v
AuditLog.v
Registry.v
Adapter.v
FakeAdapter.v
Plugin.v
Sdk.v
OutputParser.v
McpPerm.v
Wrapper.v
Codex.v
Claude.v
ClaudePerm.v
ClaudeRun.v
App.v
AppEnv.v
Recorded.v
Errcat.v
Http.v
WsHandler.v
WsSocket.v
WsCut.v
Api.v
HttpServer.v
Wiring.v
ApiAuth.v
ApiReplay.v
Protocol.v
