(* ===== verification/Prelude.v ===== *)
(** * Code All Remote: a verification library

    Code All Remote (CAR) is a server that runs coding agents on a homelab
    machine for remote clients.  A client creates a session in a workspace and
    starts a run; an adapter starts the agent process and reports signals; the
    core turns them into events of the session's journal, asks the operator for
    approvals, and fans events out over WebSockets; a client that was away
    replays the journal from its cursor.  This library models the Go code of
    src/internal and src/cmd and proves what it promises, and where it does not
    keep it.

    ** How the program is modelled

    Stateful Go code is a computation in the state monad [M S A] of this file;
    [let!], [let?] (stop on an error, optionally wrapped) and [;;;] sequence
    it, [zoom] runs it on a part of a larger state, [for_each] and [fold_each]
    are its loops.  An [error] is a Go error with its wrapping chain; a pair of
    a value and an error is a [result].  Proofs use the weakest precondition
    [wp], whose rules are the rewrite database [wp]; invariants use [preserves]
    and the hint database of that name.

    The clock, the random source and the database driver are an oracle ([Env]):
    a theorem that quantifies over the environment covers every behaviour of
    them, driver failures at any call included; [quiet] means none fails.  A
    table is a finite map from the primary key (a list for the tables with
    AUTOINCREMENT), a statement a function on the tables that checks the
    schema's constraints.  Times and durations are integers in nanoseconds;
    int64 values are integers, with the wrap-around written out where the code
    adds to them ([wrap64]).

    A method under a mutex is one step.  Where the code releases the lock in
    between, the operation is defined as the sequence of its critical sections,
    and the theorems about concurrency interleave those sections.  Goroutines
    that run a method on a ticker are sequences of calls of that method.

    ** The files

    - Go's library, as far as the code uses it: [Env] the environment; [Json]
      JSON values, the string codec and the decoding of structs; [JsonText] the
      parser of encoding/json, with the round trip of printed values;
      [GoStrings] lines, UTF-8, trimming, %q; [Regex] a backtracking matcher
      with the specification of a match; [Paths] path/filepath; [GoTime] civil
      time; [Http] requests, response writers, strconv.ParseInt.
    - [Domain]: src/internal/domain/session.go; [Auth] (auth/auth.go).
    - [Config] (config/config.go): loading and validating the configuration.
      Validation is exact, a written configuration loads back, durations parse
      to exactly their value or are refused.
    - [StateMachine] (session/manager.go): the transition table of sessions,
      the idempotency store of the API, the key validator.  The states
      reachable from created; a stored response stays readable until it
      expires.
    - [Schema] (storage/migrations.go, storage.go): tables, constraints,
      statements, transactions.  [Migrations] (the same files): the statements of
      the migrations on the schema.  Servers that start at once on one database,
      with any failures, leave the schema of a version; opening a database ends
      with the columns [Schema] has; what is rolled back can be migrated again.
    - [SessionRepo] (storage/session_repository.go): UpdateState is a
      compare-and-set; a created session is read back; UpdateRunState never
      succeeds.
    - [Journal] (storage/event_repository.go, cursor_repository.go): appending
      is atomic and contiguous and keeps [journal_ok]; one page of replay; a
      client that follows the cursor terminates with exactly the events after
      it, for every page size.
    - [Projection] (projection/snapshot.go): snapshots refine one function of
      the tables, rebuilding agrees with reading, repair repairs.
    - [ApprovalStore] and [Approval] (approval/store.go, approval.go): the
      store interface as a class of operations and a class of laws, proved for
      the database, memory and absent stores; the bridge is proved against the
      laws.  Decided approvals are final; concurrent decisions take effect
      once while the approval is in memory, and may take effect twice when it
      is not.  Approvals are pointers into a heap, since the stores and the
      bridge share them.
    - [Lifecycle] (lifecycle/manager.go): reconciliation and shutdown leave no
      session behind; sequential calls are safe; Start and Shutdown race.
    - [Identity] (identity/service.go): challenges are single use, tokens
      authorize exactly while stored, unexpired and not revoked, revocation is
      final.
    - [Ws] (ws/hub.go, client.go, handler.go): the gateway over an
      [EventJournal] class that the cursor repository implements.  Connecting
      loses no event within a page, queues are bounded, the gap beyond a page.
      [WsHandler] (ws/handler.go): a connection as the interleaved steps of its
      goroutines.  [WsSocket]: a socket carries the welcome and then its queue;
      [WsCut]: a revoked device is cut off, the read loop alone is the replay of
      [Ws], two goroutines may write at once.
    - [AuditLog] (audit/writer.go): recorded contexts are redacted.
    - [Registry] (workspace/registry.go): registered workspaces are canonical
      and confined; the registry stays well formed.
    - [Adapter] (adapter/adapter.go): the interface of an adapter.
      [FakeAdapter] (adapter/fake_adapter.go): the goroutine that plays a
      scenario, interleaved with calls and an observer.  It plays its script in
      order and ends; nothing interrupts it.
    - [Plugin] (plugin/registry.go): registration and the drain at shutdown, with
      its goroutines interleaved.  No plugin is drained twice, a shutdown stops
      what was active.  [Sdk] (src/sdk/sdk.go): what the SDK accepts the registry
      accepts.
    - [OutputParser] (adapter/claude_parser.go): chunking does not change the
      events of a stream; what an event may come from.
    - [McpPerm] (mcpperm/server.go, socket.go, cmd/car-mcp-perm): a tool call
      reaches the adapter once and gets its answer, or fails closed; the socket calls
      the adapter once for each connection it handled.
    - [Wrapper] (wrapper/wrapper.go): the goroutines around a process.  [Codex]
      (adapter/codex/codex.go): the adapter over it, whose signals are the chunks
      of the process.
    - [Claude], [ClaudePerm] and [ClaudeRun] (adapter/claude/claude.go): prompts
      reach the agent as single messages, the output of a process is reported,
      permissions are given only by decisions that came after the request.
    - [App] (app/app.go, session_service.go): the request handlers and the
      observer of a run over all of the above.  The live feed is the journal;
      late decisions are silent; a completion does not reach its session; two
      requests can start two agents.  [AppEnv]: its clock only moves forward.
      [Recorded]: what the observer of a run writes into the journal, one event for
      each signal.
    - [Api] (api/handlers.go, pairing_handlers.go) and [HttpServer]
      (server/server.go, obs/obs.go): the handlers and their wrappers, the
      routes.  [ApiAuth]: without credentials nothing happens, except that
      anybody can pair; [ApiReplay]: retried commands replay.
    - [Wiring] (app/app.go, server/server.go, cmd/server/main.go): a process of the
      server from its flags to its exit code, over a database that outlives it.
      A restart, after a shutdown or a crash, settles every session and forgets
      nothing else; requests are served only with a valid configuration.
    - [Files], a tree of files with links and the calls of package os on it;
      [Backup] (cmd/carctl): backup, restore and verify with their flags.
      [BackupSafety]: a restore stays below its target, whatever the archive
      holds, and an archive that does not authenticate changes nothing;
      [BackupTrip]: what is backed up can be restored; [BackupDemo]: a concrete
      disk, and what the commands do with links.
    - [Errcat] (errcat/catalog.go) and [Protocol] (protocol/dispatcher.go,
      schemas.go): commands reach their handlers once, valid and
      authenticated; retries replay.

    Definitions keep the names of the Go code; a method of T is [T_Method].
    An operation on a struct that lives in the state takes no receiver.

    ** Fuel and bounds

    [Json]'s codec and [AuditLog]'s replacement recurse on the length of the text,
    which every step shortens, and are called with that length (plus one);
    [JsonText]'s parser takes twice the length plus two, two calls for a byte;
    the repetition of [Regex] takes the length of what is left, since an empty
    iteration ends it; the duration parser takes the length of its text;
    [mkdir_all] takes the number of words of its path, one for each parent; the
    resolution of a path follows 40 links, as Linux does, and fails then;
    [replay_all] takes one more page than there are events, which its
    termination theorem shows to be enough.  The heap of approvals and the
    channels are unbounded lists, with the capacities of the code where it has
    them.

    ** Choices

    The order of a Go map iteration is that of the finite map's list; the
    theorems do not depend on it.  A WebSocket client's writer goroutine is an
    oracle saying how many envelopes it has taken before each send, and which
    branch a select with two ready cases takes.  An adapter is a record of
    operations on a state of its own, any such record; its signals are given to
    the observer.  Handlers of the protocol act on any world.  The
    outcome of each wait of a shutdown is an argument.  Timers of the fake agent
    fire at any time; drain functions of plugins end at any time or not at all.
    What requests do while a process serves is any computation.  A JSON number that is
    not an integer is kept as its literal; the text of a syntax error is not
    modelled.  Regular expressions match bytes, not runes; %q is modelled for
    printable text.  The operating system's answers to the calls of the process
    wrapper, the adapter and the configuration are arguments, as is the time
    zone.  Handlers of HTTP run for any response writer; what net/http answers
    by itself is one value without its page.  HMAC, AES-GCM, tar and gzip are a
    class of functions with the laws that backups rely on; what a failing write
    leaves of its data is an oracle.

    ** Not modelled

    The frames of the WebSocket protocol and its deadlines; the accept loop of
    net/http; the context that ends the processes of a server with it; the parsing
    of flags and logging. *)

From stdpp Require Export base gmap strings list sorting pretty.
From Stdlib Require Export ZArith Lia.

(** ** Go errors

    [errors.New] and [fmt.Errorf] without [%w] build an [ErrNew]; the
    package-level sentinel variables are [ErrSentinel] (compared by identity,
    which their distinct texts represent); [fmt.Errorf] with one [%w] verb
    builds an [ErrWrap] with the text before and after the verb. *)
Inductive error : Type :=
  | ErrNew (text : string)
  | ErrSentinel (text : string)
  | ErrWrap (pre : string) (cause : error) (post : string).

#[export] Instance error_eq_dec : EqDecision error.
Proof. solve_decision. Defined.

(** [err.Error()]. *)
Fixpoint error_Error (e : error) : string :=
  match e with
  | ErrNew t => t
  | ErrSentinel t => t
  | ErrWrap pre c post => (pre +:+ error_Error c +:+ post)%string
  end.

(** [errors.Is(err, target)]: walk the chain of wrapped errors. *)
Fixpoint errors_Is (e target : error) : bool :=
  bool_decide (e = target) ||
  match e with
  | ErrWrap _ c _ => errors_Is c target
  | _ => false
  end.

(** The pair [(value, error)] that Go functions return, exactly one of the two
    being meaningful. *)
Inductive result (A : Type) : Type :=
  | Ok (a : A)
  | Err (e : error).
Arguments Ok {A} a.
Arguments Err {A} e.

Definition is_ok {A} (r : result A) : bool :=
  match r with Ok _ => true | Err _ => false end.

(** ** The state monad of the stateful code *)

Definition M (S A : Type) : Type := S -> A * S.

Section Monad.
Context {S : Type}.

Definition ret {A} (a : A) : M S A := fun s => (a, s).

Definition bind {A B} (m : M S A) (k : A -> M S B) : M S B :=
  fun s => let '(a, s') := m s in k a s'.

(** [x, err := m; if err != nil { return zero, w(err) }; k x] *)
Definition try_bind {A B} (w : error -> error) (m : M S (result A))
    (k : A -> M S (result B)) : M S (result B) :=
  bind m (fun r => match r with Ok a => k a | Err e => ret (Err (w e)) end).

Definition get : M S S := fun s => (s, s).
Definition gets {A} (f : S -> A) : M S A := fun s => (f s, s).
Definition modify (f : S -> S) : M S unit := fun s => (tt, f s).

(** [for _, x := range l { body }] *)
Fixpoint for_each {A} (l : list A) (body : A -> M S unit) : M S unit :=
  match l with
  | [] => ret tt
  | x :: l' => bind (body x) (fun _ => for_each l' body)
  end.

(** A loop with an accumulator: [for _, x := range l { acc = body(acc, x) }]. *)
Fixpoint fold_each {A B} (l : list A) (acc : B) (body : B -> A -> M S B) : M S B :=
  match l with
  | [] => ret acc
  | x :: l' => bind (body acc x) (fun acc' => fold_each l' acc' body)
  end.

End Monad.

(** Run a computation on a part of a larger state. *)
Definition zoom {S T A} (proj : T -> S) (inj : S -> T -> T) (m : M S A) : M T A :=
  fun t => let '(a, s') := m (proj t) in (a, inj s' t).

Declare Scope car_scope.
Delimit Scope car_scope with car.

Notation "'let!' x ':=' m 'in' k" := (bind m (fun x => k))
  (at level 10, x pattern, m at level 200, k at level 200,
   format "'let!'  x  ':='  m  'in' '//' k") : car_scope.
Notation "'let?' x ':=' m 'in' k" := (try_bind (fun e => e) m (fun x => k))
  (at level 10, x pattern, m at level 200, k at level 200,
   format "'let?'  x  ':='  m  'in' '//' k") : car_scope.
Notation "'let?' x ':=' m 'orelse' w 'in' k" := (try_bind w m (fun x => k))
  (at level 10, x pattern, m at level 200, w at level 200, k at level 200,
   format "'let?'  x  ':='  m  'orelse'  w  'in' '//' k") : car_scope.
Notation "m1 ';;;' m2" := (bind m1 (fun _ => m2))
  (at level 100, right associativity, format "m1 ';;;' '//' m2") : car_scope.

Open Scope Z_scope.
Open Scope string_scope.
Open Scope list_scope.
Open Scope car_scope.

(** [fmt.Errorf("<text>: %w", err)] *)
Definition wrap (text : string) (e : error) : error := ErrWrap (text +:+ ": ") e "".

(** ** Weakest preconditions *)

Definition wp {S A} (m : M S A) (s : S) (Q : A -> S -> Prop) : Prop :=
  Q (m s).1 (m s).2.

Section Wp.
Context {S : Type}.

Lemma wp_ret {A} (a : A) (s : S) Q : wp (ret a) s Q <-> Q a s.
Proof. done. Qed.

Lemma wp_gets {A} (f : S -> A) s Q : wp (gets f) s Q <-> Q (f s) s.
Proof. done. Qed.

Lemma wp_get s Q : wp (@get S) s Q <-> Q s s.
Proof. done. Qed.

Lemma wp_modify (f : S -> S) s Q : wp (modify f) s Q <-> Q tt (f s).
Proof. done. Qed.

Lemma wp_bind {A B} (m : M S A) (k : A -> M S B) s Q :
  wp (bind m k) s Q <-> wp m s (fun a s' => wp (k a) s' Q).
Proof. unfold wp, bind. by destruct (m s). Qed.

Lemma wp_try_bind {A B} w (m : M S (result A)) (k : A -> M S (result B)) s Q :
  wp (try_bind w m k) s Q <->
  wp m s (fun r s' => match r with
                      | Ok a => wp (k a) s' Q
                      | Err e => Q (Err (w e)) s'
                      end).
Proof.
  unfold try_bind. rewrite wp_bind. unfold wp.
  destruct (m s) as [r s'] eqn:E. by destruct r.
Qed.

Lemma wp_zoom {T A} (p : T -> S) (i : S -> T -> T) (m : M S A) t Q :
  wp (zoom p i m) t Q <-> wp m (p t) (fun a s' => Q a (i s' t)).
Proof. unfold wp, zoom. by destruct (m (p t)). Qed.

(** The consequence rule: what chains specifications of operations. *)
Lemma wp_mono {A} (m : M S A) s (Q Q' : A -> S -> Prop) :
  wp m s Q -> (forall a s', Q a s' -> Q' a s') -> wp m s Q'.
Proof. unfold wp. eauto. Qed.

Lemma wp_elim {A} (m : M S A) s a s' Q : wp m s Q -> m s = (a, s') -> Q a s'.
Proof. unfold wp. intros H E. by rewrite E in H. Qed.

Lemma wp_intro {A} (m : M S A) s Q : (forall a s', m s = (a, s') -> Q a s') -> wp m s Q.
Proof. unfold wp. intros H. apply H. by destruct (m s). Qed.

Lemma wp_exists {A} (m : M S A) s (Q : A -> S -> Prop) : wp m s Q -> exists a s', m s = (a, s') /\ Q a s'.
Proof. unfold wp. destruct (m s) as [a s']. by exists a, s'. Qed.

Lemma wp_and {A} (m : M S A) s (Q Q' : A -> S -> Prop) :
  wp m s Q -> wp m s Q' -> wp m s (fun a s' => Q a s' /\ Q' a s').
Proof. done. Qed.

(** Loop rule: [I] is an invariant of the state, indexed by the elements left. *)
Lemma wp_for_each {A} (l : list A) (body : A -> M S unit) (I : list A -> S -> Prop) s Q :
  I l s ->
  (forall x l' s', I (x :: l') s' -> wp (body x) s' (fun _ => I l')) ->
  (forall s', I [] s' -> Q tt s') ->
  wp (for_each l body) s Q.
Proof.
  intros HI Hbody HQ. revert s HI.
  induction l as [|x l IH]; intros s HI; cbn.
  - rewrite wp_ret. eauto.
  - rewrite wp_bind. eapply wp_mono; [eauto|]. intros [] s' HI'. eauto.
Qed.

Lemma wp_fold_each {A B} (l : list A) (acc : B) (body : B -> A -> M S B)
    (I : list A -> B -> S -> Prop) s Q :
  I l acc s ->
  (forall x l' acc' s', I (x :: l') acc' s' -> wp (body acc' x) s' (I l')) ->
  (forall acc' s', I [] acc' s' -> Q acc' s') ->
  wp (fold_each l acc body) s Q.
Proof.
  intros HI Hbody HQ. revert acc s HI.
  induction l as [|x l IH]; intros acc s HI; cbn.
  - rewrite wp_ret. eauto.
  - rewrite wp_bind. eapply wp_mono; [eauto|]. intros acc' s' HI'. eauto.
Qed.

End Wp.

Create HintDb wp.
#[export] Hint Rewrite @wp_ret @wp_gets @wp_get @wp_modify @wp_bind @wp_try_bind
  @wp_zoom : wp.

(** Symbolic execution of one monadic definition. *)
Ltac wp_simp := autorewrite with wp; cbn beta iota.

(** Use a specification [wp m s P] for the call at the head of the goal. *)
Ltac wp_use H := eapply wp_mono; [eapply H|cbn beta].

(** Turn a run [E : m s = (a, s')] into the obligation [wp m s (fun a s' => goal)]. *)
Lemma wp_run {S A} (m : M S A) s a s' (Q : A -> S -> Prop) :
  m s = (a, s') -> wp m s Q -> Q a s'.
Proof. intros E H. exact (wp_elim m s a s' Q H E). Qed.

(** A run is determined by its answer and the state it leaves. *)
Lemma run_answer {S A} (m : M S A) s a : (m s).1 = a -> m s = (a, (m s).2).
Proof. intros <-. by destruct (m s). Qed.

Ltac wp_start E :=
  match type of E with
  | ?m ?s = (?a, ?s') =>
      let r := fresh "res" in let Hr := fresh "Hres" in
      remember a as r eqn:Hr in E; revert Hr; pattern r, s';
      refine (wp_run _ _ _ _ _ E _); clear E; cbn beta
  end.

(** Case analysis on the innermost [match] scrutinee or [decide] of the goal. *)
Ltac split_match :=
  match goal with
  | |- context [match ?x with _ => _ end] =>
      lazymatch x with
      | context [match _ with _ => _ end] => fail
      | _ => destruct x eqn:?
      end
  end.

(** ** Invariants of computations *)

(** [m] keeps an invariant of the state. *)
Definition preserves {S A} (I : S -> Prop) (m : M S A) : Prop := forall s, I s -> I (m s).2.

Section Preserves.
Context {S : Type} (I : S -> Prop).

Lemma preserves_ret {A} (a : A) : preserves I (ret a).
Proof. by intros s Hs. Qed.
Lemma preserves_get : preserves I get.
Proof. by intros s Hs. Qed.
Lemma preserves_gets {A} (f : S -> A) : preserves I (gets f).
Proof. by intros s Hs. Qed.
Lemma preserves_bind {A B} (m : M S A) (k : A -> M S B) :
  preserves I m -> (forall a, preserves I (k a)) -> preserves I (bind m k).
Proof.
  intros Hm Hk s Hs. unfold bind. specialize (Hm s Hs). destruct (m s) as [a s']. by apply Hk.
Qed.
Lemma preserves_for_each {A} (l : list A) (body : A -> M S unit) :
  (forall x, preserves I (body x)) -> preserves I (for_each l body).
Proof.
  intros Hb. induction l as [|x l IH]; cbn; [apply preserves_ret|]. by apply preserves_bind.
Qed.
Lemma preserves_fold_each {A B} (l : list A) (acc : B) (body : B -> A -> M S B) :
  (forall acc x, preserves I (body acc x)) -> preserves I (fold_each l acc body).
Proof.
  intros Hb. revert acc. induction l as [|x l IH]; intros acc; cbn; [apply preserves_ret|].
  apply preserves_bind; [apply Hb|]. intros acc'. apply IH.
Qed.
End Preserves.

Create HintDb preserves.
#[export] Hint Resolve preserves_ret preserves_get preserves_gets preserves_bind
  preserves_for_each preserves_fold_each : preserves.
#[export] Hint Extern 2 (preserves _ (match ?x with _ => _ end)) => destruct x : preserves.

(** ** Lists *)

Lemma filter_id {A} (P : A -> Prop) `{forall x, Decision (P x)} (l : list A) :
  Forall P l -> filter P l = l.
Proof. induction 1 as [|x l Hx _ IH]; [done|]. rewrite filter_cons_True by done. by f_equal. Qed.

Lemma filter_none {A} (P : A -> Prop) `{forall x, Decision (P x)} (l : list A) :
  Forall (fun x => ~ P x) l -> filter P l = [].
Proof. induction 1 as [|x l Hx _ IH]; [done|]. by rewrite filter_cons_False. Qed.

Lemma StronglySorted_filter {A} (R : relation A) (P : A -> Prop) `{forall x, Decision (P x)} l :
  StronglySorted R l -> StronglySorted R (filter P l).
Proof.
  induction 1 as [|x l Hs IH Hx]; [constructor|].
  destruct (decide (P x)); [rewrite filter_cons_True by done|by rewrite filter_cons_False by done].
  constructor; [done|]. apply Forall_forall. intros y [_ Hy]%list_elem_of_filter.
  rewrite Forall_forall in Hx. by apply Hx.
Qed.

Lemma StronglySorted_lookup {A} (R : relation A) (l : list A) i j x y :
  StronglySorted R l -> (i < j)%nat -> l !! i = Some x -> l !! j = Some y -> R x y.
Proof.
  intros Hs. revert i j x y. induction Hs as [|z l Hs IH Hall]; intros i j x y Hij Hx Hy; [done|].
  destruct j as [|j]; [lia|]. cbn in Hy. destruct i as [|i].
  - injection Hx as <-. rewrite Forall_forall in Hall. apply Hall.
    eapply list_elem_of_lookup_2, Hy.
  - apply (IH i j); [lia|done..].
Qed.

(** A list ordered by position is ordered. *)
Lemma StronglySorted_of_lookup {A} (R : relation A) (l : list A) :
  (forall i j x y, (i < j)%nat -> l !! i = Some x -> l !! j = Some y -> R x y) ->
  StronglySorted R l.
Proof.
  induction l as [|x l IH]; intros H; constructor.
  - apply IH. intros i j y z Hij Hy Hz. apply (H (S i) (S j)); [lia|done..].
  - apply Forall_forall. intros y [j Hj]%list_elem_of_lookup. apply (H 0%nat (S j)); [lia|done..].
Qed.

Lemma take_drop_filter {A} (P : A -> Prop) `{forall x, Decision (P x)} (l : list A) n :
  (forall i x, l !! i = Some x -> P x <-> (n <= i)%nat) -> filter P l = drop n l.
Proof.
  intros Hn. rewrite <- (take_drop n l) at 1. rewrite filter_app.
  rewrite filter_none, filter_id; [done| |]; apply Forall_forall;
    intros x [i Hi]%list_elem_of_lookup.
  - rewrite lookup_drop in Hi. apply (Hn _ _ Hi). lia.
  - apply lookup_take_Some in Hi as [Hi Hlt]. rewrite (Hn _ _ Hi). lia.
Qed.
