(* ===== verification/Env.v ===== *)
(** * The environment of the program

    What the Go code asks of the outside world: the clock ([time.Now]), the
    random source ([crypto/rand]) and the database driver, whose calls may
    fail.  Each is an oracle that the model reads in call order, so a theorem
    that quantifies over the environment covers every behaviour of it. *)

From S2P Require Import Prelude.

Record Env := mkEnv {
  env_clock : nat -> Z;                      (** n-th reading of the clock, in nanoseconds *)
  env_ticks : nat;
  env_rand : nat -> option (list Ascii.ascii); (** n-th block of random bytes, [None] on error *)
  env_draws : nat;
  env_fault : nat -> option string;          (** error of the n-th driver call, if it fails *)
  env_calls : nat
}.

Definition env_tick (e : Env) : Env :=
  mkEnv (env_clock e) (S (env_ticks e)) (env_rand e) (env_draws e) (env_fault e) (env_calls e).
Definition env_draw (e : Env) : Env :=
  mkEnv (env_clock e) (env_ticks e) (env_rand e) (S (env_draws e)) (env_fault e) (env_calls e).
Definition env_call (e : Env) : Env :=
  mkEnv (env_clock e) (env_ticks e) (env_rand e) (env_draws e) (env_fault e) (S (env_calls e)).

(** Durations of package [time], in nanoseconds. *)
Definition Nanosecond : Z := 1.
Definition Millisecond : Z := 1000000.
Definition Second : Z := 1000000000.
Definition Minute : Z := 60 * Second.
Definition Hour : Z := 60 * Minute.

(** [time.Now()]. *)
Definition time_Now : M Env Z := fun e => (env_clock e (env_ticks e), env_tick e).

(** The value SQLite's [datetime('now')] stores: the clock, whole seconds. *)
Definition sql_datetime_now : M Env Z :=
  let! t := time_Now in ret (t / Second * Second)%Z.

(** [time.Time.Sub] saturates at the range of an int64. *)
Definition min_int64 : Z := - 2 ^ 63.
Definition max_int64 : Z := 2 ^ 63 - 1.
Definition time_Sub (t u : Z) : Z := Z.max min_int64 (Z.min max_int64 (t - u)).

(** Two's complement addition on int64. *)
Definition wrap64 (x : Z) : Z := (x + 2 ^ 63) mod 2 ^ 64 - 2 ^ 63.

(** [rand.Read(b)] with [len(b) = n]. *)
Definition rand_Read (n : nat) : M Env (option (list Ascii.ascii)) :=
  fun e => (resize n Ascii.zero <$> env_rand e (env_draws e), env_draw e).

(** ** encoding/hex *)
Definition hex_digit (n : N) : Ascii.ascii :=
  if decide (n < 10)%N then Ascii.ascii_of_N (48 + n) else Ascii.ascii_of_N (87 + n).

(** [hex.EncodeToString]. *)
Fixpoint hex_EncodeToString (b : list Ascii.ascii) : string :=
  match b with
  | [] => EmptyString
  | c :: b' =>
      String (hex_digit (Ascii.N_of_ascii c / 16))
        (String (hex_digit (Ascii.N_of_ascii c mod 16)) (hex_EncodeToString b'))
  end.

(** [fmt.Sprintf("%d", n)]. *)
Definition Itoa (n : Z) : string := pretty n.

(** ** How the environment evolves *)

(** A later environment: the same oracles, read further. *)
Record env_after (e e' : Env) : Prop := mk_env_after {
  after_clock : env_clock e' = env_clock e;
  after_rand : env_rand e' = env_rand e;
  after_fault : env_fault e' = env_fault e;
  after_ticks : (env_ticks e <= env_ticks e')%nat;
  after_draws : (env_draws e <= env_draws e')%nat;
  after_calls : (env_calls e <= env_calls e')%nat
}.

(** Some driver call may fail; otherwise the environment is quiet. *)
Definition faulty (e : Env) : Prop := exists n, env_fault e n <> None.
Definition quiet (e : Env) : Prop := forall n, env_fault e n = None.

(** A concrete environment for examples: a clock that advances one second per
    reading, distinct random blocks, no fault. *)
Definition steady_env : Env :=
  mkEnv (fun n => 1000 * Hour + Z.of_nat n * Second) 0
    (fun n => Some (repeat (Ascii.ascii_of_nat n) 12)) 0 (fun _ => None) 0.

#[export] Instance env_after_preorder : PreOrder env_after.
Proof.
  split.
  - intros e. constructor; lia || done.
  - intros e1 e2 e3 [] []. constructor; congruence || lia.
Qed.

Lemma quiet_not_faulty e : quiet e -> ~ faulty e.
Proof. intros H [n Hn]. by rewrite H in Hn. Qed.

Lemma faulty_before e e' : env_after e e' -> faulty e' -> faulty e.
Proof. intros H [n Hn]. exists n. by rewrite <- (after_fault _ _ H). Qed.

Lemma quiet_after e e' : env_after e e' -> quiet e -> quiet e'.
Proof. intros H Hq n. by rewrite (after_fault _ _ H). Qed.

Lemma env_after_tick e : env_after e (env_tick e).
Proof. constructor; cbn; lia || done. Qed.
Lemma env_after_draw e : env_after e (env_draw e).
Proof. constructor; cbn; lia || done. Qed.
Lemma env_after_call e : env_after e (env_call e).
Proof. constructor; cbn; lia || done. Qed.

(** Chains of environments. *)
Create HintDb env.
#[export] Hint Resolve env_after_tick env_after_draw env_after_call : env.

Ltac solve_env :=
  cbn in *;
  solve [ reflexivity | assumption | auto with env
        | match goal with
          | H : quiet ?e, H' : faulty ?e |- _ => destruct (quiet_not_faulty _ H H')
          | |- env_after _ _ => etransitivity; [eassumption|solve_env]
          | |- faulty _ => eapply faulty_before; [|eassumption]; solve_env
          | |- quiet _ => eapply quiet_after; [|eassumption]; solve_env
          end ].

(** A monadic reading of the environment leaves a later one. *)
Definition reads {A} (m : M Env A) : Prop := forall e, env_after e (m e).2.

Lemma reads_time_Now : reads time_Now.
Proof. intros e. apply env_after_tick. Qed.
Lemma reads_rand_Read n : reads (rand_Read n).
Proof. intros e. apply env_after_draw. Qed.
Lemma reads_ret {A} (a : A) : reads (ret a).
Proof. intros e. reflexivity. Qed.
Lemma reads_bind {A B} (m : M Env A) (k : A -> M Env B) :
  reads m -> (forall a, reads (k a)) -> reads (bind m k).
Proof.
  intros Hm Hk e. unfold bind. specialize (Hm e). destruct (m e) as [a e']. cbn in *.
  etransitivity; [exact Hm|apply Hk].
Qed.
Lemma reads_sql_datetime_now : reads sql_datetime_now.
Proof. apply reads_bind; [apply reads_time_Now|intros; apply reads_ret]. Qed.
#[export] Hint Resolve reads_time_Now reads_rand_Read reads_ret reads_sql_datetime_now : env.

Lemma wrap64_small x : min_int64 <= x <= max_int64 -> wrap64 x = x.
Proof.
  unfold wrap64, min_int64, max_int64. intros H.
  rewrite Z.mod_small by lia. lia.
Qed.

Lemma time_Sub_small t u : min_int64 <= t - u <= max_int64 -> time_Sub t u = t - u.
Proof. unfold time_Sub, min_int64, max_int64. lia. Qed.
