(* ===== verification/Json.v ===== *)
(** * JSON values and the string codec of encoding/json

    The values that event payloads, approval payloads, audit contexts and
    adapter signals carry ([map[string]any] and [json.RawMessage] in the
    code).  A value stands for its text; [json_quote] and [json_unquote] are
    the text codec for strings, needed where the code reads the text itself. *)

From S2P Require Import Prelude Env.

#[warnings="-register-all"]
Inductive json : Type :=
  | JNull
  | JBool (b : bool)
  | JNum (n : Z)
  | JReal (lit : string)   (** a literal with a fraction or an exponent *)
  | JStr (s : string)
  | JArr (l : list json)
  | JObj (fields : list (string * json)).

(** A decoded JSON object, [map[string]any]; keys in the order they are
    marshalled. *)
Abbreviation payload := (list (string * json)).

(** ** Decoding into Go values ([json.Unmarshal])

    Numbers are integers that Go's float64 holds exactly, as far as a value
    passes through an interface. *)

Abbreviation bytes := (list Ascii.ascii).
Definition byte_of (c : Ascii.ascii) : Z := Z.of_N (Ascii.N_of_ascii c).
Definition ascii_of (z : Z) : Ascii.ascii := Ascii.ascii_of_N (Z.to_N z).
Definition chars : string -> bytes := String.list_ascii_of_string.
Definition text : bytes -> string := String.string_of_list_ascii.

(** A [json.RawMessage]: no bytes, a text that is not JSON (with the error it
    gives), or the value of the text. *)
Inductive RawMessage : Type :=
  | RawEmpty
  | RawInvalid (why : string)
  | RawJSON (v : json).

Definition json_kind (v : json) : string :=
  match v with
  | JNull => "null" | JBool _ => "bool" | JNum _ | JReal _ => "number" | JStr _ => "string"
  | JArr _ => "array" | JObj _ => "object"
  end.

Definition fold_ascii (c : Ascii.ascii) : Ascii.ascii :=
  let b := byte_of c in if decide (97 <= b <= 122) then ascii_of (b - 32) else c.

(** Field names match a key up to case; beyond ASCII only the Kelvin sign and
    the long s fold to a letter. *)
Fixpoint fold_name (s : bytes) : bytes :=
  match s with
  | [] => []
  | c :: s1 =>
      match s1 with
      | c1 :: (c2 :: s3) as s2 =>
          if decide (byte_of c = 226 /\ byte_of c1 = 132 /\ byte_of c2 = 170)
          then ascii_of 75 :: fold_name s3
          else if decide (byte_of c = 197 /\ byte_of c1 = 191) then ascii_of 83 :: fold_name s2
          else fold_ascii c :: fold_name s1
      | [c1] =>
          if decide (byte_of c = 197 /\ byte_of c1 = 191) then [ascii_of 83]
          else fold_ascii c :: fold_name s1
      | [] => [fold_ascii c]
      end
  end.

Definition names (key field : string) : bool :=
  bool_decide (fold_name (chars key) = fold_name (chars field)).

(** Assigning a value to a field of a struct; null leaves a string or a number
    as it was. *)
Definition kind_error (kind field go_type : string) : error :=
  ErrNew ("json: cannot unmarshal " +:+ kind +:+ " into Go struct field " +:+ field +:+
          " of type " +:+ go_type).
Definition type_error (v : json) (field go_type : string) : error :=
  kind_error (json_kind v) field go_type.

Definition assign_string (field : string) (v : json) (old : string) : result string :=
  match v with
  | JNull => Ok old
  | JStr s => Ok s
  | _ => Err (type_error v field "string")
  end.

Definition assign_int (field : string) (v : json) (old : Z) : result Z :=
  match v with
  | JNull => Ok old
  | JNum n => if decide (min_int64 <= n <= max_int64) then Ok n
              else Err (kind_error ("number " +:+ Itoa n) field "int")
  | JReal lit => Err (kind_error ("number " +:+ lit) field "int")
  | _ => Err (type_error v field "int")
  end.

Definition assign_bool (field : string) (v : json) (old : bool) : result bool :=
  match v with
  | JNull => Ok old
  | JBool b => Ok b
  | _ => Err (type_error v field "bool")
  end.

(** A decoded map has each key once and is marshalled in key order. *)
Fixpoint insert_member (k : string) (v : json) (p : payload) : payload :=
  match p with
  | [] => [(k, v)]
  | (k', v') :: p' =>
      match String.compare k k' with
      | Lt => (k, v) :: p
      | Eq => (k, v) :: p'
      | Gt => (k', v') :: insert_member k v p'
      end
  end.

Fixpoint decode_any (v : json) : json :=
  match v with
  | JArr l => JArr (map decode_any l)
  | JObj p => JObj (fold_left (fun m kv => insert_member kv.1 kv.2 m)
                      (map (fun kv => (kv.1, decode_any kv.2)) p) [])
  | _ => v
  end.

(** A map field: null is the nil map, an object is added to what is there. *)
Definition assign_map (field : string) (v : json) (old : option payload)
    : result (option payload) :=
  match v with
  | JNull => Ok None
  | JObj p => Ok (Some (fold_left (fun m kv => insert_member kv.1 (decode_any kv.2) m) p
                          (default [] old)))
  | _ => Err (type_error v field "map[string]interface {}")
  end.

(** The members in order; decoding goes on after a type error, and the first
    one is reported. *)
Fixpoint unmarshal_members {A} (assign : string -> json -> A -> result A) (p : payload) (a : A)
    (err : option error) : result A :=
  match p with
  | [] => match err with Some e => Err e | None => Ok a end
  | (k, v) :: p' =>
      match assign k v a with
      | Ok a' => unmarshal_members assign p' a' err
      | Err e => unmarshal_members assign p' a (match err with Some e0 => Some e0 | None => Some e end)
      end
  end.

Definition unmarshal_struct {A} (go_type : string) (assign : string -> json -> A -> result A)
    (zero : A) (raw : RawMessage) : result A :=
  match raw with
  | RawEmpty => Err (ErrNew "unexpected end of JSON input")
  | RawInvalid why => Err (ErrNew why)
  | RawJSON JNull => Ok zero
  | RawJSON (JObj p) => unmarshal_members assign p zero None
  | RawJSON v => Err (ErrNew ("json: cannot unmarshal " +:+ json_kind v +:+
                              " into Go value of type " +:+ go_type))
  end.

(** The value that decoding leaves when its error is ignored. *)
Definition partial_members {A} (assign : string -> json -> A -> result A) (p : payload) (a : A) : A :=
  fold_left (fun a kv => match assign kv.1 kv.2 a with Ok a' => a' | Err _ => a end) p a.
Definition unmarshal_partial {A} (assign : string -> json -> A -> result A) (zero : A)
    (raw : RawMessage) : A :=
  match raw with RawJSON (JObj p) => partial_members assign p zero | _ => zero end.

(** [match fr with Ok x => Ok (set x a) | Err e => Err e end]. *)
Definition set_field {A X} (set : X -> A) (r : result X) : result A :=
  match r with Ok x => Ok (set x) | Err e => Err e end.

(** ** Unicode, as package utf8 decodes it *)

Definition continuation (c : Ascii.ascii) : bool :=
  bool_decide (128 <= byte_of c < 192).

Definition RuneError : Z := 65533.

(** [utf8.DecodeRuneInString]: the rune and the number of bytes; an invalid
    sequence gives [(RuneError, 1)]. *)
Definition utf8_DecodeRune (s : list Ascii.ascii) : Z * nat :=
  match s with
  | [] => (RuneError, 0%nat)
  | c0 :: s1 =>
      let b0 := byte_of c0 in
      if decide (b0 < 128) then (b0, 1%nat)
      else
        match s1 with
        | c1 :: s2 =>
            if decide (194 <= b0 <= 223 /\ continuation c1 = true)
            then ((b0 - 192) * 64 + (byte_of c1 - 128), 2%nat)
            else
              match s2 with
              | c2 :: s3 =>
                  if decide (224 <= b0 <= 239 /\ continuation c1 = true /\
                             continuation c2 = true /\
                             (b0 = 224 -> 160 <= byte_of c1) /\
                             (b0 = 237 -> byte_of c1 <= 159))
                  then ((b0 - 224) * 4096 + (byte_of c1 - 128) * 64
                        + (byte_of c2 - 128), 3%nat)
                  else
                    match s3 with
                    | c3 :: _ =>
                        if decide (240 <= b0 <= 244 /\ continuation c1 = true /\
                                   continuation c2 = true /\ continuation c3 = true /\
                                   (b0 = 240 -> 144 <= byte_of c1) /\
                                   (b0 = 244 -> byte_of c1 <= 143))
                        then ((b0 - 240) * 262144 + (byte_of c1 - 128) * 4096
                              + (byte_of c2 - 128) * 64 + (byte_of c3 - 128), 4%nat)
                        else (RuneError, 1%nat)
                    | [] => (RuneError, 1%nat)
                    end
              | [] => (RuneError, 1%nat)
              end
        | [] => (RuneError, 1%nat)
        end
  end.

(** [utf8.AppendRune] for a valid rune. *)
Definition utf8_EncodeRune (r : Z) : list Ascii.ascii :=
  if decide (r < 128) then [ascii_of r]
  else if decide (r < 2048) then
    [ascii_of (192 + r / 64); ascii_of (128 + r mod 64)]
  else if decide (r < 65536) then
    [ascii_of (224 + r / 4096); ascii_of (128 + r / 64 mod 64); ascii_of (128 + r mod 64)]
  else
    [ascii_of (240 + r / 262144); ascii_of (128 + r / 4096 mod 64);
     ascii_of (128 + r / 64 mod 64); ascii_of (128 + r mod 64)].

(** ** The string encoder ([appendString] with HTML escaping) *)

Definition hex2 (z : Z) : bytes :=
  [hex_digit (Z.to_N (z / 16)); hex_digit (Z.to_N (z mod 16))].

(** One byte below [utf8.RuneSelf]. *)
Definition quote_ascii (c : Ascii.ascii) : bytes :=
  let b := byte_of c in
  if decide (b = 34 \/ b = 92) then chars "\" ++ [c]
  else if decide (b = 8) then chars "\b"
  else if decide (b = 12) then chars "\f"
  else if decide (b = 10) then chars "\n"
  else if decide (b = 13) then chars "\r"
  else if decide (b = 9) then chars "\t"
  else if decide (b < 32 \/ b = 60 \/ b = 62 \/ b = 38) then chars "\u00" ++ hex2 b
  else [c].

Fixpoint quote_bytes (fuel : nat) (s : bytes) : bytes :=
  match fuel, s with
  | S fuel', c :: s' =>
      if decide (byte_of c < 128) then quote_ascii c ++ quote_bytes fuel' s'
      else
        let '(r, n) := utf8_DecodeRune s in
        if decide (r = RuneError /\ n = 1%nat) then chars "\ufffd" ++ quote_bytes fuel' s'
        else if decide (r = 8232 \/ r = 8233) then
          chars "\u202" ++ [hex_digit (Z.to_N (r mod 16))] ++ quote_bytes fuel' (drop n s)
        else take n s ++ quote_bytes fuel' (drop n s)
  | _, _ => []
  end.

Definition dquote : Ascii.ascii := ascii_of 34.

(** [json.Marshal] of a Go string. *)
Definition json_quote (s : string) : string :=
  text (dquote :: quote_bytes (length (chars s)) (chars s) ++ [dquote]).

(** ** The string decoder ([unquote]) *)

Definition unhex (c : Ascii.ascii) : option Z :=
  let b := byte_of c in
  if decide (48 <= b <= 57) then Some (b - 48)
  else if decide (97 <= b <= 102) then Some (b - 87)
  else if decide (65 <= b <= 70) then Some (b - 55)
  else None.

(** [getu4] after the backslash and the u. *)
Definition getu4 (s : bytes) : option (Z * bytes) :=
  match s with
  | a :: b :: c :: d :: s' =>
      x ← unhex a; y ← unhex b; z ← unhex c; w ← unhex d;
      Some (x * 4096 + y * 256 + z * 16 + w, s')
  | _ => None
  end.

Definition unescape (c : Ascii.ascii) : option Ascii.ascii :=
  let b := byte_of c in
  if decide (b = 34 \/ b = 92 \/ b = 47) then Some c
  else if decide (b = 98) then Some (ascii_of 8)
  else if decide (b = 102) then Some (ascii_of 12)
  else if decide (b = 110) then Some (ascii_of 10)
  else if decide (b = 114) then Some (ascii_of 13)
  else if decide (b = 116) then Some (ascii_of 9)
  else None.

(** A \u escape: surrogate pairs are combined, a lone surrogate is replaced. *)
Definition decode_u (r : Z) (s : bytes) : bytes * bytes :=
  if decide (55296 <= r < 57344) then
    match s with
    | e :: u :: s' =>
        if decide (byte_of e = 92 /\ byte_of u = 117) then
          match getu4 s' with
          | Some (r2, s'') =>
              if decide (r < 56320 /\ 56320 <= r2 < 57344)
              then (utf8_EncodeRune ((r - 55296) * 1024 + (r2 - 56320) + 65536), s'')
              else (utf8_EncodeRune RuneError, s)
          | None => (utf8_EncodeRune RuneError, s)
          end
        else (utf8_EncodeRune RuneError, s)
    | _ => (utf8_EncodeRune RuneError, s)
    end
  else (utf8_EncodeRune r, s).

Fixpoint unquote_bytes (fuel : nat) (s : bytes) : option bytes :=
  match fuel, s with
  | S fuel', c :: s' =>
      let b := byte_of c in
      if decide (b = 34) then match s' with [] => Some [] | _ => None end
      else if decide (b < 32) then None
      else if decide (b = 92) then
        match s' with
        | e :: s'' =>
            if decide (byte_of e = 117) then
              '(r, s3) ← getu4 s'';
              let '(out, s4) := decode_u r s3 in
              (fun t => out ++ t) <$> unquote_bytes fuel' s4
            else d ← unescape e; cons d <$> unquote_bytes fuel' s''
        | [] => None
        end
      else if decide (b < 128) then cons c <$> unquote_bytes fuel' s'
      else
        let '(r, n) := utf8_DecodeRune s in
        if decide (r = RuneError /\ n = 1%nat)
        then (fun t => utf8_EncodeRune RuneError ++ t) <$> unquote_bytes fuel' s'
        else (fun t => take n s ++ t) <$> unquote_bytes fuel' (drop n s)
  | _, _ => None
  end.

(** [json.Unmarshal] of a text that is a string literal (no surrounding space)
    into a Go string. *)
Definition json_unquote (t : string) : option string :=
  match chars t with
  | c :: s =>
      if decide (byte_of c = 34) then text <$> unquote_bytes (length s) s else None
  | [] => None
  end.

(** ** The text of a value *)

Fixpoint json_bytes (v : json) : bytes :=
  match v with
  | JNull => chars "null"
  | JBool true => chars "true"
  | JBool false => chars "false"
  | JNum n => chars (Itoa n)
  | JReal lit => chars lit
  | JStr s => chars (json_quote s)
  | JArr [] => chars "[]"
  | JArr (v :: l) =>
      chars "[" ++ json_bytes v ++ foldr (fun v b => chars "," ++ json_bytes v ++ b) (chars "]") l
  | JObj [] => chars "{}"
  | JObj ((k, v) :: p) =>
      chars "{" ++ chars (json_quote k) ++ chars ":" ++ json_bytes v ++
      foldr (fun kv b => chars "," ++ chars (json_quote kv.1) ++ chars ":" ++ json_bytes kv.2 ++ b)
        (chars "}") p
  end.

Definition json_text (v : json) : string := text (json_bytes v).

(** ** The codec on ASCII strings *)

Definition is_ascii (s : string) : Prop := Forall (fun c => byte_of c < 128) (chars s).

Lemma chars_text b : chars (text b) = b.
Proof. apply String.list_ascii_of_string_of_list_ascii. Qed.
Lemma text_chars s : text (chars s) = s.
Proof. apply String.string_of_list_ascii_of_string. Qed.

(** Decoding one encoded ASCII byte: it takes a single step of the decoder. *)
Lemma unquote_quote_ascii c rest fuel :
  byte_of c < 128 ->
  unquote_bytes (S fuel) (quote_ascii c ++ rest) = cons c <$> unquote_bytes fuel rest.
Proof.
  intros Hc.
  destruct c as [[] [] [] [] [] [] [] []]; first [ reflexivity | exfalso; revert Hc; now vm_compute ].
Qed.

Lemma quote_ascii_length c : (1 <= length (quote_ascii c))%nat.
Proof. destruct c as [[] [] [] [] [] [] [] []]; vm_compute; lia. Qed.

Lemma unquote_bytes_fuel f f' s r :
  unquote_bytes f s = Some r -> (f <= f')%nat -> unquote_bytes f' s = Some r.
Proof.
  revert f' s r; induction f as [|f IH]; intros f' s r H Hle; [done|].
  destruct f' as [|f']; [lia|]. destruct s as [|c s]; [done|].
  assert (IH' : forall s r, unquote_bytes f s = Some r -> unquote_bytes f' s = Some r)
    by (intros; eapply IH; eauto; lia).
  assert (IHm : forall (g : bytes -> bytes) s r, g <$> unquote_bytes f s = Some r ->
    g <$> unquote_bytes f' s = Some r).
  { intros g s0 r0 (t & Ht & ->)%fmap_Some. by rewrite (IH' _ _ Ht). }
  cbn [unquote_bytes] in *.
  repeat case_decide; try done; eauto.
  - destruct s as [|e s]; [done|]. case_decide.
    + destruct (getu4 s) as [[u s3]|]; [|done]. cbn in *.
      destruct (decode_u u s3). eauto.
    + destruct (unescape e); [|done]. cbn in *. eauto.
  - destruct (utf8_DecodeRune (c :: s)) as [u n]. case_decide; eauto.
Qed.

Lemma unquote_quote_bytes s :
  Forall (fun c => byte_of c < 128) s ->
  exists fuel, (fuel <= length (quote_bytes (length s) s) + 1)%nat /\
    unquote_bytes fuel (quote_bytes (length s) s ++ [dquote]) = Some s.
Proof.
  induction 1 as [|c s Hc Hs IH].
  - exists 1%nat. split; [cbn; lia|done].
  - destruct IH as (f & Hle & IH). exists (S f).
    cbn [quote_bytes length]. rewrite decide_True by done.
    split.
    + rewrite length_app. pose proof (quote_ascii_length c). lia.
    + rewrite <- (assoc_L (++)), unquote_quote_ascii by done. by rewrite IH.
Qed.

(** Decoding an encoded string gives the string back. *)
Lemma json_unquote_quote s : is_ascii s -> json_unquote (json_quote s) = Some s.
Proof.
  intros Hs. unfold json_unquote, json_quote. rewrite chars_text.
  rewrite decide_True by done.
  destruct (unquote_quote_bytes (chars s) Hs) as (f & Hle & H).
  rewrite (unquote_bytes_fuel f _ _ _ H) by (rewrite length_app; cbn; lia).
  cbn. by rewrite text_chars.
Qed.
