(* ===== verification/GoStrings.v ===== *)
(** * Functions of the packages strings, bytes and utf8

    Texts are lists of bytes.  [strings_ToLower] lowers the ASCII letters and
    the only two characters beyond ASCII whose lower case is ASCII, the Kelvin
    sign and the dotted capital I; the code compares lower-case texts with
    ASCII words only, which the other characters never match. *)

From S2P Require Import Prelude Env Json.

(** ** Searching and replacing *)

(** [strings.HasPrefix(s, p)]. *)
Fixpoint has_prefix (p s : bytes) : bool :=
  match p, s with
  | [], _ => true
  | c :: p', d :: s' => if decide (c = d) then has_prefix p' s' else false
  | _ :: _, [] => false
  end.

(** [strings.Contains(s, p)]. *)
Fixpoint contains (p s : bytes) : bool :=
  has_prefix p s || match s with [] => false | _ :: s' => contains p s' end.

(** [strings.ReplaceAll(s, old, new)] for a nonempty [old]; [fuel] bounds the
    length of [s]. *)
Fixpoint replace_all (fuel : nat) (s old new : bytes) : bytes :=
  match fuel with
  | O => s
  | S fuel' =>
      if has_prefix old s then new ++ replace_all fuel' (drop (length old) s) old new
      else match s with
           | [] => []
           | c :: s' => c :: replace_all fuel' s' old new
           end
  end.

Definition strings_ReplaceAll (s old new : string) : string :=
  text (replace_all (S (length (chars s))) (chars s) (chars old) (chars new)).

Definition lower_ascii (c : Ascii.ascii) : Ascii.ascii :=
  let b := byte_of c in if decide (65 <= b <= 90) then ascii_of (b + 32) else c.

Fixpoint lower_bytes (s : bytes) : bytes :=
  match s with
  | [] => []
  | c :: s1 =>
      match s1 with
      | c1 :: (c2 :: s3) as s2 =>
          if decide (byte_of c = 226 /\ byte_of c1 = 132 /\ byte_of c2 = 170)
          then ascii_of 107 :: lower_bytes s3
          else if decide (byte_of c = 196 /\ byte_of c1 = 176)
          then ascii_of 105 :: lower_bytes s2
          else lower_ascii c :: lower_bytes s1
      | [c1] =>
          if decide (byte_of c = 196 /\ byte_of c1 = 176) then [ascii_of 105]
          else lower_ascii c :: lower_bytes s1
      | [] => [lower_ascii c]
      end
  end.

Definition strings_ToLower (s : string) : string := text (lower_bytes (chars s)).

Lemma has_prefix_spec p s : has_prefix p s = true <-> p `prefix_of` s.
Proof.
  revert s. induction p as [|c p IH]; intros s; cbn.
  - split; [intros _; apply prefix_nil|done].
  - destruct s as [|d s]; [split; [done|by intros [l Hl]]|].
    case_decide as Hc.
    + subst d. rewrite IH. split; [apply prefix_cons|apply prefix_cons_inv_2].
    + split; [done|]. by intros ?%prefix_cons_inv_1.
Qed.

Lemma contains_spec p s : contains p s = true <-> exists l1 l2, s = l1 ++ p ++ l2.
Proof.
  induction s as [|c s IH]; cbn; rewrite orb_true_iff, has_prefix_spec.
  - split.
    + intros [[l Hl]|]; [|done]. exists [], l. done.
    + intros (l1 & l2 & Hl). left. symmetry in Hl. apply app_eq_nil in Hl as [_ Hl].
      exists l2. done.
  - rewrite IH. split.
    + intros [[l Hl]|(l1 & l2 & ->)]; [by exists [], l|by exists (c :: l1), l2].
    + intros ([|x l1] & l2 & Hl); [left; by exists l2|]. injection Hl as -> ->. right. eauto.
Qed.

Lemma contains_nil p : p <> [] -> contains p [] = false.
Proof. by destruct p. Qed.

Lemma contains_drop p n s : contains p s = false -> contains p (drop n s) = false.
Proof.
  intros H. apply not_true_is_false. rewrite contains_spec. intros (l1 & l2 & Hl).
  rewrite <- not_true_iff_false, contains_spec in H. apply H. exists (take n s ++ l1), l2.
  by rewrite <- (assoc_L (++)), <- Hl, take_drop.
Qed.

Lemma length_chars s : length (chars s) = String.length s.
Proof. induction s; cbn; [done|by f_equal]. Qed.

Definition strings_HasPrefix (s p : string) : bool := has_prefix (chars p) (chars s).
Definition strings_Contains (s p : string) : bool := contains (chars p) (chars s).

(** [strings.HasSuffix(s, p)] and [strings.TrimPrefix(s, p)]. *)
Definition has_suffix (p s : bytes) : bool := has_prefix (rev p) (rev s).
Definition trim_prefix (p s : bytes) : bytes :=
  if has_prefix p s then drop (length p) s else s.

(** ** Splitting and joining *)

(** [bytes.Split(s, []byte{sep})]. *)
Fixpoint split_byte (sep : Ascii.ascii) (s : bytes) : list bytes :=
  match s with
  | [] => [[]]
  | c :: s' =>
      if decide (c = sep) then [] :: split_byte sep s'
      else match split_byte sep s' with
           | [] => [[c]]
           | l :: ls => (c :: l) :: ls
           end
  end.

(** [strings.Join(l, sep)]. *)
Fixpoint join (sep : bytes) (l : list bytes) : bytes :=
  match l with
  | [] => []
  | [s] => s
  | s :: l' => s ++ sep ++ join sep l'
  end.

Definition newline : Ascii.ascii := ascii_of 10.

(** JSON texts of the examples are written with single quotes. *)
Definition dq (s : string) : string :=
  text (map (fun c => if decide (byte_of c = 39) then ascii_of 34 else c) (chars s)).

(** [bufio.Scanner] with [bufio.ScanLines], given the segments between line
    breaks: a line that fills the buffer of [max] bytes without its line break
    ends the scan, and an empty last segment is no line. *)
Definition dropCR (l : bytes) : bytes :=
  if has_suffix [ascii_of 13] l then take (length l - 1) l else l.
Fixpoint scan_lines (max : Z) (segments : list bytes) : list bytes :=
  match segments with
  | [] => []
  | [l] => if decide (l = [] \/ max <= Z.of_nat (length l)) then [] else [dropCR l]
  | l :: ls =>
      if decide (max <= Z.of_nat (length l)) then [] else dropCR l :: scan_lines max ls
  end.

(** ** Trimming white space *)

(** [unicode.IsSpace]. *)
Definition unicode_IsSpace (r : Z) : bool :=
  bool_decide (9 <= r <= 13 \/ r = 32 \/ r = 133 \/ r = 160 \/ r = 5760 \/
               8192 <= r <= 8202 \/ r = 8232 \/ r = 8233 \/ r = 8239 \/ r = 8287 \/ r = 12288).

(** The length of the white space character a text starts with, or zero. *)
Definition leading_space (s : bytes) : nat :=
  let '(r, n) := utf8_DecodeRune s in if unicode_IsSpace r then n else 0%nat.

Fixpoint trim_left (fuel : nat) (s : bytes) : bytes :=
  match fuel, leading_space s with
  | S fuel', S n => trim_left fuel' (drop (S n) s)
  | _, _ => s
  end.

(** The length of the white space character a text ends with: no space is
    longer than three bytes, and its encoding is the last rune when it is a
    suffix of the text. *)
Definition is_space (s : bytes) : bool :=
  negb (leading_space s =? 0)%nat && (leading_space s =? length s)%nat.
Definition last_bytes (n : nat) (s : bytes) : bytes := drop (length s - n) s.
Definition trailing_space (s : bytes) : nat :=
  default 0%nat (snd <$> list_find (fun n => is_space (last_bytes n s) = true) [1; 2; 3]%nat).

Fixpoint trim_right (fuel : nat) (s : bytes) : bytes :=
  match fuel, trailing_space s with
  | S fuel', S n => trim_right fuel' (take (length s - S n) s)
  | _, _ => s
  end.

(** [bytes.TrimSpace] and [strings.TrimSpace]. *)
Definition trim_space (s : bytes) : bytes :=
  let s' := trim_left (length s) s in trim_right (length s') s'.
Definition strings_TrimSpace (s : string) : string := text (trim_space (chars s)).

(** ** Valid UTF-8 *)

Fixpoint utf8_valid (fuel : nat) (s : bytes) : bool :=
  match fuel, s with
  | _, [] => true
  | O, _ => false
  | S fuel', _ =>
      let '(r, n) := utf8_DecodeRune s in
      if decide (r = RuneError /\ n = 1%nat) then false else utf8_valid fuel' (drop n s)
  end.

(** [utf8.ValidString]. *)
Definition utf8_ValidString (s : string) : bool := utf8_valid (length (chars s)) (chars s).

(** What a string is after [json.Marshal] and [json.Unmarshal]: each invalid
    byte becomes U+FFFD. *)
Fixpoint utf8_coerce (fuel : nat) (s : bytes) : bytes :=
  match fuel, s with
  | S fuel', c :: s' =>
      let '(r, n) := utf8_DecodeRune s in
      if decide (r = RuneError /\ n = 1%nat) then utf8_EncodeRune RuneError ++ utf8_coerce fuel' s'
      else take n s ++ utf8_coerce fuel' (drop n s)
  | _, _ => []
  end.
Definition strings_coerce (s : string) : string :=
  text (utf8_coerce (length (chars s)) (chars s)).

(** ** Quoting (the verb %q)

    A rune beyond ASCII is taken as printable unless it is a control, a space
    or the soft hyphen. *)

Definition hex_byte (c : Ascii.ascii) : bytes :=
  let n := Ascii.N_of_ascii c in
  [ascii_of 92; ascii_of 120; hex_digit (n / 16); hex_digit (n mod 16)].
Fixpoint hex_width (n : nat) (z : N) : bytes :=
  match n with O => [] | S m => hex_width m (z / 16) ++ [hex_digit (z mod 16)] end.

Definition unicode_IsPrint (r : Z) : bool :=
  bool_decide (160 < r) && negb (bool_decide (r = 173)) && negb (unicode_IsSpace r).

Definition quote_escape (b : Z) : option Z :=
  if decide (b = 34 \/ b = 92) then Some b
  else if decide (b = 7) then Some 97 else if decide (b = 8) then Some 98
  else if decide (b = 12) then Some 102 else if decide (b = 10) then Some 110
  else if decide (b = 13) then Some 114 else if decide (b = 9) then Some 116
  else if decide (b = 11) then Some 118 else None.

Fixpoint strconv_quote (fuel : nat) (s : bytes) : bytes :=
  match fuel, s with
  | S f, c :: s' =>
      let b := byte_of c in
      if decide (b < 128) then
        (match quote_escape b with
         | Some e => [ascii_of 92; ascii_of e]
         | None => if decide (32 <= b < 127) then [c] else hex_byte c
         end) ++ strconv_quote f s'
      else
        let '(r, n) := utf8_DecodeRune s in
        (if decide (n = 1%nat) then hex_byte c
         else if unicode_IsPrint r then take n s
         else if decide (r < 65536) then [ascii_of 92; ascii_of 117] ++ hex_width 4 (Z.to_N r)
         else [ascii_of 92; ascii_of 85] ++ hex_width 8 (Z.to_N r)) ++ strconv_quote f (drop n s)
  | _, _ => []
  end.
Definition strconv_Quote (s : string) : string :=
  text (ascii_of 34 :: strconv_quote (length (chars s)) (chars s) ++ [ascii_of 34]).

Example quote_sample :
  strconv_Quote (dq "a'b" +:+ text [newline; ascii_of 127; ascii_of 255; ascii_of 195; ascii_of 169]) =
  text (ascii_of 34 :: chars "a\" ++ ascii_of 34 :: chars "b\n\x7f\xff" ++
        [ascii_of 195; ascii_of 169; ascii_of 34]).
Proof. vm_compute. reflexivity. Qed.

(** ** Facts *)

Lemma split_byte_ne sep s : split_byte sep s <> [].
Proof. destruct s as [|c s]; cbn; [done|]. case_decide; [done|]. by destruct (split_byte sep s). Qed.

(** Joining the parts with the separator gives the text back. *)
Lemma join_split_byte sep s : join [sep] (split_byte sep s) = s.
Proof.
  induction s as [|c s IH]; [done|]. cbn. case_decide as Hc.
  - subst c. cbn. destruct (split_byte sep s) as [|l ls] eqn:E; [by destruct (split_byte_ne sep s)|].
    by rewrite IH.
  - destruct (split_byte sep s) as [|l ls] eqn:E; [by destruct (split_byte_ne sep s)|].
    rewrite <- IH. by destruct ls.
Qed.

(** No part contains the separator. *)
Lemma split_byte_free sep s : Forall (fun l => sep ∉ l) (split_byte sep s).
Proof.
  induction s as [|c s IH]; cbn; [repeat constructor; apply not_elem_of_nil|].
  case_decide as Hc; [constructor; [apply not_elem_of_nil|done]|].
  destruct IH as [|l ls Hl Hls]; constructor; rewrite ?elem_of_cons; try done.
  - intros [->|H]; [done|by apply not_elem_of_nil in H].
  - intros [->|H]; [done|by apply Hl].
Qed.

Lemma split_byte_app sep s t : sep ∉ s ->
  split_byte sep (s ++ sep :: t) = s :: split_byte sep t.
Proof.
  induction s as [|c s IH]; cbn; intros Hs; [by rewrite decide_True|].
  rewrite not_elem_of_cons in Hs. destruct Hs as [Hc Hs].
  rewrite decide_False by congruence. by rewrite IH.
Qed.

Lemma split_byte_none sep s : sep ∉ s -> split_byte sep s = [s].
Proof.
  induction s as [|c s IH]; cbn; intros Hs; [done|].
  rewrite not_elem_of_cons in Hs. destruct Hs as [Hc Hs].
  rewrite decide_False by congruence. by rewrite IH.
Qed.

(** Appending text continues the last part. *)
Lemma split_byte_concat sep s t :
  exists init last rest ls, split_byte sep s = init ++ [last] /\
    split_byte sep t = rest :: ls /\ split_byte sep (s ++ t) = init ++ (last ++ rest) :: ls.
Proof.
  destruct (split_byte sep t) as [|rest ls] eqn:Et; [by destruct (split_byte_ne sep t)|].
  induction s as [|c s (init & last & rest' & ls' & H1 & [= <- <-] & H3)]; cbn.
  - exists [], [], rest, ls. by rewrite Et.
  - rewrite H1, H3. case_decide.
    + exists ([] :: init), last, rest, ls. done.
    + destruct init as [|x init]; cbn.
      * exists [], (c :: last), rest, ls. done.
      * exists ((c :: x) :: init), last, rest, ls. done.
Qed.

Lemma length_text b : String.length (text b) = length b.
Proof. by rewrite <- length_chars, chars_text. Qed.

Lemma utf8_DecodeRune_pos s r n : utf8_DecodeRune s = (r, n) -> s <> [] -> (1 <= n <= length s)%nat.
Proof.
  unfold utf8_DecodeRune. intros H Hs.
  repeat case_match; simplify_eq; cbn [length]; lia || done.
Qed.

(** *** White space *)

Lemma ascii_of_byte_of c : ascii_of (byte_of c) = c.
Proof. unfold ascii_of, byte_of. by rewrite N2Z.id, Ascii.ascii_N_embedding. Qed.

Lemma byte_of_range c : 0 <= byte_of c < 256.
Proof. unfold byte_of. pose proof (Ascii.N_ascii_bounded c). lia. Qed.

(** A decoded character beyond ASCII: its bytes are all beyond ASCII. *)
Lemma utf8_DecodeRune_high c s r n :
  utf8_DecodeRune (c :: s) = (r, n) -> 128 <= byte_of c -> ~ (r = RuneError /\ n = 1%nat) ->
  Forall (fun c => 128 <= byte_of c) (take n (c :: s)) /\
  (forall t, utf8_DecodeRune (take n (c :: s) ++ t) = (r, n)) /\
  (1 <= n <= length (c :: s))%nat /\
  (r = 8232 \/ r = 8233 -> take n (c :: s) = utf8_EncodeRune r).
Proof.
  intros H Hc Hne. unfold utf8_DecodeRune in H. rewrite decide_False in H by lia.
  destruct s as [|c1 s]; [injection H as <- <-; by destruct Hne|].
  destruct (decide (194 <= byte_of c <= 223 /\ continuation c1 = true)) as [H2|H2].
  { injection H as <- <-. destruct H2 as [Hr Hc1]. pose proof Hc1 as [? ?]%bool_decide_eq_true.
    cbn [take]. split; [by repeat constructor; lia|]. split; [|split; [cbn; lia|lia]].
    intros t. cbn [app]. unfold utf8_DecodeRune. rewrite decide_False by lia.
    by rewrite decide_True. }
  destruct s as [|c2 s]; [injection H as <- <-; by destruct Hne|].
  destruct (decide (224 <= byte_of c <= 239 /\ _)) as [H3|H3].
  { injection H as <- <-. pose proof H3 as (Hr & Hc1 & Hc2 & _).
    pose proof Hc1 as [? ?]%bool_decide_eq_true. pose proof Hc2 as [? ?]%bool_decide_eq_true.
    cbn [take]. split; [by repeat constructor; lia|]. split; [|split; [cbn; lia|]].
    - intros t. cbn [app]. unfold utf8_DecodeRune. rewrite decide_False by lia.
      rewrite decide_False by done. by rewrite decide_True.
    - intros Hv. assert (byte_of c = 226 /\ byte_of c1 = 128) as [E0 E1] by lia.
      assert (E2 : byte_of c2 = 168 \/ byte_of c2 = 169) by lia.
      rewrite <- (ascii_of_byte_of c), <- (ascii_of_byte_of c1), <- (ascii_of_byte_of c2), E0, E1.
      by destruct E2 as [-> | ->]. }
  destruct s as [|c3 s]; [injection H as <- <-; by destruct Hne|].
  destruct (decide (240 <= byte_of c <= 244 /\ _)) as [H4|H4];
    [|injection H as <- <-; by destruct Hne].
  injection H as <- <-. pose proof H4 as (Hr & Hc1 & Hc2 & Hc3 & _ & _).
  pose proof Hc1 as [? ?]%bool_decide_eq_true. pose proof Hc2 as [? ?]%bool_decide_eq_true.
  pose proof Hc3 as [? ?]%bool_decide_eq_true.
  cbn [take]. split; [by repeat constructor; lia|]. split; [|split; [cbn; lia|]].
  - intros t. cbn [app]. unfold utf8_DecodeRune. rewrite decide_False by lia.
    rewrite decide_False by done. rewrite decide_False by done. by rewrite decide_True.
  - lia.
Qed.

(** Appending to a text does not change a character it starts with. *)
Lemma utf8_DecodeRune_app s t r n :
  utf8_DecodeRune s = (r, n) -> s <> [] -> ~ (r = RuneError /\ n = 1%nat) ->
  utf8_DecodeRune (s ++ t) = (r, n).
Proof.
  destruct s as [|c s]; [done|]. intros H _ Hne.
  destruct (decide (byte_of c < 128)) as [Hc|Hc].
  - unfold utf8_DecodeRune in *. cbn [app]. rewrite decide_True in H by done.
    by rewrite decide_True.
  - destruct (utf8_DecodeRune_high c s r n H) as (_ & Ht & _); [lia|done|].
    rewrite <- (take_drop n (c :: s)), <- (assoc_L (++)) at 1. apply Ht.
Qed.

Lemma unicode_IsSpace_RuneError : unicode_IsSpace RuneError = false.
Proof. reflexivity. Qed.

Lemma leading_space_app s t : leading_space s <> 0%nat -> leading_space (s ++ t) = leading_space s.
Proof.
  unfold leading_space. destruct (utf8_DecodeRune s) as [r n] eqn:E.
  destruct (unicode_IsSpace r) eqn:Hs; [|done]. intros Hn.
  rewrite (utf8_DecodeRune_app s t r n E), Hs; [done| |].
  - intros ->. cbn in E. by injection E as <- <-.
  - intros [-> _]. by rewrite unicode_IsSpace_RuneError in Hs.
Qed.

Lemma leading_space_length s : (leading_space s <= length s)%nat.
Proof.
  unfold leading_space. destruct (utf8_DecodeRune s) as [r n] eqn:E.
  destruct (unicode_IsSpace r); [|lia]. destruct s as [|c s]; [cbn in E; by injection E as <- <-|].
  pose proof (utf8_DecodeRune_pos _ _ _ E ltac:(done)). lia.
Qed.

(** The bytes of a white space character: an ASCII one, or all beyond ASCII. *)
Lemma is_space_bytes s : is_space s = true ->
  (exists c, s = [c] /\ (9 <= byte_of c <= 13 \/ byte_of c = 32)) \/
  Forall (fun c => 128 <= byte_of c) s.
Proof.
  unfold is_space, leading_space. intros H. apply andb_true_iff in H as [H1 H2].
  apply negb_true_iff, Nat.eqb_neq in H1. apply Nat.eqb_eq in H2.
  destruct s as [|c s]; [done|]. destruct (utf8_DecodeRune (c :: s)) as [r n] eqn:E.
  destruct (unicode_IsSpace r) eqn:Hs; [|done]. subst n.
  destruct (decide (byte_of c < 128)) as [Hc|Hc].
  - left. exists c. unfold utf8_DecodeRune in E. rewrite decide_True in E by done.
    injection E as <- Hn. cbn in Hn. destruct s; [|done]. split; [done|].
    apply bool_decide_eq_true in Hs. lia.
  - right. destruct (utf8_DecodeRune_high c s r _ E) as (HF & _); [lia| |].
    + intros [-> _]. by rewrite unicode_IsSpace_RuneError in Hs.
    + by rewrite firstn_all in HF.
Qed.

(** A text that starts and ends with a visible ASCII character is trimmed. *)
Lemma trim_space_id s c d s1 s2 :
  s = c :: s1 -> s = s2 ++ [d] -> 32 < byte_of c < 128 -> 32 < byte_of d < 128 ->
  trim_space s = s.
Proof.
  intros H1 H2 Hc Hd.
  assert (Hl : leading_space s = 0%nat).
  { rewrite H1. unfold leading_space, utf8_DecodeRune. rewrite decide_True by lia.
    destruct (unicode_IsSpace (byte_of c)) eqn:E; [|done]. apply bool_decide_eq_true in E. lia. }
  assert (Ht : trailing_space s = 0%nat).
  { unfold trailing_space. destruct (list_find _ _) as [[i n]|] eqn:E; [|done]. exfalso.
    apply list_find_Some in E as (Hi & Hsp & _). apply list_elem_of_lookup_2 in Hi.
    assert (Hn : (1 <= n)%nat) by (set_unfold in Hi; lia). clear Hi.
    assert (Hlast : exists t, last_bytes n s = t ++ [d]).
    { unfold last_bytes. rewrite H2, length_app, drop_app_le by (cbn; lia). eauto. }
    destruct Hlast as [t Et]. rewrite Et in Hsp.
    apply is_space_bytes in Hsp as [(x & Hx & Hr)|HF].
    - destruct t as [|y t]; [injection Hx as <-; lia|]. by destruct t.
    - apply Forall_app in HF as [_ HF]. inversion HF. lia. }
  assert (Hleft : trim_left (length s) s = s) by (rewrite H1 at 1; cbn [length trim_left]; by rewrite Hl).
  unfold trim_space. rewrite Hleft. rewrite H1 at 1. cbn [length trim_right]. by rewrite Ht.
Qed.
