(* ===== verification/JsonText.v ===== *)
(** * JSON texts: the scanner of encoding/json

    [json_parse] reads_back a text as [json.Unmarshal] does: the grammar of the
    scanner (white space, literals, numbers, strings with their escapes, the
    nesting limit), then the decoding of string literals.  The code reads_back text
    where it parses the output of an agent and answers on pipes and sockets.
    A text produced by [json_text] is read back as the value it was. *)

From S2P Require Import Prelude Env Json GoStrings.

Definition is_json_space (c : Ascii.ascii) : bool :=
  let b := byte_of c in bool_decide (b = 32 \/ b = 9 \/ b = 13 \/ b = 10).
Definition is_digit (c : Ascii.ascii) : bool := bool_decide (48 <= byte_of c <= 57).

Fixpoint skip_space (s : bytes) : bytes :=
  match s with
  | c :: s' => if is_json_space c then skip_space s' else s
  | [] => []
  end.

(** Strip a literal off the front. *)
Definition expect (lit : bytes) (s : bytes) : option bytes :=
  if has_prefix lit s then Some (drop (length lit) s) else None.

(** ** String literals

    The text between the quotes (escapes kept) and what follows. *)
Fixpoint scan_string (s : bytes) : option (bytes * bytes) :=
  match s with
  | [] => None
  | c :: s1 =>
      let b := byte_of c in
      if decide (b = 34) then Some ([], s1)
      else if decide (b < 32) then None
      else if decide (b = 92) then
        match s1 with
        | e :: s2 =>
            if decide (byte_of e = 117) then
              match s2 with
              | h1 :: h2 :: h3 :: h4 :: s3 =>
                  if bool_decide (Forall (fun h => unhex h <> None) [h1; h2; h3; h4])
                  then (fun x => (c :: e :: h1 :: h2 :: h3 :: h4 :: x.1, x.2)) <$> scan_string s3
                  else None
              | _ => None
              end
            else if decide (unescape e = None) then None
            else (fun x => (c :: e :: x.1, x.2)) <$> scan_string s2
        | [] => None
        end
      else (fun x => (c :: x.1, x.2)) <$> scan_string s1
  end.

Definition parse_string (s : bytes) : option (string * bytes) :=
  '(lit, rest) ← scan_string s;
  v ← unquote_bytes (S (length lit)) (lit ++ [dquote]);
  Some (text v, rest).

(** ** Numbers *)

Fixpoint scan_digits (s : bytes) : bytes * bytes :=
  match s with
  | c :: s' => if is_digit c then let '(d, rest) := scan_digits s' in (c :: d, rest) else ([], s)
  | [] => ([], [])
  end.

(** [0], or digits that do not start with 0. *)
Definition scan_int (s : bytes) : option (bytes * bytes) :=
  match s with
  | c :: s' =>
      if decide (byte_of c = 48) then Some ([c], s')
      else if is_digit c then Some (scan_digits s) else None
  | [] => None
  end.

Definition scan_frac (s : bytes) : option (bytes * bytes) :=
  match s with
  | c :: s' =>
      if decide (byte_of c = 46) then
        match scan_digits s' with
        | ([], _) => None
        | (d, rest) => Some (c :: d, rest)
        end
      else Some ([], s)
  | [] => Some ([], s)
  end.

Definition scan_exp (s : bytes) : option (bytes * bytes) :=
  match s with
  | c :: s' =>
      if decide (byte_of c = 101 \/ byte_of c = 69) then
        let '(sign, s2) := match s' with
                           | d :: s2 => if decide (byte_of d = 43 \/ byte_of d = 45)
                                        then ([d], s2) else ([], s')
                           | [] => ([], s')
                           end in
        match scan_digits s2 with
        | ([], _) => None
        | (d, rest) => Some (c :: sign ++ d, rest)
        end
      else Some ([], s)
  | [] => Some ([], s)
  end.

Definition digits_value (d : bytes) : Z :=
  fold_left (fun n c => n * 10 + (byte_of c - 48)) d 0.

Definition parse_number (s : bytes) : option (json * bytes) :=
  let '(neg, s1) := match s with
                    | c :: s1 => if decide (byte_of c = 45) then ([c], s1) else ([], s)
                    | [] => ([], s)
                    end in
  '(int, s2) ← scan_int s1;
  '(frac, s3) ← scan_frac s2;
  '(exp, s4) ← scan_exp s3;
  Some (match frac ++ exp with
        | [] => JNum (match neg with [] => digits_value int | _ => - digits_value int end)
        | _ => JReal (text (neg ++ int ++ frac ++ exp))
        end, s4).

(** ** Values

    [maxNestingDepth] of the scanner. *)
Definition maxNestingDepth : Z := 10000.

(** [depth] counts the containers entered so far.  After an element comes a
    comma and the next one, or the closing bracket. *)
Fixpoint parse_value (fuel : nat) (depth : Z) (s : bytes) : option (json * bytes) :=
  match fuel with
  | O => None
  | S f =>
      match skip_space s with
      | [] => None
      | c :: s' =>
          let b := byte_of c in
          if decide (b = 123) then
            if decide (maxNestingDepth <= depth) then None
            else match skip_space s' with
                 | d :: s2 =>
                     if decide (byte_of d = 125) then Some (JObj [], s2)
                     else '(p, rest) ← parse_members f (depth + 1) s'; Some (JObj p, rest)
                 | [] => None
                 end
          else if decide (b = 91) then
            if decide (maxNestingDepth <= depth) then None
            else match skip_space s' with
                 | d :: s2 =>
                     if decide (byte_of d = 93) then Some (JArr [], s2)
                     else '(l, rest) ← parse_elems f (depth + 1) s'; Some (JArr l, rest)
                 | [] => None
                 end
          else if decide (b = 34) then '(v, rest) ← parse_string s'; Some (JStr v, rest)
          else if decide (b = 116) then (fun r => (JBool true, r)) <$> expect (chars "rue") s'
          else if decide (b = 102) then (fun r => (JBool false, r)) <$> expect (chars "alse") s'
          else if decide (b = 110) then (fun r => (JNull, r)) <$> expect (chars "ull") s'
          else parse_number (c :: s')
      end
  end
with parse_elems (fuel : nat) (depth : Z) (s : bytes) : option (list json * bytes) :=
  match fuel with
  | O => None
  | S f =>
      '(v, s1) ← parse_value f depth s;
      match skip_space s1 with
      | c :: s2 =>
          if decide (byte_of c = 44) then '(l, rest) ← parse_elems f depth s2; Some (v :: l, rest)
          else if decide (byte_of c = 93) then Some ([v], s2)
          else None
      | [] => None
      end
  end
with parse_members (fuel : nat) (depth : Z) (s : bytes) : option (payload * bytes) :=
  match fuel with
  | O => None
  | S f =>
      match skip_space s with
      | q :: s0 =>
          if decide (byte_of q = 34) then
            '(k, s1) ← parse_string s0;
            match skip_space s1 with
            | c :: s2 =>
                if decide (byte_of c = 58) then
                  '(v, s3) ← parse_value f depth s2;
                  match skip_space s3 with
                  | e :: s4 =>
                      if decide (byte_of e = 44)
                      then '(p, rest) ← parse_members f depth s4; Some ((k, v) :: p, rest)
                      else if decide (byte_of e = 125) then Some ([(k, v)], s4)
                      else None
                  | [] => None
                  end
                else None
            | [] => None
            end
          else None
      | [] => None
      end
  end.

(** The whole text is one value. *)
Definition json_parse_bytes (s : bytes) : option json :=
  '(v, rest) ← parse_value (2 * length s + 2) 0 s;
  match skip_space rest with [] => Some v | _ => None end.
Definition json_parse (s : string) : option json := json_parse_bytes (chars s).

(** The [RawMessage] that [json.Unmarshal] is given. *)
Definition json_raw (s : string) : RawMessage :=
  match chars s with
  | [] => RawEmpty
  | _ => match json_parse s with Some v => RawJSON v | None => RawInvalid "invalid character" end
  end.

Example parse_sample :
  json_parse (dq " {'a': [1, -20, 3.5e2, true], 'b\n': {}, 'c': null} ") =
  Some (JObj [("a", JArr [JNum 1; JNum (-20); JReal "3.5e2"; JBool true]);
              (text [ascii_of 98; newline], JObj []); ("c", JNull)]).
Proof. vm_compute. reflexivity. Qed.

(** ** Round trip of string literals *)

Lemma scan_string_plain c s :
  34 <> byte_of c -> 92 <> byte_of c -> 32 <= byte_of c ->
  scan_string (c :: s) = (fun x => (c :: x.1, x.2)) <$> scan_string s.
Proof. intros. cbn [scan_string]. rewrite !decide_False by lia. done. Qed.

Lemma scan_string_quote_ascii c s :
  byte_of c < 128 ->
  scan_string (quote_ascii c ++ s) = (fun x => (quote_ascii c ++ x.1, x.2)) <$> scan_string s.
Proof.
  intros Hc.
  destruct c as [[] [] [] [] [] [] [] []];
    first [ exfalso; revert Hc; now vm_compute
          | reflexivity ].
Qed.

Lemma scan_string_high b s : Forall (fun c => 128 <= byte_of c) b ->
  scan_string (b ++ s) = (fun x => (b ++ x.1, x.2)) <$> scan_string s.
Proof.
  induction 1 as [|c b Hc _ IH]; [cbn [app]; by destruct (scan_string s) as [[]|]|].
  cbn [app]. rewrite scan_string_plain, IH by lia. by destruct (scan_string s) as [[]|].
Qed.

(** One character of a text, as the encoder and the decoder step over it. *)
Inductive next_char : bytes -> bytes -> bytes -> bytes -> Prop :=
  | next_ascii c s : byte_of c < 128 -> next_char (c :: s) s (quote_ascii c) [c]
  | next_invalid c s : 128 <= byte_of c ->
      next_char (c :: s) s (chars "\ufffd") (utf8_EncodeRune RuneError)
  | next_separator c s r n : 128 <= byte_of c -> utf8_DecodeRune (c :: s) = (r, n) ->
      r = 8232 \/ r = 8233 -> take n (c :: s) = utf8_EncodeRune r ->
      next_char (c :: s) (drop n (c :: s)) (chars "\u202" ++ [hex_digit (Z.to_N (r mod 16))])
        (utf8_EncodeRune r)
  | next_rune c s r n : 128 <= byte_of c -> utf8_DecodeRune (c :: s) = (r, n) ->
      Forall (fun c => 128 <= byte_of c) (take n (c :: s)) ->
      (forall t, utf8_DecodeRune (take n (c :: s) ++ t) = (r, n)) ->
      ~ (r = RuneError /\ n = 1%nat) -> (1 <= n <= length (c :: s))%nat ->
      next_char (c :: s) (drop n (c :: s)) (take n (c :: s)) (take n (c :: s)).

Lemma quote_bytes_step c s :
  exists s' q v, next_char (c :: s) s' q v /\ (length s' <= length s)%nat /\
    (forall f, quote_bytes (S f) (c :: s) = q ++ quote_bytes f s') /\
    (forall f, utf8_coerce (S f) (c :: s) = v ++ utf8_coerce f s').
Proof.
  destruct (decide (byte_of c < 128)) as [Hc|Hc].
  { exists s, (quote_ascii c), [c]. split; [by constructor|]. split; [done|].
    split; intros f; cbn; [by rewrite decide_True|].
    rewrite decide_True by done. rewrite decide_False; [done|].
    unfold RuneError. lia. }
  destruct (utf8_DecodeRune (c :: s)) as [r n] eqn:E.
  destruct (decide (r = RuneError /\ n = 1%nat)) as [Hr|Hr].
  { exists s, (chars "\ufffd"), (utf8_EncodeRune RuneError). split; [by constructor; lia|].
    split; [done|]. split; intros f; cbn [quote_bytes utf8_coerce].
    - rewrite decide_False by done. by rewrite E, decide_True.
    - by rewrite E, decide_True. }
  destruct (utf8_DecodeRune_high c s r n E) as (Hh & Ht & Hn & Hsep); [lia|done|].
  assert (Hl : (length (drop n (c :: s)) <= length s)%nat) by (rewrite length_drop; cbn in *; lia).
  assert (Hcoerce : forall f, utf8_coerce (S f) (c :: s) =
    take n (c :: s) ++ utf8_coerce f (drop n (c :: s))).
  { intros f. cbn [utf8_coerce]. by rewrite E, decide_False. }
  destruct (decide (r = 8232 \/ r = 8233)) as [Hs|Hs].
  - exists (drop n (c :: s)), (chars "\u202" ++ [hex_digit (Z.to_N (r mod 16))]),
      (utf8_EncodeRune r). split; [apply (next_separator c s r n); auto; lia|]. split; [done|].
    rewrite <- (Hsep Hs). split; [|done]. intros f. cbn [quote_bytes].
    rewrite decide_False by lia. rewrite E, decide_False, decide_True by done.
    by rewrite <- (assoc_L (++)).
  - exists (drop n (c :: s)), (take n (c :: s)), (take n (c :: s)).
    split; [eapply next_rune; eauto; lia|]. split; [done|]. split; [|done].
    intros f. cbn [quote_bytes]. rewrite decide_False by lia.
    by rewrite E, decide_False, decide_False.
Qed.

Lemma scan_string_next s s' q v rest :
  next_char s s' q v ->
  scan_string (q ++ rest) = (fun x => (q ++ x.1, x.2)) <$> scan_string rest.
Proof.
  destruct 1 as [c s Hc|c s Hc|c s r n Hc E Hr Hv|c s r n Hc E Hh Ht Hne Hn].
  - by apply scan_string_quote_ascii.
  - reflexivity.
  - destruct Hr as [-> | ->]; reflexivity.
  - by apply scan_string_high.
Qed.

Lemma unquote_bytes_next s s' q v rest f :
  next_char s s' q v ->
  unquote_bytes (S f) (q ++ rest) = (fun t => v ++ t) <$> unquote_bytes f rest.
Proof.
  destruct 1 as [c s Hc|c s Hc|c s r n Hc E Hr Hv|c s r n Hc E Hh Ht Hne Hn].
  - rewrite unquote_quote_ascii by done. by destruct (unquote_bytes f rest).
  - reflexivity.
  - destruct Hr as [-> | ->]; reflexivity.
  - specialize (Ht rest). destruct n as [|n]; [lia|]. cbn [take app] in *.
    cbn [unquote_bytes]. rewrite !decide_False by lia. rewrite Ht, decide_False by done.
    cbn [take drop]. cbn in Hn. rewrite take_app_length' by (rewrite length_take; lia).
    by rewrite drop_app_length' by (rewrite length_take; lia).
Qed.

(** The encoder's output is scanned as one literal and decoded to the text,
    with its invalid bytes replaced. *)
Lemma scan_quote_bytes s f rest : (length s <= f)%nat ->
  scan_string (quote_bytes f s ++ dquote :: rest) = Some (quote_bytes f s, rest).
Proof.
  revert s. induction f as [|f IH]; intros [|c s] Hf; try reflexivity.
  destruct (quote_bytes_step c s) as (s' & q & v & Hn & Hl & Hq & _).
  rewrite Hq, <- (assoc_L (++)), (scan_string_next _ _ _ _ _ Hn), IH by (cbn in Hf; lia). done.
Qed.

Lemma unquote_quote_coerce s f : (length s <= f)%nat ->
  exists g, (g <= S (length (quote_bytes f s)))%nat /\
    unquote_bytes g (quote_bytes f s ++ [dquote]) = Some (utf8_coerce f s).
Proof.
  revert s. induction f as [|f IH]; intros [|c s] Hf;
    try (exists 1%nat; split; [cbn; lia|reflexivity]).
  destruct (quote_bytes_step c s) as (s' & q & v & Hn & Hl & Hq & Hv).
  destruct (IH s') as (g & Hg & Hu); [cbn in Hf; lia|].
  exists (S g). split.
  - rewrite Hq, length_app. assert (1 <= length q)%nat; [|lia].
    destruct Hn as [c0 s0| | |? ? ? ? ? ? ? ? ? Hn]; [apply quote_ascii_length|cbn; lia|cbn; lia|].
    rewrite length_take. lia.
  - by rewrite Hq, <- (assoc_L (++)), (unquote_bytes_next _ _ _ _ _ _ Hn), Hu, Hv.
Qed.

Lemma parse_string_quote s rest :
  parse_string (quote_bytes (length (chars s)) (chars s) ++ dquote :: rest) =
  Some (strings_coerce s, rest).
Proof.
  unfold parse_string. rewrite scan_quote_bytes by done. cbn [mbind option_bind].
  destruct (unquote_quote_coerce (chars s) (length (chars s))) as (g & Hg & Hu); [done|].
  rewrite (unquote_bytes_fuel g _ _ _ Hu) by lia. done.
Qed.

(** Valid UTF-8 is left as it is. *)
Lemma utf8_coerce_valid s f : (length s <= f)%nat -> utf8_valid f s = true -> utf8_coerce f s = s.
Proof.
  revert s. induction f as [|f IH]; intros [|c s] Hf Hv; try done.
  cbn [utf8_valid utf8_coerce] in *. destruct (utf8_DecodeRune (c :: s)) as [r n] eqn:E.
  case_decide; [done|].
  pose proof (utf8_DecodeRune_pos _ _ _ E ltac:(done)) as Hn. cbn in Hf.
  rewrite IH, take_drop; [done| |done]. rewrite length_drop. cbn. lia.
Qed.

Lemma strings_coerce_valid s : utf8_ValidString s = true -> strings_coerce s = s.
Proof.
  intros H. unfold strings_coerce. rewrite utf8_coerce_valid by done. apply text_chars.
Qed.

(** ** Round trip of numbers *)

(** What may follow a number: nothing that continues one. *)
Definition stops (s : bytes) : Prop :=
  match s with
  | c :: _ => is_digit c = false /\ byte_of c <> 46 /\ byte_of c <> 101 /\ byte_of c <> 69
  | [] => True
  end.

Lemma digits_value_snoc d c : digits_value (d ++ [c]) = digits_value d * 10 + (byte_of c - 48).
Proof. unfold digits_value. by rewrite fold_left_app. Qed.

Lemma pretty_N_char_digit n : (n < 10)%N -> byte_of (pretty_N_char n) = 48 + Z.of_N n.
Proof.
  intros Hn. destruct n as [|p]; [reflexivity|].
  do 4 (destruct p as [p|p|]; try reflexivity); lia.
Qed.

Lemma pretty_N_go_digits x s : (0 < x)%N ->
  exists c d, chars (pretty_N_go x s) = (c :: d) ++ chars s /\
    Forall (fun c => is_digit c = true) (c :: d) /\ byte_of c <> 48 /\
    digits_value (c :: d) = Z.of_N x.
Proof.
  revert s. induction (N.lt_wf_0 x) as [x _ IH]. intros s Hx.
  rewrite pretty_N_go_step by done.
  pose proof (N.div_mod x 10 ltac:(lia)) as Hdm. pose proof (N.mod_lt x 10 ltac:(lia)) as Hm.
  assert (Hlt : (x / 10 < x)%N) by (apply N.div_lt; lia).
  generalize dependent (x mod 10)%N. intros m Hdm Hm.
  pose proof (pretty_N_char_digit m Hm) as Hb.
  assert (Hd : is_digit (pretty_N_char m) = true) by (apply bool_decide_eq_true; lia).
  destruct (decide (x / 10 = 0)%N) as [H0|H0].
  - rewrite H0, pretty_N_go_0. exists (pretty_N_char m), [].
    split; [done|]. split; [by repeat constructor|]. cbn [digits_value fold_left].
    unfold digits_value. cbn [fold_left]. lia.
  - destruct (IH (x / 10)%N) with (s := String (pretty_N_char m) s)
      as (c & d & E & HF & Hc & Hv); [done|lia|].
    exists c, (d ++ [pretty_N_char m]). split; [|split; [|split; [done|]]].
    + rewrite E. cbn. by rewrite <- (assoc_L (++)).
    + rewrite app_comm_cons, Forall_app. split; [done|by repeat constructor].
    + rewrite app_comm_cons, digits_value_snoc, Hv. lia.
Qed.

Lemma scan_digits_app d rest : Forall (fun c => is_digit c = true) d -> stops rest ->
  scan_digits (d ++ rest) = (d, rest).
Proof.
  intros Hd Hr. induction Hd as [|c d Hc _ IH]; cbn.
  - destruct rest as [|c rest]; [done|]. destruct Hr as [Hr _]. cbn. by rewrite Hr.
  - by rewrite Hc, IH.
Qed.

Lemma parse_number_int neg c d rest :
  (neg = [] \/ neg = [ascii_of 45]) ->
  Forall (fun c => is_digit c = true) (c :: d) -> (byte_of c = 48 -> d = []) -> stops rest ->
  parse_number (neg ++ (c :: d) ++ rest) =
  Some (JNum (match neg with [] => digits_value (c :: d) | _ => - digits_value (c :: d) end), rest).
Proof.
  intros Hneg Hd H0 Hr.
  assert (Hc : is_digit c = true) by (by inversion Hd).
  pose proof Hc as Hc'. apply bool_decide_eq_true in Hc'.
  assert (Hint : scan_int ((c :: d) ++ rest) = Some (c :: d, rest)).
  { cbn [app scan_int]. case_decide as E; [by rewrite (H0 E)|]. rewrite Hc.
    f_equal. exact (scan_digits_app (c :: d) rest Hd Hr). }
  assert (Hfrac : scan_frac rest = Some ([], rest)).
  { destruct rest as [|e rest]; [done|]. destruct Hr as (_ & ? & _). cbn. by rewrite decide_False. }
  assert (Hexp : scan_exp rest = Some ([], rest)).
  { destruct rest as [|e rest]; [done|]. destruct Hr as (_ & _ & ? & ?). cbn.
    rewrite decide_False; [done|]. by intros [|]. }
  unfold parse_number. destruct Hneg as [-> | ->]; cbn [app] in *.
  - rewrite decide_False by lia. rewrite Hint. cbn. rewrite Hfrac. cbn. by rewrite Hexp.
  - rewrite decide_True by done. rewrite Hint. cbn. rewrite Hfrac. cbn. by rewrite Hexp.
Qed.

Lemma parse_number_Itoa n rest : stops rest ->
  parse_number (chars (Itoa n) ++ rest) = Some (JNum n, rest) /\
  exists c s, chars (Itoa n) = c :: s /\ (is_digit c = true \/ byte_of c = 45).
Proof.
  intros Hr. destruct n as [|p|p].
  - split; [|exists (ascii_of 48), []; by auto].
    apply (parse_number_int [] (ascii_of 48) []); auto; by repeat constructor.
  - destruct (pretty_N_go_digits (Npos p) "") as (c & d & E & Hd & Hc & Hv); [lia|].
    change (chars (Itoa (Z.pos p))) with (chars (pretty_N_go (Npos p) "")). rewrite E.
    cbn [chars String.list_ascii_of_string]. rewrite app_nil_r.
    split; [|exists c, d; split; [done|left; by inversion Hd]].
    pose proof (parse_number_int [] c d rest) as H. cbn [app] in H |- *.
    rewrite H, Hv; auto; done.
  - destruct (pretty_N_go_digits (Npos p) "") as (c & d & E & Hd & Hc & Hv); [lia|].
    change (chars (Itoa (Z.neg p))) with (ascii_of 45 :: chars (pretty_N_go (Npos p) "")).
    rewrite E. cbn [chars String.list_ascii_of_string]. rewrite app_nil_r.
    split; [|exists (ascii_of 45), (c :: d); auto].
    pose proof (parse_number_int [ascii_of 45] c d rest) as H. cbn [app] in H |- *.
    rewrite H, Hv; auto; done.
Qed.

(** A real literal is scanned as far as it goes. *)
Lemma scan_digits_more s d s2 rest : scan_digits s = (d, s2) -> (s2 = [] -> stops rest) ->
  scan_digits (s ++ rest) = (d, s2 ++ rest).
Proof.
  revert d. induction s as [|c s IH]; cbn; intros d H Hr.
  - injection H as <- <-. specialize (Hr eq_refl). destruct rest as [|c rest]; [done|].
    destruct Hr as [Hr _]. cbn. by rewrite Hr.
  - destruct (is_digit c); [|by injection H as <- <-].
    destruct (scan_digits s) as [d' s']. injection H as <- ->. by rewrite (IH d').
Qed.

Lemma scan_int_more s d s2 rest : scan_int s = Some (d, s2) -> (s2 = [] -> stops rest) ->
  scan_int (s ++ rest) = Some (d, s2 ++ rest).
Proof.
  destruct s as [|c s]; [done|]. cbn [scan_int app]. case_decide; [by intros [= <- <-]|].
  destruct (is_digit c); [|done]. intros [= Hs] Hr. f_equal. by apply (scan_digits_more (c :: s)).
Qed.

Lemma scan_frac_more s d s2 rest : scan_frac s = Some (d, s2) -> (s2 = [] -> stops rest) ->
  scan_frac (s ++ rest) = Some (d, s2 ++ rest).
Proof.
  destruct s as [|c s]; cbn.
  - intros [= <- <-] Hr. specialize (Hr eq_refl). destruct rest as [|c rest]; [done|].
    destruct Hr as (_ & ? & _). cbn. by rewrite decide_False.
  - case_decide; [|by intros [= <- <-]].
    destruct (scan_digits s) as [[|c' d'] s'] eqn:E; [done|]. intros [= <- <-] Hr.
    by rewrite (scan_digits_more _ _ _ _ E Hr).
Qed.

Lemma scan_exp_more s d rest : scan_exp s = Some (d, []) -> stops rest ->
  scan_exp (s ++ rest) = Some (d, rest).
Proof.
  destruct s as [|c s]; cbn.
  - intros [= <-] Hr. destruct rest as [|c rest]; [done|].
    destruct Hr as (_ & _ & ? & ?). cbn. rewrite decide_False; [done|]. by intros [|].
  - intros Hs Hr. case_decide; [|done].
    destruct s as [|e s]; [done|]. cbn in *. case_decide as He; cbn in *.
    + destruct (scan_digits s) as [[|c' d'] s'] eqn:E; [done|]. injection Hs as <- ->.
      by rewrite (scan_digits_more _ _ _ rest E (fun _ => Hr)).
    + change (if is_digit e then let '(d0, r0) := scan_digits s in (e :: d0, r0) else ([], e :: s))
        with (scan_digits (e :: s)) in Hs.
      change (if is_digit e then let '(d0, r0) := scan_digits (s ++ rest) in (e :: d0, r0)
              else ([], e :: s ++ rest)) with (scan_digits ((e :: s) ++ rest)).
      destruct (scan_digits (e :: s)) as [[|c' d'] s'] eqn:E; [done|]. injection Hs as <- ->.
      by rewrite (scan_digits_more _ _ _ rest E (fun _ => Hr)).
Qed.

Lemma parse_number_more s v rest : parse_number s = Some (v, []) -> stops rest ->
  parse_number (s ++ rest) = Some (v, rest).
Proof.
  unfold parse_number. intros H Hr.
  assert (Hsign : match s ++ rest with
    | c :: s1 => if decide (byte_of c = 45) then ([c], s1) else ([], s ++ rest)
    | [] => ([], s ++ rest) end =
    let '(neg, s1) := match s with
    | c :: s1 => if decide (byte_of c = 45) then ([c], s1) else ([], s)
    | [] => ([], s) end in (neg, s1 ++ rest)).
  { destruct s as [|c s]; [done|]. cbn. by case_decide. }
  rewrite Hsign. destruct (match s with [] => _ | _ => _ end) as [neg s1].
  destruct (scan_int s1) as [[int s2]|] eqn:E1; [|done]. cbn in H.
  destruct (scan_frac s2) as [[frac s3]|] eqn:E2; [|done]. cbn in H.
  destruct (scan_exp s3) as [[exp s4]|] eqn:E3; [|done]. cbn in H. injection H as <- ->.
  rewrite (scan_int_more _ _ _ rest E1) by auto. cbn.
  rewrite (scan_frac_more _ _ _ rest E2) by auto. cbn.
  by rewrite (scan_exp_more _ _ rest E3 Hr).
Qed.

(** ** Round trip of values *)

Section Json_ind.
Context (P : json -> Prop)
  (Hn : P JNull) (Hb : forall b, P (JBool b)) (Hi : forall n, P (JNum n))
  (Hr : forall lit, P (JReal lit)) (Hs : forall s, P (JStr s))
  (Ha : forall l, Forall P l -> P (JArr l))
  (Ho : forall p, Forall (fun kv => P kv.2) p -> P (JObj p)).
Fixpoint json_nested_ind (v : json) : P v :=
  match v with
  | JNull => Hn
  | JBool b => Hb b
  | JNum n => Hi n
  | JReal lit => Hr lit
  | JStr s => Hs s
  | JArr l => Ha l ((fix go l := match l return Forall P l with
                     | [] => Forall_nil_2 _
                     | v :: l' => Forall_cons_2 _ _ _ (json_nested_ind v) (go l')
                     end) l)
  | JObj p => Ho p ((fix go p := match p return Forall (fun kv => P kv.2) p with
                     | [] => Forall_nil_2 _
                     | kv :: p' => Forall_cons_2 _ _ _ (json_nested_ind kv.2) (go p')
                     end) p)
  end.
End Json_ind.

(** Every real literal is one. *)
Fixpoint json_ok (v : json) : Prop :=
  match v with
  | JReal lit => parse_number (chars lit) = Some (JReal lit, [])
  | JArr l => foldr (fun v P => json_ok v /\ P) True l
  | JObj p => foldr (fun kv P => json_ok kv.2 /\ P) True p
  | _ => True
  end.

Fixpoint json_depth (v : json) : Z :=
  match v with
  | JArr l => 1 + foldr (fun v d => Z.max (json_depth v) d) 0 l
  | JObj p => 1 + foldr (fun kv d => Z.max (json_depth kv.2) d) 0 p
  | _ => 0
  end.

(** What becomes of a value that is marshalled and unmarshalled. *)
Fixpoint json_coerce (v : json) : json :=
  match v with
  | JStr s => JStr (strings_coerce s)
  | JArr l => JArr (map json_coerce l)
  | JObj p => JObj (map (fun kv => (strings_coerce kv.1, json_coerce kv.2)) p)
  | _ => v
  end.

(** The text from a value of an array, or a member of an object, to the
    closing bracket. *)
Definition elems_bytes (v : json) (l : list json) : bytes :=
  json_bytes v ++ foldr (fun v b => chars "," ++ json_bytes v ++ b) (chars "]") l.
Definition members_bytes (k : string) (v : json) (p : payload) : bytes :=
  chars (json_quote k) ++ chars ":" ++ json_bytes v ++
  foldr (fun kv b => chars "," ++ chars (json_quote kv.1) ++ chars ":" ++ json_bytes kv.2 ++ b)
    (chars "}") p.

(** The parser reads_back a value off the front of a text. *)
Definition reads_back (v : json) : Prop := forall depth rest fuel,
  json_ok v -> depth + json_depth v <= maxNestingDepth -> stops rest ->
  (2 * length (json_bytes v) <= fuel)%nat ->
  parse_value fuel depth (json_bytes v ++ rest) = Some (json_coerce v, rest).

Lemma stops_byte b rest : (b = 44 \/ b = 93 \/ b = 125) -> stops (ascii_of b :: rest).
Proof. intros [-> |[-> | ->]]; vm_compute; intuition discriminate. Qed.

Lemma json_bytes_length v : json_ok v -> (1 <= length (json_bytes v))%nat.
Proof.
  destruct v as [|[]|n|lit|s|[|w l]|[|[k w] p]]; cbn -[Itoa]; intros H; try lia.
  - destruct (parse_number_Itoa n [] I) as (_ & c & s & -> & _). cbn. lia.
  - destruct (chars lit); [done|cbn; lia].
Qed.

Lemma parse_value_number c s fuel depth : is_digit c = true \/ byte_of c = 45 ->
  parse_value (S fuel) depth (c :: s) = parse_number (c :: s).
Proof.
  intros Hc. assert (Hr : byte_of c = 45 \/ 48 <= byte_of c <= 57).
  { destruct Hc as [Hc|Hc]; [apply bool_decide_eq_true in Hc; by right|by left]. }
  cbn [parse_value skip_space].
  assert (Hs : is_json_space c = false) by (apply bool_decide_eq_false; lia).
  rewrite Hs. by rewrite !decide_False by lia.
Qed.

Lemma parse_number_head s v rest : parse_number s = Some (v, rest) ->
  exists c s', s = c :: s' /\ (is_digit c = true \/ byte_of c = 45).
Proof.
  unfold parse_number. destruct s as [|c s]; [done|]. intros H. exists c, s. split; [done|].
  case_decide; [by right|]. left. destruct (decide (byte_of c = 48)) as [Hz|Hz].
  - apply bool_decide_eq_true. lia.
  - destruct (is_digit c) eqn:E; [done|]. cbn -[scan_int] in H.
    replace (scan_int (c :: s)) with (@None (bytes * bytes)) in H; [done|].
    cbn [scan_int]. by rewrite decide_False, E.
Qed.

Lemma parse_quote k rest fuel depth :
  parse_value (S fuel) depth (chars (json_quote k) ++ rest) = Some (JStr (strings_coerce k), rest).
Proof.
  unfold json_quote. rewrite chars_text. cbn [app parse_value].
  change (skip_space (dquote :: ?s)) with (dquote :: s). cbv beta iota.
  rewrite !decide_False, decide_True by (vm_compute; done).
  rewrite <- (assoc_L (++)). cbn [app]. by rewrite parse_string_quote.
Qed.

Lemma skip_space_byte b rest : is_json_space b = false -> skip_space (b :: rest) = b :: rest.
Proof. intros H. cbn. by rewrite H. Qed.

Lemma parse_elems_ok l v depth rest fuel :
  Forall reads_back (v :: l) -> foldr (fun v P => json_ok v /\ P) True (v :: l) ->
  depth + foldr (fun v d => Z.max (json_depth v) d) 0 (v :: l) <= maxNestingDepth ->
  (2 * length (elems_bytes v l) <= fuel)%nat ->
  parse_elems fuel depth (elems_bytes v l ++ rest) = Some (map json_coerce (v :: l), rest).
Proof.
  revert v fuel. induction l as [|w l IH]; intros v fuel HF [Hv Hok] Hd Hf;
    unfold elems_bytes in *; cbn [foldr] in *; rewrite ?length_app in Hf;
    pose proof (json_bytes_length v Hv) as Hl;
    (destruct fuel as [|fuel]; [cbn in Hf; lia|]); cbn [parse_elems];
    inversion HF as [|? ? Hrv HF']; subst; rewrite <- !(assoc_L (++)).
  - rewrite Hrv by (done || lia || (cbn in Hf; lia) || apply (stops_byte 93); auto). done.
  - change (length (chars ",")) with 1%nat in Hf.
    change (chars "," ++ json_bytes w ++ ?x) with (ascii_of 44 :: json_bytes w ++ x).
    rewrite Hrv by (done || lia || apply (stops_byte 44); auto).
    cbn [mbind option_bind]. change (skip_space (?a :: ?s)) with (a :: s). cbv beta iota.
    rewrite decide_True by done. pose proof (IH w fuel HF' Hok) as E.
    rewrite ?length_app in E. rewrite <- !(assoc_L (++)) in E. rewrite E by lia. done.
Qed.

Lemma parse_members_ok p k v depth rest fuel :
  Forall (fun kv => reads_back kv.2) ((k, v) :: p) ->
  foldr (fun kv P => json_ok kv.2 /\ P) True ((k, v) :: p) ->
  depth + foldr (fun kv d => Z.max (json_depth kv.2) d) 0 ((k, v) :: p) <= maxNestingDepth ->
  (2 * length (members_bytes k v p) <= fuel)%nat ->
  parse_members fuel depth (members_bytes k v p ++ rest) =
  Some (map (fun kv => (strings_coerce kv.1, json_coerce kv.2)) ((k, v) :: p), rest).
Proof.
  revert k v fuel. induction p as [|[k' w] p IH]; intros k v fuel HF [Hv Hok] Hd Hf;
    unfold members_bytes in *; cbn [foldr fst snd] in *; rewrite !length_app in Hf;
    pose proof (json_bytes_length v Hv) as Hl;
    (destruct fuel as [|fuel]; [cbn in Hf; lia|]); cbn [parse_members];
    inversion HF as [|? ? Hrv HF']; subst; rewrite <- !(assoc_L (++));
    unfold json_quote at 1; rewrite chars_text; cbn [app];
    change (skip_space (dquote :: ?s)) with (dquote :: s); cbv beta iota;
    rewrite decide_True by (vm_compute; done); rewrite <- !(assoc_L (++)); cbn [app];
    rewrite parse_string_quote; cbn [mbind option_bind];
    change (chars ":" ++ ?x) with (ascii_of 58 :: x);
    change (skip_space (?a :: ?s)) with (a :: s); cbv beta iota;
    rewrite decide_True by (vm_compute; done).
  - cbn in Hrv. rewrite Hrv by (done || lia || (cbn in Hf; lia) || apply (stops_byte 125); auto). done.
  - cbn in Hrv. change (length (chars ",")) with 1%nat in Hf.
    change (length (chars ":")) with 1%nat in Hf.
    change (chars "," ++ chars (json_quote k') ++ ?x)
      with (ascii_of 44 :: chars (json_quote k') ++ x).
    rewrite Hrv by (done || lia || apply (stops_byte 44); auto).
    cbn [mbind option_bind]. change (skip_space (?a :: ?s)) with (a :: s). cbv beta iota.
    rewrite decide_True by (vm_compute; done).
    pose proof (IH k' w fuel HF' Hok) as E. rewrite !length_app in E.
    rewrite <- !(assoc_L (++)) in E. rewrite E by (change (length (chars ":")) with 1%nat; cbn [fst snd]; lia). done.
Qed.

Lemma json_bytes_head v : json_ok v ->
  exists c s, json_bytes v = c :: s /\ is_json_space c = false /\ byte_of c <> 93.
Proof.
  assert (Hnum : forall s v, parse_number s = Some (v, []) ->
    exists c s', s = c :: s' /\ is_json_space c = false /\ byte_of c <> 93).
  { intros s w H. destruct (parse_number_head _ _ _ H) as (c & s' & -> & Hc).
    exists c, s'. split; [done|].
    assert (Hr : byte_of c = 45 \/ 48 <= byte_of c <= 57).
    { destruct Hc as [Hc|Hc]; [apply bool_decide_eq_true in Hc; by right|by left]. }
    split; [apply bool_decide_eq_false|]; lia. }
  intros Hok. destruct v as [|[]|n|lit|s|[|w l]|[|[k w] p]]; cbn -[Itoa];
    try (by do 2 eexists; split; [reflexivity|]; vm_compute; split; congruence).
  - destruct (parse_number_Itoa n [] I) as [E _]. rewrite app_nil_r in E. by apply Hnum in E.
  - by apply Hnum in Hok.
Qed.

Lemma parse_value_arr fuel depth s : depth < maxNestingDepth ->
  parse_value (S fuel) depth (ascii_of 91 :: s) =
  match skip_space s with
  | d :: s2 =>
      if decide (byte_of d = 93) then Some (JArr [], s2)
      else '(l, rest) ← parse_elems fuel (depth + 1) s; Some (JArr l, rest)
  | [] => None
  end.
Proof.
  intros Hd. transitivity (if decide (maxNestingDepth <= depth) then None else
    match skip_space s with
    | d :: s2 =>
        if decide (byte_of d = 93) then Some (JArr [], s2)
        else '(l, rest) ← parse_elems fuel (depth + 1) s; Some (JArr l, rest)
    | [] => None
    end); [reflexivity|]. by rewrite decide_False by lia.
Qed.

Lemma parse_value_obj fuel depth s : depth < maxNestingDepth ->
  parse_value (S fuel) depth (ascii_of 123 :: s) =
  match skip_space s with
  | d :: s2 =>
      if decide (byte_of d = 125) then Some (JObj [], s2)
      else '(p, rest) ← parse_members fuel (depth + 1) s; Some (JObj p, rest)
  | [] => None
  end.
Proof.
  intros Hd. transitivity (if decide (maxNestingDepth <= depth) then None else
    match skip_space s with
    | d :: s2 =>
        if decide (byte_of d = 125) then Some (JObj [], s2)
        else '(p, rest) ← parse_members fuel (depth + 1) s; Some (JObj p, rest)
    | [] => None
    end); [reflexivity|]. by rewrite decide_False by lia.
Qed.

(** Every marshalled value is read back. *)
Lemma reads_all v : reads_back v.
Proof.
  induction v as [|b|n|lit|s|l Hl|p Hp] using json_nested_ind;
    intros depth rest fuel Hok Hd Hr Hf;
    pose proof (json_bytes_length _ Hok) as Hpos; (destruct fuel as [|fuel]; [lia|]).
  - reflexivity.
  - by destruct b.
  - destruct (parse_number_Itoa n rest Hr) as (E & c & s & Ec & Hc).
    cbn [json_bytes json_coerce]. rewrite Ec in *. cbn [app] in *.
    by rewrite parse_value_number.
  - cbn [json_bytes json_ok json_coerce] in *.
    destruct (parse_number_head _ _ _ Hok) as (c & s & Ec & Hc).
    pose proof (parse_number_more _ _ _ Hok Hr) as E. rewrite Ec in *. cbn [app] in *.
    by rewrite parse_value_number.
  - apply parse_quote.
  - destruct l as [|v l]; cbn [json_depth] in Hd; fold json_depth in Hd.
    { apply parse_value_arr. cbn in Hd. lia. }
    assert (Hmax : forall l, 0 <= foldr (fun v d => Z.max (json_depth v) d) 0 l)
      by (intros l'; induction l'; cbn; lia).
    specialize (Hmax (v :: l)).
    pose proof (parse_elems_ok l v (depth + 1) rest fuel Hl Hok) as E.
    destruct (json_bytes_head v) as (c & s & Ec & Hsp & Hc); [apply Hok|].
    change (json_bytes (JArr (v :: l))) with (ascii_of 91 :: elems_bytes v l) in *.
    cbn [app]. rewrite parse_value_arr by lia.
    unfold elems_bytes at 1. rewrite Ec. cbn [app]. rewrite skip_space_byte, decide_False by done.
    rewrite E; [done|lia|cbn [length] in Hf; lia].
  - destruct p as [|[k v] p]; cbn [json_depth] in Hd; fold json_depth in Hd.
    { apply parse_value_obj. cbn in Hd. lia. }
    assert (Hmax : forall p, 0 <= foldr (fun (kv : string * json) d => Z.max (json_depth kv.2) d) 0 p)
      by (intros p'; induction p'; cbn; lia).
    specialize (Hmax ((k, v) :: p)).
    pose proof (parse_members_ok p k v (depth + 1) rest fuel Hp Hok) as E.
    change (json_bytes (JObj ((k, v) :: p))) with (ascii_of 123 :: members_bytes k v p) in *.
    cbn [app]. rewrite parse_value_obj by lia.
    unfold members_bytes at 1, json_quote at 1. rewrite chars_text. cbn [app].
    rewrite skip_space_byte, decide_False by (vm_compute; done).
    rewrite E; [done|lia|cbn [length] in Hf; lia].
Qed.

Lemma json_parse_text v : json_ok v -> json_depth v <= maxNestingDepth ->
  json_parse (json_text v) = Some (json_coerce v).
Proof.
  intros Hok Hd. unfold json_parse, json_parse_bytes, json_text. rewrite chars_text.
  pose proof (reads_all v 0 [] (2 * length (json_bytes v) + 2)%nat Hok) as E.
  rewrite app_nil_r in E. rewrite E; [done|lia|exact I|lia].
Qed.

(** Valid texts are not changed. *)
Fixpoint json_utf8 (v : json) : Prop :=
  match v with
  | JStr s => utf8_ValidString s = true
  | JArr l => foldr (fun v P => json_utf8 v /\ P) True l
  | JObj p => foldr (fun kv P => utf8_ValidString kv.1 = true /\ json_utf8 kv.2 /\ P) True p
  | _ => True
  end.

Lemma json_coerce_utf8 v : json_utf8 v -> json_coerce v = v.
Proof.
  induction v as [|b|n|lit|s|l Hl|p Hp] using json_nested_ind;
    cbn [json_utf8 json_coerce]; intros H; try done.
  - by rewrite strings_coerce_valid.
  - f_equal. induction Hl as [|v l Hv _ IH]; [done|]. destruct H as [H1 H2]. cbn [map].
    by rewrite Hv, IH.
  - f_equal. induction Hp as [|[k v] p Hv _ IH]; [done|]. destruct H as (H1 & H2 & H3). cbn [map fst snd] in *.
    by rewrite (strings_coerce_valid k), Hv, IH.
Qed.

(** ** A text is one line *)

Lemma no_newline (b : bytes) : bool_decide (newline ∉ b) = true -> newline ∉ b.
Proof. apply bool_decide_eq_true. Qed.

Lemma quote_bytes_one_line s f : newline ∉ quote_bytes f s.
Proof.
  revert s. induction f as [|f IH]; intros [|c s]; try apply not_elem_of_nil.
  destruct (quote_bytes_step c s) as (s' & q & v & Hn & _ & -> & _).
  rewrite elem_of_app. intros [H|H]; [|by apply IH in H]. revert H.
  destruct Hn as [c0 s0 Hc|c0 s0 Hc|c0 s0 r n Hc E Hr Hv|c0 s0 r n Hc E Hh Ht Hne Hn].
  - destruct (decide (c0 = newline)) as [->|Hne]; [by apply no_newline|].
    destruct c0 as [[] [] [] [] [] [] [] []]; by apply no_newline.
  - by apply no_newline.
  - destruct Hr as [-> | ->]; by apply no_newline.
  - intros H. rewrite Forall_forall in Hh. specialize (Hh _ H). revert Hh. by vm_compute.
Qed.

Lemma scan_digits_split s d r : scan_digits s = (d, r) -> s = d ++ r /\ newline ∉ d.
Proof.
  revert d. induction s as [|c s IH]; cbn; intros d H.
  - injection H as <- <-. split; [done|apply not_elem_of_nil].
  - destruct (is_digit c) eqn:Ec; [|injection H as <- <-; split; [done|apply not_elem_of_nil]].
    destruct (scan_digits s) as [d' r']. injection H as <- <-.
    destruct (IH d' eq_refl) as [-> Hd]. split; [done|]. rewrite elem_of_cons. intros [Hc|?]; [|done].
    subst c. revert Ec. by vm_compute.
Qed.

Lemma scan_int_split s d r : scan_int s = Some (d, r) -> s = d ++ r /\ newline ∉ d.
Proof.
  destruct s as [|c s]; [done|]. cbn [scan_int]. case_decide as Hc.
  - intros [= <- <-]. split; [done|]. rewrite list_elem_of_singleton. intros <-. by vm_compute in Hc.
  - destruct (is_digit c); [|done]. intros [= Hs]. by apply scan_digits_split.
Qed.

Lemma scan_frac_split s d r : scan_frac s = Some (d, r) -> s = d ++ r /\ newline ∉ d.
Proof.
  destruct s as [|c s]; cbn.
  - intros [= <- <-]. split; [done|apply not_elem_of_nil].
  - case_decide as Hc; [|intros [= <- <-]; split; [done|apply not_elem_of_nil]].
    destruct (scan_digits s) as [[|e d'] r'] eqn:E; [done|]. intros [= <- <-].
    apply scan_digits_split in E as [-> Hd]. split; [done|].
    rewrite elem_of_cons. intros [<-|?]; [by vm_compute in Hc|done].
Qed.

Lemma scan_exp_split s d r : scan_exp s = Some (d, r) -> s = d ++ r /\ newline ∉ d.
Proof.
  destruct s as [|c s]; cbn [scan_exp].
  - intros [= <- <-]. split; [done|apply not_elem_of_nil].
  - case_decide as Hc; [|intros [= <- <-]; split; [done|apply not_elem_of_nil]].
    assert (Hne : newline <> c) by (intros <-; destruct Hc as [Hc|Hc]; by vm_compute in Hc).
    set (sg := match s with [] => _ | _ => _ end).
    assert (Hsg : s = sg.1 ++ sg.2 /\ newline ∉ sg.1).
    { subst sg. destruct s as [|e s]; [split; [done|apply not_elem_of_nil]|].
      case_decide as He; [|split; [done|apply not_elem_of_nil]]. split; [done|].
      cbn. rewrite list_elem_of_singleton. intros <-. destruct He as [He|He]; by vm_compute in He. }
    destruct sg as [sign s2]. destruct Hsg as [Es Hs]. cbn in Es, Hs. subst s.
    destruct (scan_digits s2) as [[|e d'] r'] eqn:E; [done|]. intros [= <- <-].
    apply scan_digits_split in E as [-> Hd]. split; [cbn; by rewrite <- (assoc_L (++))|].
    rewrite elem_of_cons, elem_of_app. intros [?|[?|?]]; done.
Qed.

Lemma parse_number_one_line s v : parse_number s = Some (v, []) -> newline ∉ s.
Proof.
  unfold parse_number. set (sg := match s with [] => _ | _ => _ end).
  assert (Hsg : s = sg.1 ++ sg.2 /\ newline ∉ sg.1).
  { subst sg. destruct s as [|e s]; [split; [done|apply not_elem_of_nil]|].
    case_decide as He; [|split; [done|apply not_elem_of_nil]]. split; [done|].
    cbn. rewrite list_elem_of_singleton. intros <-. by vm_compute in He. }
  destruct sg as [sign s1]. destruct Hsg as [-> Hs]. cbn in Hs |- *. intros H.
  destruct (scan_int s1) as [[int s2]|] eqn:E1; [|done]. cbn in H.
  destruct (scan_frac s2) as [[frac s3]|] eqn:E2; [|done]. cbn in H.
  destruct (scan_exp s3) as [[exp s4]|] eqn:E3; [|done]. cbn in H. injection H as _ ->.
  apply scan_int_split in E1 as [-> H1]. apply scan_frac_split in E2 as [-> H2].
  apply scan_exp_split in E3 as [-> H3].
  rewrite !elem_of_app. intros [?|[?|[?|[?|?%not_elem_of_nil]]]]; done.
Qed.

(** A marshalled value contains no line break, whatever its strings contain. *)
Lemma json_bytes_one_line v : json_ok v -> newline ∉ json_bytes v.
Proof.
  assert (Hq : forall s, newline ∉ chars (json_quote s)).
  { intros s. unfold json_quote. rewrite chars_text, elem_of_cons, elem_of_app, list_elem_of_singleton.
    intros [H|[H|H]]; [done|by apply quote_bytes_one_line in H|done]. }
  induction v as [|b|n|lit|s|l Hl|p Hp] using json_nested_ind; intros Hok.
  - by apply no_newline.
  - destruct b; by apply no_newline.
  - destruct (parse_number_Itoa n [] I) as [E _]. rewrite app_nil_r in E.
    by apply parse_number_one_line in E.
  - by apply parse_number_one_line in Hok.
  - apply Hq.
  - destruct Hl as [|v l Hv Hl]; [by apply no_newline|]. destruct Hok as [Hokv Hok].
    change (newline ∉ chars "[" ++ elems_bytes v l). unfold elems_bytes.
    rewrite !elem_of_app. intros [H|[H|H]]; [by apply (no_newline (chars "["))|by apply Hv|].
    induction Hl as [|w l Hw Hl IH]; [by apply (no_newline (chars "]"))|]. destruct Hok as [Hokw Hok].
    cbn [foldr] in H. rewrite !elem_of_app in H.
    destruct H as [H|[H|H]]; [by apply (no_newline (chars ","))|by apply Hw|by apply IH].
  - destruct Hp as [|[k v] p Hv Hp]; [by apply no_newline|]. destruct Hok as [Hokv Hok].
    change (newline ∉ chars "{" ++ members_bytes k v p). unfold members_bytes.
    rewrite !elem_of_app. intros [H|[H|[H|[H|H]]]];
      [by apply (no_newline (chars "{"))|by apply Hq in H|by apply (no_newline (chars ":"))|by apply Hv|].
    induction Hp as [|[k' w] p Hw Hp IH]; [by apply (no_newline (chars "}"))|]. destruct Hok as [Hokw Hok].
    cbn [foldr] in H. rewrite !elem_of_app in H.
    destruct H as [H|[H|[H|[H|H]]]]; [by apply (no_newline (chars ","))|by apply Hq in H
      |by apply (no_newline (chars ":"))|by apply Hw|by apply IH].
Qed.

Lemma json_obj_shape p : exists mid, json_bytes (JObj p) = ascii_of 123 :: mid ++ [ascii_of 125].
Proof.
  destruct p as [|[k v] p]; [by exists []|].
  change (json_bytes (JObj ((k, v) :: p))) with (ascii_of 123 :: members_bytes k v p).
  unfold members_bytes. set (pre := chars (json_quote k)).
  enough (H : exists mid, foldr (fun (kv : string * json) b =>
      chars "," ++ chars (json_quote kv.1) ++ chars ":" ++ json_bytes kv.2 ++ b) (chars "}") p =
      mid ++ [ascii_of 125]).
  { destruct H as [mid ->]. exists (pre ++ chars ":" ++ json_bytes v ++ mid).
    by rewrite <- !(assoc_L (++)). }
  induction p as [|[k' w] p [mid IH]]; [by exists []|]. cbn [foldr fst snd]. rewrite IH.
  exists (chars "," ++ chars (json_quote k') ++ chars ":" ++ json_bytes w ++ mid).
  by rewrite <- !(assoc_L (++)).
Qed.
