(* ===== verification/Regex.v ===== *)
(** * Regular expressions (package regexp)

    The constructs that the patterns of src/internal/adapter/claude_parser.go
    use, on bytes.  [re_match] tries the alternatives in the order of the
    leftmost-first rule (greedy repetitions, first alternative first), which
    is the match that package regexp reports; [re_find] takes the leftmost
    start.  [matches] is the language with its submatch; the matcher finds a
    match exactly when there is one.

    The patterns negate only ASCII characters, so a byte-wise match ends
    between characters like a rune-wise one.  Case folding covers the two
    letters that fold beyond ASCII, k and s. *)

From S2P Require Import Prelude Env Json GoStrings.

Inductive regex : Type :=
  | RSet (p : Ascii.ascii -> bool)   (** one byte of a class *)
  | REps
  | RCat (r1 r2 : regex)
  | RAlt (r1 r2 : regex)             (** the first one is preferred *)
  | RStar (r : regex)                (** greedy *)
  | RGroup (r : regex)               (** the capturing group *)
  | RBegin                           (** [^] *)
  | REnd.                            (** [$] *)

Definition RPlus (r : regex) : regex := RCat r (RStar r).
Definition ROpt (r : regex) : regex := RAlt r REps.
Fixpoint RSeq (l : list regex) : regex :=
  match l with [] => REps | [r] => r | r :: l' => RCat r (RSeq l') end.
Fixpoint RAny (l : list regex) : regex :=
  match l with [] => RSet (fun _ => false) | [r] => r | r :: l' => RAlt r (RAny l') end.

Definition RByte (b : Z) : regex := RSet (fun c => (byte_of c =? b)%Z).

(** [\s], [.], and a class of listed or of other characters. *)
Definition is_re_space (c : Ascii.ascii) : bool :=
  let b := byte_of c in bool_decide (b = 9 \/ b = 10 \/ b = 12 \/ b = 13 \/ b = 32).
Definition RSpace : regex := RSet is_re_space.
Definition RDot : regex := RSet (fun c => negb (byte_of c =? 10)%Z).
Definition one_of (s : string) (c : Ascii.ascii) : bool := bool_decide (c ∈ chars s).

(** A letter under [(?i)]. *)
Definition RFold (c : Ascii.ascii) : regex :=
  let both := RSet (fun d => (byte_of (fold_ascii d) =? byte_of (fold_ascii c))%Z) in
  if decide (byte_of (fold_ascii c) = 75)
  then RAlt both (RSeq [RByte 226; RByte 132; RByte 170])
  else if decide (byte_of (fold_ascii c) = 83) then RAlt both (RSeq [RByte 197; RByte 191])
  else both.
Definition RWord (s : string) : regex := RSeq (map RFold (chars s)).

(** ** The matcher

    [n] is the length of the whole text and [s] what is left of it; [cap] is
    the submatch so far and [k] what has to match next. *)
Section Star.
Context {X : Type} (step : bytes -> option bytes -> (bytes -> option bytes -> option X) -> option X)
  (k : bytes -> option bytes -> option X).
Fixpoint star_loop (fuel : nat) (s : bytes) (cap : option bytes) : option X :=
  match fuel with
  | O => k s cap
  | S f =>
      match step s cap (fun s' cap' =>
        if (length s' <? length s)%nat then star_loop f s' cap' else None) with
      | Some x => Some x
      | None => k s cap
      end
  end.
End Star.

Fixpoint re_match {X} (n : nat) (r : regex) (s : bytes) (cap : option bytes)
    (k : bytes -> option bytes -> option X) : option X :=
  match r with
  | RSet p => match s with c :: s' => if p c then k s' cap else None | [] => None end
  | REps => k s cap
  | RCat r1 r2 => re_match n r1 s cap (fun s' cap' => re_match n r2 s' cap' k)
  | RAlt r1 r2 =>
      match re_match n r1 s cap k with Some x => Some x | None => re_match n r2 s cap k end
  | RStar r1 => star_loop (re_match n r1) k (length s) s cap
  | RGroup r1 =>
      re_match n r1 s cap (fun s' _ => k s' (Some (take (length s - length s') s)))
  | RBegin => if (length s =? n)%nat then k s cap else None
  | REnd => match s with [] => k s cap | _ => None end
  end.

(** The text matched, the submatch, and what follows the match. *)
Record Match := mkMatch { m_text : bytes; m_group : option bytes; m_rest : bytes }.

(** The leftmost match in the text [s], whose whole is [n] bytes long. *)
Fixpoint re_find (n : nat) (r : regex) (s : bytes) : option Match :=
  match re_match n r s None (fun s' cap =>
    Some (mkMatch (take (length s - length s') s) cap s')) with
  | Some m => Some m
  | None => match s with [] => None | _ :: s' => re_find n r s' end
  end.

(** [FindStringSubmatch]: the whole match and the group, for a pattern with
    one group; a group that took no part is empty. *)
Definition FindStringSubmatch (r : regex) (s : bytes) : option (list bytes) :=
  (fun m => [m_text m; default [] (m_group m)]) <$> re_find (length s) r s.
Definition MatchString (r : regex) (s : bytes) : bool :=
  match re_find (length s) r s with Some _ => true | None => false end.

(** [FindAllStringSubmatch(s, -1)], for a pattern that matches no empty text. *)
Fixpoint re_find_all (fuel n : nat) (r : regex) (s : bytes) : list Match :=
  match fuel with
  | O => []
  | S f =>
      match re_find n r s with
      | Some m => m :: re_find_all f n r (m_rest m)
      | None => []
      end
  end.
Definition FindAllStringSubmatch (r : regex) (s : bytes) : list (list bytes) :=
  (fun m => [m_text m; default [] (m_group m)]) <$> re_find_all (length s) (length s) r s.

(** ** The language

    [matches n r s cap s' cap'] : from [s], [r] consumes the text before [s']
    and the submatch goes from [cap] to [cap']. *)
Inductive matches (n : nat) : regex -> bytes -> option bytes -> bytes -> option bytes -> Prop :=
  | m_set p c s cap : p c = true -> matches n (RSet p) (c :: s) cap s cap
  | m_eps s cap : matches n REps s cap s cap
  | m_cat r1 r2 s cap s1 cap1 s2 cap2 :
      matches n r1 s cap s1 cap1 -> matches n r2 s1 cap1 s2 cap2 ->
      matches n (RCat r1 r2) s cap s2 cap2
  | m_left r1 r2 s cap s' cap' : matches n r1 s cap s' cap' -> matches n (RAlt r1 r2) s cap s' cap'
  | m_right r1 r2 s cap s' cap' : matches n r2 s cap s' cap' -> matches n (RAlt r1 r2) s cap s' cap'
  | m_star_nil r s cap : matches n (RStar r) s cap s cap
  | m_star_cons r s cap s1 cap1 s2 cap2 :
      matches n r s cap s1 cap1 -> (length s1 < length s)%nat ->
      matches n (RStar r) s1 cap1 s2 cap2 -> matches n (RStar r) s cap s2 cap2
  | m_group_of r s cap s' cap' :
      matches n r s cap s' cap' ->
      matches n (RGroup r) s cap s' (Some (take (length s - length s') s))
  | m_begin s cap : length s = n -> matches n RBegin s cap s cap
  | m_end cap : matches n REnd [] cap [] cap.

(** Some part of the text matches. *)
Definition occurs (r : regex) (s : bytes) : Prop :=
  exists l s1 s2 cap, s = l ++ s1 /\ matches (length s) r s1 None s2 cap.

Lemma re_match_sound {X} n r s cap (k : bytes -> option bytes -> option X) x :
  re_match n r s cap k = Some x ->
  exists s' cap', matches n r s cap s' cap' /\ k s' cap' = Some x.
Proof.
  revert s cap k. induction r as [p| |r1 IH1 r2 IH2|r1 IH1 r2 IH2|r IH|r IH| |]; intros s cap k H;
    cbn [re_match] in H.
  - destruct s as [|c s]; [done|]. destruct (p c) eqn:E; [|done].
    exists s, cap. split; [by constructor|done].
  - exists s, cap. split; [constructor|done].
  - apply IH1 in H as (s1 & cap1 & H1 & H). apply IH2 in H as (s2 & cap2 & H2 & H).
    exists s2, cap2. split; [by econstructor|done].
  - destruct (re_match n r1 s cap k) eqn:E.
    + injection H as ->. apply IH1 in E as (s' & cap' & Hm & Hk). exists s', cap'.
      split; [by constructor|done].
    + apply IH2 in H as (s' & cap' & Hm & Hk). exists s', cap'. split; [by apply m_right|done].
  - revert H. generalize (length s) as fuel. intros fuel. revert s cap.
    induction fuel as [|f IHf]; intros s cap H; cbn [star_loop] in H.
    { exists s, cap. split; [constructor|done]. }
    destruct (re_match n r s cap _) as [y|] eqn:E.
    + injection H as ->. apply IH in E as (s1 & cap1 & Hm & Hk).
      destruct (length s1 <? length s)%nat eqn:El; [|done]. apply Nat.ltb_lt in El.
      apply IHf in Hk as (s2 & cap2 & Hs & Hk). exists s2, cap2.
      split; [by eapply m_star_cons|done].
    + exists s, cap. split; [constructor|done].
  - apply IH in H as (s' & cap' & Hm & Hk). do 2 eexists. split; [by econstructor|done].
  - destruct (length s =? n)%nat eqn:E; [|done]. apply Nat.eqb_eq in E.
    exists s, cap. split; [by constructor|done].
  - destruct s; [|done]. exists [], cap. split; [constructor|done].
Qed.

Lemma re_match_complete {X} n r s cap s' cap' (k : bytes -> option bytes -> option X) :
  matches n r s cap s' cap' -> is_Some (k s' cap') -> is_Some (re_match n r s cap k).
Proof.
  intros Hm. revert k.
  enough (H : forall k, is_Some (k s' cap') ->
    match r with
    | RStar r1 => forall f, (length s <= f)%nat ->
        is_Some (star_loop (X := X) (re_match n r1) k f s cap)
    | _ => is_Some (re_match n r s cap k)
    end).
  { intros k Hk. specialize (H k Hk). destruct r; try exact H. by apply H. }
  assert (Hgen : forall r0 s0 cap0 (k : bytes -> option bytes -> option X),
    match r0 with
    | RStar r1 => forall f, (length s0 <= f)%nat -> is_Some (star_loop (re_match n r1) k f s0 cap0)
    | _ => is_Some (re_match n r0 s0 cap0 k)
    end -> is_Some (re_match n r0 s0 cap0 k)).
  { intros r0 s0 cap0 k. destruct r0; try done. intros H. by apply H. }
  induction Hm as [p c s cap Hp|s cap|r1 r2 s cap s1 cap1 s2 cap2 _ IH1 _ IH2
    |r1 r2 s cap s' cap' _ IH|r1 r2 s cap s' cap' _ IH|r s cap
    |r s cap s1 cap1 s2 cap2 _ IH1 Hlt _ IH2|r s cap s' cap' _ IH|s cap Hl|cap]; intros k Hk;
    cbn [re_match].
  - by rewrite Hp.
  - done.
  - apply Hgen, IH1, Hgen, IH2, Hk.
  - destruct (Hgen _ _ _ _ (IH k Hk)) as [x ->]. eauto.
  - destruct (re_match n r1 s cap k); [eauto|]. apply Hgen, IH, Hk.
  - intros [|f] Hf; cbn [star_loop]; [done|]. by destruct (re_match n r s cap _).
  - intros [|f] Hf; [lia|]. cbn [star_loop].
    destruct (Hgen r s cap (fun s' cap' => if (length s' <? length s)%nat
      then star_loop (re_match n r) k f s' cap' else None)) as [x ->]; [|eauto].
    apply IH1. rewrite (proj2 (Nat.ltb_lt _ _) Hlt). apply (IH2 k Hk). lia.
  - apply Hgen, IH, Hk.
  - by rewrite (proj2 (Nat.eqb_eq _ _) Hl).
  - done.
Qed.

Lemma re_find_sound n r s m : re_find n r s = Some m ->
  exists l s1, s = l ++ s1 /\ matches n r s1 None (m_rest m) (m_group m) /\
    m_text m = take (length s1 - length (m_rest m)) s1.
Proof.
  induction s as [|c s IH]; cbn [re_find]; intros H;
    destruct (re_match n r _ None _) as [m'|] eqn:E; try done.
  - injection H as ->. apply re_match_sound in E as (s' & cap & Hm & [= <-]). by exists [], [].
  - injection H as ->. apply re_match_sound in E as (s' & cap & Hm & [= <-]).
    by exists [], (c :: s).
  - destruct (IH H) as (l & s1 & -> & Hm). by exists (c :: l), s1.
Qed.

Lemma re_find_complete n r l s s' cap : matches n r s None s' cap ->
  is_Some (re_find n r (l ++ s)).
Proof.
  intros Hm. induction l as [|c l IH]; cbn [app].
  - pose proof (re_match_complete n r s None s' cap (fun s' cap =>
      Some (mkMatch (take (length s - length s') s) cap s')) Hm ltac:(eauto)) as [m E].
    destruct s; cbn [re_find]; rewrite E; eauto.
  - cbn [re_find]. destruct (re_match n r _ None _); [eauto|done].
Qed.

(** The matcher decides the language. *)
Theorem MatchString_occurs r s : MatchString r s = true <-> occurs r s.
Proof.
  unfold MatchString, occurs. split.
  - destruct (re_find (length s) r s) as [m|] eqn:E; [|done]. intros _.
    apply re_find_sound in E as (l & s1 & -> & Hm & _). eauto 6.
  - intros (l & s1 & s2 & cap & -> & Hm). by destruct (re_find_complete _ _ l _ _ _ Hm) as [m ->].
Qed.

Lemma FindStringSubmatch_occurs r s : is_Some (FindStringSubmatch r s) <-> occurs r s.
Proof.
  rewrite <- MatchString_occurs. unfold FindStringSubmatch, MatchString.
  destruct (re_find _ _ _); cbn; split; intros H; eauto; [by destruct H|done].
Qed.

(** A match consumes a prefix of the text. *)
Lemma matches_suffix n r s cap s' cap' : matches n r s cap s' cap' -> exists p, s = p ++ s'.
Proof.
  induction 1 as [p c s cap _|s cap|r1 r2 s cap s1 cap1 s2 cap2 _ [p1 ->] _ [p2 ->]
    |r1 r2 s cap s' cap' _ IH|r1 r2 s cap s' cap' _ IH|r s cap
    |r s cap s1 cap1 s2 cap2 _ [p1 ->] _ _ [p2 ->]|r s cap s' cap' _ IH|s cap Hl|cap];
    try done; try (by exists []).
  - by exists [c].
  - exists (p1 ++ p2). by rewrite <- (assoc_L (++)).
  - exists (p1 ++ p2). by rewrite <- (assoc_L (++)).
Qed.

(** ** Reading a match of a pattern *)

Lemma matches_cat n r1 r2 s cap s' cap' : matches n (RCat r1 r2) s cap s' cap' ->
  exists s1 cap1, matches n r1 s cap s1 cap1 /\ matches n r2 s1 cap1 s' cap'.
Proof. intros H. inversion H; subst. eauto. Qed.

Lemma matches_set n p s cap s' cap' : matches n (RSet p) s cap s' cap' <->
  exists c, s = c :: s' /\ p c = true /\ cap' = cap.
Proof.
  split.
  - intros H. inversion H; subst. eauto.
  - intros (c & -> & Hp & ->). by constructor.
Qed.

Lemma matches_star_set n p s cap s' cap' : matches n (RStar (RSet p)) s cap s' cap' <->
  exists l, s = l ++ s' /\ Forall (fun c => p c = true) l /\ cap' = cap.
Proof.
  split.
  - intros H. remember (RStar (RSet p)) as r eqn:Er. induction H; try done.
    + by exists [].
    + injection Er as ->. apply matches_set in H as (c & -> & Hc & ->).
      destruct IHmatches2 as (l & -> & Hl & ->); [done|]. exists (c :: l). by repeat constructor.
  - intros (l & -> & Hl & ->). induction Hl as [|c l Hc _ IH]; [constructor|].
    apply m_star_cons with (s1 := l ++ s') (cap1 := cap); [by apply m_set|cbn; lia|done].
Qed.

Lemma matches_group n r s cap s' cap' : matches n (RGroup r) s cap s' cap' ->
  exists cap1, matches n r s cap s' cap1 /\ cap' = Some (take (length s - length s') s).
Proof. intros H. inversion H; subst. eauto. Qed.

Lemma matches_end n s cap s' cap' : matches n REnd s cap s' cap' -> s = [] /\ s' = [] /\ cap' = cap.
Proof. intros H. by inversion H. Qed.

Lemma matches_begin n s cap s' cap' : matches n RBegin s cap s' cap' ->
  length s = n /\ s' = s /\ cap' = cap.
Proof. intros H. by inversion H. Qed.
