(* ===== verification/Paths.v ===== *)
(** * Slash-separated paths (package path/filepath on Unix)

    [Clean] by the segments between slashes: empty segments and dots vanish, a
    double dot removes the segment before it.  The operating system (working
    directory, symbolic links, existence) is asked by the components that use
    paths. *)

From S2P Require Import Prelude Env Json GoStrings.

Definition slash : Ascii.ascii := ascii_of 47.
Definition dot : bytes := [ascii_of 46].
Definition dotdot : bytes := [ascii_of 46; ascii_of 46].

Definition path_IsAbs (p : bytes) : bool := has_prefix [slash] p.

(** The segments kept so far, the last one first. *)
Definition clean_step (rooted : bool) (out : list bytes) (seg : bytes) : list bytes :=
  if decide (seg = [] \/ seg = dot) then out
  else if decide (seg = dotdot) then
    match out with
    | [] => if rooted then [] else [dotdot]
    | top :: out' => if decide (top = dotdot) then dotdot :: out else out'
    end
  else seg :: out.

Definition clean_segments (rooted : bool) (segs : list bytes) : list bytes :=
  rev (fold_left (clean_step rooted) segs []).

Definition path_Clean (p : bytes) : bytes :=
  let segs := clean_segments (path_IsAbs p) (split_byte slash p) in
  if path_IsAbs p then slash :: join [slash] segs
  else match segs with [] => dot | _ => join [slash] segs end.

(** [filepath.Join] of two elements that are not empty. *)
Definition path_Join (a b : bytes) : bytes := path_Clean (a ++ slash :: b).

Fixpoint trim_slashes (fuel : nat) (p : bytes) : bytes :=
  match fuel with
  | O => p
  | S f => if has_suffix [slash] p then trim_slashes f (take (length p - 1) p) else p
  end.

(** [filepath.Base]. *)
Definition path_Base (p : bytes) : bytes :=
  match p with
  | [] => dot
  | _ => match trim_slashes (length p) p with
         | [] => [slash]
         | q => default [] (last (split_byte slash q))
         end
  end.

(** [filepath.Dir]: what comes before the last slash, cleaned. *)
Definition path_Dir (p : bytes) : bytes :=
  let segs := split_byte slash p in
  path_Clean (match take (length segs - 1) segs with
              | [] => []
              | init => join [slash] init ++ [slash]
              end).

(** On texts. *)
Definition filepath_IsAbs (p : string) : bool := path_IsAbs (chars p).
Definition filepath_Clean (p : string) : string := text (path_Clean (chars p)).
Definition filepath_Base (p : string) : string := text (path_Base (chars p)).
Definition filepath_Join (a b : string) : string := text (path_Join (chars a) (chars b)).

Example path_samples :
  (text (path_Clean (chars "/srv//a/./b/../c/")), text (path_Clean (chars "../a/../..")),
   text (path_Clean (chars "/../x")), text (path_Clean []), text (path_Base (chars "/usr/bin/claude/")),
   text (path_Dir (chars "data/car.db")), text (path_Dir (chars "car.db"))) =
  ("/srv/a/c", "../..", "/x", ".", "claude", "data", ".").
Proof. vm_compute. reflexivity. Qed.

(** ** [filepath.Rel] *)

(** The words between which Rel looks for the first difference. *)
Definition rel_words (p : bytes) : list bytes :=
  if decide (p = [slash]) then [[]] else split_byte slash p.

Fixpoint drop_common (base targ : list bytes) : list bytes * list bytes :=
  match base, targ with
  | b :: base', t :: targ' => if decide (b = t) then drop_common base' targ' else (base, targ)
  | _, _ => (base, targ)
  end.

Definition path_Rel (basepath targpath : bytes) : option bytes :=
  let base := path_Clean basepath in
  let targ := path_Clean targpath in
  if decide (targ = base) then Some dot
  else if decide (path_IsAbs base <> path_IsAbs targ) then None
  else
    let '(b, t) := drop_common (if decide (base = dot) then [] else rel_words base) (rel_words targ) in
    match b, t with
    | w :: _, _ :: _ => if decide (w = dotdot) then None else Some (join [slash] (map (fun _ => dotdot) b ++ t))
    | _, _ => Some (join [slash] (map (fun _ => dotdot) b ++ t))
    end.

Example rel_samples :
  (text <$> path_Rel (chars "/a/b") (chars "/a/b/c/d"), text <$> path_Rel (chars "/a/b") (chars "/a/c"),
   text <$> path_Rel (chars "..") (chars "a"), text <$> path_Rel (chars ".") (chars "x/y"),
   text <$> path_Rel (chars "/") (chars "/x"), text <$> path_Rel (chars "a") (chars "."),
   text <$> path_Rel (chars "/a") (chars "/"), text <$> path_Rel (chars "../..") (chars "..")) =
  (Some "c/d", Some "../c", None, Some "x/y", Some "x", Some "../.", Some "..", Some "..").
Proof. vm_compute. reflexivity. Qed.

(** ** Clean paths *)

(** A proper segment: the name of a file or directory. *)
Definition proper (seg : bytes) : Prop :=
  seg <> [] /\ seg <> dot /\ seg <> dotdot /\ slash ∉ seg.

Lemma clean_step_proper out seg : Forall proper out -> slash ∉ seg ->
  Forall proper (clean_step true out seg).
Proof.
  intros Ho Hs. unfold clean_step. case_decide as H1; [done|]. case_decide as H2.
  - destruct Ho as [|top out (_ & _ & Ht & _) Ho]; [constructor|]. by rewrite decide_False.
  - constructor; [|done]. repeat split; auto.
Qed.

(** The segments of a cleaned absolute path are proper. *)
Lemma clean_segments_proper p : Forall proper (clean_segments true (split_byte slash p)).
Proof.
  unfold clean_segments. apply Forall_rev.
  assert (H : forall out segs, Forall proper out -> Forall (fun l => slash ∉ l) segs ->
    Forall proper (fold_left (clean_step true) segs out)).
  { intros out segs Ho Hs. revert out Ho. induction Hs as [|seg segs Hg _ IH]; intros out Ho; [done|].
    cbn. by apply IH, clean_step_proper. }
  apply H; [constructor|apply split_byte_free].
Qed.

Lemma split_join segs : segs <> [] -> Forall (fun l => slash ∉ l) segs ->
  split_byte slash (join [slash] segs) = segs.
Proof.
  intros Hne Hs. induction Hs as [|seg segs Hg Hs IH]; [done|].
  destruct segs as [|seg2 segs]; [by apply split_byte_none|].
  change (join [slash] (seg :: seg2 :: segs)) with (seg ++ slash :: join [slash] (seg2 :: segs)).
  by rewrite split_byte_app, IH.
Qed.

(** Proper segments are kept as they are. *)
Lemma clean_keeps rooted segs out : Forall proper segs ->
  fold_left (clean_step rooted) segs out = rev segs ++ out.
Proof.
  intros Hs. revert out. induction Hs as [|seg segs (H1 & H2 & H3 & _) _ IH]; intros out; [done|].
  cbn [fold_left rev]. rewrite IH. unfold clean_step. rewrite decide_False by tauto.
  rewrite decide_False by done. by rewrite <- (assoc_L (++)).
Qed.

Lemma path_Clean_abs p : path_IsAbs p = true ->
  path_Clean p = slash :: join [slash] (clean_segments true (split_byte slash p)).
Proof. intros H. unfold path_Clean. by rewrite H. Qed.

Lemma abs_clean_IsAbs p : path_IsAbs p = true -> path_IsAbs (path_Clean p) = true.
Proof. intros H. by rewrite path_Clean_abs. Qed.

Lemma clean_segments_clean segs : Forall proper segs ->
  clean_segments true (split_byte slash (slash :: join [slash] segs)) = segs.
Proof.
  intros Hs. unfold clean_segments. cbn [split_byte]. rewrite decide_True by done.
  cbn [fold_left]. change (clean_step true [] []) with (@nil bytes).
  destruct segs as [|seg segs]; [reflexivity|].
  rewrite split_join; [|done|eapply Forall_impl; [exact Hs|by intros ? (_ & _ & _ & ?)]].
  by rewrite clean_keeps, app_nil_r, rev_involutive.
Qed.

(** Cleaning an absolute path twice is cleaning it once. *)
Lemma path_Clean_idemp p : path_IsAbs p = true -> path_Clean (path_Clean p) = path_Clean p.
Proof.
  intros H. rewrite (path_Clean_abs (path_Clean p)) by by apply abs_clean_IsAbs.
  rewrite (path_Clean_abs p H), clean_segments_clean; [done|apply clean_segments_proper].
Qed.

(** ** Cleaned paths by their segments *)

(** The text of a cleaned path. *)
Definition render (rooted : bool) (segs : list bytes) : bytes :=
  if rooted then slash :: join [slash] segs
  else match segs with [] => dot | _ => join [slash] segs end.

Lemma path_Clean_render p :
  path_Clean p = render (path_IsAbs p) (clean_segments (path_IsAbs p) (split_byte slash p)).
Proof. unfold path_Clean, render. by destruct (path_IsAbs p). Qed.

(** What cleaning keeps: segments that are not empty, not a dot and free of
    slashes. *)
Definition kept (seg : bytes) : Prop := seg <> [] /\ seg <> dot /\ slash ∉ seg.

Lemma proper_kept seg : proper seg -> kept seg.
Proof. by intros (? & ? & _ & ?). Qed.
Lemma Forall_proper_kept segs : Forall proper segs -> Forall kept segs.
Proof. intros H. eapply Forall_impl; [exact H|apply proper_kept]. Qed.

Lemma clean_step_kept rooted out seg : Forall kept out -> slash ∉ seg ->
  Forall kept (clean_step rooted out seg).
Proof.
  assert (Hd : kept dotdot) by (repeat split; [done|done|by apply (bool_decide_eq_false (slash ∈ dotdot))]).
  intros Ho Hs. unfold clean_step. case_decide as H1; [done|]. case_decide as H2.
  - destruct Ho as [|top out Ht Ho]; [destruct rooted; [constructor|constructor; [done|constructor]]|].
    case_decide; [constructor; [done|by constructor]|done].
  - constructor; [|done]. repeat split; tauto.
Qed.

Lemma clean_segments_kept rooted p : Forall kept (clean_segments rooted (split_byte slash p)).
Proof.
  unfold clean_segments. apply Forall_rev.
  assert (H : forall out segs, Forall kept out -> Forall (fun l => slash ∉ l) segs ->
    Forall kept (fold_left (clean_step rooted) segs out)).
  { intros out segs Ho Hs. revert out Ho. induction Hs as [|seg segs Hg _ IH]; intros out Ho; [done|].
    cbn. by apply IH, clean_step_kept. }
  apply H; [constructor|apply split_byte_free].
Qed.

Lemma split_byte_sep sep s t : split_byte sep (s ++ sep :: t) = split_byte sep s ++ split_byte sep t.
Proof.
  induction s as [|c s IH]; cbn; [by rewrite decide_True|].
  case_decide; [by rewrite IH|]. rewrite IH. pose proof (split_byte_ne sep s).
  by destruct (split_byte sep s).
Qed.

Lemma split_render_rooted segs : Forall kept segs ->
  split_byte slash (slash :: join [slash] segs) = [] :: match segs with [] => [[]] | _ => segs end.
Proof.
  intros Hs. cbn [split_byte]. rewrite decide_True by done. f_equal.
  destruct segs as [|seg segs]; [done|].
  apply split_join; [done|]. eapply Forall_impl; [exact Hs|by intros ? (_ & _ & ?)].
Qed.

(** A cleaned path and a path below it. *)
Lemma Clean_Join_proper target segs : target <> [] -> Forall proper segs ->
  path_Join target (slash :: join [slash] segs) =
  render (path_IsAbs target) (clean_segments (path_IsAbs target) (split_byte slash target) ++ segs).
Proof.
  intros Hne Hs. unfold path_Join. rewrite path_Clean_render.
  assert (HA : forall x, path_IsAbs (target ++ x) = path_IsAbs target).
  { intros x. unfold path_IsAbs. destruct target; [done|]. cbn. by case_decide. }
  rewrite HA, split_byte_sep, split_render_rooted by by apply Forall_proper_kept.
  f_equal. unfold clean_segments. rewrite fold_left_app. cbn [fold_left].
  change (clean_step ?r ?o []) with o.
  rewrite <- (rev_involutive (fold_left _ (split_byte slash target) [])) at 1.
  set (B := rev (fold_left _ (split_byte slash target) [])).
  destruct segs as [|seg segs]; [cbn [fold_left]; rewrite app_nil_r; apply rev_involutive|].
  by rewrite clean_keeps, rev_app_distr, !rev_involutive.
Qed.

Lemma IsAbs_render r L : Forall kept L -> path_IsAbs (render r L) = r.
Proof.
  intros HL. destruct r; [reflexivity|]. unfold render, path_IsAbs.
  destruct HL as [|seg L (Hne & _ & Hs) _]; [reflexivity|].
  destruct seg as [|c seg]; [done|]. rewrite not_elem_of_cons in Hs.
  destruct L; cbn; (rewrite decide_False; [done|tauto]).
Qed.

(** The words of a cleaned path are its segments, up to words that mean nothing. *)
Lemma split_render r L : Forall kept L ->
  split_byte slash (render r L) =
  (if r then [[]] else []) ++ match L with [] => [if r then [] else dot] | _ => L end.
Proof.
  intros HL. destruct r; cbn [render app]; [by rewrite split_render_rooted; [destruct L|]|].
  destruct L as [|seg L]; [reflexivity|].
  apply split_join; [done|]. eapply Forall_impl; [exact HL|by intros ? (_ & _ & ?)].
Qed.

Lemma clean_segments_render r L : Forall kept L ->
  clean_segments r (split_byte slash (render r L)) = clean_segments r L.
Proof. intros HL. rewrite split_render by done. by destruct r, L. Qed.

Lemma rel_words_render r L : Forall kept L -> r = true \/ L <> [] ->
  rel_words (render r L) = (if r then [[]] else []) ++ L.
Proof.
  intros HL Hr. unfold rel_words. case_decide as Hd.
  - assert (Hw : split_byte slash (render r L) = [[]; []]) by (by rewrite Hd).
    rewrite split_render in Hw by done. destruct HL as [|seg L (? & _) HL].
    + destruct r; [done|]. by destruct Hr.
    + exfalso. destruct r; cbn in Hw; congruence.
  - rewrite split_render by done. destruct r, L; try done. by destruct Hr.
Qed.

(** Cleaned segments stay as they are, also before proper ones. *)
Lemma clean_again r p extra : Forall proper extra ->
  let B := clean_segments r (split_byte slash p) in clean_segments r (B ++ extra) = B ++ extra.
Proof.
  intros He B.
  assert (HB : fold_left (clean_step r) B [] = rev B).
  { destruct r; [rewrite clean_keeps by apply clean_segments_proper; apply app_nil_r|].
    assert (Hshape : exists P n, B = repeat dotdot n ++ P /\ Forall proper P).
    { enough (H : forall segs out, Forall (fun l => slash ∉ l) segs ->
        (exists P n, out = P ++ repeat dotdot n /\ Forall proper P) ->
        exists P n, fold_left (clean_step false) segs out = P ++ repeat dotdot n /\ Forall proper P).
      { destruct (H _ [] (split_byte_free slash p) (ex_intro _ [] (ex_intro _ 0%nat (conj eq_refl (Forall_nil_2 _)))))
          as (P & n & E & HP).
        exists (rev P), n. split; [|by apply Forall_rev]. unfold B, clean_segments.
        by rewrite E, rev_app_distr, rev_repeat. }
      induction segs as [|seg segs IH]; intros out Hs Ho; [done|]. inversion_clear Hs as [|?? Hg Hs'].
      cbn [fold_left]. apply IH; [done|]. destruct Ho as (P & n & -> & HP). unfold clean_step.
      case_decide; [by exists P, n|]. case_decide as Hdd.
      - destruct HP as [|q P (_ & _ & Hq & _) HP]; cbn [app].
        + exists [], (S n). split; [|constructor]. destruct n; [done|]. cbn [repeat]. by rewrite decide_True.
        + rewrite decide_False by done. by exists P, n.
      - exists (seg :: P), n. split; [done|]. constructor; [|done]. repeat split; tauto. }
    destruct Hshape as (P & n & -> & HP). rewrite fold_left_app.
    assert (Hrep : forall m, fold_left (clean_step false) (repeat dotdot n) (repeat dotdot m) = repeat dotdot (n + m)).
    { clear. induction n as [|n IH]; intros m; [done|]. cbn [repeat fold_left].
      assert (Hstep : clean_step false (repeat dotdot m) dotdot = repeat dotdot (S m)) by (by destruct m).
      rewrite Hstep, IH. by rewrite Nat.add_succ_r. }
    change (@nil bytes) with (repeat dotdot 0). rewrite Hrep, Nat.add_0_r, clean_keeps by done.
    by rewrite rev_app_distr, rev_repeat. }
  unfold clean_segments at 1. by rewrite fold_left_app, HB, clean_keeps, rev_app_distr, !rev_involutive.
Qed.

(** Segments that cleaning leaves alone. *)
Definition clean_list (r : bool) (L : list bytes) : Prop := Forall kept L /\ clean_segments r L = L.

Lemma clean_list_below p extra : Forall proper extra ->
  clean_list (path_IsAbs p) (clean_segments (path_IsAbs p) (split_byte slash p) ++ extra).
Proof.
  intros He. split; [|by apply clean_again].
  apply Forall_app. split; [apply clean_segments_kept|by apply Forall_proper_kept].
Qed.

Lemma clean_list_app_inv r L extra : Forall proper extra -> clean_list r (L ++ extra) -> clean_list r L.
Proof.
  intros He [HK HC]. apply Forall_app in HK as [HK _]. split; [done|].
  unfold clean_segments in *. rewrite fold_left_app, clean_keeps, rev_app_distr, rev_involutive in HC by done.
  by apply app_inv_tail in HC.
Qed.

Lemma path_Clean_list r L : clean_list r L -> path_Clean (render r L) = render r L.
Proof.
  intros [HK HC]. rewrite path_Clean_render, IsAbs_render by done. by rewrite clean_segments_render, HC.
Qed.

(** The relative name of a path below a directory. *)
Lemma path_Rel_below target segs : Forall proper segs ->
  let r := path_IsAbs target in
  let dest := render r (clean_segments r (split_byte slash target) ++ segs) in
  path_Rel target dest = Some dot \/
  segs <> [] /\ path_Rel target dest = Some (join [slash] segs).
Proof.
  intros Hs r dest. set (B := clean_segments r (split_byte slash target)) in *.
  assert (Hd : path_Clean dest = dest) by apply path_Clean_list, clean_list_below, Hs.
  unfold path_Rel. rewrite Hd, (path_Clean_render target). fold r. fold B.
  assert (HB : Forall kept B) by apply clean_segments_kept. clearbody B.
  assert (HBs : Forall kept (B ++ segs)) by (apply Forall_app; split; [done|by apply Forall_proper_kept]).
  case_decide as He; [by left|]. right.
  destruct segs as [|seg segs]; [destruct He; unfold dest; by rewrite app_nil_r|]. split; [done|].
  unfold dest. rewrite !IsAbs_render, decide_False by (done || tauto).
  rewrite (rel_words_render r (B ++ seg :: segs)) by first [done | right; by destruct B].
  assert (Hc : forall l, drop_common B (B ++ l) = ([], l)).
  { clear. induction B as [|b B IH]; intros l; [done|]. cbn. rewrite decide_True by done. apply IH. }
  case_decide as Hdot.
  - destruct r; [destruct B as [|[|??] ?]; discriminate Hdot|]. destruct B as [|b B]; [done|].
    exfalso. pose proof (split_render false (b :: B) HB) as Hsp. rewrite Hdot in Hsp.
    change (split_byte slash dot) with [dot] in Hsp. inversion HB as [|?? (_ & Hnd & _) _]; subst. cbn in Hsp. congruence.
  - assert (HBne : r = true \/ B <> []) by (destruct r; [by left|right; by intros ->]).
    rewrite rel_words_render by done.
    destruct r; cbn [app drop_common]; [rewrite decide_True by done|]; by rewrite Hc.
Qed.

(** The directory of a path with one more segment. *)
Lemma path_Dir_render r L x : clean_list r L -> proper x -> path_Dir (render r (L ++ [x])) = render r L.
Proof.
  intros [HK HC] Hx. unfold path_Dir.
  rewrite split_render by (apply Forall_app; split; [done|by apply Forall_singleton, proper_kept]).
  assert (Hne : forall {A} (u v : A), match L ++ [x] with [] => u | _ => v end = v) by (by destruct L).
  rewrite Hne, (assoc_L (++)), length_app, Nat.add_sub.
  rewrite take_app_length'; [|done].
  destruct L as [|seg L].
  - destruct r; reflexivity.
  - assert (Hs : split_byte slash (join [slash] ((if r then [[]] else []) ++ seg :: L) ++ [slash]) =
                 ((if r then [[]] else []) ++ seg :: L) ++ [[]]).
    { rewrite split_byte_sep, split_join; [done|by destruct r|].
      apply Forall_app. split; [destruct r; repeat constructor; apply not_elem_of_nil|].
      eapply Forall_impl; [exact HK|by intros ? (_ & _ & ?)]. }
    assert (HA : path_IsAbs (join [slash] ((if r then [[]] else []) ++ seg :: L) ++ [slash]) = r).
    { destruct r; [reflexivity|]. inversion HK as [|?? (Hn & _ & Hsl) _]; subst. destruct seg as [|c seg]; [done|].
      rewrite not_elem_of_cons in Hsl. destruct L; cbn; (rewrite decide_False; [done|tauto]). }
    assert (HC' : clean_segments r (((if r then [[]] else []) ++ seg :: L) ++ [[]]) = seg :: L).
    { unfold clean_segments in *. rewrite !fold_left_app. destruct r; exact HC. }
    destruct r; (cbn [app] in *; rewrite path_Clean_render, HA, Hs, HC'; done).
Qed.
