(* ===== verification/GoTime.v ===== *)
(** * Civil time and its text (package time)

    An instant is a number of nanoseconds since 1970.  The calendar is the
    proleptic Gregorian one of package time. *)

From S2P Require Import Prelude Env Json.

#[local] Open Scope Z_scope.

(** ** The calendar *)

(** Days since 1970-01-01 to year, month and day.  Years begin in March and
    come in cycles of 146097 days. *)
Definition civil_from_days (z : Z) : Z * Z * Z :=
  let z := z + 719468 in
  let era := z / 146097 in
  let doe := z mod 146097 in
  let yoe := (doe - doe / 1460 + doe / 36524 - doe / 146096) / 365 in
  let doy := doe - (365 * yoe + yoe / 4 - yoe / 100) in
  let mp := (5 * doy + 2) / 153 in
  let d := doy - (153 * mp + 2) / 5 + 1 in
  let m := if mp <? 10 then mp + 3 else mp - 9 in
  ((yoe + era * 400) + (if m <=? 2 then 1 else 0), m, d).

(** A date to days. *)
Definition days_from_civil (y m d : Z) : Z :=
  let y := if m <=? 2 then y - 1 else y in
  let era := y / 400 in
  let yoe := y mod 400 in
  let mp := if m <=? 2 then m + 9 else m - 3 in
  let doy := (153 * mp + 2) / 5 + d - 1 in
  let doe := yoe * 365 + yoe / 4 - yoe / 100 + doy in
  era * 146097 + doe - 719468.

Definition leap (y : Z) : bool :=
  (y mod 4 =? 0) && (negb (y mod 100 =? 0) || (y mod 400 =? 0)).
Definition month_days (y m : Z) : Z :=
  if m =? 2 then (if leap y then 29 else 28)
  else if (m =? 4) || (m =? 6) || (m =? 9) || (m =? 11) then 30 else 31.

(** The first and the last day of a month come back from their number. *)
Definition month_ok (y m : Z) : bool :=
  forallb (fun d => bool_decide (civil_from_days (days_from_civil y m d) = (y, m, d)))
    [1; month_days y m].

Example calendar_1996_to_2024 :
  forallb (fun y => forallb (month_ok y) [1; 2; 3; 4; 5; 6; 7; 8; 9; 10; 11; 12])
    [1996; 1999; 2000; 2001; 2004; 2023; 2024] = true.
Proof. vm_compute. reflexivity. Qed.

(** ** Text *)

(** [appendInt]: at least [width] digits. *)
Definition pad (width : nat) (n : Z) : string :=
  let digits := chars (Itoa (Z.abs n)) in
  text ((if n <? 0 then chars "-" else []) ++ repeat (ascii_of 48) (width - length digits) ++ digits).

(** "2006-01-02T15:04:05" of a number of seconds. *)
Definition format_seconds (s : Z) : string :=
  let '(y, m, d) := civil_from_days (s / 86400) in
  let t := s mod 86400 in
  pad 4 y +:+ "-" +:+ pad 2 m +:+ "-" +:+ pad 2 d +:+ "T" +:+
  pad 2 (t / 3600) +:+ ":" +:+ pad 2 (t / 60 mod 60) +:+ ":" +:+ pad 2 (t mod 60).

(** [t.UTC().Format("2006-01-02T15:04:05Z07:00")]. *)
Definition format_UTC (t : Z) : string := format_seconds (t / Second) +:+ "Z".

(** "Z07:00" for an offset east of UTC in seconds. *)
Definition format_offset (off : Z) : string :=
  let minutes := Z.quot off 60 in
  if off =? 0 then "Z"
  else (if off <? 0 then "-" else "+") +:+
       pad 2 (Z.abs minutes / 60) +:+ ":" +:+ pad 2 (Z.abs minutes mod 60).

(** The fraction of RFC3339Nano: nine digits without trailing zeros. *)
Fixpoint drop_zeros (l : bytes) : bytes :=
  match l with
  | c :: l' => if decide (byte_of c = 48) then drop_zeros l' else l
  | [] => []
  end.
Definition format_fraction (ns : Z) : string :=
  match drop_zeros (reverse (chars (pad 9 ns))) with
  | [] => ""
  | l => "." +:+ text (reverse l)
  end.

(** [time.Time.MarshalJSON] at an offset: the text between the quotes, or
    [None] if the year has not four digits or the offset a whole day. *)
Definition time_MarshalJSON (off t : Z) : option string :=
  let s := t / Second + off in
  let '(y, _, _) := civil_from_days (s / 86400) in
  if decide (0 <= y <= 9999 /\ Z.abs off < 86400) then
    Some (format_seconds s +:+ format_fraction (t mod Second) +:+ format_offset off)
  else None.

Example times :
  (format_UTC 0, format_UTC (-1), format_UTC (1709210096 * Second + 7),
   time_MarshalJSON 3600 (1709210096 * Second + 120000000),
   time_MarshalJSON (-12600) (951782400 * Second),
   time_MarshalJSON 0 (253402300800 * Second)) =
  ("1970-01-01T00:00:00Z", "1969-12-31T23:59:59Z", "2024-02-29T12:34:56Z",
   Some "2024-02-29T13:34:56.12+01:00", Some "2000-02-28T20:30:00-03:30", None).
Proof. vm_compute. reflexivity. Qed.
