(* ===== verification/Files.v ===== *)
(** * A file system (package os and path/filepath)

    The calls of package os that the command-line programs make, over a tree of
    nodes.  A node is named by its key, the names on the way from the root.  A
    path is resolved against the working directory, following at most 40
    symbolic links.  Every call may fail for a reason of the system's own (an
    oracle of the environment, as for the database driver); a failing write
    leaves some part of the data behind.  Users and permissions are such
    reasons. *)

From S2P Require Import Prelude Env Json GoStrings Paths.

Abbreviation key := (list bytes) (only parsing).

Inductive node :=
  | NDir (mode : Z)
  | NFile (mode : Z) (content : bytes)
  | NLink (dest : bytes)
  | NSocket
  | NSpecial (typeflag mode : Z).  (** fifos and devices *)

Record Disk := mkDisk {
  dk_nodes : gmap key node;
  dk_cwd : key;
  dk_umask : Z;
  dk_short : nat -> nat;  (** what a write that fails at that call leaves *)
  dk_env : Env
}.

Definition set_dk_nodes (n : gmap key node) (d : Disk) : Disk :=
  mkDisk n (dk_cwd d) (dk_umask d) (dk_short d) (dk_env d).
Definition set_dk_env (e : Env) (d : Disk) : Disk :=
  mkDisk (dk_nodes d) (dk_cwd d) (dk_umask d) (dk_short d) e.

Definition on_disk_env {A} (m : M Env A) : M Disk A := zoom dk_env set_dk_env m.

(** A system call, which may fail. *)
Definition os_call : M Disk (option error) := fun d =>
  (ErrNew <$> env_fault (dk_env d) (env_calls (dk_env d)), set_dk_env (env_call (dk_env d)) d).

(** Run the rest unless the system refuses the call. *)
Definition guarded {A} (m : M Disk (result A)) : M Disk (result A) :=
  let! f := os_call in match f with Some e => ret (Err e) | None => m end.

(** ** Resolving paths *)

Definition parent_of (k : key) : key := take (length k - 1) k.

Fixpoint resolve (links : nat) (nodes : gmap key node) {struct links} : key -> list bytes -> option key :=
  fix go (at_ : key) (words : list bytes) {struct words} : option key :=
  match words with
  | [] => Some at_
  | w :: words' =>
      if decide (w = [] \/ w = dot) then go at_ words'
      else if decide (w = dotdot) then go (parent_of at_) words'
      else
        match nodes !! (at_ ++ [w]) with
        | Some (NLink dest) =>
            match links with
            | O => None
            | S links' =>
                resolve links' nodes (if path_IsAbs dest then [] else at_) (split_byte slash dest ++ words')
            end
        | _ => go (at_ ++ [w]) words'
        end
  end.

Definition max_links : nat := 40.
#[global] Opaque max_links.

(** The words of a path, and where their resolution starts. *)
Definition words_of (p : bytes) : list bytes := split_byte slash p.
Definition start_of (p : bytes) (d : Disk) : key := if path_IsAbs p then [] else dk_cwd d.

Definition lookup_path (p : bytes) (d : Disk) : option key :=
  resolve max_links (dk_nodes d) (start_of p d) (words_of p).

(** Without following a link in the last word ([lstat], [mkdir]). *)
Definition lookup_entry (p : bytes) (d : Disk) : option key :=
  let words := words_of p in
  match last words with
  | Some w =>
      if decide (w = [] \/ w = dot \/ w = dotdot) then lookup_path p d
      else
        k ← resolve max_links (dk_nodes d) (start_of p d) (take (length words - 1) words);
        Some (k ++ [w])
  | None => None
  end.

Definition node_at (k : option key) (d : Disk) : option node := k ← k; dk_nodes d !! k.
Definition is_dir (n : option node) : bool := match n with Some (NDir _) => true | _ => false end.

(** [&^]: permission bits without those of a mask. *)
Definition masked (mode mask : Z) : Z := Z.land mode (Z.lnot mask).

(** ** Calls *)

Definition path_error (op : string) (p : bytes) (why : string) : error :=
  ErrNew (op +:+ " " +:+ text p +:+ ": " +:+ why).
Definition ENOENT : string := "no such file or directory".
Definition EEXIST : string := "file exists".
Definition ENOTDIR : string := "not a directory".
Definition EISDIR : string := "is a directory".

(** [os.Stat] as [os.MkdirAll] uses it: nothing on any error. *)
Definition os_Stat (p : bytes) : M Disk (option node) :=
  let! f := os_call in
  match f with Some _ => ret None | None => gets (fun d => node_at (lookup_path p d) d) end.

(** [os.Open] of something to be read. *)
Definition os_Open (p : bytes) : M Disk (result key) :=
  guarded (let! d := get in
    match lookup_path p d with
    | None => ret (Err (path_error "open" p ENOENT))
    | Some k => ret (if bool_decide (is_Some (dk_nodes d !! k)) then Ok k
                     else Err (path_error "open" p ENOENT))
    end).

(** What an open file holds. *)
Definition content_at (k : key) (d : Disk) : result bytes :=
  match dk_nodes d !! k with
  | Some (NFile _ c) => Ok c
  | Some (NDir _) => Err (ErrNew "read: is a directory")
  | _ => Ok []
  end.
Definition os_Read (k : key) : M Disk (result bytes) := guarded (gets (content_at k)).

(** [os.ReadFile]. *)
Definition os_ReadFile (p : bytes) : M Disk (result bytes) :=
  let? k := os_Open p in os_Read k.

(** [os.OpenFile(p, O_CREATE|O_TRUNC|O_WRONLY, mode)]: an existing file keeps its
    mode; a device or a fifo is opened as it is. *)
Definition os_OpenFile (p : bytes) (mode : Z) : M Disk (result key) :=
  guarded (let! d := get in
    match lookup_path p d with
    | None => ret (Err (path_error "open" p ENOENT))
    | Some k =>
        match dk_nodes d !! k with
        | Some (NDir _) => ret (Err (path_error "open" p EISDIR))
        | Some (NFile m _) => modify (set_dk_nodes (<[k := NFile m []]> (dk_nodes d)));;; ret (Ok k)
        | Some NSocket => ret (Err (path_error "open" p "no such device or address"))
        | Some _ => ret (Ok k)
        | None =>
            if is_dir (dk_nodes d !! parent_of k) then
              modify (set_dk_nodes (<[k := NFile (masked mode (dk_umask d)) []]> (dk_nodes d)));;;
              ret (Ok k)
            else ret (Err (path_error "open" p ENOENT))
        end
    end).
Definition os_Create (p : bytes) : M Disk (result key) := os_OpenFile p 438 (* 0666 *).

(** Writing at the end of an open file. *)
Definition append_to (k : key) (data : bytes) (d : Disk) : Disk :=
  set_dk_nodes (match dk_nodes d !! k with
                | Some (NFile m c) => <[k := NFile m (c ++ data)]> (dk_nodes d)
                | _ => dk_nodes d
                end) d.
Definition os_Write (k : key) (data : bytes) : M Disk (option error) :=
  let! n := gets (fun d => dk_short d (env_calls (dk_env d))) in
  let! f := os_call in
  match f with
  | Some e => modify (append_to k (take n data));;; ret (Some e)
  | None => modify (append_to k data);;; ret None
  end.

(** [os.Mkdir]. *)
Definition os_Mkdir (p : bytes) (perm : Z) : M Disk (result unit) :=
  guarded (let! d := get in
    match lookup_entry p d with
    | None => ret (Err (path_error "mkdir" p ENOENT))
    | Some k =>
        match dk_nodes d !! k with
        | Some _ => ret (Err (path_error "mkdir" p EEXIST))
        | None =>
            if is_dir (dk_nodes d !! parent_of k) then
              modify (set_dk_nodes (<[k := NDir (masked perm (dk_umask d))]> (dk_nodes d)));;; ret (Ok tt)
            else ret (Err (path_error "mkdir" p ENOENT))
        end
    end).
Definition os_Lstat_dir (p : bytes) : M Disk bool :=
  let! f := os_call in
  match f with
  | Some _ => ret false
  | None => gets (fun d => is_dir (node_at (lookup_entry p d) d))
  end.

(** [os.MkdirAll]: the parents first.  [fuel] is the number of words left. *)
Fixpoint mkdir_all (fuel : nat) (p : bytes) (perm : Z) : M Disk (result unit) :=
  let! n := os_Stat p in
  match n with
  | Some (NDir _) => ret (Ok tt)
  | Some _ => ret (Err (path_error "mkdir" p ENOTDIR))
  | None =>
      let parent := join [slash] (take (length (words_of p) - 1) (words_of p)) in
      let? _ := match fuel with
                | S fuel' => if decide (parent = []) then ret (Ok tt) else mkdir_all fuel' parent perm
                | O => ret (Ok tt)
                end in
      let! r := os_Mkdir p perm in
      match r with
      | Ok _ => ret (Ok tt)
      | Err e => let! b := os_Lstat_dir p in ret (if b : bool then Ok tt else Err e)
      end
  end.
Definition os_MkdirAll (p : bytes) (perm : Z) : M Disk (result unit) :=
  mkdir_all (length (words_of p)) p perm.

(** ** [filepath.Walk]

    The nodes below a directory with their names relative to it, in lexical
    order, each after its parent; links are not followed, not even at the
    root. *)
Fixpoint bytes_le (a b : bytes) : bool :=
  match a, b with
  | [], _ => true
  | _ :: _, [] => false
  | x :: a', y :: b' =>
      if decide (byte_of x = byte_of y) then bytes_le a' b' else bool_decide (byte_of x < byte_of y)
  end.
Fixpoint key_le (a b : key) : bool :=
  match a, b with
  | [], _ => true
  | _ :: _, [] => false
  | x :: a', y :: b' => if decide (x = y) then key_le a' b' else bytes_le x y
  end.
Definition walk_le (x y : key * node) : Prop := key_le x.1 y.1 = true.
#[export] Instance walk_le_dec : RelDecision walk_le.
Proof. intros x y. unfold walk_le. apply _. Defined.

(** What is left of a key below another one. *)
Fixpoint strip_key (base k : key) : option key :=
  match base, k with
  | [], _ => Some k
  | x :: base', y :: k' => if decide (x = y) then strip_key base' k' else None
  | _ :: _, [] => None
  end.

Definition below (base : key) (nodes : gmap key node) : list (key * node) :=
  merge_sort walk_le
    (omap (fun kn => rel ← strip_key base kn.1; if decide (rel = []) then None else Some (rel, kn.2))
       (map_to_list nodes)).

Definition walk_list (root : bytes) (d : Disk) : result (list (key * node)) :=
  match lookup_entry root d with
  | None => Err (path_error "lstat" root ENOENT)
  | Some k =>
      match dk_nodes d !! k with
      | None => Err (path_error "lstat" root ENOENT)
      | Some (NDir _) => Ok (below k (dk_nodes d))
      | Some _ => Ok []
      end
  end.

(** ** Facts about resolution *)

(** Resolution reads nothing but the links. *)
Definition link_of (n : option node) : option bytes := match n with Some (NLink d) => Some d | _ => None end.
Definition same_links (n1 n2 : gmap key node) : Prop :=
  forall k, link_of (n1 !! k) = link_of (n2 !! k).

#[export] Instance same_links_equivalence : Equivalence same_links.
Proof.
  split; [by intros n k|by intros n1 n2 H k; symmetry; apply H|].
  intros n1 n2 n3 H1 H2 k. by rewrite H1.
Qed.

Lemma resolve_nil links nodes k : resolve links nodes k [] = Some k.
Proof. by destruct links. Qed.
Lemma resolve_skip links nodes k w ws : w = [] \/ w = dot ->
  resolve links nodes k (w :: ws) = resolve links nodes k ws.
Proof. intros Hw. destruct links; cbn; by rewrite decide_True. Qed.
Lemma resolve_up links nodes k ws :
  resolve links nodes k (dotdot :: ws) = resolve links nodes (parent_of k) ws.
Proof. by destruct links. Qed.
Lemma resolve_step links nodes k w ws : w <> [] -> w <> dot -> w <> dotdot ->
  resolve links nodes k (w :: ws) =
  match link_of (nodes !! (k ++ [w])) with
  | Some dest =>
      match links with
      | O => None
      | S links' => resolve links' nodes (if path_IsAbs dest then [] else k) (split_byte slash dest ++ ws)
      end
  | None => resolve links nodes (k ++ [w]) ws
  end.
Proof.
  intros H1 H2 H3. destruct links; cbn; rewrite decide_False, decide_False by tauto;
    by destruct (nodes !! (k ++ [w])) as [[]|].
Qed.

Lemma resolve_same_links links n1 n2 k ws : same_links n1 n2 ->
  resolve links n1 k ws = resolve links n2 k ws.
Proof.
  intros Hl. revert k ws. induction links as [|links IHl]; intros k ws; revert k;
    induction ws as [|w ws IH]; intros k; rewrite ?resolve_nil; try done;
    (destruct (decide (w = [] \/ w = dot)) as [Hw|Hw]; [by rewrite !resolve_skip|]);
    (destruct (decide (w = dotdot)) as [->|Hu]; [by rewrite !resolve_up|]);
    rewrite !resolve_step, Hl by tauto;
    destruct (link_of (n2 !! (k ++ [w]))) as [dest|]; try apply IH; done.
Qed.

(** Names below a place without links resolve to the place itself. *)
Lemma resolve_proper links nodes k segs :
  (forall rel, link_of (nodes !! (k ++ rel)) = None) -> Forall proper segs ->
  resolve links nodes k segs = Some (k ++ segs).
Proof.
  intros Hno Hs. revert k Hno. induction Hs as [|x segs (H1 & H2 & H3 & _) _ IH]; intros k Hno.
  - by rewrite resolve_nil, app_nil_r.
  - rewrite resolve_step, Hno, IH, <- (assoc_L (++)); try done.
    intros rel. rewrite <- (assoc_L (++)). apply Hno.
Qed.

Lemma resolve_below links nodes k0 ws k segs :
  resolve links nodes k0 ws = Some k -> (forall rel, link_of (nodes !! (k ++ rel)) = None) ->
  Forall proper segs -> resolve links nodes k0 (ws ++ segs) = Some (k ++ segs).
Proof.
  intros Hr Hno Hs. revert k0 ws Hr. induction links as [|links IHl]; intros k0 ws; revert k0;
    induction ws as [|w ws IH]; intros k0; rewrite ?resolve_nil; cbn [app];
    try (intros [= <-]; by apply resolve_proper);
    (destruct (decide (w = [] \/ w = dot)) as [Hw|Hw]; [rewrite !resolve_skip by done; apply IH|]);
    (destruct (decide (w = dotdot)) as [->|Hu]; [rewrite !resolve_up; apply IH|]);
    rewrite !resolve_step by tauto;
    destruct (link_of (nodes !! (k0 ++ [w]))); try apply IH; try done.
  rewrite (assoc_L (++)). apply IHl.
Qed.

Lemma lookup_path_same p d d' : dk_cwd d' = dk_cwd d -> same_links (dk_nodes d) (dk_nodes d') ->
  lookup_path p d' = lookup_path p d.
Proof.
  intros Hc Hl. unfold lookup_path, start_of. rewrite Hc. symmetry. by apply resolve_same_links.
Qed.
Lemma lookup_entry_same p d d' : dk_cwd d' = dk_cwd d -> same_links (dk_nodes d) (dk_nodes d') ->
  lookup_entry p d' = lookup_entry p d.
Proof.
  intros Hc Hl. unfold lookup_entry. destruct (last (words_of p)); [|done].
  case_decide; [by apply lookup_path_same|]. unfold start_of. rewrite Hc.
  by rewrite (resolve_same_links _ _ _ _ _ Hl).
Qed.

(** Cleaned paths resolve by their segments. *)
Definition start (r : bool) (d : Disk) : key := if r then [] else dk_cwd d.

Lemma lookup_path_render r L d : Forall kept L ->
  lookup_path (render r L) d = resolve max_links (dk_nodes d) (start r d) L.
Proof.
  intros HL. unfold lookup_path, words_of, start_of. rewrite IsAbs_render, split_render by done.
  fold (start r d). destruct r; cbn [app].
  - rewrite resolve_skip by by left. destruct L; [|done]. by rewrite resolve_skip by by left.
  - destruct L; [|done]. by rewrite resolve_skip by by right.
Qed.

Lemma lookup_entry_render r L x d : Forall kept L -> proper x ->
  lookup_entry (render r (L ++ [x])) d = k ← resolve max_links (dk_nodes d) (start r d) L; Some (k ++ [x]).
Proof.
  intros HL Hx. assert (HLx : Forall kept (L ++ [x])).
  { apply Forall_app. split; [done|]. by apply Forall_singleton, proper_kept. }
  unfold lookup_entry, words_of, start_of. rewrite IsAbs_render, split_render by done.
  fold (start r d).
  assert (Hne : forall {A} (u v : A), match L ++ [x] with [] => u | _ => v end = v) by (by destruct L).
  rewrite Hne, (assoc_L (++)), last_snoc, decide_False by (destruct Hx as (? & ? & ? & _); tauto).
  rewrite length_app, Nat.add_sub, take_app_length' by done.
  destruct r; cbn [app]; [|done]. by rewrite resolve_skip by by left.
Qed.

(** ** Facts about the walk *)

Lemma bytes_le_total a b : bytes_le a b = true \/ bytes_le b a = true.
Proof.
  revert b. induction a as [|x a IH]; intros [|y b]; cbn; auto. case_decide as H1.
  - rewrite decide_True by done. apply IH.
  - rewrite decide_False by done. rewrite !bool_decide_eq_true. lia.
Qed.
Lemma bytes_le_trans a b c : bytes_le a b = true -> bytes_le b c = true -> bytes_le a c = true.
Proof.
  revert b c. induction a as [|x a IH]; intros [|y b] [|z c]; cbn; try done.
  repeat case_decide; rewrite ?bool_decide_eq_true; eauto; lia.
Qed.
Lemma byte_of_inj a b : byte_of a = byte_of b -> a = b.
Proof.
  unfold byte_of. intros H%N2Z.inj.
  by rewrite <- (Ascii.ascii_N_embedding a), <- (Ascii.ascii_N_embedding b), H.
Qed.
Lemma bytes_le_antisym a b : bytes_le a b = true -> bytes_le b a = true -> a = b.
Proof.
  revert b. induction a as [|x a IH]; intros [|y b]; cbn; try done. case_decide as H1.
  - rewrite decide_True by done. intros. f_equal; [by apply byte_of_inj|by apply IH].
  - rewrite decide_False by done. rewrite !bool_decide_eq_true. lia.
Qed.

Lemma key_le_total a b : key_le a b = true \/ key_le b a = true.
Proof.
  revert b. induction a as [|x a IH]; intros [|y b]; cbn; auto. case_decide as H1.
  - rewrite decide_True by done. apply IH.
  - rewrite decide_False by done. apply bytes_le_total.
Qed.
Lemma key_le_antisym a b : key_le a b = true -> key_le b a = true -> a = b.
Proof.
  revert b. induction a as [|x a IH]; intros [|y b]; cbn; try done. case_decide as H1.
  - rewrite decide_True by done. intros. f_equal; [done|by apply IH].
  - rewrite decide_False by done. intros. destruct H1. by apply bytes_le_antisym.
Qed.
Lemma key_le_trans a b c : key_le a b = true -> key_le b c = true -> key_le a c = true.
Proof.
  revert b c. induction a as [|x a IH]; intros [|y b] [|z c]; cbn; try done.
  repeat case_decide; subst; eauto using bytes_le_trans; try done.
  intros H1 H2. by destruct (bytes_le_antisym z y H1 H2).
Qed.
Lemma key_le_app a b : key_le a (a ++ b) = true.
Proof. induction a as [|x a IH]; cbn; [done|]. by rewrite decide_True. Qed.

#[export] Instance walk_le_total : Total walk_le.
Proof. intros x y. apply key_le_total. Qed.
#[export] Instance walk_le_trans : Transitive walk_le.
Proof. intros x y z. apply key_le_trans. Qed.

Lemma strip_key_spec base k rel : strip_key base k = Some rel <-> k = base ++ rel.
Proof.
  revert k. induction base as [|x base IH]; intros k; cbn; [split; congruence|].
  destruct k as [|y k]; [done|]. case_decide as H; [subst; rewrite IH; split; congruence|].
  split; congruence.
Qed.

(** The walk meets every node below the root once, parents first. *)
Lemma below_spec base nodes rel n :
  (rel, n) ∈ below base nodes <-> rel <> [] /\ nodes !! (base ++ rel) = Some n.
Proof.
  unfold below. rewrite merge_sort_Permutation, list_elem_of_omap. split.
  - intros ([k n'] & Hk & Hs). apply elem_of_map_to_list in Hk. cbn in Hs.
    destruct (strip_key base k) as [rel'|] eqn:E; [|done]. apply strip_key_spec in E as ->. cbn in Hs.
    case_decide; [done|]. injection Hs as <- <-. done.
  - intros [Hne Hn]. exists (base ++ rel, n). split; [by apply elem_of_map_to_list|]. cbn.
    rewrite (proj2 (strip_key_spec _ _ rel) eq_refl). cbn. by rewrite decide_False.
Qed.
Lemma below_sorted base nodes : StronglySorted walk_le (below base nodes).
Proof. apply (StronglySorted_merge_sort _). Qed.
