(* ===== verification/Backup.v ===== *)
(** * Backup and restore (src/cmd/carctl/backup.go, restore.go, main.go)

    The archive is a gzipped tar, sealed with AES-GCM under a key derived from a
    passphrase.  HMAC-SHA256, AES-GCM and the tar and gzip formats are a class
    with the laws the program relies on; the file system is that of [Files].
    What the program prints is left out, its exit codes are not. *)

From S2P Require Import Prelude Env Json GoStrings Paths Files.

(** ** The library's formats *)

(** [tar.Header], the fields in use. *)
Record Header := mkHeader { hdr_Name : bytes; hdr_Typeflag : Z; hdr_Mode : Z }.
Definition TypeReg : Z := 48.
Definition TypeSymlink : Z := 50.
Definition TypeDir : Z := 53.

(** What reading an archive gives: entries with their contents, which may end
    early, up to the end or an error. *)
Inductive tar_stream :=
  | TarEnd
  | TarError (e : error)
  | TarEntry (h : Header) (content : bytes) (cut : option error) (rest : tar_stream).

Class Formats := {
  hmac_sha256 : bytes -> bytes -> bytes;              (** key, message *)
  gcm_Seal : bytes -> bytes -> bytes -> bytes -> bytes;  (** key, nonce, plaintext, additional data *)
  gcm_Open : bytes -> bytes -> bytes -> bytes -> option bytes;
  tar_gzip : list (Header * bytes) -> bytes;
  gunzip_tar : bytes -> result tar_stream  (** the error of [gzip.NewReader] *)
}.

(** The stream of what was written. *)
Definition tar_of (entries : list (Header * bytes)) : tar_stream :=
  foldr (fun '(h, c) rest => TarEntry h c None rest) TarEnd entries.

(** What tar stores as it is: a name with something in it that ends in no slash,
    a mode that is no negative number, contents in files only. *)
Definition storable (e : Header * bytes) : Prop :=
  let '(h, content) := e in
  hdr_Name h <> [] /\ ascii_of 0 ∉ hdr_Name h /\ last (hdr_Name h) <> Some slash /\ 0 <= hdr_Mode h /\
  (hdr_Typeflag h = TypeReg \/ content = []).

Class FormatsLaws (F : Formats) := {
  hmac_length k m : length (hmac_sha256 k m) = 32%nat;
  gcm_round k n p a : length k = 32%nat -> length n = 12%nat -> gcm_Open k n (gcm_Seal k n p a) a = Some p;
  gunzip_tar_gzip entries : Forall storable entries -> gunzip_tar (tar_gzip entries) = Ok (tar_of entries)
}.

(** [aes.NewCipher]. *)
Definition aes_NewCipher (key : bytes) : result bytes :=
  if decide (length key = 16 \/ length key = 24 \/ length key = 32)%nat then Ok key
  else Err (ErrNew ("crypto/aes: invalid key size " +:+ Itoa (Z.of_nat (length key)))).

Definition io_EOF : error := ErrSentinel "EOF".
Definition io_ErrUnexpectedEOF : error := ErrSentinel "unexpected EOF".

(** [io.ReadFull] of [n] bytes from what is left of a file. *)
Definition io_ReadFull (n : nat) (data : bytes) : result (bytes * bytes) :=
  if decide (data = []) then Err io_EOF
  else if decide (length data < n)%nat then Err io_ErrUnexpectedEOF
  else Ok (take n data, drop n data).

Section Backup.
Context `{F : Formats}.

(** ** backup.go *)

Definition archiveMagic : bytes := chars "CARBACK01".

Definition deriveKey (pass salt : bytes) : bytes :=
  let prk := hmac_sha256 salt pass in
  hmac_sha256 prk (chars "car-backup-expand" ++ [ascii_of 1]).

Fixpoint trim_newlines (rdata : bytes) : bytes :=
  match rdata with
  | c :: rdata' => if decide (byte_of c = 10 \/ byte_of c = 13) then trim_newlines rdata' else rdata
  | [] => []
  end.

Definition readPassphrase (path : bytes) : M Disk (result bytes) :=
  let? data := os_ReadFile path orelse wrap "read passphrase" in
  let data := rev (trim_newlines (rev data)) in
  ret (if decide (length data < 8)%nat then Err (ErrNew "passphrase too short (min 8 chars)") else Ok data).

(** [tar.FileInfoHeader] with the name replaced. *)
Definition header_of (rel : key) (n : node) : result Header :=
  let name := join [slash] rel in
  match n with
  | NDir m => Ok (mkHeader name TypeDir m)
  | NFile m _ => Ok (mkHeader name TypeReg m)
  | NLink _ => Ok (mkHeader name TypeSymlink 511)
  | NSpecial t m => Ok (mkHeader name t m)
  | NSocket => Err (ErrNew "archive/tar: sockets not supported")
  end.

(** The function that [filepath.Walk] calls, on one entry below the root. *)
Definition archive_one (entries : list (Header * bytes)) (rel : key) (n : node)
    : M Disk (result (list (Header * bytes))) :=
  guarded (match header_of rel n with
  | Err e => ret (Err e)
  | Ok h =>
      match n with
      | NFile _ c => guarded (ret (Ok (entries ++ [(h, c)])))
      | _ => ret (Ok (entries ++ [(h, [])]))
      end
  end).

Fixpoint archive_all (entries : list (Header * bytes)) (l : list (key * node))
    : M Disk (result (list (Header * bytes))) :=
  match l with
  | [] => ret (Ok entries)
  | (rel, n) :: l' => let? entries := archive_one entries rel n in archive_all entries l'
  end.

Definition tarGzipDir (dir : bytes) : M Disk (result bytes) :=
  let? l := guarded (gets (walk_list dir)) in
  let? entries := archive_all [] l in
  ret (Ok (tar_gzip entries)).

Definition write_all (k : key) (data : bytes) : M Disk (result unit) :=
  let! e := os_Write k data in ret (match e with Some e => Err e | None => Ok tt end).

Definition backup (source out pass : bytes) : M Disk (result unit) :=
  let? outFile := os_Create out orelse wrap "create archive" in
  let key := deriveKey pass (chars "car-backup-key") in
  let! nonce := on_disk_env (rand_Read 12) in
  match nonce with
  | None => ret (Err (wrap "nonce" (ErrNew "crypto/rand")))
  | Some nonce =>
      let? _ := write_all outFile archiveMagic in
      let? _ := write_all outFile nonce in
      match aes_NewCipher key with
      | Err e => ret (Err e)
      | Ok block =>
          let? plaintext := tarGzipDir source orelse wrap "read archive stream" in
          write_all outFile (gcm_Seal block nonce plaintext archiveMagic)
      end
  end.

(** ** restore.go *)

Definition isWithin (base dest : bytes) : bool :=
  match path_Rel base dest with
  | None => false
  | Some rel => negb (bool_decide (rel = dotdot) || has_prefix (dotdot ++ [slash]) rel)
  end.

(** [filepath.Join(target, filepath.Clean("/"+hdr.Name))]. *)
Definition destination (target name : bytes) : bytes :=
  let entry := path_Clean (slash :: name) in
  if decide (target = []) then path_Clean entry else path_Join target entry.

(** [io.Copy(f, tr)]. *)
Definition copy_entry (f : key) (content : bytes) (cut : option error) : M Disk (result unit) :=
  let? _ := write_all f content in ret (match cut with Some e => Err e | None => Ok tt end).

Definition extract_one (target : bytes) (h : Header) (content : bytes) (cut : option error)
    : M Disk (result unit) :=
  let dest := destination target (hdr_Name h) in
  if negb (isWithin target dest)
  then ret (Err (ErrNew ("archive entry escapes target: " +:+ text (hdr_Name h))))
  else if decide (hdr_Typeflag h = TypeDir) then os_MkdirAll dest 488 (* 0750 *)
  else if decide (hdr_Typeflag h = TypeSymlink)
  then ret (Err (ErrNew ("symlinks not allowed in archive: " +:+ text (hdr_Name h))))
  else
    let? _ := os_MkdirAll (path_Dir dest) 488 in
    let? f := os_OpenFile dest (Z.land (hdr_Mode h) 493 (* 0755 *)) in
    copy_entry f content cut.

Fixpoint extract (target : bytes) (s : tar_stream) : M Disk (result unit) :=
  match s with
  | TarEnd => ret (Ok tt)
  | TarError e => ret (Err (wrap "tar read" e))
  | TarEntry h content cut rest =>
      let? _ := extract_one target h content cut in
      (* skipping what is left of an entry fails as reading it does *)
      match cut with
      | Some e => ret (Err (wrap "tar read" e))
      | None => extract target rest
      end
  end.

(** Reading [n] bytes of an open file from an offset, and the rest of it. *)
Definition read_full (n : nat) (f : key) (offset : nat) : M Disk (result bytes) :=
  let? data := os_Read f in
  ret (match io_ReadFull n (drop offset data) with Err e => Err e | Ok (b, _) => Ok b end).
Definition read_rest (f : key) (offset : nat) : M Disk (result bytes) :=
  let? data := os_Read f in ret (Ok (drop offset data)).

Definition magic_length : nat := length archiveMagic.
Definition gcm_error : error := ErrNew "cipher: message authentication failed".

Definition restore (in_ target pass : bytes) : M Disk (result unit) :=
  let? inFile := os_Open in_ orelse wrap "open archive" in
  let? magic := read_full magic_length inFile 0 orelse wrap "read magic" in
  if decide (magic <> archiveMagic) then ret (Err (ErrNew "not a CAR backup archive (bad magic)"))
  else
    let? nonce := read_full 12 inFile magic_length orelse wrap "read nonce" in
    match aes_NewCipher (deriveKey pass (chars "car-backup-key")) with
    | Err e => ret (Err e)
    | Ok block =>
        let? ciphertext := read_rest inFile (magic_length + 12) in
        match gcm_Open block nonce ciphertext archiveMagic with
        | None => ret (Err (wrap "decrypt (wrong passphrase or corrupted)" gcm_error))
        | Some plaintext =>
            let? _ := os_MkdirAll target 488 in
            match gunzip_tar plaintext with
            | Err e => ret (Err (wrap "gunzip" e))
            | Ok s => extract target s
            end
        end
    end.

Definition verify (in_ pass : bytes) : M Disk (result unit) :=
  let? inFile := os_Open in_ in
  let? magic := read_full magic_length inFile 0 in
  if decide (magic <> archiveMagic) then ret (Err (ErrNew "bad magic"))
  else
    let? nonce := read_full 12 inFile magic_length in
    let? ciphertext := read_rest inFile (magic_length + 12) in
    match aes_NewCipher (deriveKey pass (chars "car-backup-key")) with
    | Err e => ret (Err e)
    | Ok block =>
        match gcm_Open block nonce ciphertext archiveMagic with
        | None => ret (Err (wrap "decrypt" gcm_error))
        | Some _ => ret (Ok tt)
        end
    end.

(** ** The commands (main.go): flags and exit codes *)

(** [flag.FlagSet.Parse] of text flags: flags come first, [-name value] or
    [-name=value], with one dash or two; the rest of the arguments is left
    over. *)
Fixpoint cut_equals (s : bytes) : bytes * option bytes :=
  match s with
  | [] => ([], None)
  | c :: s' =>
      if decide (byte_of c = 61) then ([], Some s')
      else let '(a, b) := cut_equals s' in (c :: a, b)
  end.

Fixpoint flag_Parse (names : list string) (vals : gmap string bytes) (args : list bytes)
    : option (gmap string bytes) :=
  match args with
  | [] => Some vals
  | arg :: args' =>
      if decide (has_prefix (chars "-") arg = false \/ arg = chars "-") then Some vals
      else if decide (arg = chars "--") then Some vals
      else
        let body := drop (if has_prefix (chars "--") arg then 2 else 1) arg in
        if decide (body = [] \/ has_prefix (chars "-") body = true \/ has_prefix (chars "=") body = true)
        then None
        else
          let '(name, value) := cut_equals body in
          if decide (text name ∈ names) then
            match value, args' with
            | Some v, _ => flag_Parse names (<[text name := v]> vals) args'
            | None, v :: args'' => flag_Parse names (<[text name := v]> vals) args''
            | None, [] => None
            end
          else None
  end.
Definition flag_String (vals : gmap string bytes) (name : string) : bytes := default [] (vals !! name).

Definition exit_code {A} (r : result A) : Z := if is_ok r then 0 else 1.

Definition runBackup (args : list bytes) : M Disk Z :=
  match flag_Parse ["source"; "out"; "passphrase-file"] ∅ args with
  | None => ret 1
  | Some vals =>
      let source := flag_String vals "source" in
      let out := flag_String vals "out" in
      let passFile := flag_String vals "passphrase-file" in
      if decide (source = [] \/ out = []) then ret 1
      else if decide (passFile = []) then ret 1
      else
        let! pass := readPassphrase passFile in
        match pass with
        | Err _ => ret 1
        | Ok pass => let! r := backup source out pass in ret (exit_code r)
        end
  end.

Definition runRestore (args : list bytes) : M Disk Z :=
  match flag_Parse ["in"; "target"; "passphrase-file"] ∅ args with
  | None => ret 1
  | Some vals =>
      let in_ := flag_String vals "in" in
      let target := flag_String vals "target" in
      let passFile := flag_String vals "passphrase-file" in
      if decide (in_ = [] \/ target = []) then ret 1
      else
        let! pass := readPassphrase passFile in
        if decide (passFile = []) then ret 1
        else
          match pass with
          | Err _ => ret 1
          | Ok pass => let! r := restore in_ target pass in ret (exit_code r)
          end
  end.

Definition runVerify (args : list bytes) : M Disk Z :=
  match flag_Parse ["in"; "passphrase-file"] ∅ args with
  | None => ret 1
  | Some vals =>
      let in_ := flag_String vals "in" in
      let passFile := flag_String vals "passphrase-file" in
      if decide (in_ = [] \/ passFile = []) then ret 1
      else
        let! pass := readPassphrase passFile in
        match pass with
        | Err _ => ret 1
        | Ok pass => let! r := verify in_ pass in ret (exit_code r)
        end
  end.

(** [main] on the arguments behind the program's name: the exit code. *)
Definition shows_version (arg : bytes) : bool :=
  bool_decide (arg ∈ chars <$> (dash ← ["-version"; "--version"];
                 value ← [""; "=1"; "=t"; "=T"; "=TRUE"; "=true"; "=True"]; [dash +:+ value])).

Definition carctl_main (args : list bytes) : M Disk Z :=
  match args with
  | [] => ret 1
  | command :: args' =>
      if shows_version command then ret 0
      else if decide (command = chars "backup") then runBackup args'
      else if decide (command = chars "restore") then runRestore args'
      else if decide (command = chars "verify") then runVerify args'
      else if decide (command ∈ chars <$> ["help"; "-h"; "--help"]) then ret 0
      else ret 1
  end.
End Backup.
