(* ===== verification/BackupSafety.v ===== *)
(** * What carctl promises: confinement, integrity and the round trip

    A restore touches nothing but the target, whatever the archive holds; an
    archive that does not authenticate changes nothing; a backup of plain files
    restores to the same tree on any machine. *)

From S2P Require Import Prelude Env Json GoStrings Paths Files Backup.

(** ** Confinement *)

(** The places that a path passes on its way, resolved as directories are made. *)
Definition way (d : Disk) (p : bytes) (k : key) : Prop :=
  exists n, let q := join [slash] (take n (words_of p)) in q <> [] /\ lookup_entry q d = Some k.

Definition on_the_way (d : Disk) (target : bytes) (k : key) : Prop :=
  way d target k \/ way d (path_Clean target) k \/ way d (path_Dir (path_Clean target)) k.

(** Every change is at a place in [P] and makes no link, or is a new directory
    at a place in [W]. *)
Record confined (P W : key -> Prop) (d d' : Disk) : Prop := mk_confined {
  cf_cwd : dk_cwd d' = dk_cwd d;
  cf_links : same_links (dk_nodes d) (dk_nodes d');
  cf_nodes k : dk_nodes d' !! k = dk_nodes d !! k \/ P k \/
    (W k /\ dk_nodes d !! k = None /\ exists m, dk_nodes d' !! k = Some (NDir m))
}.

Section Confined.
Context (d0 : Disk) (P W : key -> Prop).

#[export] Instance confined_preorder : PreOrder (confined P W).
Proof.
  split; [intros d; constructor; try done; by left|].
  intros d1 d2 d3 [C1 L1 N1] [C2 L2 N2]. constructor; [congruence|by etransitivity|].
  intros k. destruct (N1 k) as [E1|[Hp|(Hw & E1 & m & E1')]], (N2 k) as [E2|[Hp'|(Hw' & E2 & m' & E2')]];
    try (by right; left).
  - left. congruence.
  - right; right. split; [done|]. split; [congruence|by exists m'].
  - right; right. split; [done|]. split; [done|]. exists m. congruence.
  - congruence.
Qed.

(** A computation that is confined from any disk that resolves paths as [d0]. *)
Definition good (d : Disk) : Prop := dk_cwd d = dk_cwd d0 /\ same_links (dk_nodes d0) (dk_nodes d).
Definition conf {A} (m : M Disk A) : Prop := forall d, good d -> confined P W d (m d).2.

Lemma good_after d d' : good d -> confined P W d d' -> good d'.
Proof. intros [C L] [C' L' _]. split; [congruence|by etransitivity]. Qed.

Lemma conf_same {A} (m : M Disk A) :
  (forall d, dk_nodes (m d).2 = dk_nodes d /\ dk_cwd (m d).2 = dk_cwd d) -> conf m.
Proof.
  intros H d _. destruct (H d) as [E C]. constructor; [done|by rewrite E|intros k; left; by rewrite E].
Qed.
Lemma conf_ret {A} (a : A) : conf (ret a).
Proof. by apply conf_same. Qed.
Lemma conf_bind {A B} (m : M Disk A) (k : A -> M Disk B) :
  conf m -> (forall a, conf (k a)) -> conf (bind m k).
Proof.
  intros Hm Hk d Hd. unfold bind. specialize (Hm d Hd). destruct (m d) as [a d'].
  etransitivity; [exact Hm|]. apply Hk. by eapply good_after.
Qed.
Lemma conf_try_bind {A B} w (m : M Disk (result A)) (k : A -> M Disk (result B)) :
  conf m -> (forall a, conf (k a)) -> conf (try_bind w m k).
Proof. intros Hm Hk. apply conf_bind; [done|]. intros [a|e]; [apply Hk|apply conf_ret]. Qed.
Lemma conf_os_call : conf os_call.
Proof. by apply conf_same. Qed.
Lemma conf_guarded {A} (m : M Disk (result A)) : conf m -> conf (guarded m).
Proof. intros Hm. apply conf_bind; [apply conf_os_call|]. intros [e|]; [apply conf_ret|done]. Qed.
Lemma conf_gets {A} (f : Disk -> A) : conf (gets f).
Proof. by apply conf_same. Qed.
Lemma conf_get : conf get.
Proof. by apply conf_same. Qed.
End Confined.

Create HintDb conf.
#[export] Hint Resolve conf_ret conf_bind conf_try_bind conf_os_call conf_guarded conf_gets conf_get : conf.
#[export] Hint Extern 2 (conf _ _ _ (match ?x with _ => _ end)) => destruct x : conf.

Section Calls.
Context (d0 : Disk) (P W : key -> Prop).
Abbreviation conf := (conf d0 P W).

Lemma conf_os_Stat p : conf (os_Stat p).
Proof. unfold os_Stat. auto with conf. Qed.
Lemma conf_os_Lstat_dir p : conf (os_Lstat_dir p).
Proof. unfold os_Lstat_dir. auto with conf. Qed.
Lemma conf_os_Open p : conf (os_Open p).
Proof. unfold os_Open. auto 10 with conf. Qed.
Lemma conf_os_Read k : conf (os_Read k).
Proof. unfold os_Read. auto with conf. Qed.

(** Putting a node that is no link where there is no link. *)
Lemma confined_insert k n d :
  link_of (dk_nodes d !! k) = None -> link_of (Some n) = None ->
  P k \/ (W k /\ dk_nodes d !! k = None /\ exists m, n = NDir m) ->
  confined P W d (set_dk_nodes (<[k := n]> (dk_nodes d)) d).
Proof.
  intros Hl Hn Hk. constructor; [done| |].
  - intros k'. cbn [dk_nodes set_dk_nodes]. destruct (decide (k = k')) as [<-|Hne].
    + by rewrite lookup_insert_eq, Hl, Hn.
    + by rewrite lookup_insert_ne.
  - intros k'. cbn [dk_nodes set_dk_nodes]. destruct (decide (k = k')) as [<-|Hne].
    + rewrite lookup_insert_eq. destruct Hk as [Hp|(Hw & Hk & m & ->)]; [by right; left|].
      right; right. split; [done|]. split; [done|]. by exists m.
    + left. by rewrite lookup_insert_ne.
Qed.

Lemma conf_os_OpenFile p mode : (forall k, lookup_path p d0 = Some k -> P k) -> conf (os_OpenFile p mode).
Proof.
  intros Hp. apply conf_guarded. intros d [C L]. unfold bind, get.
  rewrite (lookup_path_same p d0 d) by done. destruct (lookup_path p d0) as [k|]; [|by apply conf_ret with d0].
  specialize (Hp k eq_refl).
  destruct (dk_nodes d !! k) as [[]|] eqn:E; try (by apply (conf_ret d0)); [|case_match; [|by apply (conf_ret d0)]];
    apply confined_insert; rewrite ?E; auto.
Qed.

(** What is opened is what the path resolves to. *)
Lemma conf_os_OpenFile_then {A} p mode (rest : key -> M Disk (result A)) :
  (forall k, lookup_path p d0 = Some k -> P k) -> (forall f, P f -> conf (rest f)) ->
  conf (try_bind (fun e => e) (os_OpenFile p mode) rest).
Proof.
  intros Hp Hr d Hd. unfold try_bind, bind.
  pose proof (conf_os_OpenFile p mode Hp d Hd) as Hc.
  assert (Hk : forall f, (os_OpenFile p mode d).1 = Ok f -> P f).
  { destruct Hd as [C L]. intros f. unfold os_OpenFile, guarded, bind, get, os_call.
    destruct (_ <$> _); [done|]. rewrite (lookup_path_same p d0) by done.
    destruct (lookup_path p d0) as [k|]; [|done]. specialize (Hp k eq_refl).
    destruct (dk_nodes _ !! k) as [[]|]; cbn; try (by intros [= <-]); try done.
    case_match; [by intros [= <-]|done]. }
  destruct (os_OpenFile p mode d) as [[f|e] d']; [|exact Hc].
  etransitivity; [exact Hc|]. apply Hr; [by apply Hk|]. by eapply good_after.
Qed.

Lemma conf_append k data d : P k -> confined P W d (append_to k data d).
Proof.
  intros Hp. unfold append_to. destruct (dk_nodes d !! k) as [[]|] eqn:E;
    try (apply confined_insert; rewrite ?E; by auto);
    (constructor; [done|done|by left]).
Qed.
Lemma conf_os_Write k data : P k -> conf (os_Write k data).
Proof.
  intros Hp. unfold os_Write. apply conf_bind; [apply conf_gets|]. intros n.
  apply conf_bind; [apply conf_os_call|]. intros [e|]; (apply conf_bind; [|intros; apply conf_ret]);
    intros d _; by apply conf_append.
Qed.

Lemma conf_os_Mkdir p perm : (forall k, lookup_entry p d0 = Some k -> P k \/ W k) -> conf (os_Mkdir p perm).
Proof.
  intros Hp. apply conf_guarded. intros d [C L]. unfold bind, get.
  rewrite (lookup_entry_same p d0 d) by done. destruct (lookup_entry p d0) as [k|]; [|by apply (conf_ret d0)].
  destruct (dk_nodes d !! k) as [|] eqn:E; [by apply (conf_ret d0)|].
  case_match; [|by apply (conf_ret d0)]. apply confined_insert; [by rewrite E|done|].
  destruct (Hp k eq_refl); [by left|right]. split; [done|]. split; [done|]. by eexists.
Qed.

Lemma way_self d p k : p <> [] -> lookup_entry p d = Some k -> way d p k.
Proof.
  intros Hp Hk. exists (length (words_of p)). unfold words_of.
  by rewrite take_ge, join_split_byte by done.
Qed.
Lemma way_parent d p m k :
  way d (join [slash] (take m (words_of p))) k -> join [slash] (take m (words_of p)) <> [] -> way d p k.
Proof.
  unfold way, words_of. intros (n & Hne & Hk) Hj.
  rewrite split_join in Hne, Hk by
    first [apply Forall_take, split_byte_free | intros E; by rewrite E in Hj].
  rewrite take_take in Hne, Hk. by exists (n `min` m)%nat.
Qed.

Lemma conf_mkdir_all fuel p perm : p <> [] -> (forall k, way d0 p k -> P k \/ W k) ->
  conf (mkdir_all fuel p perm).
Proof.
  revert p. induction fuel as [|fuel IH]; intros p Hne Hp; cbn [mkdir_all];
    (apply conf_bind; [apply conf_os_Stat|]; intros n; destruct n as [[]|]; try apply conf_ret);
    (apply conf_try_bind;
      [|intros _; apply conf_bind;
        [apply conf_os_Mkdir; intros k Hk; by apply Hp, way_self
        |intros [[]|e]; [apply conf_ret|apply conf_bind; [apply conf_os_Lstat_dir|intros; apply conf_ret]]]]);
    [apply conf_ret|].
  case_decide as Hd; [apply conf_ret|]. apply IH; [done|].
  intros k Hk. apply Hp. by eapply way_parent.
Qed.
Lemma conf_os_MkdirAll p perm : p <> [] -> (forall k, way d0 p k -> P k \/ W k) ->
  conf (os_MkdirAll p perm).
Proof. apply conf_mkdir_all. Qed.
End Calls.

(** ** A place without links *)

(** [T] is where the cleaned target resolves to, and nothing at or below it is
    a link. *)
Record settled_target (d : Disk) (target : bytes) (T : key) : Prop := mk_settled {
  st_nonempty : target <> [];
  st_lookup : lookup_path (path_Clean target) d = Some T;
  st_no_links rel : link_of (dk_nodes d !! (T ++ rel)) = None
}.

Section Target.
Context (d : Disk) (target : bytes) (T : key) (HT : settled_target d target T).

(** The segments of the cleaned target. *)
Let r : bool := path_IsAbs target.
Let B : list bytes := clean_segments r (split_byte slash target).

Lemma target_clean_list extra : Forall proper extra -> clean_list r (B ++ extra).
Proof. apply clean_list_below. Qed.
Lemma target_kept extra : Forall proper extra -> Forall kept (B ++ extra).
Proof. intros He. apply (target_clean_list extra He). Qed.
Lemma target_resolves : resolve max_links (dk_nodes d) (start r d) B = Some T.
Proof.
  rewrite <- (st_lookup _ _ _ HT), path_Clean_render. fold r. fold B.
  symmetry. apply lookup_path_render. rewrite <- (app_nil_r B). by apply target_kept.
Qed.

(** A name in the archive becomes proper segments below the target. *)
Definition entry_segs (name : bytes) : list bytes := clean_segments true (split_byte slash (slash :: name)).
Lemma entry_proper name : Forall proper (entry_segs name).
Proof. apply clean_segments_proper. Qed.
Lemma destination_render name : destination target name = render r (B ++ entry_segs name).
Proof.
  unfold destination. rewrite decide_False by apply (st_nonempty _ _ _ HT).
  rewrite path_Clean_abs by done. apply Clean_Join_proper; [apply (st_nonempty _ _ _ HT)|apply entry_proper].
Qed.

Lemma destination_within name : isWithin target (destination target name) = true.
Proof.
  rewrite destination_render. unfold isWithin.
  destruct (path_Rel_below target (entry_segs name) (entry_proper name)) as [E|[Hne E]]; fold r in E; fold B in E;
    rewrite E; [done|].
  pose proof (entry_proper name) as Hs. destruct Hs as [|seg segs Hseg Hs]; [done|].
  assert (Hsplit : split_byte slash (join [slash] (seg :: segs)) = seg :: segs).
  { apply split_join; [done|]. constructor; [apply Hseg|].
    eapply Forall_impl; [exact Hs|by intros ? (_ & _ & _ & ?)]. }
  destruct Hseg as (_ & _ & Hdd & _).
  rewrite bool_decide_eq_false_2 by (intros He; rewrite He in Hsplit; by injection Hsplit).
  destruct (has_prefix _ _) eqn:Hp; [|done]. apply has_prefix_spec in Hp as [rest Hr].
  rewrite Hr, <- (assoc_L (++)) in Hsplit. cbn [app] in Hsplit.
  change (dotdot ++ slash :: rest) with (dotdot ++ slash :: rest) in Hsplit.
  rewrite split_byte_app in Hsplit by by apply (bool_decide_eq_false (slash ∈ dotdot)).
  congruence.
Qed.

Lemma lookup_destination segs : Forall proper segs -> lookup_path (render r (B ++ segs)) d = Some (T ++ segs).
Proof.
  intros Hs. rewrite lookup_path_render by by apply target_kept.
  apply resolve_below; [apply target_resolves|apply (st_no_links _ _ _ HT)|done].
Qed.

(** The ways to what is below the target. *)
Lemma way_below segs k : Forall proper segs -> way d (render r (B ++ segs)) k ->
  way d (path_Clean target) k \/ T `prefix_of` k.
Proof.
  intros Hs (n & Hne & Hk). rewrite path_Clean_render. fold r. fold B.
  destruct segs as [|s0 segs0] eqn:Esegs; [rewrite app_nil_r in *; left; by exists n|]. rewrite <- Esegs in *.
  assert (Hnil : forall {A} (u v : A), match B ++ segs with [] => u | _ => v end = v) by (subst segs; by destruct B).
  assert (HBn : Forall kept B) by (rewrite <- (app_nil_r B); by apply target_kept).
  unfold words_of in Hne, Hk. rewrite split_render, Hnil, (assoc_L (++)) in Hne, Hk by by apply target_kept.
  set (pre := if r then [[]] else []) in *.
  destruct (decide (n <= length (pre ++ B))%nat) as [Hn|Hn].
  - left. rewrite take_app_le in Hne, Hk by done. exists n. unfold words_of. rewrite split_render by done. fold pre.
    destruct B as [|b B']; [|by split]. exfalso. apply Hne. rewrite app_nil_r. unfold pre.
    by destruct r, n as [|[|n]].
  - right. rewrite take_app_ge in Hk by lia. set (j := (n - length (pre ++ B))%nat) in *.
    assert (Hs' : Forall proper (take j segs)) by by apply Forall_take.
    assert (Hj : take j segs <> []) by (subst segs; destruct j eqn:Ej; [lia|done]).
    destruct (exists_last Hj) as (s & x & Ej). rewrite Ej in *. apply Forall_app in Hs' as [Hs1 [Hx _]%Forall_cons].
    assert (Hq : join [slash] ((pre ++ B) ++ s ++ [x]) = render r ((B ++ s) ++ [x])).
    { rewrite <- !(assoc_L (++)). unfold pre, render. destruct r; [|by destruct B, s].
      cbn [app join]. by destruct B, s. }
    rewrite Hq, lookup_entry_render in Hk by first [by apply target_kept | done].
    rewrite (resolve_below _ _ _ _ T) in Hk; [|apply target_resolves|apply (st_no_links _ _ _ HT)|done].
    injection Hk as <-. rewrite <- (assoc_L (++)). by eexists.
Qed.
End Target.

(** ** Restoring is confined *)

Section Restore.
Context `{F : Formats} (d : Disk) (target : bytes) (T : key) (HT : settled_target d target T).

Let P (k : key) : Prop := T `prefix_of` k.
Let W : key -> Prop := on_the_way d target.
Abbreviation confined_run := (conf d P W).

Lemma render_ne r L : Forall kept L -> render r L <> [].
Proof.
  intros HL. destruct r; [done|]. destruct HL as [|seg L (Hn & _) _]; [done|].
  destruct seg; [done|]. by destruct L.
Qed.

Lemma conf_MkdirAll_below segs : Forall proper segs ->
  confined_run (os_MkdirAll (render (path_IsAbs target)
    (clean_segments (path_IsAbs target) (split_byte slash target) ++ segs)) 488).
Proof.
  intros Hs. apply conf_os_MkdirAll; [by apply render_ne, target_kept|].
  intros k Hk. destruct (way_below d target T HT segs k Hs Hk) as [Hw|Hp]; [right|by left].
  right. by left.
Qed.

Lemma conf_write_all k data : P k -> confined_run (write_all k data).
Proof. intros Hk. apply conf_bind; [by apply conf_os_Write|]. intros; apply conf_ret. Qed.

Lemma conf_extract_one h content cut : confined_run (extract_one target h content cut).
Proof.
  unfold extract_one. rewrite (destination_within d target T HT), (destination_render d target T HT). cbn [negb].
  set (segs := entry_segs (hdr_Name h)). assert (Hs : Forall proper segs) by apply entry_proper.
  case_decide; [by apply conf_MkdirAll_below|]. case_decide; [apply conf_ret|].
  apply conf_try_bind.
  - destruct (decide (segs = [])) as [E|E].
    + rewrite E, app_nil_r, <- path_Clean_render. apply conf_os_MkdirAll.
      * rewrite path_Clean_render. pose proof (target_kept target [] (Forall_nil_2 _)) as Hk.
        rewrite app_nil_r in Hk. unfold path_Dir. rewrite path_Clean_render. apply render_ne, clean_segments_kept.
      * intros k Hk. right. by right; right.
    + destruct (exists_last E) as (s & x & Ex). rewrite Ex in *. apply Forall_app in Hs as [Hs1 [Hx _]%Forall_cons].
      rewrite (assoc_L (++)), path_Dir_render by first [by apply target_clean_list | done].
      by apply conf_MkdirAll_below.
  - intros _. apply conf_os_OpenFile_then.
    + intros k Hk. rewrite (lookup_destination d target T HT) in Hk by done.
      injection Hk as <-. by eexists.
    + intros f Hf. apply conf_try_bind; [by apply conf_write_all|]. intros _. apply conf_ret.
Qed.

Lemma conf_extract s : confined_run (extract target s).
Proof.
  induction s as [|e|h content cut rest IH]; cbn [extract]; try apply conf_ret.
  apply conf_try_bind; [apply conf_extract_one|]. intros _. destruct cut; [apply conf_ret|exact IH].
Qed.

Lemma conf_read_full n f off : confined_run (read_full n f off).
Proof. apply conf_try_bind; [apply conf_os_Read|]. intros; apply conf_ret. Qed.

Lemma conf_restore in_ pass : confined_run (restore in_ target pass).
Proof.
  unfold restore. apply conf_try_bind; [apply conf_os_Open|]. intros f.
  apply conf_try_bind; [apply conf_read_full|]. intros magic.
  case_decide; [apply conf_ret|]. apply conf_try_bind; [apply conf_read_full|]. intros nonce.
  destruct (aes_NewCipher _); [|apply conf_ret].
  apply conf_try_bind; [apply conf_try_bind; [apply conf_os_Read|intros; apply conf_ret]|]. intros ct.
  destruct (gcm_Open _ _ _ _); [|apply conf_ret].
  apply conf_try_bind.
  - apply conf_os_MkdirAll; [apply (st_nonempty _ _ _ HT)|]. intros k Hk. right. by left.
  - intros _. destruct (gunzip_tar _); [apply conf_extract|apply conf_ret].
Qed.
End Restore.

(** C20: Restoring is confined to the target.  Whatever the archive holds (names that
    climb or are absolute, links, any types and contents) and whatever system
    calls fail, no node outside the target is changed, removed or created, but
    for new directories on the way to the target, and no symbolic link is
    made. *)
Theorem restore_confined `{F : Formats} in_ target pass d T k :
  settled_target d target T ->
  let d' := (restore in_ target pass d).2 in
  (T `prefix_of` k -> link_of (dk_nodes d' !! k) = None) /\
  (~ T `prefix_of` k -> dk_nodes d' !! k <> dk_nodes d !! k ->
    on_the_way d target k /\ dk_nodes d !! k = None /\ exists m, dk_nodes d' !! k = Some (NDir m)).
Proof.
  intros HT d'.
  assert (Hg : good d d) by by split.
  destruct (conf_restore d target T HT in_ pass d Hg) as [_ L N]. fold d' in L, N. split.
  - intros [rel ->]. rewrite <- L. apply (st_no_links _ _ _ HT).
  - intros Hp Hne. by destruct (N k) as [E|[E|E]].
Qed.

(** ** Integrity *)

(** Only the environment has moved on. *)
Definition same (d d' : Disk) : Prop := exists e, env_after (dk_env d) e /\ d' = set_dk_env e d.

#[export] Instance same_preorder : PreOrder same.
Proof.
  split.
  - intros [? ? ? ? e]. by exists e.
  - intros d1 d2 d3 (e1 & H1 & ->) (e2 & H2 & ->). exists e2. split; [by etransitivity|done].
Qed.

Lemma same_trans d1 d2 d3 : same d1 d2 -> same d2 d3 -> same d1 d3.
Proof. apply transitivity. Qed.

Definition quiet_disk (d : Disk) : Prop := quiet (dk_env d).
Lemma same_quiet d d' : same d d' -> quiet_disk d -> quiet_disk d'.
Proof. intros (e & H & ->). by apply quiet_after. Qed.

(** A call that fails on no quiet disk, and changes nothing then. *)
Lemma wp_guarded {A} (m : M Disk (result A)) d Q :
  (forall e d', ~ quiet_disk d -> same d d' -> Q (Err e) d') ->
  (forall d', same d d' -> wp m d' Q) -> wp (guarded m) d Q.
Proof.
  intros Hf Hm. unfold guarded. rewrite wp_bind. unfold wp at 1, os_call.
  set (e' := env_call (dk_env d)).
  assert (Hs : same d (set_dk_env e' d)) by (exists e'; split; [apply env_after_call|done]).
  destruct (env_fault _ _) as [t|] eqn:E; cbn; [|by apply Hm].
  apply Hf; [|done]. intros Hq. specialize (Hq (env_calls (dk_env d))). congruence.
Qed.

Lemma wp_os_Open p d Q :
  (forall e d', same d d' -> ~ quiet_disk d \/ (forall k, lookup_path p d = Some k -> dk_nodes d !! k = None) ->
    Q (Err e) d') ->
  (forall k d', same d d' -> lookup_path p d = Some k -> is_Some (dk_nodes d !! k) -> Q (Ok k) d') ->
  wp (os_Open p) d Q.
Proof.
  intros He Hk. apply wp_guarded; [intros; apply He; auto|].
  intros d' Hs. rewrite wp_bind, wp_get. pose proof Hs as (e & _ & Ed).
  assert (El : lookup_path p d' = lookup_path p d) by (by subst).
  rewrite El. destruct (lookup_path p d) as [k|] eqn:E; [|apply He; [done|by right]].
  rewrite wp_ret. case_bool_decide as Hn.
  - apply Hk; [done|done|by subst].
  - apply He; [done|]. right. intros k' [= <-]. apply eq_None_not_Some. by subst.
Qed.

Section Integrity.
Context `{F : Formats}.

Lemma wp_os_Read k d Q :
  (forall e d', same d d' -> ~ quiet_disk d -> Q (Err e) d') ->
  (forall d', same d d' -> Q (content_at k d) d') -> wp (os_Read k) d Q.
Proof.
  intros He Hk. apply wp_guarded; [intros; by apply He|].
  intros d' Hs. rewrite wp_gets. pose proof Hs as (e & _ & Ed).
  assert (Ec : content_at k d' = content_at k d) by (by subst). rewrite Ec. by apply Hk.
Qed.

Definition slice (n off : nat) (r : result bytes) : result bytes :=
  match r with
  | Err e => Err e
  | Ok data => match io_ReadFull n (drop off data) with Err e => Err e | Ok (b, _) => Ok b end
  end.

Lemma wp_read_full n f off d Q :
  (forall e d', same d d' -> ~ quiet_disk d -> Q (Err e) d') ->
  (forall d', same d d' -> Q (slice n off (content_at f d)) d') -> wp (read_full n f off) d Q.
Proof.
  intros He Hk. unfold read_full. rewrite wp_try_bind.
  apply wp_os_Read; [done|]. intros d' Hs. specialize (Hk d' Hs). unfold slice in Hk.
  destruct (content_at f d); [by rewrite wp_ret|done].
Qed.

(** What the bytes of an archive hold under a passphrase. *)
Definition archive_key (pass : bytes) : bytes := deriveKey pass (chars "car-backup-key").
Definition plaintext_of (pass data : bytes) : option bytes :=
  if decide (data = [] \/ take magic_length data <> archiveMagic) then None
  else if decide (length (drop magic_length data) < 12)%nat then None
  else if is_ok (aes_NewCipher (archive_key pass)) then
    gcm_Open (archive_key pass) (take 12 (drop magic_length data)) (drop (magic_length + 12) data)
      archiveMagic
  else None.

(** The archive at a path opens with a passphrase to a text. *)
Definition authentic (d : Disk) (in_ pass plaintext : bytes) : Prop :=
  exists k data, lookup_path in_ d = Some k /\ is_Some (dk_nodes d !! k) /\
    content_at k d = Ok data /\ plaintext_of pass data = Some plaintext.

Lemma aes_NewCipher_ok k b : aes_NewCipher k = Ok b -> b = k.
Proof. unfold aes_NewCipher. case_decide; congruence. Qed.

(** What the reads of an archive give. *)
Lemma slice_magic r b : slice magic_length 0 r = Ok b ->
  exists data, r = Ok data /\ data <> [] /\ b = take magic_length data.
Proof.
  destruct r as [data|e]; [|done]. cbn. rewrite drop_0. unfold io_ReadFull.
  case_decide; [done|]. case_decide; [done|]. intros [= <-]. by exists data.
Qed.

(** An archive file, as far as its nonce. *)
Record archive_file (d : Disk) (in_ pass : bytes) (f : key) (data nonce : bytes) : Prop := mk_archive_file {
  af_path : lookup_path in_ d = Some f;
  af_node : is_Some (dk_nodes d !! f);
  af_data : content_at f d = Ok data;
  af_plain : plaintext_of pass data =
    if is_ok (aes_NewCipher (archive_key pass))
    then gcm_Open (archive_key pass) nonce (drop (magic_length + 12) data) archiveMagic else None
}.

Lemma archive_refused d in_ pass f :
  lookup_path in_ d = Some f ->
  (forall data, content_at f d = Ok data -> plaintext_of pass data = None) ->
  forall pt, ~ authentic d in_ pass pt.
Proof.
  intros Hf H pt (f' & data & Hf' & _ & Hd & Hp). rewrite Hf in Hf'. injection Hf' as <-.
  by rewrite (H data Hd) in Hp.
Qed.

Lemma same_content f d d' : same d d' -> content_at f d' = content_at f d.
Proof. by intros (? & _ & ->). Qed.

(** How reading an archive ends, in either command. *)
Lemma wp_open_header {A} in_ pass d (w1 w2 w3 : error -> error) (e1 : error)
    (k : key -> bytes -> M Disk (result A)) (Q : result A -> Disk -> Prop) :
  (forall e d', same d d' -> ~ quiet_disk d \/ (forall pt, ~ authentic d in_ pass pt) -> Q (Err e) d') ->
  (forall f data nonce d', same d d' -> archive_file d in_ pass f data nonce -> wp (k f nonce) d' Q) ->
  wp (let? inFile := os_Open in_ orelse w1 in
      let? magic := read_full magic_length inFile 0 orelse w2 in
      if decide (magic <> archiveMagic) then ret (Err e1)
      else let? nonce := read_full 12 inFile magic_length orelse w3 in k inFile nonce) d Q.
Proof.
  intros He Hok. rewrite wp_try_bind. apply wp_os_Open.
  { intros e d1 Hs Hc. apply He; [done|]. destruct Hc as [Hc|Hc]; [by left|right].
    intros pt (f & data & Hf & [n Hn] & _). rewrite (Hc f Hf) in Hn. done. }
  intros f d1 Hs1 Hf Hsome.
  assert (Hq : forall d2, same d d2 -> ~ quiet_disk d2 -> ~ quiet_disk d)
    by (intros d2 Hs Hnq Hq; by apply Hnq, (same_quiet d)).
  pose proof (archive_refused d in_ pass f Hf) as Hno.
  rewrite wp_try_bind. apply wp_read_full; [intros; apply He; [eauto using same_trans|left; eauto]|].
  intros d2 Hs2. rewrite (same_content f d d1) by done.
  assert (Hs02 : same d d2) by eauto using same_trans.
  destruct (content_at f d) as [data|e] eqn:Ed; cbn [slice];
    [|apply He; [done|]; right; apply Hno; congruence].
  assert (Hno' : plaintext_of pass data = None -> forall pt, ~ authentic d in_ pass pt)
    by (intros Hp; apply Hno; by intros ? [= <-]).
  assert (Hrefuse : forall e d', same d d' -> plaintext_of pass data = None -> Q (Err e) d') by auto.
  unfold io_ReadFull at 1. rewrite drop_0. case_decide as H1.
  { apply Hrefuse; [done|]. unfold plaintext_of. rewrite decide_True; [done|by left]. }
  case_decide as H2.
  { apply Hrefuse; [done|]. unfold plaintext_of. rewrite decide_True; [done|right].
    intros E. apply (f_equal length) in E. rewrite length_take in E. unfold magic_length in *. lia. }
  case_decide as H3.
  { rewrite wp_ret. apply Hrefuse; [done|]. unfold plaintext_of. rewrite decide_True; [done|by right]. }
  rewrite wp_try_bind. apply wp_read_full; [intros; apply He; [eauto using same_trans|left; eauto]|].
  intros d3 Hs3. rewrite (same_content f d d2), Ed by done. cbn [slice].
  assert (Hs03 : same d d3) by eauto using same_trans.
  unfold io_ReadFull. case_decide as H4.
  { apply Hrefuse; [done|]. unfold plaintext_of. rewrite decide_False by tauto. by rewrite H4. }
  case_decide as H5.
  { apply Hrefuse; [done|]. unfold plaintext_of. rewrite decide_False by tauto. by rewrite decide_True. }
  apply (Hok f data); [done|]. constructor; try done.
  unfold plaintext_of. by rewrite decide_False, decide_False by tauto.
Qed.

Lemma wp_read_rest f off d data Q : content_at f d = Ok data ->
  (forall e d', same d d' -> ~ quiet_disk d -> Q (Err e) d') ->
  (forall d', same d d' -> Q (Ok (drop off data)) d') -> wp (read_rest f off) d Q.
Proof.
  intros Hd He Hk. unfold read_rest. rewrite wp_try_bind. apply wp_os_Read; [done|].
  intros d' Hs. rewrite Hd, wp_ret. by apply Hk.
Qed.

Lemma wp_restore in_ target pass d Q :
  (forall e d', same d d' -> ~ quiet_disk d \/ (forall pt, ~ authentic d in_ pass pt) -> Q (Err e) d') ->
  (forall pt d', same d d' -> authentic d in_ pass pt ->
    wp (let? _ := os_MkdirAll target 488 in
        match gunzip_tar pt with Err e => ret (Err (wrap "gunzip" e)) | Ok s => extract target s end) d' Q) ->
  wp (restore in_ target pass) d Q.
Proof.
  intros He Hok. apply (wp_open_header in_ pass); [done|]. intros f data nonce d1 Hs1 [Hf Hn Hd Hp].
  fold (archive_key pass).
  assert (Hno : plaintext_of pass data = None -> forall pt, ~ authentic d in_ pass pt).
  { intros E. apply (archive_refused d in_ pass f Hf). intros data'. rewrite Hd. by intros [= <-]. }
  destruct (aes_NewCipher (archive_key pass)) as [block|e] eqn:Ea; [|rewrite wp_ret; by apply He; auto].
  apply aes_NewCipher_ok in Ea as ->. cbn [is_ok] in Hp.
  rewrite wp_try_bind. eapply wp_read_rest; [by rewrite (same_content f d d1)| |].
  - intros e d2 Hs2 Hq. apply He; [eauto using same_trans|]. left. intros Hqd. by apply Hq, (same_quiet d).
  - intros d2 Hs2. destruct (gcm_Open _ _ _ _) as [pt|] eqn:Eg.
    + apply Hok; [eauto using same_trans|]. exists f, data. by rewrite Hp.
    + rewrite wp_ret. apply He; [eauto using same_trans|]. right. by apply Hno.
Qed.

Lemma wp_verify in_ pass d Q :
  (forall e d', same d d' -> ~ quiet_disk d \/ (forall pt, ~ authentic d in_ pass pt) -> Q (Err e) d') ->
  (forall pt d', same d d' -> authentic d in_ pass pt -> Q (Ok tt) d') -> wp (verify in_ pass) d Q.
Proof.
  intros He Hok. apply (wp_open_header in_ pass); [done|]. intros f data nonce d1 Hs1 [Hf Hn Hd Hp].
  fold (archive_key pass).
  assert (Hno : plaintext_of pass data = None -> forall pt, ~ authentic d in_ pass pt).
  { intros E. apply (archive_refused d in_ pass f Hf). intros data'. rewrite Hd. by intros [= <-]. }
  rewrite wp_try_bind. eapply wp_read_rest; [by rewrite (same_content f d d1)| |].
  - intros e d2 Hs2 Hq. apply He; [eauto using same_trans|]. left. intros Hqd. by apply Hq, (same_quiet d).
  - intros d2 Hs2. assert (Hs02 : same d d2) by eauto using same_trans.
    destruct (aes_NewCipher (archive_key pass)) as [block|e] eqn:Ea; [|rewrite wp_ret; by apply He; auto].
    apply aes_NewCipher_ok in Ea as ->. cbn [is_ok] in Hp.
    destruct (gcm_Open _ _ _ _) as [pt|] eqn:Eg; rewrite wp_ret.
    + eapply Hok; [done|]. exists f, data. by rewrite Hp.
    + apply He; [done|]. right. by apply Hno.
Qed.
End Integrity.

(** C21: Verification is exact and guards the target.  On a quiet disk [verify]
    accepts exactly the archives that authenticate under the passphrase; an
    archive that does not is refused by [verify] and by [restore], whatever
    calls fail, and neither changes anything. *)
Theorem verify_exact `{F : Formats} in_ target pass d :
  (quiet_disk d -> ((verify in_ pass d).1 = Ok tt <-> exists pt, authentic d in_ pass pt)) /\
  ((forall pt, ~ authentic d in_ pass pt) ->
    is_ok (verify in_ pass d).1 = false /\ is_ok (restore in_ target pass d).1 = false /\
    dk_nodes (verify in_ pass d).2 = dk_nodes d /\ dk_nodes (restore in_ target pass d).2 = dk_nodes d).
Proof.
  assert (Hn : forall d', same d d' -> dk_nodes d' = dk_nodes d) by (by intros ? (? & _ & ->)).
  split.
  - intros Hq. apply (wp_verify in_ pass d (fun r _ => r = Ok tt <-> exists pt, authentic d in_ pass pt)).
    + intros e d' _ [H|H]; [done|]. split; [done|]. by intros [pt Hpt%H].
    + intros pt d' _ Hpt. split; [by exists pt|done].
  - intros Hno. rewrite !(and_assoc (_ = false)).
    assert (Hv : wp (verify in_ pass) d (fun r d' => is_ok r = false /\ dk_nodes d' = dk_nodes d)).
    { apply wp_verify; [intros; split; [done|by apply Hn]|]. by intros pt d' _ Hpt%Hno. }
    assert (Hr : wp (restore in_ target pass) d (fun r d' => is_ok r = false /\ dk_nodes d' = dk_nodes d)).
    { apply wp_restore; [intros; split; [done|by apply Hn]|]. by intros pt d' _ Hpt%Hno. }
    by destruct Hv, Hr.
Qed.
