(* ===== verification/BackupTrip.v ===== *)
(** * The round trip of a backup (src/cmd/carctl/backup.go, restore.go)

    A tree of directories and plain files that is backed up on one machine is
    restored, names and contents, into an empty directory of any other. *)

From S2P Require Import Prelude Env Json GoStrings Paths Files Backup BackupSafety.

(** ** Calls on a quiet disk *)

(** Only the nodes and the environment have moved on. *)
Definition became (n : gmap key node) (d d' : Disk) : Prop :=
  exists e, env_after (dk_env d) e /\ d' = set_dk_nodes n (set_dk_env e d).

Lemma same_became d d' : same d d' -> became (dk_nodes d) d d'.
Proof. unfold same, became. destruct d. done. Qed.
Lemma became_trans n1 n2 d1 d2 d3 : became n1 d1 d2 -> became n2 d2 d3 -> became n2 d1 d3.
Proof. intros (e1 & H1 & ->) (e2 & H2 & ->). exists e2. split; [by etransitivity|done]. Qed.
Lemma became_nodes n d d' : became n d d' -> dk_nodes d' = n.
Proof. by intros (e & _ & ->). Qed.
Lemma became_cwd n d d' : became n d d' -> dk_cwd d' = dk_cwd d.
Proof. by intros (e & _ & ->). Qed.
Lemma became_umask n d d' : became n d d' -> dk_umask d' = dk_umask d.
Proof. by intros (e & _ & ->). Qed.
Lemma became_quiet n d d' : became n d d' -> quiet_disk d -> quiet_disk d'.
Proof. intros (e & H & ->). by apply quiet_after. Qed.
Lemma same_then n d1 d2 d3 : same d1 d2 -> became n d2 d3 -> became n d1 d3.
Proof. intros H%same_became. by apply (became_trans (dk_nodes d1)). Qed.

Section Quiet.
Context (d : Disk) (Hq : quiet_disk d).

Lemma wp_guarded_quiet {A} (m : M Disk (result A)) Q :
  (forall d', same d d' -> wp m d' Q) -> wp (guarded m) d Q.
Proof. intros H. by apply wp_guarded. Qed.

Lemma wp_os_call_quiet Q : (forall d', same d d' -> Q None d') -> wp os_call d Q.
Proof.
  intros H. unfold wp, os_call. rewrite (Hq _). apply H. eexists. split; [apply env_after_call|done].
Qed.

Lemma wp_Stat_quiet p Q :
  (forall d', same d d' -> Q (node_at (lookup_path p d) d) d') -> wp (os_Stat p) d Q.
Proof.
  intros H. unfold os_Stat. rewrite wp_bind. apply wp_os_call_quiet. intros d' Hs. rewrite wp_gets.
  pose proof Hs as (e & _ & E). replace (node_at _ d') with (node_at (lookup_path p d) d) by (by subst).
  by apply H.
Qed.

Lemma wp_Mkdir_quiet p perm k Q :
  lookup_entry p d = Some k -> dk_nodes d !! k = None -> is_dir (dk_nodes d !! parent_of k) = true ->
  (forall d', became (<[k := NDir (masked perm (dk_umask d))]> (dk_nodes d)) d d' -> Q (Ok tt) d') ->
  wp (os_Mkdir p perm) d Q.
Proof.
  intros Hk Hn Hp H. apply wp_guarded_quiet. intros d' (e & He & ->). rewrite wp_bind, wp_get.
  change (lookup_entry p _) with (lookup_entry p d). rewrite Hk. cbn [dk_nodes set_dk_env]. rewrite Hn, Hp.
  wp_simp. apply H. by exists e.
Qed.

(** A file that can be made, or made empty, at [k], and its mode then. *)
Definition creatable (nodes : gmap key node) (k : key) (mode m : Z) : Prop :=
  (exists c, nodes !! k = Some (NFile m c)) \/
  nodes !! k = None /\ is_dir (nodes !! parent_of k) = true /\ m = mode.

Lemma wp_OpenFile_quiet p mode k m Q :
  lookup_path p d = Some k -> creatable (dk_nodes d) k (masked mode (dk_umask d)) m ->
  (forall d', became (<[k := NFile m []]> (dk_nodes d)) d d' -> Q (Ok k) d') ->
  wp (os_OpenFile p mode) d Q.
Proof.
  intros Hk Hc H. apply wp_guarded_quiet. intros d' (e & He & ->). rewrite wp_bind, wp_get.
  change (lookup_path p _) with (lookup_path p d). rewrite Hk. cbn [dk_nodes set_dk_env].
  destruct Hc as [(c & Hn)|(Hn & Hp & ->)]; rewrite Hn, ?Hp; wp_simp; apply H; by exists e.
Qed.

Lemma wp_write_all_quiet k data m c Q :
  dk_nodes d !! k = Some (NFile m c) ->
  (forall d', became (<[k := NFile m (c ++ data)]> (dk_nodes d)) d d' -> Q (Ok tt) d') ->
  wp (write_all k data) d Q.
Proof.
  intros Hk H. unfold write_all, os_Write. wp_simp. apply wp_os_call_quiet. intros d' (e & He & ->). wp_simp.
  apply H. exists e. split; [done|]. unfold append_to. cbn [dk_nodes set_dk_env]. by rewrite Hk.
Qed.

(** A directory that is there is left alone. *)
Lemma wp_mkdir_all_there fuel p perm k m Q :
  lookup_path p d = Some k -> dk_nodes d !! k = Some (NDir m) ->
  (forall d', same d d' -> Q (Ok tt) d') -> wp (mkdir_all fuel p perm) d Q.
Proof.
  intros Hk Hn H. destruct fuel; cbn [mkdir_all]; rewrite wp_bind; apply wp_Stat_quiet; intros d' Hs;
    rewrite Hk; cbn; rewrite Hn, wp_ret; by apply H.
Qed.
End Quiet.

(** A new directory below the target. *)
Section Below.
Context (d : Disk) (Hq : quiet_disk d) (target : bytes) (T : key) (HT : settled_target d target T).
Let r : bool := path_IsAbs target.
Let B : list bytes := clean_segments r (split_byte slash target).

Lemma parent_text s x : Forall proper (s ++ [x]) ->
  let words := words_of (render r (B ++ s ++ [x])) in
  let parent := join [slash] (take (length words - 1) words) in parent = [] \/ parent = render r (B ++ s).
Proof.
  intros Hs words. pose proof (target_kept target _ Hs) as Hk. fold r in Hk. fold B in Hk.
  assert (Hw : words = ((if r then [[]] else []) ++ B ++ s) ++ [x]).
  { unfold words, words_of. rewrite split_render by done. rewrite <- !(assoc_L (++)). f_equal. by destruct B, s. }
  rewrite Hw, length_app, Nat.add_sub, take_app_length' by done.
  destruct r; cbn [app]; [|unfold render; destruct (B ++ s); [by left|by right]].
  destruct (B ++ s) as [|y l]; [by left|by right].
Qed.

Lemma wp_MkdirAll_new s x perm m Q : Forall proper (s ++ [x]) ->
  dk_nodes d !! (T ++ s) = Some (NDir m) -> dk_nodes d !! (T ++ s ++ [x]) = None ->
  (forall d', became (<[T ++ s ++ [x] := NDir (masked perm (dk_umask d))]> (dk_nodes d)) d d' -> Q (Ok tt) d') ->
  wp (os_MkdirAll (render r (B ++ s ++ [x])) perm) d Q.
Proof.
  intros Hs Hp Hn H. pose proof (parent_text s x Hs) as Ht. cbn zeta in Ht.
  pose proof Hs as [Hs1 [Hx _]%Forall_cons]%Forall_app.
  pose proof (lookup_destination d target T HT s Hs1) as Hls. pose proof (lookup_destination d target T HT _ Hs) as Hl.
  fold r in Hls, Hl. fold B in Hls, Hl.
  unfold os_MkdirAll. set (p := render r (B ++ s ++ [x])) in *. generalize (length (words_of p)) at 1.
  assert (Hrest : forall d1, same d d1 ->
    wp (let! r := os_Mkdir p perm in
        match r with
        | Ok _ => ret (Ok tt)
        | Err e => let! b := os_Lstat_dir p in ret (if b : bool then Ok tt else Err e)
        end) d1 Q).
  { intros d1 Hs1'. pose proof Hs1' as (e1 & _ & E1). rewrite wp_bind.
    eapply (wp_Mkdir_quiet d1) with (k := T ++ s ++ [x]); [by eapply same_quiet| |by subst| |].
    - unfold p. rewrite (assoc_L (++)), lookup_entry_render by first [by apply (target_kept target) | done].
      subst d1. change (start r (set_dk_env e1 d)) with (start r d). cbn [dk_nodes set_dk_env].
      pose proof (resolve_below _ _ _ _ T _ (target_resolves d target T HT) (st_no_links _ _ _ HT) Hs1) as Hr.
      fold r in Hr. fold B in Hr. rewrite Hr. cbn [mbind option_bind].
      by rewrite <- (assoc_L (++)).
    - subst d1. cbn. unfold parent_of. rewrite (assoc_L (++)), length_app, Nat.add_sub, take_app_length' by done.
      by rewrite Hp.
    - intros d2 H2. rewrite wp_ret. apply H. apply (same_then _ _ d1); [done|]. by subst d1. }
  intros fuel. destruct fuel as [|fuel]; cbn [mkdir_all]; rewrite wp_bind; apply wp_Stat_quiet; try done;
    intros d1 Hs1'; rewrite Hl; unfold node_at; cbn [mbind option_bind]; rewrite Hn, wp_try_bind.
  - rewrite wp_ret. by apply Hrest.
  - case_decide as Hd; [rewrite wp_ret; by apply Hrest|]. destruct Ht as [Ht|Ht]; [done|]. rewrite Ht.
    pose proof Hs1' as (e1 & _ & E1).
    apply (wp_mkdir_all_there d1) with (k := T ++ s) (m := m); [by eapply same_quiet|by subst|by subst|].
    intros d2 Hs2. apply Hrest. by eapply same_trans.
Qed.
End Below.
(** ** Restoring one entry *)

(** A name that a file may have. *)
Definition file_name (seg : bytes) : Prop := proper seg /\ ascii_of 0 ∉ seg.

(** A node that comes back from an archive, and how it does. *)
Definition plain_node (n : node) : Prop := match n with NDir m | NFile m _ => 0 <= m | _ => False end.
Definition restored (umask : Z) (n : node) : node :=
  match n with
  | NDir _ => NDir (masked 488 umask)
  | NFile m c => NFile (masked (Z.land m 493) umask) c
  | _ => n
  end.

(** Its entry. *)
Definition archived (rn : key * node) : Header * bytes :=
  let name := join [slash] rn.1 in
  match rn.2 with
  | NFile m c => (mkHeader name TypeReg m, c)
  | NDir m => (mkHeader name TypeDir m, [])
  | _ => (mkHeader name TypeSymlink 0, [])
  end.

Section Extract.
Context `{F : Formats} (d : Disk) (Hq : quiet_disk d) (target : bytes) (T : key) (HT : settled_target d target T).

Lemma wp_extract_plain s x n m Q : Forall proper (s ++ [x]) -> plain_node n ->
  dk_nodes d !! (T ++ s) = Some (NDir m) -> dk_nodes d !! (T ++ s ++ [x]) = None ->
  (forall d', became (<[T ++ s ++ [x] := restored (dk_umask d) n]> (dk_nodes d)) d d' -> Q (Ok tt) d') ->
  let '(h, c) := archived (s ++ [x], n) in wp (extract_one target h c None) d Q.
Proof.
  intros Hs Hpl Hp Hn H.
  assert (Hname : hdr_Name (archived (s ++ [x], n)).1 = join [slash] (s ++ [x])) by (by destruct n).
  destruct (archived (s ++ [x], n)) as [h c] eqn:Ea. unfold extract_one.
  rewrite (destination_within d target T HT), (destination_render d target T HT). cbn [negb fst] in Hname |- *.
  unfold entry_segs. rewrite Hname, clean_segments_clean by done.
  destruct n as [mode|mode content| | |]; cbn in Hpl; try done; cbv [archived fst snd] in Ea; injection Ea as <- <-;
    cbn [hdr_Typeflag hdr_Mode].
  - rewrite decide_True by done. by eapply (wp_MkdirAll_new d Hq target T HT).
  - rewrite !decide_False by done. rewrite (assoc_L (++)).
    pose proof Hs as [Hs1 [Hx _]%Forall_cons]%Forall_app.
    rewrite path_Dir_render by first [by apply target_clean_list | done]. rewrite wp_try_bind.
    apply (wp_mkdir_all_there d Hq) with (k := T ++ s) (m := m); [by apply lookup_destination|done|].
    intros d1 Hs1'. pose proof Hs1' as (e1 & _ & E1). rewrite wp_try_bind, <- (assoc_L (++)).
    assert (Hq1 : quiet_disk d1) by by eapply same_quiet.
    eapply (wp_OpenFile_quiet d1) with (k := T ++ s ++ [x]); [done| | |].
    + rewrite <- (lookup_destination d target T HT _ Hs). by subst d1.
    + right. subst d1. cbn. split; [done|]. split; [|done].
      unfold parent_of. rewrite (assoc_L (++)), length_app, Nat.add_sub, take_app_length' by done. by rewrite Hp.
    + intros d2 H2. unfold copy_entry. rewrite wp_try_bind.
      pose proof (became_nodes _ _ _ H2) as En. assert (Hq2 : quiet_disk d2) by by eapply became_quiet.
      eapply (wp_write_all_quiet d2); [done|by rewrite En, lookup_insert_eq|].
      intros d3 H3. rewrite wp_ret. apply H. rewrite En, insert_insert_eq in H3. subst d1.
      apply (same_then _ _ (set_dk_env e1 d)); [done|]. by apply (became_trans _ _ _ d2 _ H2 H3).
Qed.
End Extract.

(** ** Restoring all of them *)

(** A list of entries in which directories come before what is in them. *)
Definition parents_first (l : list (key * node)) : Prop :=
  forall l1 rel n l2, l = l1 ++ (rel, n) :: l2 ->
    plain_node n /\ Forall file_name rel /\ (forall n', (rel, n') ∉ l1) /\
    exists s x, rel = s ++ [x] /\ (s = [] \/ exists m, (s, NDir m) ∈ l1).

(** The entries [l] have been restored below [T] on the disk [e]. *)
Record built (e : Disk) (T : key) (l : list (key * node)) (d : Disk) : Prop := mk_built {
  bt_env : env_after (dk_env e) (dk_env d);
  bt_cwd : dk_cwd d = dk_cwd e;
  bt_umask : dk_umask d = dk_umask e;
  bt_done rel n : (rel, n) ∈ l -> dk_nodes d !! (T ++ rel) = Some (restored (dk_umask e) n);
  bt_rest k : (forall rel n, (rel, n) ∈ l -> k <> T ++ rel) -> dk_nodes d !! k = dk_nodes e !! k
}.

Section Build.
Context `{F : Formats} (e : Disk) (Hq : quiet_disk e) (target : bytes) (T : key).
Context (HT : settled_target e target T) (Hempty : forall rel, rel <> [] -> dk_nodes e !! (T ++ rel) = None).
Context (mT : Z) (HTdir : dk_nodes e !! T = Some (NDir mT)).

Lemma built_start d : same e d -> built e T [] d.
Proof. intros (v & Hv & ->). constructor; try done; by intros ? ? ?%elem_of_nil. Qed.

Lemma built_links l d : Forall (fun rn => rn.1 <> [] /\ plain_node rn.2) l -> built e T l d ->
  same_links (dk_nodes e) (dk_nodes d).
Proof.
  intros Hl HB k. destruct (decide (Exists (fun rn => k = T ++ rn.1) l)) as [([rel n] & Hin & ->)%Exists_exists|Hno].
  - rewrite Forall_forall in Hl. destruct (Hl _ Hin) as [Hne Hp]. cbn in *.
    rewrite (bt_done _ _ _ _ HB rel n Hin), Hempty by done. by destruct n.
  - rewrite (bt_rest _ _ _ _ HB k); [done|]. intros rel n Hin ->. apply Hno, Exists_exists. by exists (rel, n).
Qed.

Lemma built_settled l d : Forall (fun rn => rn.1 <> [] /\ plain_node rn.2) l -> built e T l d ->
  settled_target d target T.
Proof.
  intros Hl HB. pose proof (built_links l d Hl HB) as Hs. constructor.
  - apply (st_nonempty _ _ _ HT).
  - rewrite (lookup_path_same _ e d); [apply (st_lookup _ _ _ HT)|apply (bt_cwd _ _ _ _ HB)|done].
  - intros rel. rewrite <- Hs. apply (st_no_links _ _ _ HT).
Qed.

Lemma built_more l d s x n d' : built e T l d -> (forall n', (s ++ [x], n') ∉ l) ->
  became (<[T ++ s ++ [x] := restored (dk_umask e) n]> (dk_nodes d)) d d' -> built e T (l ++ [(s ++ [x], n)]) d'.
Proof.
  intros [He Hc Hu Hd Hr] Hfresh (v & Hv & ->). constructor; cbn; [by etransitivity|done|done| |].
  - intros rel n' [Hin|[= -> ->]%list_elem_of_singleton]%elem_of_app; [|apply lookup_insert_eq].
    rewrite lookup_insert_ne; [by apply Hd|]. intros E%app_inv_head. subst rel. by apply (Hfresh n').
  - intros k Hk. rewrite lookup_insert_ne.
    + apply Hr. intros rel n' Hin. apply (Hk rel n'). apply elem_of_app. by left.
    + intros <-. apply (Hk (s ++ [x]) n); [|done]. apply elem_of_app. right. by apply list_elem_of_singleton.
Qed.

Lemma wp_extract_all l1 l2 d Q : parents_first (l1 ++ l2) -> built e T l1 d ->
  (forall d', built e T (l1 ++ l2) d' -> Q (Ok tt) d') -> wp (extract target (tar_of (archived <$> l2))) d Q.
Proof.
  revert l1 d. induction l2 as [|[rel n] l2 IH]; intros l1 d Ho HB H.
  - cbn. rewrite wp_ret. apply H. by rewrite app_nil_r.
  - destruct (Ho l1 rel n l2 eq_refl) as (Hpl & Hnames & Hfresh & s & x & -> & Hpar).
    assert (Hl1 : Forall (fun rn => rn.1 <> [] /\ plain_node rn.2) l1).
    { apply Forall_forall. intros [rel' n'] (a & b & ->)%list_elem_of_split.
      destruct (Ho a rel' n' (b ++ (s ++ [x], n) :: l2)) as (Hp & _ & _ & s' & x' & -> & _);
        [by rewrite <- (assoc_L (++))|]. split; [by destruct s'|done]. }
    pose proof (built_settled l1 d Hl1 HB) as HT1.
    assert (Hs : Forall proper (s ++ [x])) by (eapply Forall_impl; [exact Hnames|by intros ? []]).
    assert (Hp : exists m, dk_nodes d !! (T ++ s) = Some (NDir m)).
    { destruct Hpar as [->|[m Hin]]; [|eexists; by rewrite (bt_done _ _ _ _ HB s _ Hin)].
      rewrite app_nil_r, (bt_rest _ _ _ _ HB T); [eauto|]. intros rel' n' Hin E. rewrite Forall_forall in Hl1.
      destruct (Hl1 _ Hin) as [Hne _]. apply Hne. cbn.
      rewrite <- (app_nil_r T) in E at 1. by apply app_inv_head in E. }
    destruct Hp as [m Hp].
    assert (Hn : dk_nodes d !! (T ++ s ++ [x]) = None).
    { rewrite (bt_rest _ _ _ _ HB); [apply Hempty; by destruct s|].
      intros rel' n' Hin E%app_inv_head. subst rel'. by apply (Hfresh n'). }
    pose proof (wp_extract_plain d (quiet_after _ _ (bt_env _ _ _ _ HB) Hq) target T HT1 s x n m) as Hone.
    cbn [fmap list_fmap tar_of foldr]. destruct (archived (s ++ [x], n)) as [h c].
    cbn [extract]. fold (tar_of (archived <$> l2)). rewrite wp_try_bind. apply Hone; try done.
    intros d' Hd'. rewrite (bt_umask _ _ _ _ HB) in Hd'.
    apply (IH (l1 ++ [(s ++ [x], n)])); rewrite <- ?(assoc_L (++)); try done. by eapply built_more.
Qed.
End Build.

(** ** The entries of a source tree *)

(** A directory of directories and plain files, as a file system holds it. *)
Record plain_tree (nodes : gmap key node) (S : key) : Prop := mk_plain_tree {
  pt_root : exists m, nodes !! S = Some (NDir m);
  pt_nodes rel n : nodes !! (S ++ rel) = Some n -> plain_node n /\ Forall file_name rel;
  pt_parents rel x n : nodes !! (S ++ rel ++ [x]) = Some n -> exists m, nodes !! (S ++ rel) = Some (NDir m)
}.

Lemma below_NoDup base nodes : NoDup (below base nodes).
Proof.
  unfold below. rewrite merge_sort_Permutation. pose proof (NoDup_map_to_list nodes) as Hn.
  induction Hn as [|[k n] l Hnew Hn IH]; cbn; [constructor|].
  destruct (strip_key base k) as [rel|] eqn:E; cbn; [|exact IH]. case_decide; [exact IH|].
  constructor; [|exact IH]. intros ([k' n'] & Hin & Hs)%list_elem_of_omap. cbn in Hs.
  destruct (strip_key base k') as [rel'|] eqn:E'; [|done]. cbn in Hs. case_decide; [done|]. injection Hs as -> ->.
  apply strip_key_spec in E as ->, E' as ->. done.
Qed.

Lemma plain_parents_first nodes S : plain_tree nodes S -> parents_first (below S nodes).
Proof.
  intros [_ Hn Hp] l1 rel n l2 E.
  assert (Hin : (rel, n) ∈ below S nodes) by (rewrite E; apply elem_of_app; right; constructor).
  apply below_spec in Hin as [Hne Hrel]. destruct (Hn rel n Hrel) as [Hpl Hnames]. split; [done|]. split; [done|].
  split.
  - intros n' Hin'. assert (En : n' = n).
    { assert (Hb : (rel, n') ∈ below S nodes) by (rewrite E; apply elem_of_app; by left).
      apply below_spec in Hb as [_ Hb]. congruence. }
    subst n'. pose proof (below_NoDup S nodes) as Hnd. rewrite E in Hnd. apply NoDup_app in Hnd as (_ & Hnd & _).
    apply (Hnd _ Hin'). constructor.
  - destruct (exists_last Hne) as (s & x & ->). exists s, x. split; [done|].
    destruct (decide (s = [])) as [->|Hs]; [by left|right]. destruct (Hp s x n Hrel) as [m Hm]. exists m.
    assert (Hb : (s, NDir m) ∈ below S nodes) by by apply below_spec.
    rewrite E in Hb. apply elem_of_app in Hb as [Hb|Hb]; [done|]. exfalso.
    assert (Hsne : s <> s ++ [x]) by (intros Ea; apply (f_equal length) in Ea; rewrite length_app in Ea; cbn in Ea; lia).
    apply elem_of_cons in Hb as [[= Es _]|Hb]; [done|].
    pose proof (below_sorted S nodes) as Hsort. rewrite E in Hsort. apply StronglySorted_app_1_r in Hsort.
    apply StronglySorted_inv in Hsort as [_ Hle]. rewrite Forall_forall in Hle. specialize (Hle _ Hb).
    apply Hsne, key_le_antisym; [apply key_le_app|exact Hle].
Qed.

Section Archive.
Context `{F : Formats} {L : FormatsLaws F}.

Lemma storable_archived rel n : plain_node n -> Forall file_name rel -> rel <> [] -> storable (archived (rel, n)).
Proof.
  intros Hp Hf Hne. assert (Hs : Forall proper rel) by (eapply Forall_impl; [exact Hf|by intros ? []]).
  assert (Hz : ascii_of 0 ∉ join [slash] rel).
  { clear Hs Hne. induction Hf as [|seg rel [_ Hz] Hf IH]; cbn; [apply not_elem_of_nil|].
    destruct rel; [done|]. rewrite not_elem_of_app, not_elem_of_cons. by split_and!. }
  assert (Hl : join [slash] rel <> [] /\ last (join [slash] rel) <> Some slash).
  { destruct (exists_last Hne) as (s & x & ->). apply Forall_app in Hs as [_ [(Hx & _ & _ & Hslash) _]%Forall_cons].
    assert (Ej : exists a, join [slash] (s ++ [x]) = a ++ x).
    { clear. induction s as [|y s [a IH]]; [by exists []|].
      exists (y ++ [slash] ++ a). rewrite <- app_comm_cons. destruct (s ++ [x]) as [|z l] eqn:E; [by destruct s|].
      change (join [slash] (y :: z :: l)) with (y ++ [slash] ++ join [slash] (z :: l)). rewrite IH.
      by rewrite <- !(assoc_L (++)). }
    destruct Ej as [a ->]. destruct (exists_last Hx) as (y & c & ->). split; [by destruct a, y|].
    rewrite (assoc_L (++)), last_snoc. intros [= ->]. apply Hslash, elem_of_app. right. constructor. }
  destruct n; cbn in Hp |- *; try done; (split; [tauto|]); (split; [done|]); (split; [tauto|]); (split; [done|]); auto.
Qed.

Lemma wp_archive_all l entries d Q : quiet_disk d -> Forall (fun rn => plain_node rn.2) l ->
  (forall d', same d d' -> Q (Ok (entries ++ (archived <$> l))) d') -> wp (archive_all entries l) d Q.
Proof.
  intros Hq Hl. revert entries d Hq. induction Hl as [|[rel n] l Hp Hl IH]; intros entries d Hq H; cbn [archive_all].
  - rewrite wp_ret, <- (app_nil_r entries). by apply H.
  - rewrite wp_try_bind. unfold archive_one. apply wp_guarded_quiet; [done|]. intros d1 H1.
    assert (Hq1 : quiet_disk d1) by by eapply same_quiet.
    assert (Hrest : forall d2, same d1 d2 ->
      wp (archive_all (entries ++ [archived (rel, n)]) l) d2 Q).
    { intros d2 H2. apply IH; [by eapply same_quiet|]. intros d3 H3. rewrite <- (assoc_L (++)). apply H.
      eauto using same_trans. }
    destruct n as [m|m c| | |]; cbn in Hp; try done; cbn [header_of].
    + rewrite wp_ret. by apply Hrest.
    + apply wp_guarded_quiet; [done|]. intros d2 H2. rewrite wp_ret. by apply Hrest.
Qed.

(** The archive of a source tree. *)
Lemma wp_tarGzipDir source S d Q : quiet_disk d -> lookup_entry source d = Some S -> plain_tree (dk_nodes d) S ->
  (forall d', same d d' -> Q (Ok (tar_gzip (archived <$> below S (dk_nodes d)))) d') -> wp (tarGzipDir source) d Q.
Proof.
  intros Hq HS HT H. unfold tarGzipDir. rewrite wp_try_bind. apply wp_guarded_quiet; [done|]. intros d1 H1.
  rewrite wp_gets. unfold walk_list. destruct (pt_root _ _ HT) as [m Hm]. pose proof H1 as (v & Hv & E1).
  assert (El : lookup_entry source d1 = Some S) by (by subst).
  assert (En : dk_nodes d1 = dk_nodes d) by (by subst).
  rewrite El, En, Hm, wp_try_bind. apply wp_archive_all; [by eapply same_quiet| |].
  - apply Forall_forall. intros [rel n] [_ Hin]%below_spec. by apply (pt_nodes _ _ HT rel n).
  - intros d2 H2. rewrite wp_ret. apply H. by eapply same_trans.
Qed.

Lemma storable_all nodes S : plain_tree nodes S -> Forall storable (archived <$> below S nodes).
Proof.
  intros HT. apply Forall_fmap, Forall_forall. intros [rel n] [Hne Hin]%below_spec.
  destruct (pt_nodes _ _ HT rel n Hin). by apply storable_archived.
Qed.

(** What is sealed under a passphrase opens under it. *)
Lemma plaintext_of_sealed pass nonce pt : length nonce = 12%nat ->
  plaintext_of pass (archiveMagic ++ nonce ++ gcm_Seal (archive_key pass) nonce pt archiveMagic) = Some pt.
Proof.
  intros Hn. unfold plaintext_of, magic_length. rewrite take_app_length, drop_app_length, decide_False by (by intros []).
  rewrite decide_False by (rewrite length_app; lia).
  assert (Hk : length (archive_key pass) = 32%nat) by apply hmac_length.
  unfold aes_NewCipher. rewrite decide_True by auto. cbn [is_ok].
  rewrite <- drop_drop, drop_app_length, take_app_length' by done.
  rewrite drop_app_length' by done. by apply gcm_round.
Qed.
End Archive.

(** ** The round trip *)

(** What [backup] needs: a tree that an archive can hold, a place for the
    archive outside it, random bytes, and a disk without faults. *)
Record can_backup (d : Disk) (source out : bytes) (S O : key) (m : Z) : Prop := mk_can_backup {
  cb_quiet : quiet_disk d;
  cb_random : forall n, is_Some (env_rand (dk_env d) n);
  cb_source : lookup_entry source d = Some S;
  cb_tree : plain_tree (dk_nodes d) S;
  cb_out : lookup_path out d = Some O;
  cb_place : creatable (dk_nodes d) O (masked 438 (dk_umask d)) m;
  cb_outside : ~ S `prefix_of` O
}.

(** What [restore] needs: an empty directory, also under its cleaned path, and a
    disk without faults. *)
Record clean_target (e : Disk) (target : bytes) (T : key) : Prop := mk_clean_target {
  ct_quiet : quiet_disk e;
  ct_settled : settled_target e target T;
  ct_lookup : lookup_path target e = Some T;
  ct_dir : exists m, dk_nodes e !! T = Some (NDir m);
  ct_empty rel : rel <> [] -> dk_nodes e !! (T ++ rel) = None
}.

(** An archive of the tree at [S]. *)
Definition archive_of `{F : Formats} (pass archive : bytes) (nodes : gmap key node) (S : key) : Prop :=
  exists nonce nodes', length nonce = 12%nat /\ (forall rel, nodes' !! (S ++ rel) = nodes !! (S ++ rel)) /\
    archive = archiveMagic ++ nonce ++
      gcm_Seal (archive_key pass) nonce (tar_gzip (archived <$> below S nodes')) archiveMagic.

Lemma plain_tree_agree n1 n2 S : (forall rel, n1 !! (S ++ rel) = n2 !! (S ++ rel)) ->
  plain_tree n1 S -> plain_tree n2 S.
Proof.
  intros H [Hr Hn Hp]. constructor.
  - pose proof (H []) as H0. rewrite app_nil_r in H0. by rewrite <- H0.
  - intros rel n. rewrite <- H. apply Hn.
  - intros rel x n. rewrite <- !H. apply Hp.
Qed.

Section RoundTrip.
Context `{F : Formats} {L : FormatsLaws F}.

Lemma wp_random n d Q : (forall k, is_Some (env_rand (dk_env d) k)) ->
  (forall nonce d', length nonce = n -> same d d' -> Q (Some nonce) d') -> wp (on_disk_env (rand_Read n)) d Q.
Proof.
  intros Hr H. unfold on_disk_env. rewrite wp_zoom. unfold wp, rand_Read.
  destruct (Hr (env_draws (dk_env d))) as [b ->]. cbn [fmap option_fmap option_map].
  apply H; [apply length_resize|]. eexists. split; [apply env_after_draw|done].
Qed.

(** Growing the archive at [O]. *)
Lemma wp_write_out O m c data d d1 Q : quiet_disk d -> became (<[O := NFile m c]> (dk_nodes d)) d d1 ->
  (forall d', became (<[O := NFile m (c ++ data)]> (dk_nodes d)) d d' -> Q (Ok tt) d') ->
  wp (write_all O data) d1 Q.
Proof.
  intros Hq H1 H. pose proof (became_nodes _ _ _ H1) as E1.
  apply (wp_write_all_quiet d1 (became_quiet _ _ _ H1 Hq) O data m c); [by rewrite E1, lookup_insert_eq|].
  intros d2 H2. rewrite E1, insert_insert_eq in H2. apply H.
  exact (became_trans _ _ _ _ _ H1 H2).
Qed.

Lemma wp_backup source out pass d S O m Q : can_backup d source out S O m ->
  (forall archive d', archive_of pass archive (dk_nodes d) S ->
    became (<[O := NFile m archive]> (dk_nodes d)) d d' -> Q (Ok tt) d') ->
  wp (backup source out pass) d Q.
Proof.
  intros [Hq Hrand HS HT HO Hc Hout] H. unfold backup, os_Create. rewrite wp_try_bind.
  apply (wp_OpenFile_quiet d Hq out 438 O m); [exact HO|exact Hc|]. intros d1 H1. rewrite wp_bind.
  apply wp_random; [destruct H1 as (v & Hv & ->); cbn; by rewrite (after_rand _ _ Hv)|].
  intros nonce d2 Hn H2. apply same_became in H2. rewrite (became_nodes _ _ _ H1) in H2.
  pose proof (became_trans _ _ _ _ _ H1 H2) as H12. clear H1 H2 d1.
  rewrite wp_try_bind. apply (wp_write_out O m [] archiveMagic d d2); [done|done|]. intros d3 H3. rewrite app_nil_l in H3.
  rewrite wp_try_bind. apply (wp_write_out O m archiveMagic nonce d d3); [done|done|]. intros d4 H4.
  fold (archive_key pass).
  assert (Hk : aes_NewCipher (archive_key pass) = Ok (archive_key pass)).
  { unfold aes_NewCipher. rewrite decide_True; [done|]. right; right. apply hmac_length. }
  rewrite Hk, wp_try_bind. pose proof (became_nodes _ _ _ H4) as E4.
  assert (Hagree : forall rel, dk_nodes d4 !! (S ++ rel) = dk_nodes d !! (S ++ rel)).
  { intros rel. rewrite E4, lookup_insert_ne; [done|]. intros ->. apply Hout. by eexists. }
  assert (HS4 : lookup_entry source d4 = Some S).
  { rewrite <- HS. apply lookup_entry_same; [by apply (became_cwd _ _ _ H4)|]. intros k. rewrite E4.
    destruct (decide (k = O)) as [->|Hne]; [|by rewrite lookup_insert_ne].
    rewrite lookup_insert_eq. by destruct Hc as [[c ->]|[-> _]]. }
  apply (wp_tarGzipDir source S d4); [by eapply became_quiet|done| |].
  { by apply (plain_tree_agree (dk_nodes d)). }
  intros d5 H5. apply same_became in H5. rewrite E4 in H5.
  apply (wp_write_out O m (archiveMagic ++ nonce) _ d d5); [done|by apply (became_trans _ _ _ _ _ H4 H5)|].
  intros d6 H6. rewrite <- (assoc_L (++)) in H6.
  eapply H; [|exact H6]. by exists nonce, (dk_nodes d4).
Qed.

Lemma wp_restore_archive in_ target pass e T I mI archive nodes S Q :
  clean_target e target T -> lookup_path in_ e = Some I -> dk_nodes e !! I = Some (NFile mI archive) ->
  plain_tree nodes S -> archive_of pass archive nodes S ->
  (forall e' nodes', (forall rel, nodes' !! (S ++ rel) = nodes !! (S ++ rel)) ->
    built e T (below S nodes') e' -> Q (Ok tt) e') ->
  wp (restore in_ target pass) e Q.
Proof.
  intros [Hq HT Hl [mT HTdir] Hempty] HI HIn Htree (nonce & nodes' & Hlen & Hagree & ->) H.
  assert (Hauth : authentic e in_ pass (tar_gzip (archived <$> below S nodes'))).
  { exists I, (archiveMagic ++ nonce ++ gcm_Seal (archive_key pass) nonce (tar_gzip (archived <$> below S nodes')) archiveMagic).
    unfold content_at. rewrite HIn. split_and!; [done|done|done|]. by apply plaintext_of_sealed. }
  assert (Htree' : plain_tree nodes' S) by by apply (plain_tree_agree nodes).
  apply wp_restore.
  - intros err e' _ [Hn|Hn]; [done|]. by apply Hn in Hauth.
  - intros pt e1 H1 (k & data & Hk & _ & Hd & Hp). destruct Hauth as (k' & data' & Hk' & _ & Hd' & Hp').
    assert (pt = tar_gzip (archived <$> below S nodes')) as -> by congruence. rewrite wp_try_bind.
    pose proof H1 as (v & Hv & E1).
    apply (wp_mkdir_all_there e1 (same_quiet _ _ H1 Hq)) with (k := T) (m := mT); [by subst|by subst|].
    intros e2 H2. rewrite gunzip_tar_gzip by by apply storable_all.
    apply (wp_extract_all e Hq target T HT Hempty mT HTdir [] (below S nodes')).
    + by apply plain_parents_first.
    + apply built_start. by apply (same_trans _ e1).
    + intros e' HB. by apply (H e' nodes').
Qed.
End RoundTrip.

(** C19: What is backed up can be restored.  On a disk without faults the backup of a
    tree of directories and plain files succeeds and writes nothing but the
    archive; that archive restored with the same passphrase into an empty
    directory of any disk gives the same tree: every name of the source, with
    its contents and a narrowed mode, nothing else, and nothing elsewhere. *)
Theorem backup_restores `{F : Formats} {L : FormatsLaws F} source out pass d S O m :
  can_backup d source out S O m ->
  exists archive d', backup source out pass d = (Ok tt, d') /\
    dk_nodes d' = <[O := NFile m archive]> (dk_nodes d) /\
    forall e in_ target T I mI, clean_target e target T ->
      lookup_path in_ e = Some I -> dk_nodes e !! I = Some (NFile mI archive) ->
      exists e', restore in_ target pass e = (Ok tt, e') /\
        (forall rel, rel <> [] ->
          dk_nodes e' !! (T ++ rel) = restored (dk_umask e) <$> dk_nodes d !! (S ++ rel)) /\
        (forall k, k = T \/ ~ T `prefix_of` k -> dk_nodes e' !! k = dk_nodes e !! k).
Proof.
  intros Hb. pose proof (cb_tree _ _ _ _ _ _ Hb) as Htree.
  destruct (wp_exists (backup source out pass) d (fun r d' => r = Ok tt /\ exists archive,
    archive_of pass archive (dk_nodes d) S /\ became (<[O := NFile m archive]> (dk_nodes d)) d d'))
    as (r & d' & Er & -> & archive & Ha & Hd); [apply (wp_backup _ _ _ _ S O m); eauto|].
  exists archive, d'. split; [done|]. split; [by apply became_nodes in Hd|].
  intros e in_ target T I mI Ht HI HIn.
  destruct (wp_exists (restore in_ target pass) e (fun r e' => r = Ok tt /\ exists nodes',
    (forall rel, nodes' !! (S ++ rel) = dk_nodes d !! (S ++ rel)) /\ built e T (below S nodes') e'))
    as (r & e' & Er' & -> & nodes' & Hagree & HB);
    [by apply (wp_restore_archive in_ target pass e T I mI archive (dk_nodes d) S); eauto|].
  exists e'. split; [done|]. split.
  - intros rel Hne. rewrite <- Hagree. destruct (nodes' !! (S ++ rel)) as [n|] eqn:En; cbn.
    + by apply (bt_done _ _ _ _ HB), below_spec.
    + rewrite (bt_rest _ _ _ _ HB); [by apply (ct_empty _ _ _ Ht)|].
      intros rel' n [_ Hin]%below_spec E%app_inv_head. congruence.
  - intros k Hk. apply (bt_rest _ _ _ _ HB). intros rel n [Hne _]%below_spec ->.
    destruct Hk as [Hk|Hk]; [|by apply Hk; eexists].
    rewrite <- (app_nil_r T) in Hk at 2. by apply app_inv_head in Hk.
Qed.
