(* ===== verification/BackupDemo.v ===== *)
(** * A concrete backup

    Formats that satisfy the laws, a small disk, the theorems about carctl at
    work on it, and what the commands do with links. *)

From stdpp Require Import strings countable.
From S2P Require Import Prelude Env Json GoStrings Paths Files Backup BackupSafety BackupTrip.

(** ** Formats for examples *)

#[export] Instance Header_eq_dec : EqDecision Header.
Proof. solve_decision. Defined.
#[export] Program Instance Header_countable : Countable Header :=
  inj_countable' (fun h => (hdr_Name h, hdr_Typeflag h, hdr_Mode h)) (fun '(n, t, m) => mkHeader n t m) _.
Next Obligation. by intros []. Qed.

(** A number in bytes, a bit each. *)
Fixpoint bits_of (p : positive) : bytes :=
  match p with
  | xH => []
  | xO p => ascii_of 48 :: bits_of p
  | xI p => ascii_of 49 :: bits_of p
  end.
Fixpoint of_bits (b : bytes) : positive :=
  match b with
  | [] => xH
  | c :: b => if decide (c = ascii_of 48) then xO (of_bits b) else xI (of_bits b)
  end.
Lemma of_bits_of p : of_bits (bits_of p) = p.
Proof. induction p as [p IH|p IH|]; cbn; [|rewrite decide_True by done|done]; by rewrite IH. Qed.

#[export] Instance demo_formats : Formats := {
  hmac_sha256 k m := resize 32 (ascii_of 0) (m ++ k);
  gcm_Seal k n p a := k ++ p;
  gcm_Open k n c a := if decide (take 32 c = k) then Some (drop 32 c) else None;
  tar_gzip entries := bits_of (encode entries);
  gunzip_tar b := match decode (of_bits b) with Some l => Ok (tar_of l) | None => Err (ErrNew "gzip: invalid header") end
}.
#[export] Instance demo_laws : FormatsLaws demo_formats.
Proof.
  constructor.
  - intros k m. apply length_resize.
  - intros k n p a Hk _. cbn. by rewrite take_app_length', drop_app_length', decide_True by done.
  - intros l _. cbn. by rewrite of_bits_of, decode_encode.
Qed.

(** ** A disk *)

Definition demo_nodes : gmap key node := list_to_map [
  ([], NDir 493);
  ([chars "src"], NDir 493);
  ([chars "src"; chars "car.db"], NFile 384 (chars "rows"));
  ([chars "src"; chars "artifacts"], NDir 493);
  ([chars "src"; chars "artifacts"; chars "a 1"], NFile 420 (chars "blob"));
  ([chars "home"], NDir 493);
  ([chars "home"; chars "pass"], NFile 384 (chars "correct horse" ++ [newline]));
  ([chars "target"], NDir 493)
].
Definition demo_disk_env : Env := mkEnv (fun n => 0) 0 (fun n => Some []) 0 (fun _ => None) 0.
Definition disk_with (nodes : gmap key node) : Disk := mkDisk nodes [chars "home"] 18 (fun _ => 0%nat) demo_disk_env.

Definition arguments (l : list string) : list bytes := chars <$> l.
Definition backup_args : list bytes :=
  arguments ["backup"; "--source=/src"; "-out"; "archive"; "--passphrase-file"; "pass"].
Definition restore_args : list bytes :=
  arguments ["restore"; "--in"; "archive"; "--target=../target/"; "--passphrase-file"; "pass"].

(** The two commands one after the other: the exit codes, and what is below the
    target. *)
Definition backup_then_restore (nodes : gmap key node) : Z * Z * list (key * node) :=
  let '(c1, d1) := carctl_main backup_args (disk_with nodes) in
  let '(c2, d2) := carctl_main restore_args d1 in
  (c1, c2, below [chars "target"] (dk_nodes d2)).

Example demo_round_trip : backup_then_restore demo_nodes = (0, 0, [
  ([chars "artifacts"], NDir 488);
  ([chars "artifacts"; chars "a 1"], NFile 420 (chars "blob"));
  ([chars "car.db"], NFile 384 (chars "rows"))]).
Proof. vm_compute. reflexivity. Qed.

(** ** What the theorems need, checked on a disk *)

#[export] Instance proper_dec seg : Decision (proper seg).
Proof. unfold proper. apply _. Defined.
#[export] Instance plain_dec n : Decision (plain_node n).
Proof. destruct n; cbn; apply _. Defined.
#[export] Instance file_name_dec seg : Decision (file_name seg).
Proof. unfold file_name. apply _. Defined.

Definition is_linkless (n : node) : bool := match n with NLink _ => false | _ => true end.
Lemma no_links (nodes : gmap key node) : bool_decide (map_Forall (fun _ n => is_linkless n = true) nodes) = true ->
  forall k, link_of (nodes !! k) = None.
Proof.
  intros H%bool_decide_eq_true k. destruct (nodes !! k) as [n|] eqn:E; [|done].
  specialize (H k n E). by destruct n.
Qed.

(** A node below a root: plain, well named, in a directory. *)
Definition node_ok (nodes : gmap key node) (base k : key) (n : node) : bool :=
  match strip_key base k with
  | Some rel =>
      bool_decide (plain_node n) && forallb (fun seg => bool_decide (file_name seg)) rel &&
      (bool_decide (rel = []) || is_dir (nodes !! (base ++ take (length rel - 1) rel)))
  | None => true
  end.
Lemma plain_tree_check nodes base : is_dir (nodes !! base) = true ->
  bool_decide (map_Forall (fun k n => node_ok nodes base k n = true) nodes) = true -> plain_tree nodes base.
Proof.
  intros Hr H%bool_decide_eq_true.
  assert (Hn : forall rel n, nodes !! (base ++ rel) = Some n -> plain_node n /\ Forall file_name rel /\
    (rel = [] \/ is_dir (nodes !! (base ++ take (length rel - 1) rel)) = true)).
  { intros rel n E. specialize (H _ _ E). cbn in H. unfold node_ok in H.
    rewrite (proj2 (strip_key_spec base _ rel) eq_refl), !andb_true_iff, orb_true_iff, !bool_decide_eq_true in H.
    destruct H as [[Hp Hf] Hd]. split_and!; [done| |done]. apply Forall_forall. intros seg Hin.
    rewrite forallb_forall in Hf. eapply bool_decide_eq_true, Hf. by apply list_elem_of_In. }
  constructor.
  - destruct (nodes !! base) as [[m| | | |]|]; try done. by exists m.
  - intros rel n E. by destruct (Hn rel n E) as (? & ? & _).
  - intros rel x n E. destruct (Hn _ n E) as (_ & _ & [Hd|Hd]); [by destruct rel|].
    rewrite length_app, Nat.add_sub, take_app_length' in Hd by done.
    destruct (nodes !! (base ++ rel)) as [[m| | | |]|]; try done. by exists m.
Qed.

Lemma demo_quiet nodes : quiet_disk (disk_with nodes).
Proof. done. Qed.

Lemma demo_can_backup : can_backup (disk_with demo_nodes) (chars "/src") (chars "archive")
  [chars "src"] [chars "home"; chars "archive"] 420.
Proof.
  constructor; try done.
  - apply plain_tree_check; vm_compute; reflexivity.
  - right. split_and!; vm_compute; reflexivity.
  - by intros [k [=]].
Qed.

Definition not_below (base k : key) : bool := bool_decide (strip_key base k ∈ [None; Some []]).
Lemma nothing_below (nodes : gmap key node) base : bool_decide (map_Forall (fun k _ => not_below base k = true) nodes) = true ->
  forall rel, rel <> [] -> nodes !! (base ++ rel) = None.
Proof.
  intros H%bool_decide_eq_true rel Hne. destruct (nodes !! (base ++ rel)) as [n|] eqn:E; [|done].
  specialize (H _ n E). cbn in H. unfold not_below in H.
  rewrite (proj2 (strip_key_spec base _ rel) eq_refl), bool_decide_eq_true in H.
  apply elem_of_cons in H as [H|H%list_elem_of_singleton]; [done|]. injection H as ->. done.
Qed.

(** The demo disk with an archive on it. *)
Definition archive_at : key := [chars "home"; chars "archive"].
Definition disk_with_archive (archive : bytes) : Disk :=
  disk_with (<[archive_at := NFile 420 archive]> demo_nodes).

Lemma demo_settled archive : settled_target (disk_with_archive archive) (chars "../target/") [chars "target"].
Proof.
  constructor; [done|vm_compute; reflexivity|]. intros rel. apply no_links. vm_compute. reflexivity.
Qed.
Lemma demo_clean_target archive : clean_target (disk_with_archive archive) (chars "../target/") [chars "target"].
Proof.
  constructor; [done|apply demo_settled|vm_compute; reflexivity|by exists 493|].
  apply nothing_below. vm_compute. reflexivity.
Qed.

(** ** The theorems on it *)

(** The archive of the demo tree restores on the demo disk. *)
Lemma backup_restores_witness :
  exists archive d' e', backup (chars "/src") (chars "archive") (chars "correct horse") (disk_with demo_nodes) = (Ok tt, d') /\
    restore (chars "archive") (chars "../target/") (chars "correct horse") (disk_with_archive archive) = (Ok tt, e') /\
    dk_nodes e' !! [chars "target"; chars "car.db"] = Some (NFile 384 (chars "rows")).
Proof.
  destruct (backup_restores (chars "/src") (chars "archive") (chars "correct horse") (disk_with demo_nodes)
    [chars "src"] [chars "home"; chars "archive"] 420 demo_can_backup) as (archive & d' & Hb & _ & Hr).
  destruct (Hr (disk_with_archive archive) (chars "archive") (chars "../target/") [chars "target"] archive_at 420
    (demo_clean_target archive) eq_refl eq_refl) as (e' & He & Hrel & _).
  exists archive, d', e'. split; [exact Hb|]. split; [exact He|].
  exact (Hrel [chars "car.db"] ltac:(discriminate)).
Defined.

(** An archive whose entries try to climb out of the target. *)
Definition climbing : list (Header * bytes) :=
  [(mkHeader (chars "../../home/pass") TypeReg 511, chars "stolen");
   (mkHeader (chars "/src/car.db") TypeReg 511, []);
   (mkHeader (chars "link") TypeSymlink 511, [])].
Definition sealed (entries : list (Header * bytes)) : bytes :=
  archiveMagic ++ chars "twelve bytes" ++ gcm_Seal (archive_key (chars "correct horse")) (chars "twelve bytes")
    (tar_gzip entries) archiveMagic.

(** Its entries land below the target, its link does not. *)
Lemma restore_confined_witness :
  let r := restore (chars "archive") (chars "../target/") (chars "correct horse") (disk_with_archive (sealed climbing)) in
  r.1 = Err (ErrNew "symlinks not allowed in archive: link") /\
  dk_nodes r.2 !! [chars "target"; chars "home"; chars "pass"] = Some (NFile 493 (chars "stolen")) /\
  link_of (dk_nodes r.2 !! [chars "target"; chars "link"]) = None.
Proof.
  intros r. split; [vm_compute; reflexivity|]. split; [vm_compute; reflexivity|].
  apply (restore_confined (chars "archive") (chars "../target/") (chars "correct horse") _ [chars "target"]
    [chars "target"; chars "link"] (demo_settled (sealed climbing))). by exists [chars "link"].
Defined.

(** The right passphrase verifies, another one changes nothing. *)
Lemma verify_exact_witness :
  let d := disk_with_archive (sealed []) in
  (exists pt, authentic d (chars "archive") (chars "correct horse") pt) /\
  is_ok (restore (chars "archive") (chars "../target/") (chars "wrong horse") d).1 = false /\
  dk_nodes (restore (chars "archive") (chars "../target/") (chars "wrong horse") d).2 = dk_nodes d.
Proof.
  intros d. split.
  - apply (verify_exact (chars "archive") [] (chars "correct horse") d); [done|]. vm_compute. reflexivity.
  - assert (Hno : forall pt, ~ authentic d (chars "archive") (chars "wrong horse") pt).
    { apply (archive_refused d _ _ archive_at); [vm_compute; reflexivity|].
      intros data. cbn. intros [= <-]. vm_compute. reflexivity. }
    pose proof (proj2 (verify_exact (chars "archive") (chars "../target/") (chars "wrong horse") d) Hno)
      as (_ & Hr & _ & Hn). by split.
Defined.

(** ** What it does with links *)

(** A link in the source is archived, and makes the archive one that cannot be
    restored: what comes after it in the walk is lost. *)
Example link_backs_up_but_does_not_restore :
  backup_then_restore (<[[chars "src"; chars "b"] := NLink (chars "car.db")]> demo_nodes) =
  (0, 1, [([chars "artifacts"], NDir 488); ([chars "artifacts"; chars "a 1"], NFile 420 (chars "blob"))]).
Proof. vm_compute. reflexivity. Qed.

(** A source that is itself a link is backed up as nothing, without an error. *)
Example link_as_source_backs_up_nothing :
  backup_then_restore (<[[chars "src"] := NLink (chars "/data")]>
    (<[[chars "data"] := NDir 493]> (<[[chars "data"; chars "car.db"] := NFile 384 []]> demo_nodes))) = (0, 0, []).
Proof. vm_compute. reflexivity. Qed.

(** Restoring does not look whether the target is clean: a link that is there is
    followed out of it. *)
Example unclean_target_leads_outside :
  let nodes := <[[chars "target"; chars "artifacts"] := NLink (chars "/home")]> demo_nodes in
  let d2 := (carctl_main restore_args (carctl_main backup_args (disk_with nodes)).2).2 in
  dk_nodes d2 !! [chars "home"; chars "a 1"] = Some (NFile 420 (chars "blob")).
Proof. vm_compute. reflexivity. Qed.

(** The archive is opened before the source is read: a backup that fails destroys
    the archive of the one before. *)
Example failed_backup_destroys_the_last :
  let d := disk_with_archive (sealed []) in
  let '(code, d') := carctl_main (arguments ["backup"; "--source=/gone"; "-out"; "archive"; "--passphrase-file"; "pass"]) d in
  code = 1 /\ dk_nodes d' !! archive_at = Some (NFile 420 (archiveMagic ++ repeat (ascii_of 0) 12)).
Proof. vm_compute. done. Qed.

(** Only the line ends at the end of the file are trimmed off the passphrase: a
    second line belongs to it. *)
Example passphrase_may_have_lines :
  let d := disk_with (<[[chars "home"; chars "pass"] := NFile 384 (chars "one" ++ [newline] ++ chars "two horses" ++ [newline])]> demo_nodes) in
  (readPassphrase (chars "pass") d).1 = Ok (chars "one" ++ [newline] ++ chars "two horses").
Proof. vm_compute. reflexivity. Qed.
