(* ===== verification/Auth.v ===== *)
(** * Authentication helpers (src/internal/auth/auth.go) *)

From S2P Require Import Prelude Env Json.

(** The constant of [BearerToken]. *)
Definition bearer_prefix : string := "Bearer ".

(** [strings.EqualFold] with a text whose letters fold only within ASCII. *)
Definition equal_fold (a b : bytes) : bool := bool_decide (map fold_ascii a = map fold_ascii b).

Definition BearerToken (header : string) : string :=
  let h := chars header in
  let n := length (chars bearer_prefix) in
  if decide (length h < n)%nat then ""
  else if negb (equal_fold (take n h) (chars bearer_prefix)) then ""
  else text (drop n h).

(** [subtle.ConstantTimeCompare]: the differences of all bytes are collected. *)
Definition ConstantTimeCompare (x y : bytes) : Z :=
  if decide (length x <> length y) then 0
  else
    let v := foldr (fun p v => Z.lor (Z.lxor (byte_of p.1) (byte_of p.2)) v) 0 (zip x y) in
    if decide (v = 0) then 1 else 0.

Definition ConstantTimeEqual (a b : string) : bool :=
  bool_decide (ConstantTimeCompare (chars a) (chars b) = 1).

Lemma compare_bytes (x y : bytes) : length x = length y ->
  foldr (fun p v => Z.lor (Z.lxor (byte_of p.1) (byte_of p.2)) v) 0 (zip x y) = 0 <-> x = y.
Proof.
  revert y. induction x as [|a x IH]; intros [|b y] Hl; cbn in *; try lia; [done|].
  rewrite Z.lor_eq_0_iff, Z.lxor_eq_0_iff, IH by lia. split.
  - intros [Hab ->]. f_equal. unfold byte_of in Hab. apply N2Z.inj in Hab.
    rewrite <- (Ascii.ascii_N_embedding a), <- (Ascii.ascii_N_embedding b). by rewrite Hab.
  - by intros [= -> ->].
Qed.

(** The comparison decides equality, of texts of any lengths. *)
Lemma ConstantTimeEqual_spec a b : ConstantTimeEqual a b = true <-> a = b.
Proof.
  unfold ConstantTimeEqual, ConstantTimeCompare. rewrite bool_decide_eq_true.
  case_decide as Hl.
  - split; [done|]. by intros ->.
  - case_decide as Hv.
    + rewrite compare_bytes in Hv by lia. split; [intros _|done].
      by rewrite <- (text_chars a), <- (text_chars b), Hv.
    + split; [done|]. intros ->. destruct Hv. by apply compare_bytes.
Qed.

(** The scheme may be written in any case; a shorter header has no token. *)
Example bearer_tokens :
  (BearerToken "Bearer abc", BearerToken "bEARER abc", BearerToken "Bearerabc", BearerToken "Basic abc",
   BearerToken "Bearer ") = ("abc", "abc", "", "", "").
Proof. vm_compute. reflexivity. Qed.
