(* ===== verification/Config.v ===== *)
(** * The server configuration (src/internal/config/config.go)

    Durations, loading a JSON file over the defaults, validation, the bind
    address and the data directory.  Reading the file and creating a directory
    are answers of the operating system. *)

From S2P Require Import Prelude Env Json GoStrings JsonText Paths.
From Stdlib Require Import SpecFloat.

(** ** Durations

    [time.ParseDuration]: a sequence of decimal numbers with units.  A fraction
    is scaled in binary64 arithmetic. *)

Definition two63 : Z := 2 ^ 63.

(** [time.quote]. *)
Definition time_quote (s : string) : string :=
  text (ascii_of 34 :: (chars s ≫= fun c =>
    if decide (byte_of c < 32 \/ 128 <= byte_of c) then hex_byte c
    else if decide (byte_of c = 34 \/ byte_of c = 92) then [ascii_of 92; c] else [c]) ++ [ascii_of 34]).

Definition invalid_duration (s : string) : error :=
  ErrNew ("time: invalid duration " +:+ time_quote s).

(** The value and the rest, or nothing on an overflow. *)
Fixpoint leadingInt (x : Z) (s : bytes) : option (Z * bytes) :=
  match s with
  | c :: s' =>
      if is_digit c then
        if decide (two63 / 10 < x) then None
        else
          let x' := x * 10 + (byte_of c - 48) in
          if decide (two63 < x') then None else leadingInt x' s'
      else Some (x, s)
  | [] => Some (x, [])
  end.

(** The value, the power of ten below it and the rest; digits that would
    overflow are skipped. *)
Fixpoint leadingFraction (x scale : Z) (overflow : bool) (s : bytes) : Z * Z * bytes :=
  match s with
  | c :: s' =>
      if is_digit c then
        if overflow then leadingFraction x scale true s'
        else if decide ((two63 - 1) / 10 < x) then leadingFraction x scale true s'
        else
          let y := x * 10 + (byte_of c - 48) in
          if decide (two63 < y) then leadingFraction x scale true s'
          else leadingFraction y (scale * 10) false s'
      else (x, scale, s)
  | [] => (x, scale, [])
  end.

Definition float_of (z : Z) : spec_float := binary_normalize 53 1024 z 0 false.
Definition float_trunc (f : spec_float) : Z :=
  match f with
  | S754_finite s m e => (if s then -1 else 1) * Z.shiftl (Zpos m) e
  | _ => 0
  end.
(** [uint64(float64(f) * (float64(unit) / scale))]. *)
Definition scaled (f unit_ scale : Z) : Z :=
  float_trunc (SFmul 53 1024 (float_of f) (SFdiv 53 1024 (float_of unit_) (float_of scale))).

Definition unitMap (u : string) : option Z :=
  if decide (u = "ns") then Some Nanosecond
  else if decide (u = "us") then Some (1000 * Nanosecond)
  else if decide (u = text [ascii_of 194; ascii_of 181; ascii_of 115]) then Some (1000 * Nanosecond)
  else if decide (u = text [ascii_of 206; ascii_of 188; ascii_of 115]) then Some (1000 * Nanosecond)
  else if decide (u = "ms") then Some Millisecond
  else if decide (u = "s") then Some Second
  else if decide (u = "m") then Some Minute
  else if decide (u = "h") then Some Hour
  else None.

(** The characters of a unit: up to a digit or a dot. *)
Definition in_unit (c : Ascii.ascii) : bool := negb (is_digit c || bool_decide (byte_of c = 46)).
Fixpoint span_unit (s : bytes) : bytes * bytes :=
  match s with
  | c :: s' => if in_unit c then let '(u, r) := span_unit s' in (c :: u, r) else ([], s)
  | [] => ([], [])
  end.

(** One number with its unit, added to [d]. *)
Definition duration_step (orig : string) (d : Z) (s : bytes) : result (Z * bytes) :=
  let bad := Err (invalid_duration orig) in
  match s with
  | c :: _ =>
      if negb (is_digit c || bool_decide (byte_of c = 46)) then bad
      else
        match leadingInt 0 s with
        | None => bad
        | Some (v, s1) =>
            let pre := negb (length s1 =? length s)%nat in
            let '(f, scale, s2, post) :=
              match s1 with
              | c1 :: s1' =>
                  if decide (byte_of c1 = 46) then
                    let '(f, scale, s2) := leadingFraction 0 1 false s1' in
                    (f, scale, s2, negb (length s2 =? length s1')%nat)
                  else (0, 1, s1, false)
              | [] => (0, 1, s1, false)
              end in
            if negb pre && negb post then bad
            else
              let '(u, s3) := span_unit s2 in
              match u with
              | [] => Err (ErrNew ("time: missing unit in duration " +:+ time_quote orig))
              | _ =>
                  match unitMap (text u) with
                  | None => Err (ErrNew ("time: unknown unit " +:+ time_quote (text u) +:+
                                         " in duration " +:+ time_quote orig))
                  | Some unit_ =>
                      if decide (two63 / unit_ < v) then bad
                      else
                        let v := v * unit_ in
                        let v := if decide (0 < f) then v + scaled f unit_ scale else v in
                        if decide (0 < f /\ two63 < v) then bad
                        else
                          let d := (d + v) mod 2 ^ 64 in
                          if decide (two63 < d) then bad else Ok (d, s3)
                  end
              end
        end
  | [] => Ok (d, [])
  end.

Fixpoint duration_loop (fuel : nat) (orig : string) (d : Z) (s : bytes) : result Z :=
  match s, fuel with
  | [], _ | _, O => Ok d
  | _, S fuel =>
      match duration_step orig d s with
      | Err e => Err e
      | Ok (d, s') => duration_loop fuel orig d s'
      end
  end.

Definition ParseDuration (orig : string) : result Z :=
  let s := chars orig in
  let '(neg, s) := match s with
                   | c :: s' => if decide (byte_of c = 45) then (true, s')
                                else if decide (byte_of c = 43) then (false, s') else (false, s)
                   | [] => (false, s)
                   end in
  if decide (s = [ascii_of 48]) then Ok 0
  else if decide (s = []) then Err (invalid_duration orig)
  else
    match duration_loop (length s) orig 0 s with
    | Err e => Err e
    | Ok d =>
        if neg then Ok (wrap64 (- d))
        else if decide (two63 - 1 < d) then Err (invalid_duration orig) else Ok d
    end.

Example durations :
  (ParseDuration "1h15m30.918s", ParseDuration "-1.5h", ParseDuration "0", ParseDuration "+.5s",
   ParseDuration "9223372036854775807ns", is_ok (ParseDuration "9223372036854775808ns"),
   ParseDuration "3", ParseDuration "3x") =
  (Ok 4530918000000, Ok (-5400000000000), Ok 0, Ok 500000000, Ok max_int64, false,
   Err (ErrNew (dq "time: missing unit in duration '3'")),
   Err (ErrNew (dq "time: unknown unit 'x' in duration '3x'"))).
Proof. vm_compute. reflexivity. Qed.

(** ** Decoding over defaults

    A type error is saved and decoding goes on; an error of an [UnmarshalJSON]
    method stops it. *)
Inductive decoded (A : Type) : Type :=
  | Decoded (a : A) (saved : option error)
  | Fatal (e : error).
Arguments Decoded {A} a saved.
Arguments Fatal {A} e.

Definition decoder (A : Type) : Type := json -> A -> decoded A.

Definition first_error (a b : option error) : option error :=
  match a with Some e => Some e | None => b end.

(** A leaf: an error keeps the old value. *)
Definition leaf {A} (assign : json -> A -> result A) : decoder A := fun v old =>
  match assign v old with Ok a => Decoded a None | Err e => Decoded old (Some e) end.

Definition at_field {A X} (get : A -> X) (set : X -> A -> A) (d : decoder X) : decoder A := fun v a =>
  match d v (get a) with Decoded x s => Decoded (set x a) s | Fatal e => Fatal e end.

Definition find_field {A} (fields : list (string * decoder A)) (k : string) : option (decoder A) :=
  snd <$> (snd <$> list_find (fun f => names k f.1 = true) fields).

Fixpoint dec_members {A} (fields : list (string * decoder A)) (p : payload) (a : A)
    (saved : option error) : decoded A :=
  match p with
  | [] => Decoded a saved
  | (k, v) :: p' =>
      match find_field fields k with
      | None => dec_members fields p' a saved
      | Some d =>
          match d v a with
          | Decoded a' s => dec_members fields p' a' (first_error saved s)
          | Fatal e => Fatal e
          end
      end
  end.

Definition dec_struct {A} (field go_type : string) (fields : list (string * decoder A)) : decoder A :=
  fun v a =>
    match v with
    | JNull => Decoded a None
    | JObj p => dec_members fields p a None
    | _ => Decoded a (Some (type_error v field go_type))
    end.

(** Element [i] over the old element [i]. *)
Fixpoint dec_elems {A} (zero : A) (d : decoder A) (l : list json) (old : list A) : decoded (list A) :=
  match l with
  | [] => Decoded [] None
  | v :: l' =>
      match d v (default zero (head old)) with
      | Fatal e => Fatal e
      | Decoded a s =>
          match dec_elems zero d l' (tail old) with
          | Fatal e => Fatal e
          | Decoded r s' => Decoded (a :: r) (first_error s s')
          end
      end
  end.
Definition dec_slice {A} (field go_type : string) (zero : A) (d : decoder A) : decoder (list A) :=
  fun v old =>
    match v with
    | JNull => Decoded [] None
    | JArr l => dec_elems zero d l old
    | _ => Decoded old (Some (type_error v field go_type))
    end.

(** A map of strings, in key order. *)
Fixpoint insert_entry (k v : string) (m : list (string * string)) : list (string * string) :=
  match m with
  | [] => [(k, v)]
  | (k1, v1) :: m1 =>
      match String.compare k k1 with
      | Lt => (k, v) :: m
      | Eq => (k, v) :: m1
      | Gt => (k1, v1) :: insert_entry k v m1
      end
  end.
Fixpoint dec_entries (field : string) (p : payload) (m : list (string * string)) (saved : option error)
    : decoded (list (string * string)) :=
  match p with
  | [] => Decoded m saved
  | (k, v) :: p' =>
      match assign_string field v "" with
      | Ok s => dec_entries field p' (insert_entry k s m) saved
      | Err e => dec_entries field p' (insert_entry k "" m) (first_error saved (Some e))
      end
  end.
Definition dec_string_map (field : string) : decoder (list (string * string)) := fun v old =>
  match v with
  | JNull => Decoded [] None
  | JObj p => dec_entries field p old None
  | _ => Decoded old (Some (type_error v field "map[string]string"))
  end.

(** [Duration.UnmarshalJSON]: a number of nanoseconds or a text; null is the
    number zero. *)
Definition Duration_UnmarshalJSON (v : json) : result Z :=
  match v with
  | JNull => Ok 0
  | JStr s =>
      match ParseDuration s with
      | Ok d => Ok d
      | Err e => Err (wrap ("invalid duration " +:+ strconv_Quote s) e)
      end
  | JNum n =>
      if decide (min_int64 <= n <= max_int64) then Ok n
      else Err (wrap (dq "duration must be a number or a string like '30s'")
                  (ErrNew "json: cannot unmarshal number into Go value of type string"))
  | _ => Err (wrap (dq "duration must be a number or a string like '30s'")
                (ErrNew ("json: cannot unmarshal " +:+ json_kind v +:+ " into Go value of type string")))
  end.
Definition dec_duration : decoder Z := fun v _ =>
  match Duration_UnmarshalJSON v with Ok d => Decoded d None | Err e => Fatal e end.

Definition dec_string (field : string) : decoder string := leaf (assign_string field).
Definition dec_int (field : string) : decoder Z := leaf (assign_int field).
Definition dec_bool (field : string) : decoder bool := leaf (assign_bool field).
Definition dec_strings (field : string) : decoder (list string) :=
  dec_slice field "[]string" "" (dec_string field).

(** ** The configuration *)

Record AdapterConfig := mkAdapterConfig {
  ac_ID : string; ac_ExecPath : string; ac_SupportedVersions : string;
  ac_Env : list (string * string); ac_MCPPermPath : string }.

Record ServerConfig := mkServerConfig {
  sv_Host : string; sv_Port : Z; sv_ReadTimeout : Z; sv_WriteTimeout : Z; sv_ShutdownTimeout : Z }.

Record StorageConfig := mkStorageConfig {
  st_Type : string; st_DataSource : string; st_MaxOpenConns : Z; st_MaxIdleConns : Z;
  st_ConnLifetime : Z }.

Record config_ExecutionPolicy := mkExecutionPolicy {
  xp_AllowNetworkAccess : bool; xp_AllowWrites : bool; xp_AllowedCommands : list string }.

Record WorkspaceConfig := mkWorkspaceConfig {
  wc_ID : string; wc_DisplayName : string; wc_Path : string; wc_AllowedAdapters : list string;
  wc_ExecutionPolicy : config_ExecutionPolicy }.

Record SecurityConfig := mkSecurityConfig {
  sec_APIToken : string; sec_TokenExpiry : Z; sec_RequireApprovalForWrites : bool;
  sec_RedactionPatterns : list string; sec_AllowedOrigin : string }.

Record LoggingConfig := mkLoggingConfig { lg_Level : string; lg_Format : string; lg_Output : string }.

Record Config := mkConfig {
  cfg_Server : ServerConfig; cfg_Storage : StorageConfig; cfg_Workspaces : list WorkspaceConfig;
  cfg_Security : SecurityConfig; cfg_Logging : LoggingConfig; cfg_Adapters : list AdapterConfig }.

Definition DefaultConfig : Config :=
  mkConfig (mkServerConfig "127.0.0.1" 8080 (30 * Second) (30 * Second) (30 * Second))
    (mkStorageConfig "sqlite" "data/car.db" 1 1 0) []
    (mkSecurityConfig "" (24 * Hour) true [] "")
    (mkLoggingConfig "info" "text" "stdout") [].

Definition dec_adapter : decoder AdapterConfig :=
  dec_struct "Config.adapters" "config.AdapterConfig"
    [("id", at_field ac_ID (fun x '(mkAdapterConfig _ e v m p) => mkAdapterConfig x e v m p)
              (dec_string "AdapterConfig.adapters.id"));
     ("exec_path", at_field ac_ExecPath (fun x '(mkAdapterConfig i _ v m p) => mkAdapterConfig i x v m p)
              (dec_string "AdapterConfig.adapters.exec_path"));
     ("supported_versions", at_field ac_SupportedVersions
              (fun x '(mkAdapterConfig i e _ m p) => mkAdapterConfig i e x m p)
              (dec_string "AdapterConfig.adapters.supported_versions"));
     ("env", at_field ac_Env (fun x '(mkAdapterConfig i e v _ p) => mkAdapterConfig i e v x p)
              (dec_string_map "AdapterConfig.adapters.env"));
     ("mcp_perm_path", at_field ac_MCPPermPath (fun x '(mkAdapterConfig i e v m _) => mkAdapterConfig i e v m x)
              (dec_string "AdapterConfig.adapters.mcp_perm_path"))].

Definition dec_server : decoder ServerConfig :=
  dec_struct "Config.server" "config.ServerConfig"
    [("host", at_field sv_Host (fun x '(mkServerConfig _ p r w s) => mkServerConfig x p r w s)
                (dec_string "ServerConfig.server.host"));
     ("port", at_field sv_Port (fun x '(mkServerConfig h _ r w s) => mkServerConfig h x r w s)
                (dec_int "ServerConfig.server.port"));
     ("read_timeout", at_field sv_ReadTimeout (fun x '(mkServerConfig h p _ w s) => mkServerConfig h p x w s)
                dec_duration);
     ("write_timeout", at_field sv_WriteTimeout (fun x '(mkServerConfig h p r _ s) => mkServerConfig h p r x s)
                dec_duration);
     ("shutdown_timeout", at_field sv_ShutdownTimeout
                (fun x '(mkServerConfig h p r w _) => mkServerConfig h p r w x) dec_duration)].

Definition dec_storage : decoder StorageConfig :=
  dec_struct "Config.storage" "config.StorageConfig"
    [("type", at_field st_Type (fun x '(mkStorageConfig _ d o i l) => mkStorageConfig x d o i l)
                (dec_string "StorageConfig.storage.type"));
     ("data_source", at_field st_DataSource (fun x '(mkStorageConfig t _ o i l) => mkStorageConfig t x o i l)
                (dec_string "StorageConfig.storage.data_source"));
     ("max_open_conns", at_field st_MaxOpenConns (fun x '(mkStorageConfig t d _ i l) => mkStorageConfig t d x i l)
                (dec_int "StorageConfig.storage.max_open_conns"));
     ("max_idle_conns", at_field st_MaxIdleConns (fun x '(mkStorageConfig t d o _ l) => mkStorageConfig t d o x l)
                (dec_int "StorageConfig.storage.max_idle_conns"));
     ("conn_lifetime", at_field st_ConnLifetime (fun x '(mkStorageConfig t d o i _) => mkStorageConfig t d o i x)
                dec_duration)].

Definition dec_policy : decoder config_ExecutionPolicy :=
  dec_struct "WorkspaceConfig.workspaces.execution_policy" "config.ExecutionPolicy"
    [("allow_network_access", at_field xp_AllowNetworkAccess
        (fun x '(mkExecutionPolicy _ w c) => mkExecutionPolicy x w c)
        (dec_bool "ExecutionPolicy.workspaces.execution_policy.allow_network_access"));
     ("allow_writes", at_field xp_AllowWrites (fun x '(mkExecutionPolicy n _ c) => mkExecutionPolicy n x c)
        (dec_bool "ExecutionPolicy.workspaces.execution_policy.allow_writes"));
     ("allowed_commands", at_field xp_AllowedCommands (fun x '(mkExecutionPolicy n w _) => mkExecutionPolicy n w x)
        (dec_strings "ExecutionPolicy.workspaces.execution_policy.allowed_commands"))].

Definition dec_workspace : decoder WorkspaceConfig :=
  dec_struct "Config.workspaces" "config.WorkspaceConfig"
    [("id", at_field wc_ID (fun x '(mkWorkspaceConfig _ d p a e) => mkWorkspaceConfig x d p a e)
              (dec_string "WorkspaceConfig.workspaces.id"));
     ("display_name", at_field wc_DisplayName (fun x '(mkWorkspaceConfig i _ p a e) => mkWorkspaceConfig i x p a e)
              (dec_string "WorkspaceConfig.workspaces.display_name"));
     ("path", at_field wc_Path (fun x '(mkWorkspaceConfig i d _ a e) => mkWorkspaceConfig i d x a e)
              (dec_string "WorkspaceConfig.workspaces.path"));
     ("allowed_adapters", at_field wc_AllowedAdapters
              (fun x '(mkWorkspaceConfig i d p _ e) => mkWorkspaceConfig i d p x e)
              (dec_strings "WorkspaceConfig.workspaces.allowed_adapters"));
     ("execution_policy", at_field wc_ExecutionPolicy
              (fun x '(mkWorkspaceConfig i d p a _) => mkWorkspaceConfig i d p a x) dec_policy)].

Definition dec_security : decoder SecurityConfig :=
  dec_struct "Config.security" "config.SecurityConfig"
    [("api_token", at_field sec_APIToken (fun x '(mkSecurityConfig _ e q r o) => mkSecurityConfig x e q r o)
        (dec_string "SecurityConfig.security.api_token"));
     ("token_expiry", at_field sec_TokenExpiry (fun x '(mkSecurityConfig t _ q r o) => mkSecurityConfig t x q r o)
        dec_duration);
     ("require_approval_for_writes", at_field sec_RequireApprovalForWrites
        (fun x '(mkSecurityConfig t e _ r o) => mkSecurityConfig t e x r o)
        (dec_bool "SecurityConfig.security.require_approval_for_writes"));
     ("redaction_patterns", at_field sec_RedactionPatterns
        (fun x '(mkSecurityConfig t e q _ o) => mkSecurityConfig t e q x o)
        (dec_strings "SecurityConfig.security.redaction_patterns"));
     ("allowed_origin", at_field sec_AllowedOrigin
        (fun x '(mkSecurityConfig t e q r _) => mkSecurityConfig t e q r x)
        (dec_string "SecurityConfig.security.allowed_origin"))].

Definition dec_logging : decoder LoggingConfig :=
  dec_struct "Config.logging" "config.LoggingConfig"
    [("level", at_field lg_Level (fun x '(mkLoggingConfig _ f o) => mkLoggingConfig x f o)
        (dec_string "LoggingConfig.logging.level"));
     ("format", at_field lg_Format (fun x '(mkLoggingConfig l _ o) => mkLoggingConfig l x o)
        (dec_string "LoggingConfig.logging.format"));
     ("output", at_field lg_Output (fun x '(mkLoggingConfig l f _) => mkLoggingConfig l f x)
        (dec_string "LoggingConfig.logging.output"))].

Definition zero_adapter : AdapterConfig := mkAdapterConfig "" "" "" [] "".
Definition zero_workspace : WorkspaceConfig :=
  mkWorkspaceConfig "" "" "" [] (mkExecutionPolicy false false []).

Definition config_fields : list (string * decoder Config) :=
  [("server", at_field cfg_Server (fun x '(mkConfig _ t w e l a) => mkConfig x t w e l a) dec_server);
   ("storage", at_field cfg_Storage (fun x '(mkConfig s _ w e l a) => mkConfig s x w e l a) dec_storage);
   ("workspaces", at_field cfg_Workspaces (fun x '(mkConfig s t _ e l a) => mkConfig s t x e l a)
      (dec_slice "Config.workspaces" "[]config.WorkspaceConfig" zero_workspace dec_workspace));
   ("security", at_field cfg_Security (fun x '(mkConfig s t w _ l a) => mkConfig s t w x l a) dec_security);
   ("logging", at_field cfg_Logging (fun x '(mkConfig s t w e _ a) => mkConfig s t w e x a) dec_logging);
   ("adapters", at_field cfg_Adapters (fun x '(mkConfig s t w e l _) => mkConfig s t w e l x)
      (dec_slice "Config.adapters" "[]config.AdapterConfig" zero_adapter dec_adapter))].

Definition decode_Config (raw : RawMessage) (cfg : Config) : result Config :=
  match raw with
  | RawEmpty => Err (ErrNew "unexpected end of JSON input")
  | RawInvalid why => Err (ErrNew why)
  | RawJSON JNull => Ok cfg
  | RawJSON (JObj p) =>
      match dec_members config_fields p cfg None with
      | Decoded c None => Ok c
      | Decoded _ (Some e) | Fatal e => Err e
      end
  | RawJSON v => Err (ErrNew ("json: cannot unmarshal " +:+ json_kind v +:+
                              " into Go value of type config.Config"))
  end.

(** [file] is what reading the path gives. *)
Definition LoadConfig (path : string) (file : result bytes) : result Config :=
  if decide (path = "") then Err (ErrNew "config path cannot be empty")
  else match file with
       | Err e => Err (wrap "reading config file" e)
       | Ok data =>
           match decode_Config (json_raw (text data)) DefaultConfig with
           | Err e => Err (wrap "parsing config" e)
           | Ok cfg => Ok cfg
           end
       end.

(** ** Validation *)

Definition check (failed : bool) (message : string) : list string := if failed then [message] else [].
Definition empty (s : string) : bool := bool_decide (s = "").

Definition workspace_entry (i : nat) : string := "workspaces[" +:+ Itoa (Z.of_nat i) +:+ "].".

Fixpoint Validate_workspaces (i : nat) (workspaceIDs : gset string) (l : list WorkspaceConfig)
    : list string :=
  match l with
  | [] => []
  | ws :: l' =>
      check (empty (wc_ID ws)) (workspace_entry i +:+ "id cannot be empty") ++
      check (bool_decide (wc_ID ws ∈ workspaceIDs))
        (workspace_entry i +:+ "id '" +:+ wc_ID ws +:+ "' is duplicated") ++
      check (empty (wc_DisplayName ws)) (workspace_entry i +:+ "display_name cannot be empty") ++
      check (empty (wc_Path ws)) (workspace_entry i +:+ "path cannot be empty") ++
      check (negb (filepath_IsAbs (wc_Path ws)))
        (workspace_entry i +:+ "path must be absolute, got '" +:+ wc_Path ws +:+ "'") ++
      Validate_workspaces (S i) ({[wc_ID ws]} ∪ workspaceIDs) l'
  end.

Definition validLevels : list string := ["debug"; "info"; "warn"; "error"].
Definition validFormats : list string := ["json"; "text"].

Definition Validate_server (s : ServerConfig) : list string :=
  check (empty (sv_Host s)) "server.host cannot be empty" ++
  check (bool_decide (sv_Port s < 1 \/ 65535 < sv_Port s))
    ("server.port must be between 1 and 65535, got " +:+ Itoa (sv_Port s)) ++
  check (bool_decide (sv_ReadTimeout s < 0)) "server.read_timeout cannot be negative" ++
  check (bool_decide (sv_WriteTimeout s < 0)) "server.write_timeout cannot be negative" ++
  check (bool_decide (sv_ShutdownTimeout s < 0)) "server.shutdown_timeout cannot be negative".

Definition Validate_storage (s : StorageConfig) : list string :=
  check (empty (st_Type s)) "storage.type cannot be empty" ++
  check (bool_decide (st_Type s <> "sqlite" /\ st_Type s <> "postgres"))
    ("storage.type must be 'sqlite' or 'postgres', got '" +:+ st_Type s +:+ "'") ++
  check (empty (st_DataSource s)) "storage.data_source cannot be empty" ++
  check (bool_decide (st_MaxOpenConns s < 0)) "storage.max_open_conns cannot be negative" ++
  check (bool_decide (st_MaxIdleConns s < 0)) "storage.max_idle_conns cannot be negative" ++
  check (bool_decide (st_MaxOpenConns s < st_MaxIdleConns s /\ 0 < st_MaxOpenConns s))
    "storage.max_idle_conns cannot exceed storage.max_open_conns".

Definition Validate_security (s : SecurityConfig) : list string :=
  check (empty (sec_APIToken s)) "security.api_token cannot be empty" ++
  check (String.length (sec_APIToken s) <? 16)%nat "security.api_token must be at least 16 characters" ++
  check (bool_decide (sec_TokenExpiry s < Minute)) "security.token_expiry must be at least 1 minute".

Definition Validate_logging (l : LoggingConfig) : list string :=
  check (bool_decide (strings_ToLower (lg_Level l) ∉ validLevels))
    ("logging.level must be 'debug', 'info', 'warn', or 'error', got '" +:+ lg_Level l +:+ "'") ++
  check (bool_decide (strings_ToLower (lg_Format l) ∉ validFormats))
    ("logging.format must be 'json' or 'text', got '" +:+ lg_Format l +:+ "'").

Definition Config_Validate (c : Config) : option error :=
  let errs := Validate_server (cfg_Server c) ++ Validate_storage (cfg_Storage c) ++
              Validate_security (cfg_Security c) ++ Validate_logging (cfg_Logging c) ++
              Validate_workspaces 0 ∅ (cfg_Workspaces c) in
  match errs with
  | [] => None
  | _ => Some (ErrNew (text (chars "configuration validation failed:" ++
           newline :: chars "  - " ++ join (newline :: chars "  - ") (map chars errs))))
  end.

(** [net.JoinHostPort]: an IPv6 address is put in brackets. *)
Definition ServerConfig_Address (c : ServerConfig) : string :=
  (if strings_Contains (sv_Host c) ":" then "[" +:+ sv_Host c +:+ "]" else sv_Host c)
  +:+ ":" +:+ Itoa (sv_Port c).

(** The directory to create, if any; [mkdir] is what creating it answers. *)
Definition StorageConfig_dir (c : StorageConfig) : option string :=
  if decide (st_Type c <> "sqlite") then None
  else let dir := text (path_Dir (chars (st_DataSource c))) in
       if decide (dir = "." \/ dir = "") then None else Some dir.
Definition StorageConfig_EnsureDir (c : StorageConfig) (mkdir : string -> option string)
    : option error :=
  dir ← StorageConfig_dir c; ErrNew <$> mkdir dir.

(** ** What validation accepts *)

Record valid_config (c : Config) : Prop := mk_valid_config {
  vc_host : sv_Host (cfg_Server c) <> "";
  vc_port : 1 <= sv_Port (cfg_Server c) <= 65535;
  vc_timeouts : 0 <= sv_ReadTimeout (cfg_Server c) /\ 0 <= sv_WriteTimeout (cfg_Server c) /\
    0 <= sv_ShutdownTimeout (cfg_Server c);
  vc_storage : st_Type (cfg_Storage c) = "sqlite" \/ st_Type (cfg_Storage c) = "postgres";
  vc_data : st_DataSource (cfg_Storage c) <> "";
  vc_pool : 0 <= st_MaxOpenConns (cfg_Storage c) /\ 0 <= st_MaxIdleConns (cfg_Storage c) /\
    (st_MaxOpenConns (cfg_Storage c) = 0 \/
     st_MaxIdleConns (cfg_Storage c) <= st_MaxOpenConns (cfg_Storage c));
  vc_token : (16 <= String.length (sec_APIToken (cfg_Security c)))%nat;
  vc_expiry : Minute <= sec_TokenExpiry (cfg_Security c);
  vc_level : strings_ToLower (lg_Level (cfg_Logging c)) ∈ validLevels;
  vc_format : strings_ToLower (lg_Format (cfg_Logging c)) ∈ validFormats;
  vc_ids : NoDup (wc_ID <$> cfg_Workspaces c);
  vc_workspaces : Forall (fun ws => wc_ID ws <> "" /\ wc_DisplayName ws <> "" /\
    filepath_IsAbs (wc_Path ws) = true) (cfg_Workspaces c)
}.

Lemma check_nil b m : check b m = [] <-> b = false.
Proof. by destruct b. Qed.
Lemma check_ok (P : Prop) `{Decision P} m : check (bool_decide P) m = [] <-> ~ P.
Proof. rewrite check_nil. apply bool_decide_eq_false. Qed.

Lemma Validate_workspaces_nil l : forall i ids, Validate_workspaces i ids l = [] <->
  NoDup (wc_ID <$> l) /\ Forall (fun ws => wc_ID ws ∉ ids) l /\
  Forall (fun ws => wc_ID ws <> "" /\ wc_DisplayName ws <> "" /\ filepath_IsAbs (wc_Path ws) = true) l.
Proof.
  induction l as [|ws l IH]; intros i ids; cbn [Validate_workspaces].
  { split; [|done]. intros _. split; [constructor|]. by split. }
  rewrite !app_nil, IH. unfold empty. rewrite !check_ok, check_nil, negb_false_iff.
  rewrite fmap_cons, NoDup_cons, !Forall_cons. rewrite list_elem_of_fmap.
  assert (Hp : filepath_IsAbs (wc_Path ws) = true -> wc_Path ws <> "").
  { intros H E. rewrite E in H. discriminate H. }
  split.
  - intros (H1 & H2 & H3 & H4 & H5 & H6 & H7 & H8). rewrite Forall_forall in H7.
    split; [split; [|done]|].
    + intros (w & Hw & Hin). specialize (H7 w Hin). set_solver.
    + split; [split; [done|]|done]. apply Forall_forall. intros w Hin. specialize (H7 w Hin). set_solver.
  - intros ((H1 & H2) & (H3 & H4) & (H5 & H6 & H7) & H8).
    split; [done|]. split; [done|]. split; [done|]. split; [auto|]. split; [done|].
    split; [done|]. split; [|done]. rewrite Forall_forall in H4 |- *. intros w Hin.
    specialize (H4 w Hin). intros [Hx|Hx]%elem_of_union; [|done].
    apply elem_of_singleton in Hx. apply H1. by exists w.
Qed.

(** C38: validation accepts exactly the well-formed configurations: a host, a
    port that exists, timeouts that are not negative, a known storage with a
    data source and a consistent pool, a token of at least 16 bytes that lives
    at least a minute, known logging settings up to case, and workspaces with
    distinct ids, names and absolute paths. *)
Theorem Validate_exact c : Config_Validate c = None <-> valid_config c.
Proof.
  unfold Config_Validate. set (errs := _ ++ _).
  transitivity (errs = []); [by destruct errs|]. subst errs.
  unfold Validate_server, Validate_storage, Validate_security, Validate_logging, empty.
  rewrite !app_nil, Validate_workspaces_nil, !check_ok, check_nil, Nat.ltb_ge.
  split.
  - intros H. constructor; try tauto; try lia.
    + destruct (decide (st_Type (cfg_Storage c) = "sqlite")); [by left|].
      destruct (decide (st_Type (cfg_Storage c) = "postgres")); [by right|]. tauto.
    + apply dec_stable. tauto.
    + apply dec_stable. tauto.
  - intros [H1 H2 H3 H4 H5 H6 H7 H8 H9 H10 H11 H12].
    assert (Hne : sec_APIToken (cfg_Security c) <> "") by (intros E; rewrite E in H7; cbn in H7; lia).
    assert (Hty : st_Type (cfg_Storage c) <> "") by (by destruct H4 as [-> | ->]).
    repeat split; auto; try lia; try tauto.
    apply Forall_forall. intros w _. apply not_elem_of_empty.
Qed.

(** ** A configuration as JSON *)

Definition encode_adapter (a : AdapterConfig) : json :=
  JObj [("id", JStr (ac_ID a)); ("exec_path", JStr (ac_ExecPath a));
        ("supported_versions", JStr (ac_SupportedVersions a));
        ("env", JObj (map (fun kv => (kv.1, JStr kv.2)) (ac_Env a)));
        ("mcp_perm_path", JStr (ac_MCPPermPath a))].
Definition encode_server (s : ServerConfig) : json :=
  JObj [("host", JStr (sv_Host s)); ("port", JNum (sv_Port s));
        ("read_timeout", JNum (sv_ReadTimeout s)); ("write_timeout", JNum (sv_WriteTimeout s));
        ("shutdown_timeout", JNum (sv_ShutdownTimeout s))].
Definition encode_storage (s : StorageConfig) : json :=
  JObj [("type", JStr (st_Type s)); ("data_source", JStr (st_DataSource s));
        ("max_open_conns", JNum (st_MaxOpenConns s)); ("max_idle_conns", JNum (st_MaxIdleConns s));
        ("conn_lifetime", JNum (st_ConnLifetime s))].
Definition encode_policy (p : config_ExecutionPolicy) : json :=
  JObj [("allow_network_access", JBool (xp_AllowNetworkAccess p)); ("allow_writes", JBool (xp_AllowWrites p));
        ("allowed_commands", JArr (map JStr (xp_AllowedCommands p)))].
Definition encode_workspace (w : WorkspaceConfig) : json :=
  JObj [("id", JStr (wc_ID w)); ("display_name", JStr (wc_DisplayName w)); ("path", JStr (wc_Path w));
        ("allowed_adapters", JArr (map JStr (wc_AllowedAdapters w)));
        ("execution_policy", encode_policy (wc_ExecutionPolicy w))].
Definition encode_security (s : SecurityConfig) : json :=
  JObj [("api_token", JStr (sec_APIToken s)); ("token_expiry", JNum (sec_TokenExpiry s));
        ("require_approval_for_writes", JBool (sec_RequireApprovalForWrites s));
        ("redaction_patterns", JArr (map JStr (sec_RedactionPatterns s)));
        ("allowed_origin", JStr (sec_AllowedOrigin s))].
Definition encode_logging (l : LoggingConfig) : json :=
  JObj [("level", JStr (lg_Level l)); ("format", JStr (lg_Format l)); ("output", JStr (lg_Output l))].
Definition encode_members (c : Config) : payload :=
  [("server", encode_server (cfg_Server c)); ("storage", encode_storage (cfg_Storage c));
   ("workspaces", JArr (map encode_workspace (cfg_Workspaces c)));
   ("security", encode_security (cfg_Security c)); ("logging", encode_logging (cfg_Logging c));
   ("adapters", JArr (map encode_adapter (cfg_Adapters c)))].

Definition int64 (z : Z) : Prop := min_int64 <= z <= max_int64.
Definition sorted_keys (m : list (string * string)) : Prop :=
  StronglySorted (fun a b => String.compare a.1 b.1 = Lt) m.

(** The values a file can carry: valid UTF-8, 64-bit integers, maps. *)
Record representable (c : Config) : Prop := mk_representable {
  rp_utf8 : json_utf8 (JObj (encode_members c));
  rp_server : int64 (sv_Port (cfg_Server c)) /\ int64 (sv_ReadTimeout (cfg_Server c)) /\
    int64 (sv_WriteTimeout (cfg_Server c)) /\ int64 (sv_ShutdownTimeout (cfg_Server c));
  rp_storage : int64 (st_MaxOpenConns (cfg_Storage c)) /\ int64 (st_MaxIdleConns (cfg_Storage c)) /\
    int64 (st_ConnLifetime (cfg_Storage c));
  rp_security : int64 (sec_TokenExpiry (cfg_Security c));
  rp_adapters : Forall (fun a => sorted_keys (ac_Env a)) (cfg_Adapters c)
}.

(** Fields are found by evaluation. *)
Lemma find_field_hit {A} (fields : list (string * decoder A)) k n d :
  names k n = true -> find_field ((n, d) :: fields) k = Some d.
Proof. intros H. unfold find_field. cbn. by rewrite decide_True. Qed.
Lemma find_field_miss {A} (fields : list (string * decoder A)) k n d :
  names k n = false -> find_field ((n, d) :: fields) k = find_field fields k.
Proof.
  intros H. unfold find_field. cbn. rewrite decide_False by (by rewrite H).
  by destruct (list_find _ fields) as [[i f]|].
Qed.
Ltac find_fields :=
  repeat first [ rewrite find_field_hit by reflexivity | rewrite find_field_miss by reflexivity
               | progress cbn [dec_members] ].

Lemma dec_int_ok f n old : int64 n -> dec_int f (JNum n) old = Decoded n None.
Proof. intros H. unfold dec_int, leaf, assign_int. by rewrite decide_True. Qed.
Lemma dec_duration_ok n old : int64 n -> dec_duration (JNum n) old = Decoded n None.
Proof. intros H. unfold dec_duration, Duration_UnmarshalJSON. by rewrite decide_True. Qed.

Lemma dec_elems_ok {A} (zero : A) (d : decoder A) (enc : A -> json) l :
  Forall (fun a => d (enc a) zero = Decoded a None) l -> dec_elems zero d (map enc l) [] = Decoded l None.
Proof.
  induction 1 as [|a l Ha _ IH]; [done|]. cbn [map dec_elems head tail default]. by rewrite Ha, IH.
Qed.
Lemma dec_strings_ok f l : dec_strings f (JArr (map JStr l)) [] = Decoded l None.
Proof. apply dec_elems_ok. by apply Forall_forall. Qed.

Lemma insert_entry_last k v m : Forall (fun a => String.compare a.1 k = Lt) m ->
  insert_entry k v m = m ++ [(k, v)].
Proof.
  induction 1 as [|[k1 v1] m H _ IH]; cbn; [done|]. cbn in H.
  rewrite String.compare_antisym, H. cbn. by rewrite IH.
Qed.
Lemma dec_entries_ok f m done_ : sorted_keys (done_ ++ m) ->
  dec_entries f (map (fun kv => (kv.1, JStr kv.2)) m) done_ None = Decoded (done_ ++ m) None.
Proof.
  revert done_. induction m as [|[k v] m IH]; intros dn Hs; cbn [map dec_entries assign_string fst snd].
  { by rewrite app_nil_r. }
  rewrite insert_entry_last.
  - rewrite IH; by rewrite <- (assoc_L (++)).
  - apply Forall_forall. intros a Ha. apply list_elem_of_lookup in Ha as [i Hi].
    apply (StronglySorted_lookup _ _ i (length dn) a (k, v) Hs).
    + by apply lookup_lt_Some in Hi.
    + by apply lookup_app_l_Some.
    + by apply list_lookup_middle.
Qed.

(** One member that decodes. *)
Lemma dec_members_field {A X} (fields : list (string * decoder A)) get_ (set_ : X -> A -> A) d k v p a x :
  find_field fields k = Some (at_field get_ set_ d) -> d v (get_ a) = Decoded x None ->
  dec_members fields ((k, v) :: p) a None = dec_members fields p (set_ x a) None.
Proof. intros Hf Hd. cbn [dec_members]. rewrite Hf. unfold at_field. by rewrite Hd. Qed.

Ltac found := repeat first [ apply find_field_hit; reflexivity
                           | rewrite find_field_miss by reflexivity ].
Ltac dec_field L := erewrite dec_members_field; [|found|apply L].
Ltac dec_leaf := erewrite dec_members_field; [|found|reflexivity].

Lemma dec_server_ok s old : int64 (sv_Port s) -> int64 (sv_ReadTimeout s) ->
  int64 (sv_WriteTimeout s) -> int64 (sv_ShutdownTimeout s) ->
  dec_server (encode_server s) old = Decoded s None.
Proof.
  destruct s as [h p r w sd], old. intros. unfold dec_server, encode_server, dec_struct.
  cbn [sv_Host sv_Port sv_ReadTimeout sv_WriteTimeout sv_ShutdownTimeout] in *.
  dec_leaf. dec_field dec_int_ok; [|done]. do 3 (dec_field dec_duration_ok; [|done]). reflexivity.
Qed.
Lemma dec_storage_ok s old : int64 (st_MaxOpenConns s) -> int64 (st_MaxIdleConns s) ->
  int64 (st_ConnLifetime s) -> dec_storage (encode_storage s) old = Decoded s None.
Proof.
  destruct s as [t ds o i l], old. intros. unfold dec_storage, encode_storage, dec_struct.
  cbn [st_Type st_DataSource st_MaxOpenConns st_MaxIdleConns st_ConnLifetime] in *.
  do 2 dec_leaf. do 2 (dec_field dec_int_ok; [|done]). dec_field dec_duration_ok; [|done]. reflexivity.
Qed.
Lemma dec_logging_ok l old : dec_logging (encode_logging l) old = Decoded l None.
Proof. destruct l, old. unfold dec_logging, encode_logging, dec_struct. do 3 dec_leaf. reflexivity. Qed.
Lemma dec_security_ok s old : int64 (sec_TokenExpiry s) -> sec_RedactionPatterns old = [] ->
  dec_security (encode_security s) old = Decoded s None.
Proof.
  destruct s as [t e q r o], old. intros He Hr. cbn in He, Hr. subst. unfold dec_security, encode_security, dec_struct.
  cbn [sec_APIToken sec_TokenExpiry sec_RequireApprovalForWrites sec_RedactionPatterns sec_AllowedOrigin].
  dec_leaf. dec_field dec_duration_ok; [|done]. dec_leaf. dec_field dec_strings_ok. dec_leaf. reflexivity.
Qed.
Lemma dec_policy_ok p : dec_policy (encode_policy p) (mkExecutionPolicy false false []) = Decoded p None.
Proof.
  destruct p. unfold dec_policy, encode_policy, dec_struct. do 2 dec_leaf.
  dec_field dec_strings_ok. reflexivity.
Qed.
Lemma dec_workspace_ok w : dec_workspace (encode_workspace w) zero_workspace = Decoded w None.
Proof.
  destruct w. unfold dec_workspace, encode_workspace, dec_struct. do 3 dec_leaf.
  dec_field dec_strings_ok. dec_field dec_policy_ok. reflexivity.
Qed.
Lemma dec_adapter_ok a : sorted_keys (ac_Env a) -> dec_adapter (encode_adapter a) zero_adapter = Decoded a None.
Proof.
  destruct a as [i e v m p]. cbn [ac_Env]. intros Hm. unfold dec_adapter, encode_adapter, dec_struct.
  do 3 dec_leaf. dec_field (dec_entries_ok "AdapterConfig.adapters.env" m [] Hm). dec_leaf. reflexivity.
Qed.

Lemma json_ok_array {A} (enc : A -> json) l : Forall (fun a => json_ok (enc a)) l -> json_ok (JArr (map enc l)).
Proof. induction 1; by cbn in *. Qed.
Lemma json_ok_strings l : json_ok (JArr (map JStr l)).
Proof. apply json_ok_array. by apply Forall_forall. Qed.
Lemma json_depth_array {A} (enc : A -> json) l n : 0 <= n -> Forall (fun a => json_depth (enc a) <= n) l ->
  json_depth (JArr (map enc l)) <= 1 + n.
Proof. intros Hn. induction 1; cbn in *; lia. Qed.
Lemma json_depth_strings l : json_depth (JArr (map JStr l)) <= 1.
Proof. apply (json_depth_array _ _ 0); [lia|]. by apply Forall_forall. Qed.

Lemma env_json_ok m : json_ok (JObj (map (fun kv : string * string => (kv.1, JStr kv.2)) m)) /\
  json_depth (JObj (map (fun kv : string * string => (kv.1, JStr kv.2)) m)) <= 1.
Proof. induction m as [|kv m [IH1 IH2]]; [done|]. cbn in *. split; [done|lia]. Qed.

Lemma encode_members_ok c :
  json_ok (JObj (encode_members c)) /\ json_depth (JObj (encode_members c)) <= maxNestingDepth.
Proof.
  assert (HW : forall w, json_ok (encode_workspace w) /\ json_depth (encode_workspace w) <= 3).
  { intros w. pose proof (json_ok_strings (wc_AllowedAdapters w)).
    pose proof (json_ok_strings (xp_AllowedCommands (wc_ExecutionPolicy w))).
    pose proof (json_depth_strings (wc_AllowedAdapters w)).
    pose proof (json_depth_strings (xp_AllowedCommands (wc_ExecutionPolicy w))). cbn in *. split; [tauto|lia]. }
  assert (HA : forall a, json_ok (encode_adapter a) /\ json_depth (encode_adapter a) <= 2).
  { intros a. pose proof (env_json_ok (ac_Env a)) as [H1 H2]. cbn in *. split; [tauto|lia]. }
  pose proof (json_ok_array encode_workspace (cfg_Workspaces c)
    ltac:(apply Forall_forall; intros; apply HW)).
  pose proof (json_ok_array encode_adapter (cfg_Adapters c) ltac:(apply Forall_forall; intros; apply HA)).
  pose proof (json_depth_array encode_workspace (cfg_Workspaces c) 3 ltac:(lia)
    ltac:(apply Forall_forall; intros; apply HW)).
  pose proof (json_depth_array encode_adapter (cfg_Adapters c) 2 ltac:(lia)
    ltac:(apply Forall_forall; intros; apply HA)).
  pose proof (json_ok_strings (sec_RedactionPatterns (cfg_Security c))).
  pose proof (json_depth_strings (sec_RedactionPatterns (cfg_Security c))).
  unfold maxNestingDepth. cbn in *. split; [tauto|lia].
Qed.

(** C37: a configuration file is read as it was written.  A file that holds
    every setting of a configuration (valid UTF-8, 64-bit integers, maps) in
    JSON loads to exactly that configuration, whatever the defaults are. *)
Theorem LoadConfig_roundtrip path c : path <> "" -> representable c ->
  LoadConfig path (Ok (json_bytes (JObj (encode_members c)))) = Ok c.
Proof.
  intros Hp [Hu (H1 & H2 & H3 & H4) (H5 & H6 & H7) H8 H9]. unfold LoadConfig. rewrite decide_False by done.
  destruct (encode_members_ok c) as [Hok Hd].
  replace (json_raw _) with (RawJSON (JObj (encode_members c))); cycle 1.
  { unfold json_raw. change (text (json_bytes ?v)) with (json_text v). rewrite json_parse_text by done.
    rewrite (json_coerce_utf8 _ Hu). unfold json_text. rewrite chars_text.
    by destruct (json_obj_shape (encode_members c)) as [mid ->]. }
  cbn [decode_Config]. destruct c as [sv st ws sc lg ads]. unfold encode_members, DefaultConfig, config_fields.
  cbn [cfg_Server cfg_Storage cfg_Workspaces cfg_Security cfg_Logging cfg_Adapters] in *.
  assert (HW : Forall (fun w => dec_workspace (encode_workspace w) zero_workspace = Decoded w None) ws)
    by (apply Forall_forall; intros; apply dec_workspace_ok).
  assert (HA : Forall (fun a => dec_adapter (encode_adapter a) zero_adapter = Decoded a None) ads)
    by (eapply Forall_impl; [exact H9|]; intros; by apply dec_adapter_ok).
  dec_field dec_server_ok; [|done..]. dec_field dec_storage_ok; [|done..].
  dec_field (dec_elems_ok zero_workspace dec_workspace encode_workspace ws HW).
  dec_field dec_security_ok; [|done..]. dec_field dec_logging_ok.
  dec_field (dec_elems_ok zero_adapter dec_adapter encode_adapter ads HA).
  reflexivity.
Qed.

(** ** Bounds of durations *)

Lemma chars_app s t : chars (s +:+ t) = chars s ++ chars t.
Proof. induction s as [|c s IH]; [done|]. exact (f_equal (cons c) IH). Qed.

Lemma Itoa_digits n : 0 <= n -> exists c d, chars (Itoa n) = c :: d /\
  Forall (fun c => is_digit c = true) (c :: d) /\ digits_value (c :: d) = n.
Proof.
  intros Hn. destruct n as [|p|p]; [|clear Hn|lia].
  - exists (ascii_of 48), []. split; [done|]. split; [by repeat constructor|done].
  - destruct (pretty_N_go_digits (Npos p) "") as (c & d & E & Hd & _ & Hv); [lia|].
    exists c, d. change (chars (Itoa (Z.pos p))) with (chars (pretty_N_go (Npos p) "")).
    rewrite E. cbn [chars String.list_ascii_of_string]. by rewrite app_nil_r.
Qed.

Definition digits_from (x : Z) (d : bytes) : Z := fold_left (fun n c => n * 10 + (byte_of c - 48)) d x.

Lemma digits_from_mono d x : Forall (fun c => is_digit c = true) d -> 0 <= x -> x <= digits_from x d.
Proof.
  intros Hd. revert x. induction Hd as [|c d Hc _ IH]; intros x Hx; cbn; [lia|].
  apply bool_decide_eq_true in Hc. etransitivity; [|apply IH]; lia.
Qed.

(** The digits of a number, up to what fits. *)
Lemma leadingInt_digits d rest x : Forall (fun c => is_digit c = true) d ->
  (forall c s, rest = c :: s -> is_digit c = false) -> 0 <= x <= two63 ->
  leadingInt x (d ++ rest) =
  if decide (digits_from x d <= two63) then Some (digits_from x d, rest) else None.
Proof.
  intros Hd Hr. revert x. induction Hd as [|c d Hc Hd IH]; intros x Hx.
  - cbn [app digits_from fold_left]. rewrite decide_True by lia.
    destruct rest as [|c s]; [done|]. cbn. by rewrite (Hr c s eq_refl).
  - cbn [app leadingInt]. rewrite Hc. change (digits_from x (c :: d)) with
      (digits_from (x * 10 + (byte_of c - 48)) d).
    apply bool_decide_eq_true in Hc.
    pose proof (digits_from_mono d (x * 10 + (byte_of c - 48)) Hd ltac:(lia)) as Hm.
    case_decide as H1.
    { assert (two63 < x * 10) by (unfold two63 in *; pose proof (Z.div_mod (2 ^ 63) 10 ltac:(lia));
        pose proof (Z.mod_pos_bound (2 ^ 63) 10 ltac:(lia)); lia).
      by rewrite decide_False by lia. }
    case_decide as H2; [by rewrite decide_False by lia|]. apply IH. lia.
Qed.

Lemma span_unit_all u : Forall (fun c => in_unit c = true) u -> span_unit u = (u, []).
Proof. induction 1 as [|c u Hc _ IH]; cbn; [done|]. by rewrite Hc, IH. Qed.

(** A unit is text that no number starts with. *)
Lemma unitMap_ok u unit_ : unitMap u = Some unit_ ->
  0 < unit_ /\ Forall (fun c => in_unit c = true) (chars u) /\ chars u <> [].
Proof.
  unfold unitMap. intros H.
  repeat (case_decide as E; [injection H as <-; rewrite E; split; [reflexivity|];
    split; [by repeat constructor|done]|clear E]). discriminate H.
Qed.

(** A duration is exact or refused.  A whole number of any size followed
    by a unit is that many nanoseconds if they fit in an int64, and an error
    otherwise: no configured timeout or expiry wraps around. *)
Theorem ParseDuration_exact n u unit_ : 0 <= n -> unitMap u = Some unit_ ->
  ParseDuration (Itoa n +:+ u) =
  if decide (n * unit_ <= max_int64) then Ok (n * unit_) else Err (invalid_duration (Itoa n +:+ u)).
Proof.
  intros Hn Hu. destruct (unitMap_ok u unit_ Hu) as (Hpos & Hall & Hne).
  destruct (Itoa_digits n Hn) as (c & d & Ed & Hd & Hv).
  assert (Hc : 48 <= byte_of c <= 57) by (inversion Hd as [|? ? H]; by apply bool_decide_eq_true in H).
  assert (Es : chars (Itoa n +:+ u) = c :: d ++ chars u) by (by rewrite chars_app, Ed).
  assert (Hu0 : forall c' s', chars u = c' :: s' -> is_digit c' = false /\ byte_of c' <> 46).
  { intros c' s' E. rewrite E in Hall. inversion Hall as [|? ? H]; subst. unfold in_unit in H.
    apply negb_true_iff, orb_false_iff in H as [H1 H2]. apply bool_decide_eq_false in H2. done. }
  unfold ParseDuration. rewrite Es, !decide_False by lia.
  rewrite (decide_False (P := _ = [ascii_of 48])) by (destruct d, (chars u); done).
  rewrite (decide_False (P := _ = [])) by done. cbn [length duration_loop].
  unfold duration_step.
  assert (Hdig : is_digit c = true) by (by inversion Hd). rewrite Hdig. cbn [orb negb].
  change (c :: d ++ chars u) with ((c :: d) ++ chars u).
  rewrite (leadingInt_digits (c :: d) (chars u) 0); [|done|intros; by eapply Hu0|unfold two63; lia].
  change (digits_from 0 (c :: d)) with (digits_value (c :: d)). rewrite Hv.
  destruct (chars u) as [|c1 u1] eqn:Eu; [done|]. destruct (Hu0 c1 u1 eq_refl) as [_ H46].
  case_decide as H1.
  - rewrite decide_False by done.
    replace (length (c1 :: u1) =? length ((c :: d) ++ c1 :: u1))%nat with false
      by (symmetry; apply Nat.eqb_neq; rewrite length_app; cbn; lia).
    cbn [negb andb]. rewrite span_unit_all by done. rewrite <- Eu, text_chars, Hu, Eu.
    pose proof (Z.div_mod two63 unit_ ltac:(lia)) as Hdm.
    pose proof (Z.mod_pos_bound two63 unit_ Hpos) as Hmb.
    unfold max_int64. case_decide as H2.
    + rewrite decide_False by (change (2 ^ 63) with two63; nia). done.
    + rewrite (decide_False (P := 0 < 0)) by lia. rewrite (decide_False (P := 0 < 0 /\ _)) by lia.
      assert (Hle : n * unit_ <= two63) by nia.
      rewrite Z.mod_small by (unfold two63 in *; lia). rewrite Z.add_0_l.
      rewrite (decide_False (P := two63 < _)) by lia. cbn [duration_loop].
      destruct (length (d ++ c1 :: u1)); cbn [duration_loop];
        change (2 ^ 63) with two63; repeat case_decide; done || lia.
  - rewrite decide_False; [done|]. unfold max_int64. change (2 ^ 63) with two63. nia.
Qed.

Lemma ParseDuration_exact_witness :
  ParseDuration (Itoa 9223372036855 +:+ "ms") =
    Err (invalid_duration (Itoa 9223372036855 +:+ "ms")) /\
  ParseDuration (Itoa 90 +:+ "s") = Ok (90 * Second).
Proof.
  split.
  - apply (ParseDuration_exact 9223372036855 "ms" Millisecond); [discriminate|reflexivity].
  - apply (ParseDuration_exact 90 "s" Second); [discriminate|reflexivity].
Defined.

(** ** Examples *)

Definition demo_config : Config :=
  mkConfig (mkServerConfig "0.0.0.0" 8443 Second Second Second)
    (mkStorageConfig "sqlite" "/var/lib/car/car.db" 1 1 0)
    [mkWorkspaceConfig "ws-1" "Demo" "/srv/demo" ["claude-code"] (mkExecutionPolicy false true ["make"])]
    (mkSecurityConfig "0123456789abcdef" (12 * Hour) true ["sk-"] "")
    (mkLoggingConfig "INFO" "json" "stdout")
    [mkAdapterConfig "claude-code" "/usr/bin/claude" "2" [("A", "1"); ("B", "2")] ""].

Lemma LoadConfig_roundtrip_witness :
  LoadConfig "car.json" (Ok (json_bytes (JObj (encode_members demo_config)))) = Ok demo_config.
Proof.
  apply (LoadConfig_roundtrip "car.json" demo_config); [discriminate|]. constructor.
  - by cbn.
  - by repeat split.
  - by repeat split.
  - by split.
  - repeat constructor.
Defined.

(** A null keeps the default of a setting, but sets a duration to zero. *)
Example null_expiry :
  (fun c => (sv_Port (cfg_Server c), sv_ReadTimeout (cfg_Server c))) <$>
    match LoadConfig "car.json" (Ok (chars (dq "{'server': {'port': null, 'read_timeout': null}}"))) with
    | Ok c => Some c | Err _ => None end
  = Some (8080, 0).
Proof. vm_compute. reflexivity. Qed.

Example demo_config_is_valid : Config_Validate demo_config = None.
Proof. vm_compute. reflexivity. Qed.

Example defaults_need_a_token :
  LoadConfig "car.json" (Ok (chars (dq "{'server':{'read_timeout':'5s','write_timeout':null}}"))) =
    Ok (mkConfig (mkServerConfig "127.0.0.1" 8080 (5 * Second) 0 (30 * Second)) (cfg_Storage DefaultConfig)
          [] (cfg_Security DefaultConfig) (cfg_Logging DefaultConfig) []) /\
  is_Some (Config_Validate DefaultConfig).
Proof. split; [vm_compute; reflexivity|]. unfold is_Some. eexists. vm_compute. reflexivity. Qed.

Example addresses :
  (ServerConfig_Address (cfg_Server DefaultConfig),
   ServerConfig_Address (mkServerConfig "::1" 80 0 0 0), StorageConfig_dir (cfg_Storage DefaultConfig)) =
  ("127.0.0.1:8080", "[::1]:80", Some "data").
Proof. vm_compute. reflexivity. Qed.
