(* ===== verification/Domain.v ===== *)
(** * Domain model (src/internal/domain/session.go)

    States are Go strings in the code and stay strings here; times are
    instants in nanoseconds; a pointer that may be nil is an option. *)

From S2P Require Import Prelude Env Json.

(** ** Session states *)
Definition SessionStateCreated : string := "created".
Definition SessionStateStarting : string := "starting".
Definition SessionStateActive : string := "active".
Definition SessionStateWaitingApprov : string := "waiting_approval".
Definition SessionStateInterrupted : string := "interrupted".
Definition SessionStateCompleted : string := "completed".
Definition SessionStateFailed : string := "failed".
Definition SessionStateResumable : string := "resumable".
Definition SessionStateRecovering : string := "recovering".

Record Session := mkSession {
  s_ID : string;
  s_WorkspaceID : string;
  s_AdapterID : string;
  s_State : string;
  s_Title : string;
  s_CreatedAt : Z;
  s_UpdatedAt : Z;
  s_LastActivityAt : option Z;
  s_LastSequence : Z;
  s_PendingApproval : option string;
  s_OwnerDeviceID : option string;
  s_RecoveryState : option string
}.

Record SessionSnapshot := mkSessionSnapshot {
  ss_ID : string;
  ss_WorkspaceID : string;
  ss_AdapterID : string;
  ss_State : string;
  ss_LastSequence : Z;
  ss_PendingApprovalID : option string
}.

Definition Session_Snapshot (s : Session) : SessionSnapshot :=
  {| ss_ID := s_ID s;
     ss_WorkspaceID := s_WorkspaceID s;
     ss_AdapterID := s_AdapterID s;
     ss_State := s_State s;
     ss_LastSequence := s_LastSequence s;
     ss_PendingApprovalID := s_PendingApproval s |}.

(** ** Runs *)
Definition RunStatePending : string := "pending".
Definition RunStateStarting : string := "starting".
Definition RunStateActive : string := "active".
Definition RunStateCompleted : string := "completed".
Definition RunStateFailed : string := "failed".
Definition RunStateInterrupted : string := "interrupted".

Record Run := mkRun {
  r_ID : string;
  r_SessionID : string;
  r_State : string;
  r_ProcessPID : option Z;
  r_ProcessArgs : option string;
  r_StartedAt : option Z;
  r_EndedAt : option Z;
  r_ExitCode : option Z;
  r_ExitError : option string;
  r_CreatedAt : Z
}.

(** ** Workspaces *)
Record ExecutionPolicy := mkExecutionPolicy {
  ep_AllowNetworkAccess : bool;
  ep_AllowWrites : bool;
  ep_AllowedCommands : list string
}.

Record Workspace := mkWorkspace {
  w_ID : string;
  w_DisplayName : string;
  w_Path : string;
  w_AllowedAdapters : list string;
  w_ExecutionPolicy : ExecutionPolicy;
  w_CreatedAt : Z;
  w_UpdatedAt : Z
}.

(** ** Approvals *)
Definition ApprovalStatePending : string := "pending".
Definition ApprovalStateApproved : string := "approved".
Definition ApprovalStateDenied : string := "denied".
Definition ApprovalStateExpired : string := "expired".
Definition ApprovalStateCancelled : string := "cancelled".

Record Approval := mkApproval {
  a_ID : string;
  a_SessionID : string;
  a_Category : string;
  a_State : string;
  a_ActionKind : string;
  a_HumanReadableContext : string;
  a_StructuredPayload : string;
  a_CreatedAt : Z;
  a_ExpiresAt : Z;
  a_DecidedAt : option Z;
  a_DecisionReason : option string
}.

(** ** Events and audit entries *)
Record Event := mkEvent {
  e_ID : Z;
  e_SessionID : string;
  e_Sequence : Z;
  e_Type : string;
  e_MessageID : string;
  e_SchemaVersion : Z;
  e_Payload : payload;
  e_OccurredAt : Z
}.

Record AuditEntry := mkAuditEntry {
  ae_ID : Z;
  ae_ActorID : string;
  ae_ActorType : string;
  ae_Action : string;
  ae_TargetType : string;
  ae_TargetID : string;
  ae_Outcome : string;
  ae_Context : option string;
  ae_CreatedAt : Z
}.

(** ** Devices *)
Definition DeviceStatePending : string := "pending".
Definition DeviceStatePaired : string := "paired".
Definition DeviceStateRevoked : string := "revoked".

Record Device := mkDevice {
  d_ID : string;
  d_Name : string;
  d_PublicKey : string;
  d_State : string;
  d_PairedAt : option Z;
  d_RevokedAt : option Z;
  d_LastSeenAt : option Z;
  d_CreatedAt : Z
}.

(** ** Field updates, for the assignments of the code *)
Definition set_s_State (st : string) (s : Session) : Session :=
  mkSession (s_ID s) (s_WorkspaceID s) (s_AdapterID s) st (s_Title s) (s_CreatedAt s)
    (s_UpdatedAt s) (s_LastActivityAt s) (s_LastSequence s) (s_PendingApproval s)
    (s_OwnerDeviceID s) (s_RecoveryState s).

Definition set_s_times (now : Z) (s : Session) : Session :=
  mkSession (s_ID s) (s_WorkspaceID s) (s_AdapterID s) (s_State s) (s_Title s) now
    now (Some now) (s_LastSequence s) (s_PendingApproval s)
    (s_OwnerDeviceID s) (s_RecoveryState s).

Definition set_r_CreatedAt (now : Z) (r : Run) : Run :=
  mkRun (r_ID r) (r_SessionID r) (r_State r) (r_ProcessPID r) (r_ProcessArgs r)
    (r_StartedAt r) (r_EndedAt r) (r_ExitCode r) (r_ExitError r) now.

Definition set_w_times (now : Z) (w : Workspace) : Workspace :=
  mkWorkspace (w_ID w) (w_DisplayName w) (w_Path w) (w_AllowedAdapters w)
    (w_ExecutionPolicy w) now now.

Definition set_w_Path (p : string) (w : Workspace) : Workspace :=
  mkWorkspace (w_ID w) (w_DisplayName w) p (w_AllowedAdapters w)
    (w_ExecutionPolicy w) (w_CreatedAt w) (w_UpdatedAt w).

(** [a.State = st; a.DecidedAt = &at] *)
Definition set_a_decided (st : string) (at_ : Z) (a : Approval) : Approval :=
  mkApproval (a_ID a) (a_SessionID a) (a_Category a) st (a_ActionKind a)
    (a_HumanReadableContext a) (a_StructuredPayload a) (a_CreatedAt a) (a_ExpiresAt a)
    (Some at_) (a_DecisionReason a).

Definition set_a_reason (reason : string) (a : Approval) : Approval :=
  mkApproval (a_ID a) (a_SessionID a) (a_Category a) (a_State a) (a_ActionKind a)
    (a_HumanReadableContext a) (a_StructuredPayload a) (a_CreatedAt a) (a_ExpiresAt a)
    (a_DecidedAt a) (Some reason).

Definition set_a_ExpiresAt (t : Z) (a : Approval) : Approval :=
  mkApproval (a_ID a) (a_SessionID a) (a_Category a) (a_State a) (a_ActionKind a)
    (a_HumanReadableContext a) (a_StructuredPayload a) (a_CreatedAt a) t
    (a_DecidedAt a) (a_DecisionReason a).

Definition set_e_Sequence (n : Z) (e : Event) : Event :=
  mkEvent (e_ID e) (e_SessionID e) n (e_Type e) (e_MessageID e) (e_SchemaVersion e)
    (e_Payload e) (e_OccurredAt e).

Definition set_d_revoked (now : Z) (d : Device) : Device :=
  mkDevice (d_ID d) (d_Name d) (d_PublicKey d) DeviceStateRevoked (d_PairedAt d)
    (Some now) (d_LastSeenAt d) (d_CreatedAt d).
