(* ===== verification/StateMachine.v ===== *)
(** * Session state machine and idempotency store (src/internal/session/manager.go) *)

From S2P Require Import Prelude Env Domain.

(** ** The transition table and its queries *)

Definition validTransitions : gmap string (list string) := list_to_map [
  (SessionStateCreated, [SessionStateStarting; SessionStateFailed]);
  (SessionStateStarting, [SessionStateActive; SessionStateFailed]);
  (SessionStateActive, [SessionStateWaitingApprov; SessionStateInterrupted;
                        SessionStateCompleted; SessionStateFailed]);
  (SessionStateWaitingApprov, [SessionStateActive; SessionStateInterrupted;
                               SessionStateFailed]);
  (SessionStateInterrupted, [SessionStateResumable; SessionStateFailed]);
  (SessionStateCompleted, [SessionStateResumable]);
  (SessionStateFailed, []);
  (SessionStateResumable, [SessionStateStarting]);
  (SessionStateRecovering, [SessionStateActive; SessionStateCompleted;
                            SessionStateFailed])
].

(** [for _, target := range validTargets { if target == to { return true } }; return false] *)
Fixpoint target_in (targets : list string) (to : string) : bool :=
  match targets with
  | [] => false
  | target :: rest => if decide (target = to) then true else target_in rest to
  end.

Definition StateMachine_CanTransition (from to : string) : bool :=
  match validTransitions !! from with
  | None => false
  | Some validTargets => target_in validTargets to
  end.

Definition StateMachine_Transition (from to : string) : result string :=
  if StateMachine_CanTransition from to then Ok to
  else Err (ErrNew ("invalid state transition from " +:+ from +:+ " to " +:+ to)).

Definition StateMachine_GetAllTransitions : gmap string (list string) :=
  (fun v => [] ++ v) <$> validTransitions.

(** ** Idempotency store *)

Record idempotencyEntry := mkIdempotencyEntry {
  ie_response : string;
  ie_status : Z;
  ie_createdAt : Z;
  ie_expiresAt : Z
}.

Record IdempotencyStore := mkIdempotencyStore {
  is_keys : gmap string idempotencyEntry;
  is_expiry : Z;
  is_closed : bool  (** [cleanupCh] has been closed *)
}.

Definition NewIdempotencyStore (expiry : Z) : IdempotencyStore :=
  mkIdempotencyStore ∅ expiry false.

Definition IdempotencyStore_Add (now : Z) (key response : string) (status : Z)
    (s : IdempotencyStore) : IdempotencyStore :=
  mkIdempotencyStore
    (<[key := mkIdempotencyEntry response status now (now + is_expiry s)]> (is_keys s))
    (is_expiry s) (is_closed s).

(** [(response, status, true)], or [None] for [(nil, 0, false)]. *)
Definition IdempotencyStore_Get (now : Z) (key : string) (s : IdempotencyStore)
    : option (string * Z) :=
  match is_keys s !! key with
  | None => None
  | Some entry =>
      if decide (ie_expiresAt entry < now) then None
      else Some (ie_response entry, ie_status entry)
  end.

Definition IdempotencyStore_Exists (now : Z) (key : string) (s : IdempotencyStore) : bool :=
  match is_keys s !! key with
  | None => false
  | Some entry => bool_decide (now < ie_expiresAt entry)
  end.

Definition IdempotencyStore_Delete (key : string) (s : IdempotencyStore) : IdempotencyStore :=
  mkIdempotencyStore (delete key (is_keys s)) (is_expiry s) (is_closed s).

(** The entries whose expiry is past are deleted. *)
Definition IdempotencyStore_cleanup (now : Z) (s : IdempotencyStore) : IdempotencyStore :=
  mkIdempotencyStore (filter (fun kv => ~ ie_expiresAt kv.2 < now) (is_keys s))
    (is_expiry s) (is_closed s).

(** Closing a closed channel panics: [None]. *)
Definition IdempotencyStore_Close (s : IdempotencyStore) : option IdempotencyStore :=
  if is_closed s then None
  else Some (mkIdempotencyStore (is_keys s) (is_expiry s) true).

Definition RequestValidator_CheckIdempotency (now : Z) (key : string)
    (store : IdempotencyStore) : option (string * Z) :=
  IdempotencyStore_Get now key store.

Definition RequestValidator_ValidateKey (key : string) : option error :=
  if decide (key = "") then Some (ErrNew "idempotency key cannot be empty")
  else if decide (String.length key < 8)%nat
  then Some (ErrNew "idempotency key must be at least 8 characters")
  else if decide (200 < String.length key)%nat
  then Some (ErrNew "idempotency key must be at most 200 characters")
  else None.

(** ** The table as a transition relation *)

(** Session states reachable through transitions the machine accepts. *)
Inductive reaches : string -> string -> Prop :=
  | reaches_refl s : reaches s s
  | reaches_step s t u :
      StateMachine_CanTransition s t = true -> reaches t u -> reaches s u.

(** The states in which a session has a live process. *)
Definition live_state (s : string) : bool :=
  bool_decide (s ∈ [SessionStateStarting; SessionStateActive; SessionStateWaitingApprov]).

(** ** Lemmas *)

Lemma target_in_elem targets to : target_in targets to = true <-> to ∈ targets.
Proof.
  induction targets as [|t ts IH]; cbn.
  - split; [done|]. by intros ?%not_elem_of_nil.
  - rewrite elem_of_cons. case_decide; naive_solver.
Qed.

Lemma CanTransition_spec from to :
  StateMachine_CanTransition from to = true <->
  exists targets, validTransitions !! from = Some targets /\ to ∈ targets.
Proof.
  unfold StateMachine_CanTransition.
  destruct (validTransitions !! from) as [ts|]; [|naive_solver].
  rewrite target_in_elem. naive_solver.
Qed.

(** The edges of the table, by source state. *)
Definition edges : list (string * string) :=
  '(from, targets) ← map_to_list validTransitions; (pair from) <$> targets.

Lemma CanTransition_edges from to :
  StateMachine_CanTransition from to = true <-> (from, to) ∈ edges.
Proof.
  rewrite CanTransition_spec. unfold edges. rewrite list_elem_of_bind. split.
  - intros (ts & Hts & Hto). exists (from, ts).
    split; [|by apply elem_of_map_to_list]. apply list_elem_of_fmap. eauto.
  - intros ([f ts] & (t & [= -> ->] & Ht)%list_elem_of_fmap & Hf%elem_of_map_to_list). eauto.
Qed.

(** A decidable property of edges holds for every transition the machine accepts. *)
Lemma CanTransition_forall (P : string -> string -> Prop) `{forall a b, Decision (P a b)} :
  forallb (fun e => bool_decide (P e.1 e.2)) edges = true ->
  forall from to, StateMachine_CanTransition from to = true -> P from to.
Proof.
  intros HP from to Hft%CanTransition_edges%list_elem_of_In.
  rewrite forallb_forall in HP. by apply HP, bool_decide_eq_true in Hft.
Qed.

Lemma reaches_trans s t u : reaches s t -> reaches t u -> reaches s u.
Proof. induction 1; eauto using reaches. Qed.

(** An invariant of states that every edge preserves holds along [reaches]. *)
Lemma reaches_invariant (I : string -> Prop) s t :
  (forall a b, StateMachine_CanTransition a b = true -> I a -> I b) ->
  reaches s t -> I s -> I t.
Proof. intros HI. induction 1; eauto. Qed.

(** One operation on the idempotency store, at a time. *)
Inductive store_op : Type :=
  | OpAdd (key response : string) (status : Z)
  | OpDelete (key : string)
  | OpCleanup.

Definition run_op (op : Z * store_op) (s : IdempotencyStore) : IdempotencyStore :=
  match op.2 with
  | OpAdd key r st => IdempotencyStore_Add op.1 key r st s
  | OpDelete key => IdempotencyStore_Delete key s
  | OpCleanup => IdempotencyStore_cleanup op.1 s
  end.

Definition run_ops (ops : list (Z * store_op)) (s : IdempotencyStore) : IdempotencyStore :=
  fold_left (fun s op => run_op op s) ops s.

Definition op_key (op : store_op) : option string :=
  match op with
  | OpAdd key _ _ => Some key
  | OpDelete key => Some key
  | OpCleanup => None
  end.

(** An operation that is not on [key] and not after [expires] keeps the entry. *)
Lemma run_op_keeps key entry op s :
  is_keys s !! key = Some entry -> op.1 <= ie_expiresAt entry ->
  op_key op.2 <> Some key ->
  is_keys (run_op op s) !! key = Some entry.
Proof.
  destruct op as [now [k r st|k|]]; cbn; intros Hk Hle Hne.
  - by rewrite lookup_insert_ne by congruence.
  - by rewrite lookup_delete_ne by congruence.
  - apply map_lookup_filter_Some. split; [done|]. cbn. lia.
Qed.

Lemma run_ops_keeps key entry ops s :
  is_keys s !! key = Some entry ->
  Forall (fun op => op.1 <= ie_expiresAt entry /\ op_key op.2 <> Some key) ops ->
  is_keys (run_ops ops s) !! key = Some entry.
Proof.
  intros Hk Hops. revert s Hk.
  induction Hops as [|op ops [Hle Hne] Hops IH]; intros s Hk; [done|].
  apply IH. by apply run_op_keeps.
Qed.

(** ** Properties *)

(** The state machine never leaves [failed]: every state that accepted
    transitions reach from [failed] is [failed] itself. *)
Theorem failed_is_terminal t : reaches SessionStateFailed t -> t = SessionStateFailed.
Proof.
  intros H. apply (reaches_invariant (fun s => s = SessionStateFailed) _ _) in H; [done| |done].
  intros a b Hab ->. revert Hab. rewrite CanTransition_spec. intros (ts & [= <-] & Hb).
  by apply not_elem_of_nil in Hb.
Qed.

Lemma failed_is_terminal_witness :
  reaches SessionStateFailed SessionStateFailed /\ SessionStateFailed = SessionStateFailed.
Proof. split; [apply reaches_refl|]. apply (failed_is_terminal SessionStateFailed). apply reaches_refl. Defined.

(** The states a new session can be in: from [created] the accepted
    transitions reach exactly the lifecycle states other than [recovering],
    which only the lifecycle manager writes. *)
Theorem created_reaches_iff t :
  reaches SessionStateCreated t <->
  t ∈ [SessionStateCreated; SessionStateStarting; SessionStateActive;
       SessionStateWaitingApprov; SessionStateInterrupted; SessionStateCompleted;
       SessionStateFailed; SessionStateResumable].
Proof.
  split.
  - intros H.
    match goal with |- t ∈ ?l => eapply (reaches_invariant (fun s => s ∈ l)); [|exact H|left] end.
    match goal with |- forall a b, _ -> a ∈ ?l -> b ∈ ?l =>
      apply (CanTransition_forall (fun a b => a ∈ l -> b ∈ l)) end.
    by vm_compute.
  - assert (E : forall a b, StateMachine_CanTransition a b = true ->
                reaches SessionStateCreated a -> reaches SessionStateCreated b).
    { intros a b Hab Ha. eapply reaches_trans; [exact Ha|]. eauto using reaches. }
    assert (H1 : reaches SessionStateCreated SessionStateStarting) by (eapply E; [|apply reaches_refl]; done).
    assert (H2 : reaches SessionStateCreated SessionStateActive) by (eapply E; [|exact H1]; done).
    rewrite !elem_of_cons, elem_of_nil.
    intros [->|[->|[->|[->|[->|[->|[->|[->|[]]]]]]]]]; try done.
    + apply reaches_refl.
    + by apply (E SessionStateActive).
    + by apply (E SessionStateActive).
    + by apply (E SessionStateActive).
    + by apply (E SessionStateActive).
    + apply (E SessionStateInterrupted); [done|]. by apply (E SessionStateActive).
Qed.

(** Idempotent replay.  Once a response is stored under a key, any
    sequence of later store operations that does not add or delete that key,
    cleanup sweeps included, leaves it readable with the same body and status
    until its time to live has passed. *)
Theorem idempotent_replay s t0 key body status ops now :
  Forall (fun op => op.1 <= t0 + is_expiry s /\ op_key op.2 <> Some key) ops ->
  now <= t0 + is_expiry s ->
  RequestValidator_CheckIdempotency now key
    (run_ops ops (IdempotencyStore_Add t0 key body status s)) = Some (body, status).
Proof.
  intros Hops Hnow. unfold RequestValidator_CheckIdempotency, IdempotencyStore_Get.
  erewrite run_ops_keeps; [|apply lookup_insert_eq|exact Hops].
  cbn. by rewrite decide_False by lia.
Qed.

Lemma idempotent_replay_witness :
  RequestValidator_CheckIdempotency 90 "key-0001"
    (run_ops [(40, OpAdd "key-0002" "other" 201); (100, OpCleanup)]
       (IdempotencyStore_Add 0 "key-0001" "body" 202 (NewIdempotencyStore 100)))
  = Some ("body", 202).
Proof.
  apply (idempotent_replay (NewIdempotencyStore 100) 0); [|cbn; lia].
  repeat constructor; cbn; first [lia | congruence].
Defined.
