(* ===== verification/Schema.v ===== *)
(** * The database: schema, statements, transactions
      (src/internal/storage/migrations.go, src/internal/storage/storage.go)

    A table is a finite map from its primary key to a row of the other
    columns (a list in insertion order for the AUTOINCREMENT tables).  A
    statement is a function on the tables that checks the schema's
    constraints; the driver may fail any call, as the environment says. *)

From S2P Require Import Prelude Env Json Domain.

(** ** Rows: the columns other than the primary key *)

Record SessionRow := mkSessionRow {
  sr_workspace_id : string;
  sr_adapter_id : string;
  sr_state : string;
  sr_title : option string;
  sr_created_at : Z;
  sr_updated_at : Z;
  sr_last_activity_at : option Z;
  sr_last_sequence : Z;
  sr_pending_approval_id : option string;
  sr_recovery_state : option string;
  sr_owner_device_id : option string
}.

Record RunRow := mkRunRow {
  rr_session_id : string;
  rr_state : string;
  rr_process_pid : option Z;
  rr_process_args : option string;
  rr_started_at : option Z;
  rr_ended_at : option Z;
  rr_exit_code : option Z;
  rr_exit_error : option string;
  rr_created_at : Z
}.

Record EventRow := mkEventRow {
  er_id : Z;
  er_session_id : string;
  er_sequence : Z;
  er_type : string;
  er_message_id : string;
  er_schema_version : Z;
  er_payload : json;
  er_occurred_at : Z
}.

Record ApprovalRow := mkApprovalRow {
  ar_session_id : string;
  ar_category : string;
  ar_state : string;
  ar_action_kind : string;
  ar_human_readable_context : string;
  ar_structured_payload : string;
  ar_created_at : Z;
  ar_expires_at : Z;
  ar_decided_at : option Z;
  ar_decision_reason : option string
}.

Record WorkspaceRow := mkWorkspaceRow {
  wr_display_name : string;
  wr_path : string;
  wr_allowed_adapters : list string;
  wr_execution_policy : ExecutionPolicy;
  wr_created_at : Z;
  wr_updated_at : Z
}.

Record DeviceRow := mkDeviceRow {
  dr_name : string;
  dr_public_key : string;
  dr_state : string;
  dr_paired_at : option Z;
  dr_revoked_at : option Z;
  dr_last_seen_at : option Z;
  dr_created_at : Z
}.

Record TokenRow := mkTokenRow {
  tr_device_id : string;
  tr_issued_at : Z;
  tr_expires_at : Z
}.

Record AuditRow := mkAuditRow {
  aur_id : Z;
  aur_actor_id : string;
  aur_actor_type : string;
  aur_action : string;
  aur_target_type : string;
  aur_target_id : string;
  aur_outcome : string;
  aur_context : json;
  aur_created_at : Z
}.

Record DB := mkDB {
  sessions : gmap string SessionRow;
  runs : gmap string RunRow;
  events : list EventRow;
  next_event_id : Z;
  approvals : gmap string ApprovalRow;
  workspaces : gmap string WorkspaceRow;
  devices : gmap string DeviceRow;
  access_tokens : gmap string TokenRow;
  audit_log : list AuditRow;
  next_audit_id : Z;
  foreign_keys : bool   (** the connection's [PRAGMA foreign_keys] *)
}.

Definition set_sessions (x : gmap string SessionRow) (d : DB) : DB :=
  mkDB x (runs d) (events d) (next_event_id d) (approvals d) (workspaces d) (devices d)
    (access_tokens d) (audit_log d) (next_audit_id d) (foreign_keys d).
Definition set_runs (x : gmap string RunRow) (d : DB) : DB :=
  mkDB (sessions d) x (events d) (next_event_id d) (approvals d) (workspaces d) (devices d)
    (access_tokens d) (audit_log d) (next_audit_id d) (foreign_keys d).
Definition set_events (x : list EventRow) (next : Z) (d : DB) : DB :=
  mkDB (sessions d) (runs d) x next (approvals d) (workspaces d) (devices d)
    (access_tokens d) (audit_log d) (next_audit_id d) (foreign_keys d).
Definition set_approvals (x : gmap string ApprovalRow) (d : DB) : DB :=
  mkDB (sessions d) (runs d) (events d) (next_event_id d) x (workspaces d) (devices d)
    (access_tokens d) (audit_log d) (next_audit_id d) (foreign_keys d).
Definition set_workspaces (x : gmap string WorkspaceRow) (d : DB) : DB :=
  mkDB (sessions d) (runs d) (events d) (next_event_id d) (approvals d) x (devices d)
    (access_tokens d) (audit_log d) (next_audit_id d) (foreign_keys d).
Definition set_devices (x : gmap string DeviceRow) (d : DB) : DB :=
  mkDB (sessions d) (runs d) (events d) (next_event_id d) (approvals d) (workspaces d) x
    (access_tokens d) (audit_log d) (next_audit_id d) (foreign_keys d).
Definition set_access_tokens (x : gmap string TokenRow) (d : DB) : DB :=
  mkDB (sessions d) (runs d) (events d) (next_event_id d) (approvals d) (workspaces d)
    (devices d) x (audit_log d) (next_audit_id d) (foreign_keys d).
Definition set_audit_log (x : list AuditRow) (next : Z) (d : DB) : DB :=
  mkDB (sessions d) (runs d) (events d) (next_event_id d) (approvals d) (workspaces d)
    (devices d) (access_tokens d) x next (foreign_keys d).

(** The database after [Open] on an empty file. *)
Definition empty_DB : DB := mkDB ∅ ∅ [] 1 ∅ ∅ ∅ ∅ [] 1 true.

(** ** The columns the migrations create *)
Inductive table :=
  | t_workspaces | t_sessions | t_runs | t_events | t_approvals | t_audit_log
  | t_devices | t_access_tokens.

Definition columns (t : table) : list string :=
  match t with
  | t_workspaces => ["id"; "display_name"; "path"; "allowed_adapters"; "execution_policy";
                     "created_at"; "updated_at"]
  | t_sessions => ["id"; "workspace_id"; "adapter_id"; "state"; "title"; "created_at";
                   "updated_at"; "last_activity_at"; "last_sequence"; "pending_approval_id";
                   "recovery_state"; "owner_device_id"]
  | t_runs => ["id"; "session_id"; "state"; "process_pid"; "process_args"; "started_at";
               "ended_at"; "exit_code"; "exit_error"; "created_at"]
  | t_events => ["id"; "session_id"; "sequence"; "type"; "message_id"; "schema_version";
                 "payload"; "occurred_at"]
  | t_approvals => ["id"; "session_id"; "category"; "state"; "action_kind";
                    "human_readable_context"; "structured_payload"; "created_at";
                    "expires_at"; "decided_at"; "decision_reason"]
  | t_audit_log => ["id"; "actor_id"; "actor_type"; "action"; "target_type"; "target_id";
                    "outcome"; "context"; "created_at"]
  | t_devices => ["id"; "name"; "public_key"; "state"; "paired_at"; "revoked_at";
                  "last_seen_at"; "created_at"]
  | t_access_tokens => ["value"; "device_id"; "issued_at"; "expires_at"]
  end.

(** ** Statements *)

Definition stmt (A : Type) : Type := DB -> result A * DB.

Definition unique_failed (what : string) : error :=
  ErrNew ("UNIQUE constraint failed: " +:+ what).
Definition foreign_key_failed : error := ErrNew "FOREIGN KEY constraint failed".

(** The first column a statement names that the table does not have. *)
Definition missing_column (t : table) (cols : list string) : option string :=
  list_find (fun c => c ∉ columns t) cols ≫= fun ic => Some ic.2.

(** Preparing a statement fails when it names a column that does not exist. *)
Definition prepared {A} (t : table) (cols : list string) (st : stmt A) : stmt A :=
  fun d =>
    match missing_column t cols with
    | Some c => (Err (ErrNew ("no such column: " +:+ c)), d)
    | None => st d
    end.

(** [UPDATE t SET cols... WHERE id = key], giving the rows affected. *)
Definition update_key {R} (t : table) (cols : list string) (tbl : DB -> gmap string R)
    (set : gmap string R -> DB -> DB) (f : R -> R) (cond : R -> bool) (key : string) : stmt Z :=
  prepared t cols (fun d =>
    match tbl d !! key with
    | Some r => if cond r then (Ok 1, set (<[key := f r]> (tbl d)) d) else (Ok 0, d)
    | None => (Ok 0, d)
    end).

(** INSERT statements, with the constraints of the schema. *)
Definition insert_session (id : string) (r : SessionRow) : stmt unit := fun d =>
  if decide (is_Some (sessions d !! id)) then (Err (unique_failed "sessions.id"), d)
  else if foreign_keys d && bool_decide (workspaces d !! sr_workspace_id r = None)
  then (Err foreign_key_failed, d)
  else (Ok tt, set_sessions (<[id := r]> (sessions d)) d).

Definition insert_run (id : string) (r : RunRow) : stmt unit := fun d =>
  if decide (is_Some (runs d !! id)) then (Err (unique_failed "runs.id"), d)
  else if foreign_keys d && bool_decide (sessions d !! rr_session_id r = None)
  then (Err foreign_key_failed, d)
  else (Ok tt, set_runs (<[id := r]> (runs d)) d).

(** The row's [er_id] is the AUTOINCREMENT value. *)
Definition insert_event (sid : string) (seq : Z) (typ mid : string) (ver : Z) (pl : json)
    (at_ : Z) : stmt Z := fun d =>
  if decide (Exists (fun r => er_message_id r = mid) (events d))
  then (Err (unique_failed "events.message_id"), d)
  else if decide (Exists (fun r => er_session_id r = sid /\ er_sequence r = seq) (events d))
  then (Err (unique_failed "events.session_id, events.sequence"), d)
  else if foreign_keys d && bool_decide (sessions d !! sid = None)
  then (Err foreign_key_failed, d)
  else (Ok seq,
        set_events (events d ++ [mkEventRow (next_event_id d) sid seq typ mid ver pl at_])
          (next_event_id d + 1) d).

Definition insert_approval (id : string) (r : ApprovalRow) : stmt unit := fun d =>
  if decide (is_Some (approvals d !! id)) then (Err (unique_failed "approvals.id"), d)
  else if foreign_keys d && bool_decide (sessions d !! ar_session_id r = None)
  then (Err foreign_key_failed, d)
  else (Ok tt, set_approvals (<[id := r]> (approvals d)) d).

Definition insert_workspace (id : string) (r : WorkspaceRow) : stmt unit := fun d =>
  if decide (is_Some (workspaces d !! id)) then (Err (unique_failed "workspaces.id"), d)
  else if decide (map_Exists (fun _ r' => wr_path r' = wr_path r) (workspaces d))
  then (Err (unique_failed "workspaces.path"), d)
  else (Ok tt, set_workspaces (<[id := r]> (workspaces d)) d).

Definition insert_device (id : string) (r : DeviceRow) : stmt unit := fun d =>
  if decide (is_Some (devices d !! id)) then (Err (unique_failed "devices.id"), d)
  else if decide (map_Exists (fun _ r' => dr_public_key r' = dr_public_key r) (devices d))
  then (Err (unique_failed "devices.public_key"), d)
  else (Ok tt, set_devices (<[id := r]> (devices d)) d).

Definition insert_token (value : string) (r : TokenRow) : stmt unit := fun d =>
  if decide (is_Some (access_tokens d !! value))
  then (Err (unique_failed "access_tokens.value"), d)
  else if foreign_keys d && bool_decide (devices d !! tr_device_id r = None)
  then (Err foreign_key_failed, d)
  else (Ok tt, set_access_tokens (<[value := r]> (access_tokens d)) d).

(** [DELETE FROM sessions WHERE id = ?], with the ON DELETE CASCADE clauses. *)
Definition delete_session (id : string) : stmt unit := fun d =>
  let d := set_sessions (delete id (sessions d)) d in
  if foreign_keys d then
    (Ok tt,
     set_approvals (filter (fun kv => ar_session_id kv.2 <> id) (approvals d))
       (set_events (filter (fun r => er_session_id r <> id) (events d)) (next_event_id d)
          (set_runs (filter (fun kv => rr_session_id kv.2 <> id) (runs d)) d)))
  else (Ok tt, d).

(** [DELETE FROM workspaces WHERE id = ?]: refused while a session refers to it. *)
Definition delete_workspace (id : string) : stmt unit := fun d =>
  if foreign_keys d && bool_decide (is_Some (workspaces d !! id)) &&
     bool_decide (map_Exists (fun _ r => sr_workspace_id r = id) (sessions d))
  then (Err foreign_key_failed, d)
  else (Ok tt, set_workspaces (delete id (workspaces d)) d).

(** A SELECT: reads the tables. *)
Definition query {A} (f : DB -> A) : stmt A := fun d => (Ok (f d), d).

(** [LIMIT n]: a negative bound is no bound. *)
Definition sql_limit {A} (n : Z) (l : list A) : list A :=
  if decide (n < 0) then l else take (Z.to_nat n) l.

(** [MAX(column)], NULL on no rows. *)
Definition sql_max (l : list Z) : option Z :=
  match l with [] => None | x :: l' => Some (fold_left Z.max l' x) end.

(** [ORDER BY key ASC] and [ORDER BY key DESC]. *)
Definition by_asc {A} (key : A -> Z) : relation A := fun x y => key x <= key y.
Definition by_desc {A} (key : A -> Z) : relation A := fun x y => key y <= key x.

(** ** Running statements *)

Record Store := mkStore { st_db : DB; st_env : Env }.

Definition set_st_db (d : DB) (s : Store) : Store := mkStore d (st_env s).
Definition set_st_env (e : Env) (s : Store) : Store := mkStore (st_db s) e.

(** Reading the clock and the random source from a store. *)
Definition on_env {A} (m : M Env A) : M Store A := zoom st_env set_st_env m.

(** Reaching the driver: the call may fail. *)
Definition driver_call : M Store (option error) := fun s =>
  (ErrNew <$> env_fault (st_env s) (env_calls (st_env s)), set_st_env (env_call (st_env s)) s).

(** [db.Exec] and [db.Query] of one statement. *)
Definition exec {A} (st : stmt A) : M Store (result A) :=
  let! f := driver_call in
  match f with
  | Some e => ret (Err e)
  | None => fun s => let '(r, d) := st (st_db s) in (r, set_st_db d s)
  end.

(** ** Transactions *)

Definition DB_BeginTx : M Store (option error) := driver_call.

(** [WithTransaction]: the changes of [fn] are kept only when it returns no
    error and the commit succeeds. *)
Definition DB_WithTransaction {A} (fn : M Store (result A)) : M Store (result A) :=
  let! before := gets st_db in
  let! b := DB_BeginTx in
  match b with
  | Some e => ret (Err (wrap "beginning transaction" e))
  | None =>
      let! r := fn in
      match r with
      | Err e =>
          let! rb := driver_call in
          modify (set_st_db before);;;
          match rb with
          | Some rbErr =>
              ret (Err (ErrWrap ("rollback error: " +:+ error_Error rbErr +:+
                                 "; original error: ") e ""))
          | None => ret (Err e)
          end
      | Ok a =>
          let! c := driver_call in
          match c with
          | Some e => modify (set_st_db before);;; ret (Err e)
          | None => ret (Ok a)
          end
      end
  end.

(** ** Specifications *)

(** A driver call fails or does not; only the environment moves. *)
Lemma wp_driver_call s (Q : option error -> Store -> Prop) :
  (forall e env', env_after (st_env s) env' -> faulty (st_env s) ->
     Q (Some e) (mkStore (st_db s) env')) ->
  (forall env', env_after (st_env s) env' -> Q None (mkStore (st_db s) env')) ->
  wp driver_call s Q.
Proof.
  intros HF HS. unfold wp. cbn.
  destruct (env_fault (st_env s) (env_calls (st_env s))) as [m|] eqn:E; cbn.
  - apply HF; [apply env_after_call|]. exists (env_calls (st_env s)). congruence.
  - apply HS, env_after_call.
Qed.

(** A statement fails in the driver or runs; only it changes the tables. *)
Lemma wp_exec {A} (st : stmt A) s (Q : result A -> Store -> Prop) :
  (forall e env', env_after (st_env s) env' -> faulty (st_env s) ->
     Q (Err e) (mkStore (st_db s) env')) ->
  (forall r d env', env_after (st_env s) env' -> st (st_db s) = (r, d) ->
     Q r (mkStore d env')) ->
  wp (exec st) s Q.
Proof.
  intros HF HS. unfold exec. rewrite wp_bind. apply wp_driver_call.
  - intros e env' He Hf. by apply HF.
  - intros env' He. unfold wp. cbn. destruct (st (st_db s)) as [r d] eqn:E. cbn.
    by apply HS.
Qed.

(** A read: the tables stay, the answer is what they hold. *)
Lemma wp_exec_query {A} (f : DB -> A) s (Q : result A -> Store -> Prop) :
  (forall e env', env_after (st_env s) env' -> faulty (st_env s) ->
     Q (Err e) (mkStore (st_db s) env')) ->
  (forall env', env_after (st_env s) env' -> Q (Ok (f (st_db s))) (mkStore (st_db s) env')) ->
  wp (exec (query f)) s Q.
Proof. intros HF HS. apply wp_exec; [done|]. intros r d env' He [= <- <-]. by apply HS. Qed.

Lemma wp_on_env {A} (m : M Env A) s Q :
  reads m ->
  (forall a env', env_after (st_env s) env' -> Q a (mkStore (st_db s) env')) ->
  wp (on_env m) s Q.
Proof. intros Hm H. unfold on_env. rewrite wp_zoom. unfold wp. apply H, Hm. Qed.

(** A transaction either succeeds with [fn]'s changes or leaves the tables as
    they were, whatever [fn] and the driver do. *)
Lemma wp_WithTransaction {A} (fn : M Store (result A)) s (Q : result A -> Store -> Prop) :
  (forall e env', env_after (st_env s) env' -> faulty (st_env s) ->
     Q (Err e) (mkStore (st_db s) env')) ->
  (forall env1, env_after (st_env s) env1 ->
     wp fn (mkStore (st_db s) env1) (fun r s' =>
       env_after env1 (st_env s') /\
       (forall a env', r = Ok a -> env_after (st_env s') env' ->
          Q (Ok a) (mkStore (st_db s') env')) /\
       (forall e env', r = Err e -> env_after (st_env s') env' ->
          forall e', (faulty (st_env s) \/ e' = e) -> Q (Err e') (mkStore (st_db s) env')))) ->
  wp (DB_WithTransaction fn) s Q.
Proof.
  intros HF HS. unfold DB_WithTransaction, DB_BeginTx. wp_simp.
  apply wp_driver_call; [intros e env1 He Hf; by apply HF|].
  intros env1 He1. wp_simp. eapply wp_mono; [by apply HS|].
  intros [a|e] s' (He2 & HQ & HE); wp_simp.
  - apply wp_driver_call; [intros e env' He3 Hf|intros env' He3]; wp_simp; [|by apply HQ].
    apply HF; solve_env.
  - apply wp_driver_call; [intros rb env' He3 Hf|intros env' He3]; wp_simp.
    + eapply HE; [done|solve_env|]. left. solve_env.
    + eapply HE; [done|solve_env|by right].
Qed.

#[export] Instance by_asc_dec {A} (key : A -> Z) : RelDecision (by_asc key).
Proof. intros x y. unfold by_asc. apply _. Defined.
#[export] Instance by_desc_dec {A} (key : A -> Z) : RelDecision (by_desc key).
Proof. intros x y. unfold by_desc. apply _. Defined.
#[export] Instance by_asc_total {A} (key : A -> Z) : Total (by_asc key).
Proof. intros x y. unfold by_asc. lia. Qed.
#[export] Instance by_desc_total {A} (key : A -> Z) : Total (by_desc key).
Proof. intros x y. unfold by_desc. lia. Qed.
#[export] Instance by_asc_trans {A} (key : A -> Z) : Transitive (by_asc key).
Proof. intros x y z. unfold by_asc. lia. Qed.
#[export] Instance by_desc_trans {A} (key : A -> Z) : Transitive (by_desc key).
Proof. intros x y z. unfold by_desc. lia. Qed.

Lemma fold_max_ge l x : x <= fold_left Z.max l x /\ Forall (fun y => y <= fold_left Z.max l x) l.
Proof.
  revert x. induction l as [|y l IH]; intros x; cbn; [split; [lia|constructor]|].
  destruct (IH (Z.max x y)) as [H1 H2]. split; [lia|]. constructor; [lia|done].
Qed.

Lemma fold_max_in l x : fold_left Z.max l x = x \/ fold_left Z.max l x ∈ l.
Proof.
  revert x. induction l as [|y l IH]; intros x; cbn; [by left|].
  destruct (IH (Z.max x y)) as [->|H].
  - destruct (Z.max_spec x y) as [[_ ->]|[_ ->]]; [right; left|by left].
  - right. by right.
Qed.

(** [MAX] is the greatest element. *)
Lemma sql_max_spec l : match sql_max l with
  | None => l = []
  | Some m => m ∈ l /\ Forall (fun y => y <= m) l
  end.
Proof.
  destruct l as [|x l]; cbn; [done|].
  destruct (fold_max_ge l x) as [H1 H2]. split; [|by constructor].
  destruct (fold_max_in l x) as [->|]; [left|by right].
Qed.

(** ** Computations that only read on in the environment: all of them *)
Definition later {A} (m : M Store A) : Prop := forall s, env_after (st_env s) (st_env (m s).2).

Lemma later_wp {A} (m : M Store A) :
  (forall s, wp m s (fun _ s' => env_after (st_env s) (st_env s'))) -> later m.
Proof. done. Qed.
Lemma later_ret {A} (a : A) : later (ret a).
Proof. intros s. reflexivity. Qed.
Lemma later_gets {A} (f : Store -> A) : later (gets f).
Proof. intros s. reflexivity. Qed.
Lemma later_set_db f : later (modify (fun s => set_st_db (f s) s)).
Proof. intros s. reflexivity. Qed.
Lemma later_bind {A B} (m : M Store A) (k : A -> M Store B) :
  later m -> (forall a, later (k a)) -> later (bind m k).
Proof.
  intros Hm Hk s. unfold bind. specialize (Hm s). destruct (m s) as [a s'].
  etransitivity; [exact Hm|apply Hk].
Qed.
Lemma later_try_bind {A B} w (m : M Store (result A)) (k : A -> M Store (result B)) :
  later m -> (forall a, later (k a)) -> later (try_bind w m k).
Proof. intros Hm Hk. apply later_bind; [done|]. intros []; [apply Hk|apply later_ret]. Qed.
Lemma later_driver_call : later driver_call.
Proof. apply later_wp. intros s. by apply wp_driver_call. Qed.
Lemma later_exec {A} (st : stmt A) : later (exec st).
Proof. apply later_wp. intros s. by apply wp_exec. Qed.
Lemma later_on_env {A} (m : M Env A) : reads m -> later (on_env m).
Proof. intros Hm. apply later_wp. intros s. by apply wp_on_env. Qed.
Lemma later_WithTransaction {A} (fn : M Store (result A)) :
  later fn -> later (DB_WithTransaction fn).
Proof.
  intros Hfn. unfold DB_WithTransaction, DB_BeginTx.
  assert (Hset : forall d, later (modify (set_st_db d))) by (intros d; apply (later_set_db (fun _ => d))).
  repeat first [ apply later_bind; [apply later_gets || apply later_driver_call || apply Hfn
                                   || apply Hset|intros ?]
               | apply later_ret | split_match ].
Qed.

Create HintDb later.
#[export] Hint Resolve later_ret later_gets later_bind later_try_bind later_driver_call
  later_exec later_on_env later_WithTransaction : later.
#[export] Hint Extern 2 (later (match ?x with _ => _ end)) => destruct x : later.
#[export] Hint Extern 1 (reads _) => solve [auto with env] : later.

(** Unfold an operation and discharge [later]. *)
Ltac solve_later := repeat intro; try reflexivity; eauto 20 with later.

(** ** Computations whose effect on the tables stays within a preorder *)
Section DbRel.
Context (R : relation DB) `{!PreOrder R}.

Definition db_rel {A} (m : M Store A) : Prop := forall s, R (st_db s) (st_db (m s).2).

Lemma db_rel_ret {A} (a : A) : db_rel (ret a).
Proof. intros s. reflexivity. Qed.
Lemma db_rel_bind {A B} (m : M Store A) (k : A -> M Store B) :
  db_rel m -> (forall a, db_rel (k a)) -> db_rel (bind m k).
Proof.
  intros Hm Hk s. unfold bind. specialize (Hm s). destruct (m s) as [a s'].
  etransitivity; [exact Hm|apply Hk].
Qed.
Lemma db_rel_try_bind {A B} w (m : M Store (result A)) (k : A -> M Store (result B)) :
  db_rel m -> (forall a, db_rel (k a)) -> db_rel (try_bind w m k).
Proof. intros Hm Hk. apply db_rel_bind; [done|]. intros []; [apply Hk|apply db_rel_ret]. Qed.
Lemma db_rel_driver_call : db_rel driver_call.
Proof. intros s. reflexivity. Qed.
Lemma db_rel_exec {A} (st : stmt A) : (forall d, R d (st d).2) -> db_rel (exec st).
Proof.
  intros H s. change (wp (exec st) s (fun _ s' => R (st_db s) (st_db s'))).
  apply wp_exec; [intros; reflexivity|]. intros r d env' _ E. specialize (H (st_db s)).
  by rewrite E in H.
Qed.
Lemma db_rel_query {A} (f : DB -> A) : db_rel (exec (query f)).
Proof. apply db_rel_exec. intros d. reflexivity. Qed.
Lemma db_rel_on_env {A} (m : M Env A) : db_rel (on_env m).
Proof. intros s. unfold on_env, zoom. destruct (m (st_env s)). reflexivity. Qed.
Lemma wp_db_rel {A} (m : M Store A) s (Q : A -> Store -> Prop) :
  db_rel m -> (forall a s', R (st_db s) (st_db s') -> Q a s') -> wp m s Q.
Proof. intros Hm HQ. apply HQ, Hm. Qed.
End DbRel.

Create HintDb db_rel.
#[export] Hint Resolve db_rel_ret db_rel_bind db_rel_try_bind db_rel_driver_call db_rel_query
  db_rel_on_env : db_rel.
#[export] Hint Extern 2 (db_rel _ (match ?x with _ => _ end)) => destruct x : db_rel.
