(* ===== verification/Migrations.v ===== *)
(** * Schema migrations (src/internal/storage/migrations.go, storage.go)

    The schema as the tables and indexes that SQLite knows, the statements of the
    migrations on it, and [Migrate], [Rollback] and [Open] over a driver that may
    fail any call.  Rows are not part of this model; [Schema] has them.  In every
    sequence of migrations and rollbacks, started by any processes with any
    faults, the schema is exactly that of its version. *)

From S2P Require Import Prelude Env Json Domain Schema.

(** ** The statements *)

(** Columns with their declarations, and the constraints of a table. *)
Record sql_table := mkSqlTable { sq_columns : list (string * string); sq_constraints : list string }.
Record sql_schema := mkSqlSchema {
  sc_tables : gmap string sql_table;
  sc_indexes : gmap string (string * list string)  (** the table and its columns *)
}.
Definition empty_schema : sql_schema := mkSqlSchema ∅ ∅.

Inductive ddl :=
  | CreateTable (t : string) (cols : list (string * string)) (constraints : list string)  (** IF NOT EXISTS *)
  | CreateIndex (i t : string) (cols : list string)                                       (** IF NOT EXISTS *)
  | DropIndex (i : string)                                                                (** IF EXISTS *)
  | DropTable (t : string)                                                                (** IF EXISTS *)
  | AddColumn (t c decl : string)
  | DropColumn (t c : string).

Definition no_table (t : string) : error := ErrNew ("no such table: " +:+ t).

Definition exec_ddl (s : sql_schema) (d : ddl) : result sql_schema :=
  match d with
  | CreateTable t cols cs =>
      match sc_tables s !! t with
      | Some _ => Ok s
      | None => Ok (mkSqlSchema (<[t := mkSqlTable cols cs]> (sc_tables s)) (sc_indexes s))
      end
  | CreateIndex i t cols =>
      match sc_indexes s !! i, sc_tables s !! t with
      | Some _, _ => Ok s
      | None, None => Err (no_table t)
      | None, Some tb =>
          if decide (Forall (fun c => c ∈ (sq_columns tb).*1) cols)
          then Ok (mkSqlSchema (sc_tables s) (<[i := (t, cols)]> (sc_indexes s)))
          else Err (ErrNew ("table " +:+ t +:+ " has no such column"))
      end
  | DropIndex i => Ok (mkSqlSchema (sc_tables s) (delete i (sc_indexes s)))
  | DropTable t =>
      Ok (mkSqlSchema (delete t (sc_tables s)) (filter (fun kv => kv.2.1 <> t) (sc_indexes s)))
  | AddColumn t c decl =>
      match sc_tables s !! t with
      | None => Err (no_table t)
      | Some tb =>
          if decide (c ∈ (sq_columns tb).*1) then Err (ErrNew ("duplicate column name: " +:+ c))
          else Ok (mkSqlSchema (<[t := mkSqlTable (sq_columns tb ++ [(c, decl)]) (sq_constraints tb)]> (sc_tables s))
                     (sc_indexes s))
      end
  | DropColumn t c =>
      match sc_tables s !! t with
      | None => Err (no_table t)
      | Some tb =>
          if decide (c ∈ (sq_columns tb).*1) then
            if decide (map_Forall (fun _ ix => ix.1 = t -> c ∉ ix.2) (sc_indexes s)) then
              Ok (mkSqlSchema (<[t := mkSqlTable (filter (fun cd => cd.1 <> c) (sq_columns tb)) (sq_constraints tb)]>
                    (sc_tables s)) (sc_indexes s))
            else Err (ErrNew ("error in index after drop column: no such column: " +:+ c))
          else Err (ErrNew ("no such column: " +:+ c))
      end
  end.

Fixpoint exec_all (s : sql_schema) (l : list ddl) : result sql_schema :=
  match l with
  | [] => Ok s
  | d :: l' => match exec_ddl s d with Ok s' => exec_all s' l' | Err e => Err e end
  end.

(** ** The migrations *)

Record Migration := mkMigration { mi_ID : Z; mi_Name : string; mi_Up : list ddl; mi_Down : list ddl }.

Definition now_default : string := "DATETIME NOT NULL DEFAULT (datetime('now'))".
Definition to_session : string := "TEXT NOT NULL REFERENCES sessions(id) ON DELETE CASCADE".

Definition create_schema : Migration := mkMigration 1 "create_schema"
  [CreateTable "workspaces"
     [("id", "TEXT PRIMARY KEY"); ("display_name", "TEXT NOT NULL"); ("path", "TEXT NOT NULL UNIQUE");
      ("allowed_adapters", "TEXT DEFAULT '[]'"); ("execution_policy", "TEXT DEFAULT '{}'");
      ("created_at", now_default); ("updated_at", now_default)] [];
   CreateTable "sessions"
     [("id", "TEXT PRIMARY KEY"); ("workspace_id", "TEXT NOT NULL REFERENCES workspaces(id)");
      ("adapter_id", "TEXT NOT NULL"); ("state", "TEXT NOT NULL DEFAULT 'created'"); ("title", "TEXT");
      ("created_at", now_default); ("updated_at", now_default); ("last_activity_at", "DATETIME");
      ("last_sequence", "INTEGER NOT NULL DEFAULT 0"); ("pending_approval_id", "TEXT");
      ("recovery_state", "TEXT")] [];
   CreateTable "runs"
     [("id", "TEXT PRIMARY KEY"); ("session_id", to_session); ("state", "TEXT NOT NULL DEFAULT 'pending'");
      ("process_pid", "INTEGER"); ("process_args", "TEXT"); ("started_at", "DATETIME");
      ("ended_at", "DATETIME"); ("exit_code", "INTEGER"); ("exit_error", "TEXT"); ("created_at", now_default)] [];
   CreateTable "events"
     [("id", "INTEGER PRIMARY KEY AUTOINCREMENT"); ("session_id", to_session); ("sequence", "INTEGER NOT NULL");
      ("type", "TEXT NOT NULL"); ("message_id", "TEXT NOT NULL UNIQUE");
      ("schema_version", "INTEGER NOT NULL DEFAULT 1"); ("payload", "TEXT NOT NULL");
      ("occurred_at", now_default)] ["UNIQUE(session_id, sequence)"];
   CreateTable "approvals"
     [("id", "TEXT PRIMARY KEY"); ("session_id", to_session); ("category", "TEXT NOT NULL");
      ("state", "TEXT NOT NULL DEFAULT 'pending'"); ("action_kind", "TEXT NOT NULL");
      ("human_readable_context", "TEXT NOT NULL"); ("structured_payload", "TEXT NOT NULL");
      ("created_at", now_default); ("expires_at", "DATETIME NOT NULL"); ("decided_at", "DATETIME");
      ("decision_reason", "TEXT")] [];
   CreateTable "audit_log"
     [("id", "INTEGER PRIMARY KEY AUTOINCREMENT"); ("actor_id", "TEXT NOT NULL"); ("actor_type", "TEXT NOT NULL");
      ("action", "TEXT NOT NULL"); ("target_type", "TEXT NOT NULL"); ("target_id", "TEXT NOT NULL");
      ("outcome", "TEXT NOT NULL"); ("context", "TEXT"); ("created_at", now_default)] [];
   CreateIndex "idx_sessions_workspace" "sessions" ["workspace_id"];
   CreateIndex "idx_sessions_state" "sessions" ["state"];
   CreateIndex "idx_runs_session" "runs" ["session_id"];
   CreateIndex "idx_runs_state" "runs" ["state"];
   CreateIndex "idx_events_session_sequence" "events" ["session_id"; "sequence"];
   CreateIndex "idx_events_session" "events" ["session_id"];
   CreateIndex "idx_approvals_session" "approvals" ["session_id"];
   CreateIndex "idx_approvals_state" "approvals" ["state"];
   CreateIndex "idx_audit_actor" "audit_log" ["actor_id"; "actor_type"];
   CreateIndex "idx_audit_created" "audit_log" ["created_at"]]
  [DropIndex "idx_audit_created"; DropIndex "idx_audit_actor"; DropIndex "idx_approvals_state";
   DropIndex "idx_approvals_session"; DropIndex "idx_events_session"; DropIndex "idx_events_session_sequence";
   DropIndex "idx_runs_state"; DropIndex "idx_runs_session"; DropIndex "idx_sessions_state";
   DropIndex "idx_sessions_workspace"; DropTable "audit_log"; DropTable "approvals"; DropTable "events";
   DropTable "runs"; DropTable "sessions"; DropTable "workspaces"].

Definition add_device_auth : Migration := mkMigration 2 "add_device_auth"
  [CreateTable "devices"
     [("id", "TEXT PRIMARY KEY"); ("name", "TEXT NOT NULL"); ("public_key", "TEXT NOT NULL UNIQUE");
      ("state", "TEXT NOT NULL DEFAULT 'pending'"); ("paired_at", "DATETIME"); ("revoked_at", "DATETIME");
      ("last_seen_at", "DATETIME"); ("created_at", now_default)] [];
   AddColumn "sessions" "owner_device_id" "TEXT REFERENCES devices(id)";
   CreateIndex "idx_devices_state" "devices" ["state"]]
  [DropIndex "idx_devices_state"; DropColumn "sessions" "owner_device_id"; DropTable "devices"].

Definition add_access_tokens : Migration := mkMigration 3 "add_access_tokens"
  [CreateTable "access_tokens"
     [("value", "TEXT PRIMARY KEY"); ("device_id", "TEXT NOT NULL REFERENCES devices(id)");
      ("issued_at", "DATETIME NOT NULL"); ("expires_at", "DATETIME NOT NULL")] [];
   CreateIndex "idx_access_tokens_device" "access_tokens" ["device_id"]]
  [DropIndex "idx_access_tokens_device"; DropTable "access_tokens"].

Definition Migrations : list Migration := [create_schema; add_device_auth; add_access_tokens].

(** ** Migrate and Rollback *)

(** What a database holds: the schema, and the rows of schema_migrations if
    there is that table. *)
Definition content : Type := sql_schema * option (gmap Z string).
Record Database := mkDatabase { da_content : content; da_env : Env }.

Definition set_da_content (c : content) (d : Database) : Database := mkDatabase c (da_env d).
Definition da_call : M Database (option error) := fun d =>
  (ErrNew <$> env_fault (da_env d) (env_calls (da_env d)), mkDatabase (da_content d) (env_call (da_env d))).

(** One call of the driver with a statement. *)
Definition da_exec {A} (st : content -> result (A * content)) : M Database (result A) :=
  let! f := da_call in
  match f with
  | Some e => ret (Err e)
  | None =>
      let! d := get in
      match st (da_content d) with
      | Ok (a, c) => modify (set_da_content c);;; ret (Ok a)
      | Err e => ret (Err e)
      end
  end.

Definition no_tracking : error := no_table "schema_migrations".

(** [COALESCE(MAX(version), 0)]. *)
Definition max_version (v : gmap Z string) : Z := match (map_to_list v).*1 with [] => 0 | k :: l => foldr Z.max k l end.

Definition track (c : content) : result (unit * content) := Ok (tt, (c.1, Some (default ∅ c.2))).
Definition select_version (c : content) : result (Z * content) :=
  match c.2 with Some v => Ok (max_version v, c) | None => Err no_tracking end.
Definition script (l : list ddl) (c : content) : result (unit * content) :=
  match exec_all c.1 l with Ok s => Ok (tt, (s, c.2)) | Err e => Err e end.
Definition insert_version (id : Z) (name : string) (c : content) : result (unit * content) :=
  match c.2 with
  | None => Err no_tracking
  | Some v => match v !! id with
              | Some _ => Err (unique_failed "schema_migrations.version")
              | None => Ok (tt, (c.1, Some (<[id := name]> v)))
              end
  end.
Definition delete_version (id : Z) (c : content) : result (unit * content) :=
  match c.2 with None => Err no_tracking | Some v => Ok (tt, (c.1, Some (delete id v))) end.

(** A transaction of two statements; what they did is undone on any error. *)
Definition in_transaction (begin_ : error -> error) (m : M Database (result unit)) (commit : error -> error)
    : M Database (result unit) :=
  let! b := da_call in
  match b with
  | Some e => ret (Err (begin_ e))
  | None =>
      let! before := get in
      let! r := m in
      match r with
      | Err e => da_call;;; modify (set_da_content (da_content before));;; ret (Err e)
      | Ok _ =>
          let! c := da_call in
          match c with
          | Some e => modify (set_da_content (da_content before));;; ret (Err (commit e))
          | None => ret (Ok tt)
          end
      end
  end.

Definition apply_migration (m : Migration) : M Database (result unit) :=
  in_transaction (wrap ("starting transaction for migration " +:+ Itoa (mi_ID m)))
    (let? _ := da_exec (script (mi_Up m)) orelse wrap ("applying migration " +:+ Itoa (mi_ID m) +:+ " (" +:+ mi_Name m +:+ ")") in
     let? _ := da_exec (insert_version (mi_ID m) (mi_Name m)) orelse wrap ("recording migration " +:+ Itoa (mi_ID m)) in ret (Ok tt))
    (wrap ("committing migration " +:+ Itoa (mi_ID m))).

Fixpoint apply_pending (current : Z) (l : list Migration) : M Database (result unit) :=
  match l with
  | [] => ret (Ok tt)
  | m :: l' =>
      if decide (mi_ID m <= current) then apply_pending current l'
      else let? _ := apply_migration m in apply_pending current l'
  end.

Definition Migrate : M Database (result unit) :=
  let? _ := da_exec track orelse wrap "creating migrations table" in
  let? current := da_exec select_version orelse wrap "reading current version" in
  apply_pending current Migrations.

Definition rollback_migration (m : Migration) : M Database (result unit) :=
  in_transaction (wrap "starting transaction for rollback")
    (let? _ := da_exec (script (mi_Down m)) orelse wrap ("rolling back migration " +:+ Itoa (mi_ID m)) in
     let? _ := da_exec (delete_version (mi_ID m)) orelse wrap "removing migration record" in ret (Ok tt))
    (fun e => e).

Definition Rollback : M Database (result unit) :=
  let? current := da_exec select_version orelse wrap "reading current version" in
  if decide (current = 0) then ret (Err (ErrNew "no migrations to roll back"))
  else
    match list_find (fun m => mi_ID m = current) Migrations with
    | None => ret (Err (ErrNew ("migration " +:+ Itoa current +:+ " not found")))
    | Some (_, target) => rollback_migration target
    end.

(** [Open]: the pragmas of a SQLite connection, a test of it, the migrations. *)
Definition driver_name (driver : string) : string := if decide (driver = "sqlite") then "sqlite3" else driver.
Definition opened (w : string) : M Database (result unit) :=
  let! f := da_call in ret (match f with Some e => Err (wrap w e) | None => Ok tt end).
Definition set_pragmas : M Database (result unit) :=
  let? _ := opened "setting journal_mode" in
  let? _ := opened "enabling foreign keys" in
  let? _ := opened "setting busy timeout" in ret (Ok tt).
Definition Open (driver : string) : M Database (result unit) :=
  let? _ := opened "opening database" in
  let? _ := if decide (driver_name driver = "sqlite3") then set_pragmas else ret (Ok tt) in
  let? _ := opened "connecting to database" in
  let? _ := Migrate orelse wrap "running migrations" in ret (Ok tt).

(** ** The schema of a version *)

Definition schema_at (n : nat) : sql_schema :=
  match exec_all empty_schema (concat (mi_Up <$> take n Migrations)) with Ok s => s | Err _ => empty_schema end.
Definition versions_at (n : nat) : gmap Z string :=
  list_to_map ((fun m => (mi_ID m, mi_Name m)) <$> take n Migrations).

(** A database at version [n]; before the first migration the table of versions
    may be missing. *)
Definition at_version (n : nat) (c : content) : Prop :=
  (n <= length Migrations)%nat /\ c.1 = schema_at n /\ (c.2 = Some (versions_at n) \/ n = 0%nat /\ c.2 = None).

(** Two statements in a row, as a transaction has them. *)
Definition both (st1 st2 : content -> result (unit * content)) (c : content) : result content :=
  match st1 c with
  | Ok (_, c1) => match st2 c1 with Ok (_, c2) => Ok c2 | Err e => Err e end
  | Err e => Err e
  end.
Definition migrated (m : Migration) : content -> result content :=
  both (script (mi_Up m)) (insert_version (mi_ID m) (mi_Name m)).
Definition rolled_back (m : Migration) : content -> result content :=
  both (script (mi_Down m)) (delete_version (mi_ID m)).

(** The computations on the three migrations. *)
Lemma up_ok n m : Migrations !! n = Some m ->
  mi_ID m = Z.of_nat (S n) /\ (S n <= length Migrations)%nat /\
  migrated m (schema_at n, Some (versions_at n)) = Ok (schema_at (S n), Some (versions_at (S n))) /\
  rolled_back m (schema_at (S n), Some (versions_at (S n))) = Ok (schema_at n, Some (versions_at n)).
Proof.
  destruct n as [|[|[|n]]]; cbn; intros [= <-]; (split_and!; [done|lia|vm_compute; reflexivity..]).
Qed.

(** A migration that is there already cannot be applied again. *)
Lemma up_again n k m : Migrations !! k = Some m -> (k < n <= length Migrations)%nat ->
  exists e, migrated m (schema_at n, Some (versions_at n)) = Err e.
Proof.
  intros Hm [Hk Hn]. cbn in Hn.
  assert (Hn' : n = 1%nat \/ n = 2%nat \/ n = 3%nat) by lia.
  destruct k as [|[|[|k]]]; cbn in Hm; [injection Hm as <-..|done];
    destruct Hn' as [->|[->| ->]]; try lia; eexists; vm_compute; reflexivity.
Qed.

Lemma max_version_at n : (n <= length Migrations)%nat -> max_version (versions_at n) = Z.of_nat n.
Proof. cbn. intros Hn. do 4 (destruct n as [|n]; [vm_compute; reflexivity|]). lia. Qed.

(** ** Rules *)

(** Later, with the same content. *)
Definition still (d d' : Database) : Prop := env_after (da_env d) (da_env d') /\ da_content d' = da_content d.
Definition calm_db (d : Database) : Prop := quiet (da_env d).

#[export] Instance still_preorder : PreOrder still.
Proof.
  split; [by intros d; split; [reflexivity|]|]. intros d1 d2 d3 [E1 C1] [E2 C2].
  split; [by etransitivity|congruence].
Qed.
Lemma still_calm d d' : still d d' -> ~ calm_db d' -> ~ calm_db d.
Proof. intros [He _] Hq Hc. apply Hq. by eapply quiet_after. Qed.
Lemma still_set d d' c : still d d' -> still d (set_da_content c d') <-> c = da_content d.
Proof. intros [He Hc]. split; [by intros [_ ?]|by intros ->]. Qed.

Lemma wp_da_call d Q :
  (forall e d', still d d' -> ~ calm_db d -> Q (Some e) d') -> (forall d', still d d' -> Q None d') -> wp da_call d Q.
Proof.
  intros Hf Hok. unfold wp, da_call.
  assert (Hs : still d (mkDatabase (da_content d) (env_call (da_env d)))) by (split; [apply env_after_call|done]).
  destruct (env_fault _ _) as [e|] eqn:E; cbn; [|by apply Hok]. apply Hf; [done|]. intros Hq. by rewrite (Hq _) in E.
Qed.

Lemma wp_da_exec {A} (st : content -> result (A * content)) d Q :
  (forall e d', still d d' -> ~ calm_db d \/ st (da_content d) = Err e -> Q (Err e) d') ->
  (forall a c d', still d d' -> st (da_content d) = Ok (a, c) -> Q (Ok a) (set_da_content c d')) ->
  wp (da_exec st) d Q.
Proof.
  intros Hf Hok. unfold da_exec. rewrite wp_bind. apply wp_da_call; [intros e d' Hs Hq; rewrite wp_ret; by apply Hf; auto|].
  intros d' Hs. pose proof Hs as [_ Ec]. rewrite wp_bind, wp_get, Ec.
  destruct (st (da_content d)) as [[a c]|e]; wp_simp; auto.
Qed.

(** What two statements do before the transaction ends. *)
Lemma wp_both w1 w2 st1 st2 d :
  wp (let? _ := da_exec st1 orelse w1 in let? _ := da_exec st2 orelse w2 in ret (Ok tt)) d
    (fun r d' => env_after (da_env d) (da_env d') /\
       match r with
       | Ok _ => both st1 st2 (da_content d) = Ok (da_content d')
       | Err _ => ~ calm_db d \/ exists e, both st1 st2 (da_content d) = Err e
       end).
Proof.
  unfold both. rewrite wp_try_bind. apply wp_da_exec.
  - intros e d1 [E1 _] [Hq| ->]; eauto.
  - intros [] c1 d1 [E1 C1] ->. rewrite wp_try_bind. apply wp_da_exec; cbn.
    + intros e d2 [E2 _] Hf. split; [by etransitivity|].
      destruct Hf as [Hq| ->]; [left; intros Hc; apply Hq; by eapply (quiet_after (da_env d))|eauto].
    + intros [] c2 d2 [E2 C2] ->. wp_simp. cbn. split; [by etransitivity|done].
Qed.

(** A transaction does both its statements, or nothing. *)
Lemma wp_transaction begin_ w1 w2 commit st1 st2 d :
  wp (in_transaction begin_ (let? _ := da_exec st1 orelse w1 in let? _ := da_exec st2 orelse w2 in ret (Ok tt)) commit) d
    (fun r d' => env_after (da_env d) (da_env d') /\
       match r with
       | Ok _ => both st1 st2 (da_content d) = Ok (da_content d')
       | Err _ => (~ calm_db d \/ exists e, both st1 st2 (da_content d) = Err e) /\ da_content d' = da_content d
       end).
Proof.
  unfold in_transaction. rewrite wp_bind. apply wp_da_call; [intros e d1 [E1 C1] Hq; rewrite wp_ret; auto|].
  intros d1 H1. pose proof H1 as [E1 C1]. rewrite wp_bind, wp_get, wp_bind. eapply wp_mono; [apply wp_both|].
  rewrite C1. assert (Hc : ~ calm_db d1 -> ~ calm_db d) by by apply still_calm.
  intros [u|e] d2 [E2 Hr]; rewrite wp_bind; apply wp_da_call; intros; wp_simp; cbn;
    (split; [destruct H as [E3 _]; cbn; by repeat (etransitivity; [eassumption|])|]).
  - split; [|done]. left. apply Hc. intros Hq. apply H0. by eapply quiet_after.
  - by destruct H as [_ ->].
  - split; [|done]. destruct Hr; auto.
  - split; [|done]. destruct Hr; auto.
Qed.

(** ** Migrators

    A server that starts is its critical sections: each statement of [Migrate] and
    each transaction is one. *)
Inductive migrator :=
  | Tracking
  | Reading
  | Applying (current : Z) (l : list Migration)
  | Migrated (r : result unit).

Definition migrator_step (p : migrator) : M Database migrator :=
  match p with
  | Tracking =>
      let! r := da_exec track in
      ret (match r with Ok _ => Reading | Err e => Migrated (Err (wrap "creating migrations table" e)) end)
  | Reading =>
      let! r := da_exec select_version in
      ret (match r with
           | Ok current => Applying current Migrations
           | Err e => Migrated (Err (wrap "reading current version" e))
           end)
  | Applying current [] => ret (Migrated (Ok tt))
  | Applying current (m :: l) =>
      if decide (mi_ID m <= current) then ret (Applying current l)
      else let! r := apply_migration m in
           ret (match r with Ok _ => Applying current l | Err e => Migrated (Err e) end)
  | Migrated r => ret (Migrated r)
  end.

Definition system : Type := list migrator * Database.
Definition system_step (s : system) (i : nat) : system :=
  match s.1 !! i with
  | Some p => let '(p', d) := migrator_step p s.2 in (<[i := p']> s.1, d)
  | None => s
  end.

(** A migrator that is left alone is [Migrate]. *)
Fixpoint alone (fuel : nat) (p : migrator) : M Database (result unit) :=
  match p, fuel with
  | Migrated r, _ => ret r
  | _, O => ret (Err (ErrNew "not done"))
  | _, S fuel' => let! p' := migrator_step p in alone fuel' p'
  end.

Lemma alone_applying current l d : alone (S (length l)) (Applying current l) d = apply_pending current l d.
Proof.
  revert d. induction l as [|m l IH]; intros d; [done|]. cbn -[apply_migration]. case_decide.
  - apply IH.
  - unfold bind at 1 2, try_bind, bind. destruct (apply_migration m d) as [[[]|e] d'] eqn:E; cbn -[apply_migration].
    + apply IH.
    + done.
Qed.

Lemma alone_is_Migrate d : alone (3 + length Migrations) Tracking d = Migrate d.
Proof.
  change (3 + length Migrations)%nat with (S (S (S (length Migrations)))).
  unfold Migrate, try_bind, bind. cbn [alone migrator_step]. unfold bind at 1 2.
  destruct (da_exec track d) as [[u|e] d1]; [|done]. unfold ret at 1. cbn [alone migrator_step]. unfold bind at 1 2.
  destruct (da_exec select_version d1) as [[current|e] d2]; [|done]. apply alone_applying.
Qed.

(** ** Every interleaving of migrators *)

(** A migration is done on a database of the version before it, which then has
    the next one, or is refused. *)
Lemma migrated_at n k m c : Migrations !! k = Some m -> (k <= n)%nat -> at_version n c ->
  match migrated m c with
  | Ok c' => k = n /\ at_version (S n) c'
  | Err _ => (k < n)%nat \/ c.2 = None
  end.
Proof.
  intros Hm Hk (Hn & Hs & Hv). destruct c as [s v]; cbn in Hs, Hv; subst s. destruct (up_ok k m Hm) as (_ & Hk' & Hup & _).
  destruct Hv as [->|[-> ->]].
  - destruct (decide (k = n)) as [->|Hne].
    + rewrite Hup. unfold at_version. auto.
    + destruct (up_again n k m Hm) as [e ->]; [lia|]. left. lia.
  - assert (k = 0%nat) as -> by lia. injection Hm as <-. vm_compute. by right.
Qed.

Lemma select_version_at n c v c' : at_version n c -> select_version c = Ok (v, c') -> v = Z.of_nat n /\ c' = c /\ is_Some c.2.
Proof.
  intros (Hn & _ & Hv) E. unfold select_version in E. destruct Hv as [Hv|[_ Hv]]; rewrite Hv in *; [|done].
  injection E as <- <-. split_and!; [by apply max_version_at|done|done].
Qed.
Lemma track_at n c : at_version n c -> exists c', track c = Ok (tt, c') /\ at_version n c' /\ is_Some c'.2.
Proof.
  intros (Hn & Hs & Hv). eexists. split; [done|]. split; [|done]. split_and!; [done|done|].
  destruct Hv as [-> |[-> ->]]; by left.
Qed.

(** What a migrator knows: the versions up to the one it read and those of the
    migrations it is done with are there. *)
Definition knows (n : nat) (c : content) (p : migrator) : Prop :=
  match p with
  | Tracking | Migrated (Err _) => True
  | Reading => is_Some c.2
  | Applying current l => is_Some c.2 /\ current <= Z.of_nat n /\ exists k, l = drop k Migrations /\ (k <= n)%nat
  | Migrated (Ok _) => is_Some c.2 /\ n = length Migrations
  end.
Definition advances (n : nat) (c c' : content) : Prop :=
  exists n', (n <= n')%nat /\ at_version n' c' /\ (is_Some c.2 -> is_Some c'.2).

Lemma knows_later n n' c c' p : (n <= n' <= length Migrations)%nat -> (is_Some c.2 -> is_Some c'.2) -> knows n c p -> knows n' c' p.
Proof.
  intros Hn Hc. destruct p as [| |current l|[u|e]]; cbn -[Migrations].
  - done.
  - done.
  - intros (H1 & H2 & k & -> & H3). split_and!; [auto|lia|]. exists k. split; [done|lia].
  - intros [H1 ->]. split; [auto|lia].
  - done.
Qed.

Lemma wp_migrator_step n p d : at_version n (da_content d) -> knows n (da_content d) p ->
  wp (migrator_step p) d (fun p' d' => exists n', (n <= n')%nat /\ at_version n' (da_content d') /\
    (is_Some (da_content d).2 -> is_Some (da_content d').2) /\ knows n' (da_content d') p').
Proof.
  intros Hat Hk. destruct p as [| |current [|m l]|r]; cbn [migrator_step].
  - rewrite wp_bind. apply wp_da_exec.
    + intros e d' [_ Ec] _. rewrite wp_ret, Ec. by exists n.
    + intros [] c d' _ E. destruct (track_at n _ Hat) as (c' & E' & Hat' & Hc'). rewrite E in E'. injection E' as <-.
      wp_simp. exists n. cbn. auto.
  - rewrite wp_bind. apply wp_da_exec.
    + intros e d' [_ Ec] _. rewrite wp_ret, Ec. by exists n.
    + intros v c d' _ E. destruct (select_version_at n _ v c Hat E) as (-> & -> & Hc). wp_simp. exists n.
      split_and!; [done|done|done|]. cbn -[Migrations]. split_and!; [done|lia|]. exists 0%nat. split; [done|lia].
  - rewrite wp_ret. destruct Hk as (Hc & Hcur & k & El & Hkn). exists n. split_and!; [done|done|done|]. cbn -[Migrations].
    split; [done|]. destruct Hat as [Hn _]. assert (length (drop k Migrations) = 0%nat) by by rewrite <- El.
    rewrite length_drop in H. lia.
  - destruct Hk as (Hc & Hcur & k & El & Hkn).
    assert (Hm : Migrations !! k = Some m) by (rewrite <- (Nat.add_0_r k), <- lookup_drop, <- El; done).
    assert (Hl : l = drop (S k) Migrations) by (rewrite <- Nat.add_1_r, <- drop_drop, <- El; done).
    destruct (up_ok k m Hm) as (Eid & HSk & _). rewrite Eid.
    case_decide.
    + rewrite wp_ret. exists n. split_and!; [done|done|done|]. cbn -[Migrations]. split_and!; [done|done|].
      exists (S k). split; [done|lia].
    + rewrite wp_bind. eapply wp_mono; [apply wp_transaction|]. intros [[]|e] d' [_ Hr]; rewrite wp_ret.
      * pose proof (migrated_at n k m _ Hm Hkn Hat) as Hmig. unfold migrated in Hmig. rewrite Hr in Hmig.
        destruct Hmig as [-> Hat']. exists (S n). assert (Hc' : is_Some (da_content d').2).
        { destruct Hat' as (_ & _ & [->|[? _]]); [done|lia]. }
        split_and!; [lia|done|done|]. cbn -[Migrations]. split_and!; [done|lia|]. exists (S n). split; [done|lia].
      * destruct Hr as [_ ->]. by exists n.
  - rewrite wp_ret. by exists n.
Qed.

Definition system_ok (n : nat) (s : system) : Prop :=
  at_version n (da_content s.2) /\ Forall (knows n (da_content s.2)) s.1.

Lemma system_step_ok n s i : system_ok n s -> exists n', (n <= n')%nat /\ system_ok n' (system_step s i).
Proof.
  destruct s as [ps d]. intros [Hat Hks]. cbn in Hat, Hks. unfold system_step. cbn.
  destruct (ps !! i) as [p|] eqn:Ep; [|by exists n].
  pose proof (Forall_lookup_1 _ _ _ _ Hks Ep) as Hk. pose proof (wp_migrator_step n p d Hat Hk) as Hw.
  unfold wp in Hw. destruct (migrator_step p d) as [p' d']. cbn in Hw. destruct Hw as (n' & Hn & Hat' & Hc & Hk').
  exists n'. split; [done|]. split; [done|]. cbn. apply Forall_insert; [|done].
  eapply Forall_impl; [exact Hks|]. intros q. apply knows_later; [|done]. split; [done|]. by destruct Hat'.
Qed.

(** C25: Any number of servers start at once on a database, in any order of their
    statements, with any failures of the driver: the schema is that of a version at
    every point, the version never goes back, and a server that went on found the
    last one. *)
Theorem concurrent_migrations n servers d schedule : at_version n (da_content d) ->
  exists n', (n <= n')%nat /\
    let '(ps, d') := fold_left system_step schedule (replicate servers Tracking, d) in
    at_version n' (da_content d') /\
    (Migrated (Ok tt) ∈ ps -> da_content d' = (schema_at (length Migrations), Some (versions_at (length Migrations)))).
Proof.
  intros Hat. set (s := (replicate servers Tracking, d)).
  assert (Hok : system_ok n s) by (split; [done|]; by apply Forall_replicate).
  assert (Hall : forall s n, system_ok n s -> exists n', (n <= n')%nat /\ system_ok n' (fold_left system_step schedule s)).
  { clear. induction schedule as [|i l IH]; intros s n Hok; cbn; [by exists n|].
    destruct (system_step_ok n s i Hok) as (n1 & H1 & Hok1). destruct (IH _ _ Hok1) as (n2 & H2 & Hok2).
    exists n2. split; [lia|done]. }
  destruct (Hall s n Hok) as (n' & Hn & Hat' & Hks). exists n'. split; [done|].
  destruct (fold_left _ _ _) as [ps d']. split; [done|]. intros Hin.
  rewrite Forall_forall in Hks. apply Hks in Hin as [[v Hv] ->]. cbn in Hat', Hv |- *. destruct Hat' as (_ & Hs & Hv').
  destruct (da_content d') as [s' v']. cbn in *. subst s'. f_equal. destruct Hv' as [->|[Hx _]]; [done|done].
Qed.

(** ** One server *)

Lemma wp_apply_pending l k cur n d : l = drop k Migrations -> at_version n (da_content d) -> is_Some (da_content d).2 ->
  (k <= n)%nat -> cur <= Z.of_nat n -> n = k \/ Z.of_nat n = cur ->
  wp (apply_pending cur l) d (fun r d' => env_after (da_env d) (da_env d') /\
    match r with
    | Ok _ => at_version (length Migrations) (da_content d') /\ is_Some (da_content d').2
    | Err _ => ~ calm_db d /\ exists n', (n <= n')%nat /\ at_version n' (da_content d')
    end).
Proof.
  revert k n d. induction l as [|m l IH]; intros k n d El Hat Hc Hkn Hle Hcur; cbn [apply_pending].
  - rewrite wp_ret. split; [reflexivity|]. pose proof Hat as [Hn _].
    assert (Hl : length (drop k Migrations) = 0%nat) by by rewrite <- El. rewrite length_drop in Hl.
    by assert (n = length Migrations) as <- by lia.
  - assert (Hm : Migrations !! k = Some m) by (rewrite <- (Nat.add_0_r k), <- lookup_drop, <- El; done).
    assert (Hl : l = drop (S k) Migrations) by (rewrite <- Nat.add_1_r, <- drop_drop, <- El; done).
    destruct (up_ok k m Hm) as (Eid & HSk & _). rewrite Eid. case_decide; [apply (IH (S k)); auto; lia|].
    assert (n = k) as -> by lia. rewrite wp_try_bind. eapply wp_mono; [apply wp_transaction|].
    pose proof (migrated_at k k m _ Hm (Nat.le_refl k) Hat) as Hmig. unfold migrated in Hmig.
    intros [[]|e] d1 [E1 Hr]; cbn beta iota in Hr.
    + rewrite Hr in Hmig. destruct Hmig as [_ Hat1]. assert (Hc1 : is_Some (da_content d1).2).
      { destruct Hat1 as (_ & _ & [->|[? _]]); [done|lia]. }
      eapply wp_mono; [apply (IH (S k) (S k)); auto; lia|]. cbn beta. intros [u|e] d2 [E2 H2];
        (split; [by etransitivity|]); [done|].
      destruct H2 as (Hq & n2 & Hn2 & Hat2). split; [|exists n2; split; [lia|done]].
      intros Hd. apply Hq. by eapply quiet_after.
    + split; [done|]. destruct Hr as [[Hq|[e' Ee]] ->]; [by eauto|].
      rewrite Ee in Hmig. destruct Hmig as [?|Hnone]; [lia|]. by rewrite Hnone in Hc; destruct Hc.
Qed.

(** What a call that ends a migration tells: all is there, or the driver failed
    and the schema is that of a later version. *)
Definition migrates (n : nat) (d : Database) (r : result unit) (d' : Database) : Prop :=
  env_after (da_env d) (da_env d') /\
  match r with
  | Ok _ => at_version (length Migrations) (da_content d') /\ is_Some (da_content d').2
  | Err _ => ~ calm_db d /\ exists n', (n <= n')%nat /\ at_version n' (da_content d')
  end.

Lemma migrates_later n d1 d2 r d' : env_after (da_env d1) (da_env d2) -> migrates n d2 r d' -> migrates n d1 r d'.
Proof.
  intros E1 [E2 Hr]. split; [by etransitivity|]. destruct r; [done|]. destruct Hr as [Hq Hn].
  split; [|done]. intros Hd. apply Hq. by eapply quiet_after.
Qed.

Lemma wp_Migrate n d : at_version n (da_content d) -> wp Migrate d (migrates n d).
Proof.
  intros Hat. unfold Migrate. rewrite wp_try_bind. apply wp_da_exec.
  - intros e d1 [E1 C1] Hf. split; [done|]. rewrite C1. split; [|by exists n]. by destruct Hf as [Hq|Hq].
  - intros [] c d1 [E1 C1] Ec. destruct (track_at n _ Hat) as (c' & Ec' & Hat' & Hc'). rewrite Ec in Ec'. injection Ec' as <-.
    rewrite wp_try_bind. apply wp_da_exec.
    + intros e d2 [E2 C2] Hf. cbn in C2, Hf. apply (migrates_later n d d1); [done|]. split; [done|]. rewrite C2.
      split; [|by exists n]. destruct Hf as [Hq|Hf]; [done|]. destruct Hc' as [v Hv]. unfold select_version in Hf. by rewrite Hv in Hf.
    + intros v c' d2 [E2 C2] Hs. destruct (select_version_at n _ _ _ Hat' Hs) as (-> & -> & _).
      eapply wp_mono; [apply (wp_apply_pending Migrations 0 _ n (set_da_content c d2)); auto; cbn; lia|].
      intros r d3 H3. eapply (migrates_later n _ (set_da_content c d2)); [by etransitivity|exact H3].
Qed.

(** A call that only fails when the driver does. *)
Definition passes (d : Database) (r : result unit) (d' : Database) : Prop :=
  still d d' /\ match r with Ok _ => True | Err _ => ~ calm_db d end.

Lemma wp_opened w d : wp (opened w) d (passes d).
Proof. unfold opened. rewrite wp_bind. by apply wp_da_call. Qed.
Lemma wp_passes w (m k : M Database (result unit)) d : wp m d (passes d) -> (forall d', still d d' -> wp k d' (passes d')) ->
  wp (let? _ := m orelse w in k) d (passes d).
Proof.
  intros Hm Hk. rewrite wp_try_bind. eapply wp_mono; [exact Hm|]. intros [u|e] d1 [H1 Hr]; [|by split].
  eapply wp_mono; [by apply Hk|]. intros r d2 [H2 Hr2]. split; [by etransitivity|]. destruct r; [done|]. by eapply still_calm.
Qed.
Lemma wp_set_pragmas d : wp set_pragmas d (passes d).
Proof. unfold set_pragmas. repeat (apply wp_passes; [apply wp_opened|intros]). by split. Qed.

Lemma wp_then w (m k : M Database (result unit)) n d : wp m d (passes d) -> at_version n (da_content d) ->
  (forall d', still d d' -> wp k d' (migrates n d')) -> wp (let? _ := m orelse w in k) d (migrates n d).
Proof.
  intros Hm Hat Hk. rewrite wp_try_bind. eapply wp_mono; [exact Hm|]. intros [u|e] d1 [[E1 C1] Hr].
  - eapply wp_mono; [by apply Hk|]. intros r d2. by apply migrates_later.
  - split; [done|]. rewrite C1. split; [done|by exists n].
Qed.

(** The columns that the statements of [Schema] find in a table. *)
Definition table_name (t : table) : string :=
  match t with
  | t_workspaces => "workspaces" | t_sessions => "sessions" | t_runs => "runs" | t_events => "events"
  | t_approvals => "approvals" | t_audit_log => "audit_log" | t_devices => "devices"
  | t_access_tokens => "access_tokens"
  end.
Definition has_columns (c : content) : Prop :=
  forall t, exists tb, sc_tables c.1 !! table_name t = Some tb /\ (sq_columns tb).*1 = columns t.

Lemma last_has_columns c : at_version (length Migrations) c -> has_columns c.
Proof. intros (_ & Es & _) t. rewrite Es. destruct t; eexists; (split; vm_compute; reflexivity). Qed.

Lemma wp_Open driver n d : at_version n (da_content d) -> wp (Open driver) d (migrates n d).
Proof.
  intros Hat. unfold Open. apply wp_then; [apply wp_opened|done|].
  intros d1 [_ C1]. apply wp_then; [case_decide; [apply wp_set_pragmas|by split]|by rewrite C1|].
  intros d2 [_ C2]. apply wp_then; [apply wp_opened|by rewrite C2, C1|]. intros d3 [_ C3]. rewrite wp_try_bind.
  eapply wp_mono; [apply (wp_Migrate n); by rewrite C3, C2, C1|]. intros [[]|e] d4; exact id.
Qed.


(** ** Rolling back *)

Lemma wp_Rollback n d : at_version n (da_content d) ->
  wp Rollback d (fun r d' => env_after (da_env d) (da_env d') /\
    match r with
    | Ok _ => exists n', n = S n' /\ da_content d' = (schema_at n', Some (versions_at n'))
    | Err _ => (~ calm_db d \/ n = 0%nat) /\ da_content d' = da_content d
    end).
Proof.
  intros Hat. unfold Rollback. rewrite wp_try_bind. apply wp_da_exec.
  - intros e d1 [E1 C1] Hf. split; [done|]. split; [|done]. destruct Hf as [Hq|Hf]; [by left|right].
    destruct Hat as (_ & _ & [Hv|[? _]]); [|done]. unfold select_version in Hf. by rewrite Hv in Hf.
  - intros v c d1 [E1 C1] Hs. destruct (select_version_at n _ _ _ Hat Hs) as (-> & -> & Hc).
    destruct n as [|n]; [rewrite decide_True by done; rewrite wp_ret; by auto|].
    assert (Ed : da_content d = (schema_at (S n), Some (versions_at (S n)))).
    { destruct Hat as (_ & Es & [Ev|[? _]]); [|done]. by destruct (da_content d); cbn in *; subst. }
    rewrite decide_False by lia.
    assert (Hm : exists m, Migrations !! n = Some m) by (apply lookup_lt_is_Some_2; destruct Hat; lia).
    destruct Hm as [m Hm]. destruct (up_ok n m Hm) as (Eid & _ & _ & Hdown).
    assert (Hf : list_find (fun m => mi_ID m = Z.of_nat (S n)) Migrations = Some (n, m)).
    { clear -Hm. destruct n as [|[|[|n]]]; cbn in Hm; [injection Hm as <-; reflexivity..|done]. }
    rewrite Hf. eapply wp_mono; [apply wp_transaction|]. intros [[]|e] d2 [E2 Hr]; (split; [by etransitivity|]).
    + exists n. split; [done|]. cbn in Hr. rewrite Ed in Hr. unfold rolled_back in Hdown. congruence.
    + destruct Hr as [[Hq|[e' He]] C2]; cbn in C2.
      * split; [|done]. left. intros Hd. apply Hq. by eapply quiet_after.
      * cbn in He. rewrite Ed in He. unfold rolled_back in Hdown. congruence.
Qed.

(** What is rolled back can be migrated again: with a driver that does not fail, a
    rollback of version [S n] leaves exactly version [n], and a migration after it
    exactly the last version; there is nothing below version 0. *)
Theorem rollback_restored n d : at_version n (da_content d) -> is_Some (da_content d).2 -> calm_db d ->
  exists r d1 d2, Rollback d = (r, d1) /\ Migrate d1 = (Ok tt, d2) /\
    da_content d2 = (schema_at (length Migrations), Some (versions_at (length Migrations))) /\
    match r with
    | Ok _ => exists n', n = S n' /\ da_content d1 = (schema_at n', Some (versions_at n'))
    | Err _ => n = 0%nat /\ da_content d1 = da_content d
    end.
Proof.
  intros Hat Hc Hq. destruct (wp_exists _ _ _ (wp_Rollback n d Hat)) as (r & d1 & Er & E1 & H1).
  assert (Hq1 : calm_db d1) by by eapply quiet_after.
  assert (Hat1 : exists n1, at_version n1 (da_content d1)).
  { destruct r as [u|e]; [|destruct H1 as [_ ->]; eauto]. destruct H1 as (n' & -> & ->). exists n'.
    split_and!; [destruct Hat; lia|done|by left]. }
  destruct Hat1 as [n1 Hat1]. destruct (wp_exists _ _ _ (wp_Migrate n1 d1 Hat1)) as (r2 & d2 & Er2 & _ & H2).
  destruct r2 as [[]|e]; [|by destruct H2]. exists r, d1, d2. split_and!; [done|done| |].
  - destruct H2 as [(_ & Es & [Ev|[? _]]) _]; [|done]. destruct (da_content d2); cbn in *; by subst.
  - destruct r; [done|]. destruct H1 as [[?| ->] ->]; done.
Qed.

(** ** Concrete runs: an empty file, and calls of the driver that fail *)

Definition demo_database (faulty : list nat) : Database :=
  mkDatabase (empty_schema, None)
    (mkEnv (fun _ => 0) 0 (fun _ => None) 0 (fun k => if bool_decide (k ∈ faulty) then Some "disk I/O error" else None) 0).

Definition demo_race : list nat := [0; 1; 0; 1; 0; 1; 0; 0; 0]%nat.

(** Of two servers that start at once on an empty file one does not come up: it
    read version 0 too, and its transaction finds migration 1 recorded. *)
Example second_server_fails :
  match (fold_left system_step demo_race ([Tracking; Tracking], demo_database [])).1 with
  | [Migrated (Ok _); Migrated (Err e)] => error_Error e
  | _ => ""
  end = "recording migration 1: UNIQUE constraint failed: schema_migrations.version".
Proof. vm_compute. reflexivity. Qed.

Lemma concurrent_migrations_witness : exists n', (0 <= n')%nat /\
  let '(ps, d') := fold_left system_step demo_race (replicate 2 Tracking, demo_database []) in
  at_version n' (da_content d') /\
  (Migrated (Ok tt) ∈ ps -> da_content d' = (schema_at (length Migrations), Some (versions_at (length Migrations)))).
Proof. apply (concurrent_migrations 0). split_and!; [cbn; lia|reflexivity|by right]. Defined.

(** Call 13 of the driver records migration 2, in its transaction. *)
Lemma demo_at_0 faulty : at_version 0 (da_content (demo_database faulty)).
Proof. split_and!; [cbn; lia|reflexivity|by right]. Qed.


Lemma rollback_restored_witness : exists r d1 d2,
  Rollback (mkDatabase (schema_at 3, Some (versions_at 3)) (da_env (demo_database []))) = (r, d1) /\
  Migrate d1 = (Ok tt, d2) /\ da_content d2 = (schema_at (length Migrations), Some (versions_at (length Migrations))) /\
  match r with
  | Ok _ => exists n', 3%nat = S n' /\ da_content d1 = (schema_at n', Some (versions_at n'))
  | Err _ => 3%nat = 0%nat /\ da_content d1 = (schema_at 3, Some (versions_at 3))
  end.
Proof.
  apply (rollback_restored 3 (mkDatabase (schema_at 3, Some (versions_at 3)) (da_env (demo_database [])))).
  - split_and!; [cbn; lia|reflexivity|by left].
  - by eexists.
  - by intros k.
Defined.
