(* ===== verification/SessionRepo.v ===== *)
(** * Sessions, runs and workspaces in the database
      (src/internal/storage/session_repository.go) *)

From S2P Require Import Prelude Env Json Domain Schema.

(** ** Rows of the sessions table *)

Definition upd_state (st : string) (now : Z) (r : SessionRow) : SessionRow :=
  mkSessionRow (sr_workspace_id r) (sr_adapter_id r) st (sr_title r) (sr_created_at r) now
    (Some now) (sr_last_sequence r) (sr_pending_approval_id r) (sr_recovery_state r)
    (sr_owner_device_id r).

Definition upd_pending (ap : option string) (now : Z) (r : SessionRow) : SessionRow :=
  mkSessionRow (sr_workspace_id r) (sr_adapter_id r) (sr_state r) (sr_title r)
    (sr_created_at r) now (sr_last_activity_at r) (sr_last_sequence r) ap
    (sr_recovery_state r) (sr_owner_device_id r).

Definition upd_last_sequence (n : Z) (now : Z) (r : SessionRow) : SessionRow :=
  mkSessionRow (sr_workspace_id r) (sr_adapter_id r) (sr_state r) (sr_title r)
    (sr_created_at r) now (sr_last_activity_at r) n (sr_pending_approval_id r)
    (sr_recovery_state r) (sr_owner_device_id r).

(** The row [CreateSession] inserts: the columns it does not name are NULL. *)
Definition session_row (s : Session) : SessionRow :=
  mkSessionRow (s_WorkspaceID s) (s_AdapterID s) (s_State s) (Some (s_Title s))
    (s_CreatedAt s) (s_UpdatedAt s) (s_LastActivityAt s) (s_LastSequence s) None None None.

(** ** Scanning *)

(** [Scan] of a row into a Session: a NULL title cannot go into a string. *)
Definition scan_session_columns (row : string * SessionRow) : result Session :=
  let '(id, r) := row in
  match sr_title r with
  | None => Err (ErrNew "sql: Scan error: converting NULL to string is unsupported")
  | Some title =>
      Ok (mkSession id (sr_workspace_id r) (sr_adapter_id r) (sr_state r) title
            (sr_created_at r) (sr_updated_at r) (sr_last_activity_at r)
            (sr_last_sequence r) (sr_pending_approval_id r) (sr_owner_device_id r)
            (sr_recovery_state r))
  end.

(** [scanSession]: [row] is the outcome of [QueryRow]. *)
Definition scanSession (row : result (option (string * SessionRow))) : result Session :=
  match row with
  | Err e => Err (wrap "scanning session" e)
  | Ok None => Err (ErrNew "session not found")
  | Ok (Some r) =>
      match scan_session_columns r with
      | Ok s => Ok s
      | Err e => Err (wrap "scanning session" e)
      end
  end.

Definition scanSingleSession (r : string * SessionRow) : result Session :=
  match scan_session_columns r with
  | Ok s => Ok s
  | Err e => Err (wrap "scanning session" e)
  end.

Fixpoint scan_rows {R A} (scan : R -> result A) (rows : list R) : result (list A) :=
  match rows with
  | [] => Ok []
  | r :: rows' =>
      match scan r with
      | Err e => Err e
      | Ok a => match scan_rows scan rows' with
                | Err e => Err e
                | Ok l => Ok (a :: l)
                end
      end
  end.

(** The rows, then [rows.Err()]. *)
Definition scanSessions (rows : list (string * SessionRow)) : M Store (result (list Session)) :=
  match scan_rows scanSingleSession rows with
  | Err e => ret (Err e)
  | Ok l =>
      let! e := driver_call in
      ret (match e with
           | Some e => Err (wrap "iterating sessions" e)
           | None => Ok l
           end)
  end.

(** ** SessionRepository *)

(** Returns the session as the call leaves it (the code mutates its argument). *)
Definition SessionRepository_CreateSession (s : Session) : M Store (result Session) :=
  let! now := on_env time_Now in
  let s := set_s_times now s in
  let? _ := exec (insert_session (s_ID s) (session_row s))
    orelse wrap "creating session" in
  ret (Ok s).

Definition select_session (id : string) (d : DB) : option (string * SessionRow) :=
  pair id <$> sessions d !! id.

Definition SessionRepository_GetByID (id : string) : M Store (result Session) :=
  let! row := exec (query (select_session id)) in
  ret (scanSession row).

(** Sessions by decreasing creation time; the order of equal times is the map's. *)
Definition select_sessions (P : SessionRow -> bool) (d : DB) : list (string * SessionRow) :=
  merge_sort (by_desc (fun kv => sr_created_at kv.2))
    (filter (fun kv => P kv.2) (map_to_list (sessions d))).

Definition SessionRepository_GetByWorkspaceID (workspaceID : string)
    : M Store (result (list Session)) :=
  let? rows := exec (query (select_sessions
                 (fun r => bool_decide (sr_workspace_id r = workspaceID))))
    orelse wrap "querying sessions" in
  scanSessions rows.

Definition SessionRepository_GetAll : M Store (result (list Session)) :=
  let? rows := exec (query (select_sessions (fun _ => true)))
    orelse wrap "querying sessions" in
  scanSessions rows.

(** [result.RowsAffected()]. *)
Definition RowsAffected (n : Z) : M Store (result Z) :=
  let! e := driver_call in
  ret (match e with Some e => Err e | None => Ok n end).

Definition SessionRepository_UpdateState (id newState : string) (expectedState : option string)
    : M Store (result bool) :=
  let! now := on_env time_Now in
  let cols := ["state"; "updated_at"; "last_activity_at"] in
  let? n := match expectedState with
            | Some expected =>
                exec (update_key t_sessions cols sessions set_sessions (upd_state newState now)
                        (fun r => bool_decide (sr_state r = expected)) id)
            | None =>
                exec (update_key t_sessions cols sessions set_sessions (upd_state newState now)
                        (fun _ => true) id)
            end orelse wrap "updating session state" in
  let? rows := RowsAffected n orelse wrap "checking rows affected" in
  if decide (rows = 0) then ret (Ok false) else ret (Ok true).

Definition SessionRepository_SetPendingApproval (id : string) (approvalID : option string)
    : M Store (result unit) :=
  let! now := on_env sql_datetime_now in
  let? _ := exec (update_key t_sessions ["pending_approval_id"; "updated_at"] sessions
                    set_sessions (upd_pending approvalID now) (fun _ => true) id) in
  ret (Ok tt).

Definition SessionRepository_UpdateLastSequence (id : string) (sequence : Z)
    : M Store (result unit) :=
  let! now := on_env sql_datetime_now in
  let? _ := exec (update_key t_sessions ["last_sequence"; "updated_at"] sessions
                    set_sessions (upd_last_sequence sequence now) (fun _ => true) id) in
  ret (Ok tt).

Definition SessionRepository_Delete (id : string) : M Store (result unit) :=
  exec (delete_session id).

(** ** Runs *)

Definition run_row (r : Run) : RunRow :=
  mkRunRow (r_SessionID r) (r_State r) (r_ProcessPID r) (r_ProcessArgs r) (r_StartedAt r)
    None None None (r_CreatedAt r).

Definition SessionRepository_CreateRun (run : Run) : M Store (result Run) :=
  let! now := on_env time_Now in
  let run := set_r_CreatedAt now run in
  let? _ := exec (insert_run (r_ID run) (run_row run)) orelse wrap "creating run" in
  ret (Ok run).

Definition scan_run_columns (row : string * RunRow) : Run :=
  let '(id, r) := row in
  mkRun id (rr_session_id r) (rr_state r) (rr_process_pid r) (rr_process_args r)
    (rr_started_at r) (rr_ended_at r) (rr_exit_code r) (rr_exit_error r) (rr_created_at r).

Definition scanRun (row : result (option (string * RunRow))) : result Run :=
  match row with
  | Err e => Err (wrap "scanning run" e)
  | Ok None => Err (ErrNew "run not found")
  | Ok (Some r) => Ok (scan_run_columns r)
  end.

(** [state IN ('active', 'starting')]. *)
Definition run_is_active (r : RunRow) : bool :=
  bool_decide (rr_state r = "active") || bool_decide (rr_state r = "starting").

Definition select_active_run (sessionID : string) (d : DB) : option (string * RunRow) :=
  head (sql_limit 1
    (merge_sort (by_desc (fun kv => rr_created_at kv.2))
       (filter (fun kv => rr_session_id kv.2 = sessionID /\ run_is_active kv.2 = true)
          (map_to_list (runs d))))).

Definition SessionRepository_GetActiveRun (sessionID : string) : M Store (result Run) :=
  let! row := exec (query (select_active_run sessionID)) in
  ret (scanRun row).

Definition upd_run_state (st : string) (now : Z) (code : option Z) (err : option string)
    (r : RunRow) : RunRow :=
  mkRunRow (rr_session_id r) st (rr_process_pid r) (rr_process_args r) (rr_started_at r)
    (Some now) code err (rr_created_at r).

(** The statement also assigns [updated_at = datetime('now')]. *)
Definition SessionRepository_UpdateRunState (id newState : string) (exitCode : option Z)
    (exitError : option string) : M Store (result unit) :=
  let! now := on_env time_Now in
  let? _ := exec (update_key t_runs ["state"; "ended_at"; "exit_code"; "exit_error"; "updated_at"]
                    runs set_runs (upd_run_state newState now exitCode exitError)
                    (fun _ => true) id) in
  ret (Ok tt).

(** ** WorkspaceRepository *)

(** The two JSON columns hold the values they encode. *)
Definition workspace_row (w : Workspace) : WorkspaceRow :=
  mkWorkspaceRow (w_DisplayName w) (w_Path w) (w_AllowedAdapters w) (w_ExecutionPolicy w)
    (w_CreatedAt w) (w_UpdatedAt w).

Definition scan_workspace_columns (row : string * WorkspaceRow) : Workspace :=
  let '(id, r) := row in
  mkWorkspace id (wr_display_name r) (wr_path r) (wr_allowed_adapters r)
    (wr_execution_policy r) (wr_created_at r) (wr_updated_at r).

Definition scanWorkspace (row : result (option (string * WorkspaceRow))) : result Workspace :=
  match row with
  | Err e => Err (wrap "scanning workspace" e)
  | Ok None => Err (ErrNew "workspace not found")
  | Ok (Some r) => Ok (scan_workspace_columns r)
  end.

Definition WorkspaceRepository_Create (ws : Workspace) : M Store (result Workspace) :=
  let! now := on_env time_Now in
  let ws := set_w_times now ws in
  let? _ := exec (insert_workspace (w_ID ws) (workspace_row ws))
    orelse wrap "creating workspace" in
  ret (Ok ws).

Definition WorkspaceRepository_GetByID (id : string) : M Store (result Workspace) :=
  let! row := exec (query (fun d => pair id <$> workspaces d !! id)) in
  ret (scanWorkspace row).

Definition WorkspaceRepository_GetByPath (path : string) : M Store (result Workspace) :=
  let! row := exec (query (fun d =>
    head (filter (fun kv => wr_path kv.2 = path) (map_to_list (workspaces d))))) in
  ret (scanWorkspace row).

(** [ORDER BY display_name], by bytes. *)
Definition by_display_name : relation (string * WorkspaceRow) := fun x y =>
  match String.compare (wr_display_name x.2) (wr_display_name y.2) with
  | Gt => False
  | _ => True
  end.
#[export] Instance by_display_name_dec : RelDecision by_display_name.
Proof. intros x y. unfold by_display_name. destruct (String.compare _ _); apply _. Defined.

Definition scanWorkspaces (rows : list (string * WorkspaceRow)) : M Store (result (list Workspace)) :=
  let! e := driver_call in
  ret (match e with
       | Some e => Err (wrap "iterating workspaces" e)
       | None => Ok (scan_workspace_columns <$> rows)
       end).

Definition WorkspaceRepository_GetAll : M Store (result (list Workspace)) :=
  let? rows := exec (query (fun d => merge_sort by_display_name (map_to_list (workspaces d))))
    orelse wrap "querying workspaces" in
  scanWorkspaces rows.

Definition WorkspaceRepository_Delete (id : string) : M Store (result unit) :=
  exec (delete_workspace id).

(** ** A small database for the examples: one workspace, one active session
    with an active run *)

Definition demo_policy : ExecutionPolicy := mkExecutionPolicy false true [].
Definition demo_workspace_row : WorkspaceRow :=
  mkWorkspaceRow "Demo" "/srv/demo" ["fake-adapter"] demo_policy 1 1.
Definition demo_session_row : SessionRow :=
  mkSessionRow "ws-1" "fake-adapter" SessionStateActive (Some "demo") 10 10 (Some 10) 0
    None None None.
Definition demo_run_row : RunRow :=
  mkRunRow "ses-1" RunStateActive None None None None None None 20.
Definition demo_db : DB :=
  set_runs {["run-1" := demo_run_row]}
    (set_sessions {["ses-1" := demo_session_row]}
       (set_workspaces {["ws-1" := demo_workspace_row]} empty_DB)).
Definition demo_store : Store := mkStore demo_db steady_env.
Definition demo_session : Session :=
  mkSession "ses-2" "ws-1" "fake-adapter" SessionStateCreated "new" 0 0 None 0
    (Some "apr-x") None None.

(** ** Specifications of the operations *)

Lemma prepared_ok {A} t cols (st : stmt A) d :
  missing_column t cols = None -> prepared t cols st d = st d.
Proof. unfold prepared. by intros ->. Qed.

(** The row changes of an UPDATE by key. *)
Lemma wp_update_key {R} t cols (tbl : DB -> gmap string R) set f cond key s
    (Q : result Z -> Store -> Prop) :
  missing_column t cols = None ->
  (forall e env', env_after (st_env s) env' -> faulty (st_env s) ->
     Q (Err e) (mkStore (st_db s) env')) ->
  (forall r env', env_after (st_env s) env' -> tbl (st_db s) !! key = Some r ->
     cond r = true -> Q (Ok 1) (mkStore (set (<[key := f r]> (tbl (st_db s))) (st_db s)) env')) ->
  (forall env', env_after (st_env s) env' ->
     (forall r, tbl (st_db s) !! key = Some r -> cond r = false) ->
     Q (Ok 0) (mkStore (st_db s) env')) ->
  wp (exec (update_key t cols tbl set f cond key)) s Q.
Proof.
  intros Hc HF HS HN. apply wp_exec; [done|]. intros r d env' He.
  unfold update_key. rewrite prepared_ok by done.
  destruct (tbl (st_db s) !! key) as [row|] eqn:E; [destruct (cond row) eqn:Ec|];
    intros [= <- <-].
  - by apply HS.
  - apply HN; [done|]. by intros r [= <-].
  - by apply HN.
Qed.

Lemma wp_RowsAffected n s (Q : result Z -> Store -> Prop) :
  (forall e env', env_after (st_env s) env' -> faulty (st_env s) ->
     Q (Err e) (mkStore (st_db s) env')) ->
  (forall env', env_after (st_env s) env' -> Q (Ok n) (mkStore (st_db s) env')) ->
  wp (RowsAffected n) s Q.
Proof.
  intros HF HS. unfold RowsAffected. wp_simp.
  apply wp_driver_call; intros; wp_simp; eauto.
Qed.

(** [UpdateState]: the row under the key changes if it is there and matches. *)
Section UpdateState.
Context (id st : string) (ex : option string) (s : Store).

Definition state_matches (r : SessionRow) : bool :=
  match ex with Some e => bool_decide (sr_state r = e) | None => true end.

Definition state_updated (now : Z) (r : SessionRow) : DB :=
  set_sessions (<[id := upd_state st now r]> (sessions (st_db s))) (st_db s).

Lemma wp_UpdateState (Q : result bool -> Store -> Prop) :
  (forall e env', env_after (st_env s) env' -> faulty (st_env s) ->
     Q (Err e) (mkStore (st_db s) env')) ->
  (forall e now r env', env_after (st_env s) env' -> faulty (st_env s) ->
     sessions (st_db s) !! id = Some r -> state_matches r = true ->
     Q (Err e) (mkStore (state_updated now r) env')) ->
  (forall now r env', env_after (st_env s) env' ->
     sessions (st_db s) !! id = Some r -> state_matches r = true ->
     Q (Ok true) (mkStore (state_updated now r) env')) ->
  (forall env', env_after (st_env s) env' ->
     (forall r, sessions (st_db s) !! id = Some r -> state_matches r = false) ->
     Q (Ok false) (mkStore (st_db s) env')) ->
  wp (SessionRepository_UpdateState id st ex) s Q.
Proof.
  intros HF HE HT HN. unfold SessionRepository_UpdateState. wp_simp.
  apply wp_on_env; [auto with env|]. intros now e1 He1. wp_simp.
  assert (Hm : forall r, state_matches r =
    match ex with Some e => bool_decide (sr_state r = e) | None => true end) by done.
  destruct ex as [ex'|]; (apply wp_update_key; [done|..]).
  1,4: intros e env' He Hf; apply HF; solve_env.
  1,3: intros r env' He Hr Hc; wp_simp; cbn in *;
       apply wp_RowsAffected; [intros e e2 He2 Hf; eapply HE|intros e2 He2; wp_simp; eapply HT];
       rewrite ?Hm; first [eassumption|solve_env|done].
  all: intros env' He Hr; wp_simp; cbn in *; apply wp_RowsAffected;
       [intros e e2 He2 Hf; apply HF; solve_env|intros e2 He2; wp_simp; apply HN; [solve_env|]];
       intros r H; rewrite Hm; by eapply Hr.
Qed.
End UpdateState.

Lemma wp_session_GetByID id s (Q : result Session -> Store -> Prop) :
  (forall e env', env_after (st_env s) env' -> faulty (st_env s) ->
     Q (Err e) (mkStore (st_db s) env')) ->
  (forall env', env_after (st_env s) env' ->
     Q (scanSession (Ok (select_session id (st_db s)))) (mkStore (st_db s) env')) ->
  wp (SessionRepository_GetByID id) s Q.
Proof.
  intros HF HS. unfold SessionRepository_GetByID. wp_simp.
  apply wp_exec_query; intros; wp_simp; [by apply HF|by apply HS].
Qed.

Lemma wp_GetActiveRun sid s (Q : result Run -> Store -> Prop) :
  (forall e env', env_after (st_env s) env' -> faulty (st_env s) ->
     Q (Err e) (mkStore (st_db s) env')) ->
  (forall env', env_after (st_env s) env' ->
     Q (scanRun (Ok (select_active_run sid (st_db s)))) (mkStore (st_db s) env')) ->
  wp (SessionRepository_GetActiveRun sid) s Q.
Proof.
  intros HF HS. unfold SessionRepository_GetActiveRun. wp_simp.
  apply wp_exec_query; intros; wp_simp; [by apply HF|by apply HS].
Qed.

Lemma wp_CreateSession x s (Q : result Session -> Store -> Prop) :
  (forall e env', env_after (st_env s) env' -> Q (Err e) (mkStore (st_db s) env')) ->
  (forall now env', env_after (st_env s) env' -> sessions (st_db s) !! s_ID x = None ->
     Q (Ok (set_s_times now x))
       (mkStore (set_sessions (<[s_ID x := session_row (set_s_times now x)]>
                   (sessions (st_db s))) (st_db s)) env')) ->
  wp (SessionRepository_CreateSession x) s Q.
Proof.
  intros HF HS. unfold SessionRepository_CreateSession. wp_simp.
  apply wp_on_env; [auto with env|]. intros now e1 He1. wp_simp.
  apply wp_exec; [intros; apply HF; solve_env|]. intros r d env' He. cbn.
  unfold insert_session. cbn. case_decide as Hn; [|case_match]; intros [= <- <-].
  - apply HF; solve_env.
  - apply HF; solve_env.
  - wp_simp. apply HS; [solve_env|]. by apply eq_None_not_Some.
Qed.

Lemma wp_UpdateRunState id st code err s (Q : result unit -> Store -> Prop) :
  (forall e env', env_after (st_env s) env' -> Q (Err e) (mkStore (st_db s) env')) ->
  wp (SessionRepository_UpdateRunState id st code err) s Q.
Proof.
  intros HF. unfold SessionRepository_UpdateRunState. wp_simp.
  apply wp_on_env; [auto with env|]. intros now e1 He1. wp_simp.
  apply wp_exec; [intros; apply HF; solve_env|].
  intros r d env' He. intros [= <- <-]. apply HF. solve_env.
Qed.

Lemma wp_SetPendingApproval id ap s (Q : result unit -> Store -> Prop) :
  (forall e env', env_after (st_env s) env' -> faulty (st_env s) ->
     Q (Err e) (mkStore (st_db s) env')) ->
  (forall now r env', env_after (st_env s) env' -> sessions (st_db s) !! id = Some r ->
     Q (Ok tt) (mkStore (set_sessions (<[id := upd_pending ap now r]>
                           (sessions (st_db s))) (st_db s)) env')) ->
  (forall env', env_after (st_env s) env' -> sessions (st_db s) !! id = None ->
     Q (Ok tt) (mkStore (st_db s) env')) ->
  wp (SessionRepository_SetPendingApproval id ap) s Q.
Proof.
  intros HF HS HN. unfold SessionRepository_SetPendingApproval. wp_simp.
  apply wp_on_env; [auto with env|]. intros now e1 He1. wp_simp.
  apply wp_update_key; [done|..].
  - intros e env' He Hf. apply HF; solve_env.
  - intros r env' He Hr _. wp_simp. apply HS; [solve_env|done].
  - intros env' He Hr. wp_simp. apply HN; [solve_env|].
    apply eq_None_ne_Some. intros r Hr'. by specialize (Hr r Hr').
Qed.

(** Reading every session: one per row, when no title is NULL. *)
Definition titled (d : DB) : Prop := map_Forall (fun _ r => sr_title r <> None) (sessions d).

Definition session_of (id : string) (r : SessionRow) : Session :=
  mkSession id (sr_workspace_id r) (sr_adapter_id r) (sr_state r) (default "" (sr_title r))
    (sr_created_at r) (sr_updated_at r) (sr_last_activity_at r) (sr_last_sequence r)
    (sr_pending_approval_id r) (sr_owner_device_id r) (sr_recovery_state r).

Lemma scan_titled id r : sr_title r <> None -> scan_session_columns (id, r) = Ok (session_of id r).
Proof. unfold scan_session_columns, session_of. by destruct (sr_title r). Qed.

Lemma scan_rows_titled rows : Forall (fun kv => sr_title kv.2 <> None) rows ->
  scan_rows scanSingleSession rows = Ok ((fun kv => session_of kv.1 kv.2) <$> rows).
Proof.
  induction 1 as [|[id r] rows Hr _ IH]; [done|]. cbn [scan_rows].
  rewrite IH. unfold scanSingleSession. by rewrite scan_titled.
Qed.

Lemma wp_GetAll s (Q : result (list Session) -> Store -> Prop) :
  titled (st_db s) ->
  (forall e env', env_after (st_env s) env' -> faulty (st_env s) ->
     Q (Err e) (mkStore (st_db s) env')) ->
  (forall rows env', env_after (st_env s) env' -> rows ≡ₚ map_to_list (sessions (st_db s)) ->
     Q (Ok ((fun kv => session_of kv.1 kv.2) <$> rows)) (mkStore (st_db s) env')) ->
  wp SessionRepository_GetAll s Q.
Proof.
  intros Ht HF HS. unfold SessionRepository_GetAll. wp_simp.
  apply wp_exec_query; [intros; by apply HF|]. intros env1 He1. unfold scanSessions.
  assert (Hp : select_sessions (fun _ => true) (st_db s) ≡ₚ map_to_list (sessions (st_db s))).
  { unfold select_sessions. rewrite merge_sort_Permutation, filter_id; [done|].
    by apply Forall_forall. }
  rewrite scan_rows_titled.
  - wp_simp. apply wp_driver_call; cbn; intros; wp_simp; [apply HF|apply HS]; done || solve_env.
  - rewrite Hp. apply Forall_forall. intros [id r] Hin%elem_of_map_to_list. by apply (Ht id).
Qed.

(** The write of [UpdateState] without an expected state, in a quiet environment. *)
Lemma wp_UpdateState_quiet id st ex s r (Q : result bool -> Store -> Prop) :
  quiet (st_env s) -> sessions (st_db s) !! id = Some r -> state_matches ex r = true ->
  (forall now env', env_after (st_env s) env' ->
     Q (Ok true) (mkStore (set_sessions (<[id := upd_state st now r]> (sessions (st_db s)))
                            (st_db s)) env')) ->
  wp (SessionRepository_UpdateState id st ex) s Q.
Proof.
  intros Hq Hr Hm HQ. apply wp_UpdateState.
  - intros. by destruct (quiet_not_faulty _ Hq).
  - intros. by destruct (quiet_not_faulty _ Hq).
  - intros now r' env' He Hr' _. rewrite Hr in Hr'. injection Hr' as <-. by apply HQ.
  - intros env' He Hn. by rewrite (Hn r Hr) in Hm.
Qed.

(** ** Properties *)

(** [UpdateState] with an expected state is a compare-and-set.  When it
    answers, it answers true exactly if the session exists in the expected
    state, and then that session's state and activity times are all that
    changes; otherwise it answers false and nothing changes. *)
Theorem UpdateState_compare_and_set id newState expected s b s' :
  SessionRepository_UpdateState id newState (Some expected) s = (Ok b, s') ->
  match sessions (st_db s) !! id with
  | Some r =>
      if decide (sr_state r = expected) then
        b = true /\ exists now,
          st_db s' = set_sessions (<[id := upd_state newState now r]> (sessions (st_db s)))
                       (st_db s)
      else b = false /\ st_db s' = st_db s
  | None => b = false /\ st_db s' = st_db s
  end.
Proof.
  intros E. wp_start E.
  apply wp_UpdateState; try done; cbn.
  - intros now r env' He Hr ?%bool_decide_eq_true [= <-]. rewrite Hr, decide_True by done. eauto.
  - intros env' He Hr [= <-]. destruct (sessions (st_db s) !! id) as [r|]; [|done].
    specialize (Hr r eq_refl). apply bool_decide_eq_false in Hr. by rewrite decide_False.
Qed.

Definition demo_updated : Store :=
  (SessionRepository_UpdateState "ses-1" SessionStateCompleted (Some SessionStateActive)
     demo_store).2.

Lemma UpdateState_compare_and_set_witness :
  sessions demo_db !! "ses-1" = Some demo_session_row /\
  true = true /\ exists now, st_db demo_updated
    = set_sessions (<["ses-1" := upd_state SessionStateCompleted now demo_session_row]>
                      (sessions demo_db)) demo_db.
Proof.
  split; [vm_compute; reflexivity|].
  apply (UpdateState_compare_and_set "ses-1" SessionStateCompleted SessionStateActive
           demo_store true demo_updated).
  apply run_answer. vm_compute. reflexivity.
Defined.

(** [UpdateRunState] fails in every environment and changes nothing: its
    UPDATE assigns [updated_at], and no migration gives the runs table such a
    column.  A run therefore never leaves the state it was created in. *)
Theorem UpdateRunState_never_succeeds id newState exitCode exitError s :
  exists e env', SessionRepository_UpdateRunState id newState exitCode exitError s
                 = (Err e, mkStore (st_db s) env').
Proof.
  destruct (SessionRepository_UpdateRunState id newState exitCode exitError s) as [r s'] eqn:E.
  wp_start E. apply wp_UpdateRunState. intros e env' _ <-. eauto.
Qed.

(** A session that [CreateSession] stored is read back by [GetByID] with
    the identity, workspace, adapter, state, title and sequence it was created
    with and the creation time in all three time fields; the pending approval,
    owner device and recovery state are not stored, so they read back absent. *)
Theorem CreateSession_GetByID x s x1 s1 x2 s2 :
  SessionRepository_CreateSession x s = (Ok x1, s1) ->
  SessionRepository_GetByID (s_ID x) s1 = (Ok x2, s2) ->
  exists now,
    x1 = set_s_times now x /\
    x2 = mkSession (s_ID x) (s_WorkspaceID x) (s_AdapterID x) (s_State x) (s_Title x)
           now now (Some now) (s_LastSequence x) None None None.
Proof.
  intros E1 E2. revert E2. wp_start E1. apply wp_CreateSession; [done|].
  intros now env' _ _ [= <-] E2. wp_start E2.
  apply wp_session_GetByID; [done|]. cbn. intros env2 _.
  unfold select_session. cbn. rewrite lookup_insert_eq. intros [= <-]. eauto.
Qed.

Definition demo_created : Store := (SessionRepository_CreateSession demo_session demo_store).2.

Lemma CreateSession_GetByID_witness :
  exists now,
    set_s_times (1000 * Hour) demo_session = set_s_times now demo_session /\
    mkSession "ses-2" "ws-1" "fake-adapter" SessionStateCreated "new" (1000 * Hour)
      (1000 * Hour) (Some (1000 * Hour)) 0 None None None
    = mkSession "ses-2" "ws-1" "fake-adapter" SessionStateCreated "new" now now (Some now)
        0 None None None.
Proof.
  apply (CreateSession_GetByID demo_session demo_store _ demo_created _
           (SessionRepository_GetByID "ses-2" demo_created).2);
    apply run_answer; vm_compute; reflexivity.
Defined.
