(* ===== verification/Journal.v ===== *)
(** * The event journal and replay by cursor
      (src/internal/storage/event_repository.go,
       src/internal/storage/cursor_repository.go) *)

From S2P Require Import Prelude Env Json Domain Schema SessionRepo.

(** ** EventRepository *)

(** One row of [scanEvents]: the payload must decode into an object. *)
Definition scan_event (r : EventRow) : result Event :=
  match er_payload r with
  | JObj p =>
      Ok (mkEvent (er_id r) (er_session_id r) (er_sequence r) (er_type r) (er_message_id r)
            (er_schema_version r) p (er_occurred_at r))
  | JNull =>
      Ok (mkEvent (er_id r) (er_session_id r) (er_sequence r) (er_type r) (er_message_id r)
            (er_schema_version r) [] (er_occurred_at r))
  | _ => Err (wrap ("unmarshaling payload for event " +:+ Itoa (er_id r))
                (ErrNew "json: cannot unmarshal into Go value of type map[string]interface {}"))
  end.

Definition scanEvents (rows : list EventRow) : M Store (result (list Event)) :=
  match scan_rows scan_event rows with
  | Err e => ret (Err e)
  | Ok l =>
      let! e := driver_call in
      ret (match e with Some e => Err (wrap "iterating events" e) | None => Ok l end)
  end.

(** Marshalling a payload map cannot fail. *)
Definition EventRepository_Append (event : Event) : M Store (result Z) :=
  exec (insert_event (e_SessionID event) (e_Sequence event) (e_Type event)
          (e_MessageID event) (e_SchemaVersion event) (JObj (e_Payload event))
          (e_OccurredAt event)).

Definition EventRepository_AppendWithTx (event : Event) : M Store (result unit) :=
  let? _ := exec (insert_event (e_SessionID event) (e_Sequence event) (e_Type event)
                    (e_MessageID event) (e_SchemaVersion event) (JObj (e_Payload event))
                    (e_OccurredAt event)) orelse wrap "inserting event" in
  ret (Ok tt).

(** The rows of a session, in journal order. *)
Definition journal (d : DB) (sid : string) : list EventRow :=
  filter (fun r => er_session_id r = sid) (events d).

Definition select_events_after (sid : string) (after limit : Z) (d : DB) : list EventRow :=
  sql_limit limit (merge_sort (by_asc er_sequence)
    (filter (fun r => after < er_sequence r) (journal d sid))).

Definition EventRepository_GetBySequence (sessionID : string) (afterSeq limit : Z)
    : M Store (result (list Event)) :=
  let? rows := exec (query (select_events_after sessionID afterSeq limit))
    orelse wrap "querying events" in
  scanEvents rows.

Definition select_max_sequence (sid : string) (d : DB) : option Z :=
  sql_max (er_sequence <$> journal d sid).

Definition EventRepository_GetLastSequence (sessionID : string) : M Store (result Z) :=
  let? seq := exec (query (select_max_sequence sessionID))
    orelse wrap "querying last sequence" in
  match seq with None => ret (Ok 0) | Some n => ret (Ok n) end.

Definition EventRepository_GetSessionEvents (sessionID : string)
    : M Store (result (list Event)) :=
  let? rows := exec (query (fun d => merge_sort (by_asc er_sequence) (journal d sessionID)))
    orelse wrap "querying events" in
  scanEvents rows.

Definition EventRepository_Count (sessionID : string) : M Store (result Z) :=
  exec (query (fun d => Z.of_nat (length (journal d sessionID)))).

Definition EventRepository_DeleteBySessionID (sessionID : string) : M Store (result unit) :=
  exec (fun d => (Ok tt, set_events (filter (fun r => er_session_id r <> sessionID) (events d))
                           (next_event_id d) d)).

(** ** CursorRepository; [retention] is its field *)

Record CursorResult := mkCursorResult {
  cr_Events : list Event;
  cr_NextAfter : Z;
  cr_ResyncRequired : bool;
  cr_HasMore : bool
}.

Definition sql_ErrNoRows : error := ErrSentinel "sql: no rows in result set".

Definition CursorRepository_isCursorExpired (retention : Z) (sessionID : string)
    (afterSequence : Z) : M Store (result bool) :=
  if decide (retention = 0) then ret (Ok false)
  else if decide (afterSequence = 0) then ret (Ok false)
  else
    let? count := exec (query (fun d => Z.of_nat (length
                    (filter (fun r => er_sequence r = afterSequence) (journal d sessionID))))) in
    if decide (count = 0) then
      let? created := exec (query (fun d => sr_created_at <$> sessions d !! sessionID)) in
      match created with
      | None => ret (Err sql_ErrNoRows)
      | Some createdAt =>
          let! now := on_env time_Now in
          if decide (retention < time_Sub now createdAt) then ret (Ok true) else ret (Ok false)
      end
    else ret (Ok false).

(** The bounds on a page. *)
Definition clamp_limit (limit : Z) : Z :=
  let limit := if decide (limit <= 0) then 100 else limit in
  if decide (500 < limit) then 500 else limit.

Definition CursorRepository_Replay (retention : Z) (sessionID : string)
    (afterSequence limit : Z) : M Store (result CursorResult) :=
  let limit := clamp_limit limit in
  let? expired := CursorRepository_isCursorExpired retention sessionID afterSequence
    orelse wrap "checking cursor" in
  if (expired : bool) then ret (Ok (mkCursorResult [] afterSequence true false))
  else
    let? events := EventRepository_GetBySequence sessionID afterSequence limit
      orelse wrap "querying events" in
    let nextAfter := match last events with
                     | Some e => e_Sequence e
                     | None => afterSequence
                     end in
    let! hasMore :=
      if decide (Z.of_nat (length events) = limit) then
        let! more := EventRepository_GetBySequence sessionID nextAfter 1 in
        match more with
        | Ok (_ :: _) => ret true
        | _ => ret false
        end
      else ret false in
    ret (Ok (mkCursorResult events nextAfter false hasMore)).

Definition upd_appended (n now : Z) (r : SessionRow) : SessionRow :=
  mkSessionRow (sr_workspace_id r) (sr_adapter_id r) (sr_state r) (sr_title r)
    (sr_created_at r) now (Some now) n (sr_pending_approval_id r) (sr_recovery_state r)
    (sr_owner_device_id r).

(** Runs inside a transaction; answers the event with its sequence assigned. *)
Definition CursorRepository_Append (event : Event) : M Store (result Event) :=
  let? seq := exec (query (select_max_sequence (e_SessionID event)))
    orelse wrap "querying max sequence" in
  let nextSeq := match seq with Some n => wrap64 (n + 1) | None => 1 end in
  let event := set_e_Sequence nextSeq event in
  let? _ := EventRepository_AppendWithTx event orelse wrap "appending event" in
  let! now := on_env sql_datetime_now in
  let? _ := exec (update_key t_sessions ["last_sequence"; "updated_at"; "last_activity_at"]
                    sessions set_sessions (upd_appended nextSeq now) (fun _ => true)
                    (e_SessionID event))
    orelse wrap "updating session last_sequence" in
  ret (Ok event).

Definition CursorRepository_AppendWithoutTx (event : Event) : M Store (result Z) :=
  let? event := DB_WithTransaction (CursorRepository_Append event) in
  ret (Ok (e_Sequence event)).

Definition CursorRepository_PurgeExpired (before : Z) : M Store (result Z) :=
  let? n := exec (fun d =>
    (Ok (Z.of_nat (length (filter (fun r => er_occurred_at r < before) (events d)))),
     set_events (filter (fun r => ~ er_occurred_at r < before) (events d)) (next_event_id d) d))
    orelse wrap "purging expired events" in
  RowsAffected n.

(** [time.Time{}]: the first instant of year 1. *)
Definition zero_time : Z := -62135596800 * Second.

Definition CursorRepository_GetRetentionBoundary (retention : Z) : M Store Z :=
  if decide (retention = 0) then ret zero_time
  else let! now := on_env time_Now in ret (now - retention).

Definition CursorRepository_ValidateCursor (sessionID : string) (afterSequence : Z)
    : M Store (result unit) :=
  if decide (afterSequence < 0) then
    ret (Err (ErrNew ("cursor after_sequence cannot be negative: " +:+ Itoa afterSequence)))
  else
    let? lastSeq := EventRepository_GetLastSequence sessionID in
    if decide (lastSeq < afterSequence) then
      ret (Err (ErrNew ("cursor after_sequence " +:+ Itoa afterSequence +:+
                        " is ahead of last sequence " +:+ Itoa lastSeq)))
    else ret (Ok tt).

Record CursorMetadata := mkCursorMetadata {
  cm_SessionID : string;
  cm_AfterSequence : Z;
  cm_LastSequence : Z;
  cm_TotalEvents : Z;
  cm_RemainingEvents : Z
}.

Definition CursorRepository_GetCursorMetadata (sessionID : string) (afterSequence : Z)
    : M Store (result CursorMetadata) :=
  let? lastSeq := EventRepository_GetLastSequence sessionID in
  let? count := EventRepository_Count sessionID in
  let remaining := if decide (afterSequence < lastSeq) then wrap64 (lastSeq - afterSequence)
                   else 0 in
  ret (Ok (mkCursorMetadata sessionID afterSequence lastSeq count remaining)).

(** ** The journal invariant

    Without purges the sequences of every session are 1, 2, ..., n in the
    order the events were appended, and the session row counts them. *)
Record journal_ok (d : DB) : Prop := mk_journal_ok {
  jo_seq : forall sid, er_sequence <$> journal d sid = seqZ 1 (Z.of_nat (length (journal d sid)));
  jo_last : forall sid r, sessions d !! sid = Some r ->
    sr_last_sequence r = Z.of_nat (length (journal d sid));
  jo_obj : Forall (fun r => exists p, er_payload r = JObj p) (events d);
  jo_fk : foreign_keys d = true ->
    Forall (fun r => is_Some (sessions d !! er_session_id r)) (events d)
}.

(** The sequence the next event of a session gets. *)
Definition next_sequence (sid : string) (d : DB) : Z :=
  match select_max_sequence sid d with Some n => wrap64 (n + 1) | None => 1 end.

Definition event_row (id : Z) (ev : Event) (n : Z) : EventRow :=
  mkEventRow id (e_SessionID ev) n (e_Type ev) (e_MessageID ev) (e_SchemaVersion ev)
    (JObj (e_Payload ev)) (e_OccurredAt ev).

(** The tables after an append: the row, and the count in the session row. *)
Definition appended (ev : Event) (n now : Z) (d : DB) : DB :=
  let d1 := set_events (events d ++ [event_row (next_event_id d) ev n])
              (next_event_id d + 1) d in
  match sessions d !! e_SessionID ev with
  | Some r => set_sessions (<[e_SessionID ev := upd_appended n now r]> (sessions d)) d1
  | None => d1
  end.

(** The constraints an append can violate. *)
Definition append_refused (ev : Event) (n : Z) (d : DB) : Prop :=
  Exists (fun r => er_message_id r = e_MessageID ev) (events d) \/
  Exists (fun r => er_session_id r = e_SessionID ev /\ er_sequence r = n) (events d) \/
  (foreign_keys d = true /\ sessions d !! e_SessionID ev = None).

Lemma wp_AppendWithTx ev n s (Q : result unit -> Store -> Prop) :
  e_Sequence ev = n ->
  (forall e env', env_after (st_env s) env' -> faulty (st_env s) \/ append_refused ev n (st_db s) ->
     Q (Err e) (mkStore (st_db s) env')) ->
  (forall env', env_after (st_env s) env' -> ~ append_refused ev n (st_db s) ->
     Q (Ok tt) (mkStore (set_events (events (st_db s) ++
                           [event_row (next_event_id (st_db s)) ev n])
                           (next_event_id (st_db s) + 1) (st_db s)) env')) ->
  wp (EventRepository_AppendWithTx ev) s Q.
Proof.
  intros <- HF HS. unfold EventRepository_AppendWithTx. wp_simp. apply wp_exec.
  - intros e env' He Hf. apply HF; [done|by left].
  - intros r d env' He. unfold insert_event, append_refused in *.
    case_decide as H1; [|case_decide as H2; [|destruct (foreign_keys _) eqn:H3; cbn;
      [case_bool_decide as H4; cbn|]]]; intros [= <- <-]; wp_simp.
    + apply HF; [done|]. tauto.
    + apply HF; [done|]. tauto.
    + apply HF; [done|]. tauto.
    + apply HS; [done|]. tauto.
    + apply HS; [done|]. intros [|[|[]]]; done.
Qed.

Lemma appended_unfold ev n now d :
  appended ev n now d =
  (let d1 := set_events (events d ++ [event_row (next_event_id d) ev n])
              (next_event_id d + 1) d in
   match sessions d1 !! e_SessionID ev with
   | Some r => set_sessions (<[e_SessionID ev := upd_appended n now r]> (sessions d1)) d1
   | None => d1
   end).
Proof. done. Qed.

(** An append is atomic: refused with the tables untouched, or both the row and
    the session's count. *)
Lemma wp_AppendWithoutTx ev s (Q : result Z -> Store -> Prop) :
  let n := next_sequence (e_SessionID ev) (st_db s) in
  (forall e env', env_after (st_env s) env' -> faulty (st_env s) \/ append_refused ev n (st_db s) ->
     Q (Err e) (mkStore (st_db s) env')) ->
  (forall now env', env_after (st_env s) env' -> ~ append_refused ev n (st_db s) ->
     Q (Ok n) (mkStore (appended ev n now (st_db s)) env')) ->
  wp (CursorRepository_AppendWithoutTx ev) s Q.
Proof.
  intros n HF HS. unfold CursorRepository_AppendWithoutTx. wp_simp.
  apply wp_WithTransaction; [intros; apply HF; [done|by left]|].
  intros env1 He1. unfold CursorRepository_Append. wp_simp.
  apply wp_exec_query; [intros e env' He Hf|intros env2 He2]; wp_simp; cbn in *.
  { split; [done|]. split; [done|]. intros e2 env2 _ He3 e' _.
    apply HF; [solve_env|left; solve_env]. }
  fold (next_sequence (e_SessionID ev) (st_db s)). fold n.
  apply (wp_AppendWithTx _ n); [done|intros e env3 He3 Hf|intros env3 He3 Hn]; cbn in *.
  { split; [solve_env|]. split; [done|]. intros e2 env4 _ He4 e' _.
    apply HF; [solve_env|]. destruct Hf; [left; solve_env|by right]. }
  wp_simp. apply wp_on_env; [auto with env|]. intros now env4 He4. wp_simp.
  apply wp_update_key; [done|..]; cbn in *.
  - intros e env5 He5 Hf. split; [solve_env|]. split; [done|]. intros e2 env6 _ He6 e' _.
    apply HF; [solve_env|left; solve_env].
  - intros r env5 He5 Hr _. wp_simp. cbn. split; [solve_env|]. split; [|done].
    intros a env6 [= <-] He6. wp_simp. cbn.
    pose proof (HS now env6) as HS'. rewrite appended_unfold in HS'. cbn in HS'.
    rewrite Hr in HS'. apply HS'; [solve_env|done].
  - intros env5 He5 Hr. wp_simp. cbn. split; [solve_env|]. split; [|done].
    intros a env6 [= <-] He6. wp_simp. cbn.
    pose proof (HS now env6) as HS'. rewrite appended_unfold in HS'. cbn in HS'.
    destruct (sessions (st_db s) !! e_SessionID ev) as [r|] eqn:E;
      [by specialize (Hr r eq_refl)|]. apply HS'; [solve_env|done].
Qed.

(** ** Lemmas on the invariant *)

Lemma journal_appended ev n now d sid :
  journal (appended ev n now d) sid =
  journal d sid ++ (if decide (e_SessionID ev = sid)
                    then [event_row (next_event_id d) ev n] else []).
Proof.
  unfold journal, appended.
  assert (H : forall l, filter (fun r => er_session_id r = sid)
            (l ++ [event_row (next_event_id d) ev n]) =
            filter (fun r => er_session_id r = sid) l ++
            (if decide (e_SessionID ev = sid) then [event_row (next_event_id d) ev n] else [])).
  { intros l. by rewrite filter_app. }
  destruct (sessions d !! e_SessionID ev); cbn; apply H.
Qed.

Lemma seqZ_elem x m n : x ∈ seqZ m n <-> m <= x < m + n.
Proof. apply elem_of_seqZ. Qed.

Lemma journal_max d sid : journal_ok d ->
  select_max_sequence sid d =
  if decide (journal d sid = []) then None else Some (Z.of_nat (length (journal d sid))).
Proof.
  intros [Hseq _ _ _]. unfold select_max_sequence. rewrite Hseq.
  set (len := length (journal d sid)).
  assert (Hlen : length (journal d sid) = len) by done.
  pose proof (sql_max_spec (seqZ 1 (Z.of_nat len))) as H.
  destruct (sql_max (seqZ 1 (Z.of_nat len))) as [m|].
  - destruct H as [Hm Hall]. apply seqZ_elem in Hm.
    rewrite decide_False by (intros E; rewrite E in Hlen; cbn in Hlen; lia).
    f_equal. rewrite Forall_forall in Hall.
    specialize (Hall (Z.of_nat len)). rewrite seqZ_elem in Hall. lia.
  - rewrite decide_True; [done|]. apply nil_length_inv. rewrite Hlen.
    apply (f_equal length) in H. rewrite length_seqZ in H. cbn in H. lia.
Qed.

Lemma next_sequence_ok d sid : journal_ok d ->
  Z.of_nat (length (journal d sid)) < max_int64 ->
  next_sequence sid d = Z.of_nat (length (journal d sid)) + 1.
Proof.
  intros Hok Hlt. unfold next_sequence. rewrite journal_max by done.
  case_decide as H; [rewrite H; done|].
  apply wrap64_small. unfold min_int64. lia.
Qed.

Lemma journal_ok_appended ev now d :
  journal_ok d -> Z.of_nat (length (journal d (e_SessionID ev))) < max_int64 ->
  (foreign_keys d = true -> is_Some (sessions d !! e_SessionID ev)) ->
  journal_ok (appended ev (next_sequence (e_SessionID ev) d) now d).
Proof.
  intros Hok Hlt Hfk. rewrite next_sequence_ok by done.
  set (n := _ + 1).
  assert (Hev : events (appended ev n now d) = events d ++ [event_row (next_event_id d) ev n])
    by (unfold appended; by destruct (sessions d !! e_SessionID ev)).
  assert (Hfks : foreign_keys (appended ev n now d) = foreign_keys d)
    by (unfold appended; by destruct (sessions d !! e_SessionID ev)).
  assert (Hdom : forall sid, is_Some (sessions d !! sid) ->
                 is_Some (sessions (appended ev n now d) !! sid)).
  { intros sid Hs. unfold appended. destruct (sessions d !! e_SessionID ev); cbn; [|done].
    destruct (decide (e_SessionID ev = sid)) as [<-|Hne].
    - by rewrite lookup_insert_eq.
    - by rewrite lookup_insert_ne. }
  split.
  - intros sid. rewrite journal_appended, fmap_app, length_app, (jo_seq _ Hok).
    case_decide as He; cbn; [|by rewrite app_nil_r, Nat.add_0_r].
    subst sid. rewrite Nat2Z.inj_add, seqZ_app by lia.
    unfold event_row, n. cbn. f_equal. unfold seqZ. change (Z.to_nat (Z.of_nat 1)) with 1%nat.
    cbn [seq fmap list_fmap]. f_equal. lia.
  - intros sid r. rewrite journal_appended, length_app. unfold appended.
    destruct (sessions d !! e_SessionID ev) as [r0|] eqn:E; cbn.
    + destruct (decide (e_SessionID ev = sid)) as [<-|Hne].
      * rewrite lookup_insert_eq. intros [= <-]. cbn. unfold n. lia.
      * rewrite lookup_insert_ne by done. intros Hr. cbn. rewrite Nat.add_0_r.
        by apply (jo_last _ Hok).
    + intros Hr. case_decide as He; cbn; [congruence|]. rewrite Nat.add_0_r.
      by apply (jo_last _ Hok).
  - rewrite Hev. apply Forall_app_2; [apply Hok|]. repeat constructor. by eexists.
  - rewrite Hev, Hfks. intros Hf. apply Forall_app_2.
    + eapply Forall_impl; [by apply (jo_fk _ Hok)|]. cbn. eauto.
    + repeat constructor. cbn. apply Hdom, Hfk, Hf.
Qed.

(** The events of a session are stored in sequence order. *)
Lemma journal_lookup d sid i r : journal_ok d -> journal d sid !! i = Some r ->
  er_sequence r = Z.of_nat i + 1.
Proof.
  intros Hok Hi. pose proof (jo_seq _ Hok sid) as H.
  apply (f_equal (.!! i)) in H. rewrite list_lookup_fmap, Hi in H. cbn in H.
  symmetry in H. apply lookup_seqZ in H. lia.
Qed.

Lemma journal_sorted d sid : journal_ok d ->
  StronglySorted (fun x y => er_sequence x < er_sequence y) (journal d sid).
Proof.
  intros Hok. apply StronglySorted_of_lookup. intros i j x y Hij Hx Hy.
  rewrite (journal_lookup _ _ _ _ Hok Hx), (journal_lookup _ _ _ _ Hok Hy). lia.
Qed.

(** Sorting by a key that already increases strictly changes nothing. *)
Lemma merge_sort_strict {A} (key : A -> Z) l :
  StronglySorted (fun x y => key x < key y) l -> merge_sort (by_asc key) l = l.
Proof.
  intros Hs. eapply (StronglySorted_unique_strong (by_asc key)).
  - intros x1 x2 H1 H2 Hle1 Hle2. unfold by_asc in *.
    rewrite merge_sort_Permutation in H1.
    apply list_elem_of_lookup in H1 as [i Hi]. apply list_elem_of_lookup in H2 as [j Hj].
    destruct (Nat.lt_trichotomy i j) as [Hlt|[->|Hlt]]; [|congruence|].
    + pose proof (StronglySorted_lookup _ _ _ _ _ _ Hs Hlt Hi Hj). cbn in *. lia.
    + pose proof (StronglySorted_lookup _ _ _ _ _ _ Hs Hlt Hj Hi). cbn in *. lia.
  - apply StronglySorted_merge_sort; apply _.
  - clear -Hs. induction Hs as [|x l Hs IH H]; constructor; [done|].
    eapply Forall_impl; [exact H|]. unfold by_asc. cbn. lia.
  - apply merge_sort_Permutation.
Qed.

(** The events after a cursor are the journal from there on. *)
Lemma journal_after d sid after : journal_ok d -> 0 <= after ->
  filter (fun r => after < er_sequence r) (journal d sid) = drop (Z.to_nat after) (journal d sid).
Proof.
  intros Hok Ha. apply take_drop_filter. intros i r Hi.
  rewrite (journal_lookup _ _ _ _ Hok Hi). lia.
Qed.

Lemma select_events_after_ok d sid after limit : journal_ok d -> 0 <= after ->
  select_events_after sid after limit d =
  sql_limit limit (drop (Z.to_nat after) (journal d sid)).
Proof.
  intros Hok Ha. unfold select_events_after. rewrite <- journal_after by done.
  f_equal. by apply merge_sort_strict, StronglySorted_filter, journal_sorted.
Qed.

(** ** Specifications of the reads *)

(** The event a row with an object payload decodes to. *)
Definition row_event (r : EventRow) : Event :=
  mkEvent (er_id r) (er_session_id r) (er_sequence r) (er_type r) (er_message_id r)
    (er_schema_version r) (match er_payload r with JObj p => p | _ => [] end) (er_occurred_at r).

Lemma scan_rows_ok l : Forall (fun r => exists p, er_payload r = JObj p) l ->
  scan_rows scan_event l = Ok (row_event <$> l).
Proof.
  induction 1 as [|r l [p Hp] _ IH]; [done|]. cbn. rewrite IH. unfold scan_event, row_event.
  by rewrite Hp.
Qed.

Lemma journal_obj d sid : journal_ok d ->
  Forall (fun r => exists p, er_payload r = JObj p) (journal d sid).
Proof.
  intros Hok. pose proof (jo_obj _ Hok) as H. rewrite Forall_forall in *.
  intros r [_ Hr]%list_elem_of_filter. by apply H.
Qed.

Lemma sql_limit_obj n l : Forall (fun r => exists p, er_payload r = JObj p) l ->
  Forall (fun r => exists p, er_payload r = JObj p) (sql_limit n l).
Proof. intros H. unfold sql_limit. case_decide; [done|by apply Forall_take]. Qed.

(** Reading a page: the rows after the cursor, in order, up to the limit. *)
Lemma wp_GetBySequence sid after limit s (Q : result (list Event) -> Store -> Prop) :
  journal_ok (st_db s) -> 0 <= after ->
  (forall e env', env_after (st_env s) env' -> faulty (st_env s) ->
     Q (Err e) (mkStore (st_db s) env')) ->
  (forall env', env_after (st_env s) env' ->
     Q (Ok (row_event <$> sql_limit limit (drop (Z.to_nat after) (journal (st_db s) sid))))
       (mkStore (st_db s) env')) ->
  wp (EventRepository_GetBySequence sid after limit) s Q.
Proof.
  intros Hok Ha HF HS. unfold EventRepository_GetBySequence. wp_simp.
  apply wp_exec_query; [intros; by apply HF|]. intros env1 He1. unfold scanEvents.
  rewrite select_events_after_ok by done.
  rewrite scan_rows_ok by (apply sql_limit_obj, Forall_drop, journal_obj, Hok).
  wp_simp. apply wp_driver_call; cbn; intros; wp_simp; [apply HF|apply HS]; solve_env.
Qed.

Lemma wp_GetLastSequence sid s (Q : result Z -> Store -> Prop) :
  (forall e env', env_after (st_env s) env' -> faulty (st_env s) ->
     Q (Err e) (mkStore (st_db s) env')) ->
  (forall env', env_after (st_env s) env' ->
     Q (Ok (default 0 (select_max_sequence sid (st_db s)))) (mkStore (st_db s) env')) ->
  wp (EventRepository_GetLastSequence sid) s Q.
Proof.
  intros HF HS. unfold EventRepository_GetLastSequence. wp_simp.
  apply wp_exec_query; [intros; by apply HF|]. intros env1 He1.
  specialize (HS env1 He1). by destruct (select_max_sequence sid (st_db s)).
Qed.

Lemma max_sequence_length d sid : journal_ok d ->
  default 0 (select_max_sequence sid d) = Z.of_nat (length (journal d sid)).
Proof. intros Hok. rewrite journal_max by done. case_decide as H; [by rewrite H|done]. Qed.

(** A cursor inside the journal is not expired, whatever the retention. *)
Lemma wp_isCursorExpired retention sid after s (Q : result bool -> Store -> Prop) :
  journal_ok (st_db s) -> 0 <= after <= Z.of_nat (length (journal (st_db s) sid)) ->
  (forall e env', env_after (st_env s) env' -> faulty (st_env s) ->
     Q (Err e) (mkStore (st_db s) env')) ->
  (forall env', env_after (st_env s) env' -> Q (Ok false) (mkStore (st_db s) env')) ->
  wp (CursorRepository_isCursorExpired retention sid after) s Q.
Proof.
  intros Hok Ha HF HS. unfold CursorRepository_isCursorExpired.
  assert (HS0 : Q (Ok false) s) by (destruct s; by apply HS).
  case_decide; [by wp_simp|]. case_decide; [by wp_simp|]. wp_simp. apply wp_exec_query; [intros; by apply HF|]. intros env1 He1.
  rewrite decide_False; [by apply HS|]. intros Hz.
  destruct (lookup_lt_is_Some_2 (journal (st_db s) sid) (Z.to_nat (after - 1))) as [r Hr]; [lia|].
  assert (Hin : r ∈ filter (fun r => er_sequence r = after) (journal (st_db s) sid)).
  { apply list_elem_of_filter. split; [|by eapply list_elem_of_lookup_2].
    rewrite (journal_lookup _ _ _ _ Hok Hr). lia. }
  destruct (filter _ (journal (st_db s) sid)); [by apply not_elem_of_nil in Hin|cbn in Hz; lia].
Qed.

Lemma clamp_limit_bounds limit : 1 <= clamp_limit limit <= 500.
Proof. unfold clamp_limit. repeat case_decide; lia. Qed.

(** The page [Replay] answers with, as a function of the journal. *)
Definition page (d : DB) (sid : string) (after limit : Z) : list EventRow :=
  take (Z.to_nat (clamp_limit limit)) (drop (Z.to_nat after) (journal d sid)).

Lemma page_last d sid after limit : journal_ok d -> 0 <= after ->
  match last (row_event <$> page d sid after limit) with
  | Some e => e_Sequence e
  | None => after
  end = after + Z.of_nat (length (page d sid after limit)).
Proof.
  intros Hok Ha. rewrite fmap_last, last_lookup.
  destruct (page d sid after limit !! pred (length (page d sid after limit))) as [r|] eqn:E; cbn.
  - pose proof (lookup_lt_Some _ _ _ E) as Hlt.
    revert E Hlt. generalize (length (page d sid after limit)). intros n E Hlt. unfold page in E.
    apply lookup_take_Some in E as [E _]. rewrite lookup_drop in E.
    rewrite (journal_lookup _ _ _ _ Hok E). lia.
  - apply lookup_ge_None in E. lia.
Qed.

Definition has_more (d : DB) (sid : string) (after limit : Z) : bool :=
  bool_decide (after + Z.of_nat (length (page d sid after limit))
               < Z.of_nat (length (journal d sid))).

Lemma wp_Replay retention sid after limit s (Q : result CursorResult -> Store -> Prop) :
  journal_ok (st_db s) -> 0 <= after <= Z.of_nat (length (journal (st_db s) sid)) ->
  (forall e env', env_after (st_env s) env' -> faulty (st_env s) ->
     Q (Err e) (mkStore (st_db s) env')) ->
  (forall more env', env_after (st_env s) env' ->
     more = has_more (st_db s) sid after limit \/ (faulty (st_env s) /\ more = false) ->
     Q (Ok (mkCursorResult (row_event <$> page (st_db s) sid after limit)
              (after + Z.of_nat (length (page (st_db s) sid after limit))) false more))
       (mkStore (st_db s) env')) ->
  wp (CursorRepository_Replay retention sid after limit) s Q.
Proof.
  intros Hok Ha HF HS. unfold CursorRepository_Replay. wp_simp.
  pose proof (clamp_limit_bounds limit) as Hl.
  apply wp_isCursorExpired; [done|done|intros; by apply HF|]. intros env1 He1. wp_simp.
  apply wp_GetBySequence; [done|lia|intros; cbn in *; apply HF; solve_env|]. cbn.
  intros env2 He2. wp_simp.
  assert (Hp : sql_limit (clamp_limit limit) (drop (Z.to_nat after) (journal (st_db s) sid)) =
               page (st_db s) sid after limit)
    by (unfold sql_limit, page; by rewrite decide_False by lia).
  rewrite Hp, page_last by (done || lia). rewrite length_fmap. unfold has_more in HS.
  assert (Hlen : (length (page (st_db s) sid after limit) =
    Z.to_nat (clamp_limit limit) `min` (length (journal (st_db s) sid) - Z.to_nat after))%nat)
    by (unfold page; by rewrite length_take, length_drop).
  set (n := length (page (st_db s) sid after limit)) in *.
  destruct (decide (Z.of_nat n = clamp_limit limit)) as [Hfull|Hfull]; wp_simp.
  - apply wp_GetBySequence; [done|lia|intros e env3 He3 Hf|intros env3 He3]; cbn in *; wp_simp.
    + apply HS; [solve_env|]. right. split; [solve_env|done].
    + unfold sql_limit. rewrite decide_False by lia. change (Z.to_nat 1) with 1%nat.
      pose proof (length_drop (journal (st_db s) sid) (Z.to_nat (after + Z.of_nat n))) as Hd.
      destruct (drop (Z.to_nat (after + Z.of_nat n)) _) as [|r rest]; cbn in Hd |- *; wp_simp;
        (apply HS; [solve_env|left]); symmetry;
        [apply bool_decide_eq_false|apply bool_decide_eq_true]; lia.
  - apply HS; [solve_env|]. left. symmetry. apply bool_decide_eq_false. lia.
Qed.

(** A client that follows the cursor until there is no more. *)
Fixpoint replay_all (fuel : nat) (retention : Z) (sid : string) (after limit : Z)
    : M Store (result (list Event)) :=
  match fuel with
  | O => ret (Ok [])
  | S fuel' =>
      let? r := CursorRepository_Replay retention sid after limit in
      if cr_HasMore r then
        let? rest := replay_all fuel' retention sid (cr_NextAfter r) limit in
        ret (Ok (cr_Events r ++ rest))
      else ret (Ok (cr_Events r))
  end.

Lemma page_split d sid after limit : 0 <= after ->
  drop (Z.to_nat after) (journal d sid) =
  page d sid after limit ++
  drop (Z.to_nat (after + Z.of_nat (length (page d sid after limit)))) (journal d sid).
Proof.
  intros Ha. rewrite Z2Nat.inj_add, Nat2Z.id by lia. rewrite <- drop_drop.
  unfold page. set (l := drop (Z.to_nat after) (journal d sid)).
  rewrite length_take. rewrite <- (take_drop (Z.to_nat (clamp_limit limit)) l) at 1. f_equal.
  destruct (Nat.le_gt_cases (Z.to_nat (clamp_limit limit)) (length l)).
  - by rewrite Nat.min_l by lia.
  - rewrite Nat.min_r, !drop_ge by lia. done.
Qed.

Lemma wp_replay_all fuel retention sid after limit s :
  journal_ok (st_db s) -> 0 <= after <= Z.of_nat (length (journal (st_db s) sid)) ->
  quiet (st_env s) ->
  (length (journal (st_db s) sid) - Z.to_nat after < fuel)%nat ->
  wp (replay_all fuel retention sid after limit) s (fun r s' =>
    r = Ok (row_event <$> drop (Z.to_nat after) (journal (st_db s) sid)) /\
    st_db s' = st_db s /\ env_after (st_env s) (st_env s')).
Proof.
  revert after s. induction fuel as [|fuel IH]; intros after s Hok Ha Hq Hf; [lia|]. cbn.
  rewrite (page_split _ _ _ limit), fmap_app by lia.
  wp_simp. apply wp_Replay; [done|done|intros; solve_env|].
  intros more env1 He1 Hm. assert (more = has_more (st_db s) sid after limit) as ->.
  { destruct Hm as [|[Hfa _]]; [done|]. by destruct (quiet_not_faulty _ Hq). }
  cbn [cr_HasMore cr_Events cr_NextAfter]. unfold has_more. case_bool_decide as Hlt; wp_simp.
  - pose proof (clamp_limit_bounds limit).
    assert (0 < length (page (st_db s) sid after limit))%nat.
    { unfold page. rewrite length_take, length_drop.
      revert Hlt. unfold page. rewrite length_take, length_drop. lia. }
    eapply wp_mono; [eapply IH; cbn; [done|lia|solve_env|lia]|].
    cbn. intros r s' (-> & Hdb & He2). wp_simp. split; [done|]. split; [done|solve_env].
  - rewrite (drop_ge _ (Z.to_nat (after + _))) by lia. cbn. by rewrite app_nil_r.
Qed.

(** A journal of three events, for the examples. *)
Definition demo_event (n : Z) : Event :=
  mkEvent 0 "ses-1" n "OutputReceived" ("msg-" +:+ Itoa n) 1 [("n", JNum n)] (100 + n).
Definition demo_journal_db : DB :=
  set_events [event_row 1 (demo_event 1) 1; event_row 2 (demo_event 2) 2;
              event_row 3 (demo_event 3) 3] 4
    (set_sessions {["ses-1" := upd_last_sequence 3 20 demo_session_row]} demo_db).
Definition demo_journal : Store := mkStore demo_journal_db steady_env.

Lemma demo_journal_sessions :
  sessions demo_journal_db = {["ses-1" := upd_last_sequence 3 20 demo_session_row]}.
Proof. done. Qed.

Lemma demo_journal_nil sid : sid <> "ses-1" -> journal demo_journal_db sid = [].
Proof. intros Hne. apply filter_none. repeat constructor; cbn; congruence. Qed.

Lemma demo_journal_ok : journal_ok demo_journal_db.
Proof.
  split.
  - intros sid. destruct (decide (sid = "ses-1")) as [->|Hne].
    + vm_compute. reflexivity.
    + by rewrite demo_journal_nil.
  - intros sid r. rewrite demo_journal_sessions. intros Hr. apply lookup_singleton_Some in Hr as [<- <-]. vm_compute. reflexivity.
  - repeat constructor; cbn; eauto.
  - intros _. repeat constructor; rewrite demo_journal_sessions; cbn; rewrite lookup_singleton_eq; eauto.
Qed.

(** ** Properties *)

(** C3: an append is atomic and contiguous.  If it answers a sequence, that is
    one more than the number of events the session had, the journal of that
    session grows by exactly this event, no other journal changes, and the
    journal invariant (sequences 1..n, counted in the session row) still
    holds.  If it fails, the tables are as before, and either the driver failed
    or a constraint refused the event. *)
Theorem AppendWithoutTx_atomic ev s r s' :
  journal_ok (st_db s) ->
  Z.of_nat (length (journal (st_db s) (e_SessionID ev))) < max_int64 ->
  CursorRepository_AppendWithoutTx ev s = (r, s') ->
  match r with
  | Ok n =>
      n = Z.of_nat (length (journal (st_db s) (e_SessionID ev))) + 1 /\
      journal_ok (st_db s') /\
      forall sid, journal (st_db s') sid = journal (st_db s) sid ++
        (if decide (e_SessionID ev = sid)
         then [event_row (next_event_id (st_db s)) ev n] else [])
  | Err _ =>
      st_db s' = st_db s /\
      (faulty (st_env s) \/
       append_refused ev (Z.of_nat (length (journal (st_db s) (e_SessionID ev))) + 1) (st_db s))
  end.
Proof.
  intros Hok Hlt E. pose proof (next_sequence_ok _ _ Hok Hlt) as Hn. rewrite <- Hn.
  wp_start E. apply wp_AppendWithoutTx.
  - intros e env' _ Hf <-. done.
  - intros now env' _ Hr <-. cbn. split; [done|]. split.
    + apply journal_ok_appended; [done|done|]. intros Hfk.
      apply not_eq_None_Some. intros Hnone. apply Hr. right. right. done.
    + intros sid. apply journal_appended.
Qed.

Definition demo_appended : Store :=
  (CursorRepository_AppendWithoutTx (demo_event 4) demo_journal).2.

Lemma AppendWithoutTx_atomic_witness :
  4 = Z.of_nat (length (journal demo_journal_db "ses-1")) + 1 /\
  journal_ok (st_db demo_appended) /\
  forall sid, journal (st_db demo_appended) sid = journal demo_journal_db sid ++
    (if decide ("ses-1" = sid) then [event_row 4 (demo_event 4) 4] else []).
Proof.
  apply (AppendWithoutTx_atomic (demo_event 4) demo_journal (Ok 4) demo_appended
           demo_journal_ok).
  - vm_compute. reflexivity.
  - apply run_answer. vm_compute. reflexivity.
Defined.

(** A replay from a cursor inside the journal answers the next events in
    order and nothing else: those after the cursor, up to the clamped limit,
    with the cursor moved past the last of them, never asking for a
    resynchronisation, and changing nothing.  [HasMore] is exact unless the
    driver fails, and even then it never claims more than there is. *)
Theorem Replay_page retention sid after limit s r s' :
  journal_ok (st_db s) ->
  0 <= after <= Z.of_nat (length (journal (st_db s) sid)) ->
  CursorRepository_Replay retention sid after limit s = (Ok r, s') ->
  let page := take (Z.to_nat (clamp_limit limit))
                (drop (Z.to_nat after) (journal (st_db s) sid)) in
  let more := bool_decide (after + Z.of_nat (length page)
                           < Z.of_nat (length (journal (st_db s) sid))) in
  cr_Events r = (row_event <$> page) /\
  cr_NextAfter r = after + Z.of_nat (length page) /\
  cr_ResyncRequired r = false /\
  (quiet (st_env s) -> cr_HasMore r = more) /\
  (cr_HasMore r = true -> more = true) /\
  st_db s' = st_db s.
Proof.
  intros Hok Ha E. wp_start E. apply wp_Replay; [done|done|done|].
  intros more env' _ Hm [= <-]. cbn.
  split; [done|]. split; [done|]. split; [done|]. split; [|split; [|done]].
  - intros Hq. destruct Hm as [|[Hf _]]; [done|]. by destruct (quiet_not_faulty _ Hq).
  - intros ->. by destruct Hm as [|[_ ?]].
Qed.

Lemma Replay_page_witness :
  let r := mkCursorResult [row_event (event_row 2 (demo_event 2) 2)] 2 false true in
  let page := take (Z.to_nat (clamp_limit 1)) (drop (Z.to_nat 1) (journal demo_journal_db "ses-1")) in
  let more := bool_decide (1 + Z.of_nat (length page)
                           < Z.of_nat (length (journal demo_journal_db "ses-1"))) in
  cr_Events r = (row_event <$> page) /\ cr_NextAfter r = 1 + Z.of_nat (length page) /\
  cr_ResyncRequired r = false /\ (quiet steady_env -> cr_HasMore r = more) /\
  (cr_HasMore r = true -> more = true) /\
  st_db (CursorRepository_Replay 0 "ses-1" 1 1 demo_journal).2 = demo_journal_db.
Proof.
  apply (Replay_page 0 "ses-1" 1 1 demo_journal _ _ demo_journal_ok).
  - split; [lia|]. vm_compute. discriminate.
  - apply run_answer. vm_compute. reflexivity.
Defined.

(** C4: following the cursor terminates and delivers the journal exactly.
    Without driver failures a client that starts at [after] and asks for pages
    until there are no more gets, for every limit and retention, exactly the
    events after its cursor: no gap, no duplicate, in order. *)
Theorem replay_all_complete fuel retention sid after limit s :
  journal_ok (st_db s) -> quiet (st_env s) ->
  0 <= after <= Z.of_nat (length (journal (st_db s) sid)) ->
  (length (journal (st_db s) sid) - Z.to_nat after < fuel)%nat ->
  exists s', replay_all fuel retention sid after limit s =
               (Ok (row_event <$> drop (Z.to_nat after) (journal (st_db s) sid)), s') /\
             st_db s' = st_db s.
Proof.
  intros Hok Hq Ha Hf. exists (replay_all fuel retention sid after limit s).2.
  pose proof (wp_replay_all fuel retention sid after limit s Hok Ha Hq Hf) as (H1 & H2 & _).
  split; [by apply run_answer|done].
Qed.

Lemma replay_all_complete_witness :
  exists s', replay_all 4 0 "ses-1" 0 1 demo_journal =
               (Ok (row_event <$> journal demo_journal_db "ses-1"), s') /\
             st_db s' = demo_journal_db.
Proof.
  apply (replay_all_complete 4 0 "ses-1" 0 1 demo_journal demo_journal_ok).
  - intros n. reflexivity.
  - split; [lia|]. vm_compute. discriminate.
  - vm_compute. lia.
Defined.

(** The cursor checks agree with the journal.  [ValidateCursor] accepts a
    cursor only inside the journal, and for an accepted cursor the metadata's
    remaining count is the number of events a complete replay from it delivers. *)
Theorem cursor_metadata_counts sid after s s1 m s2 :
  journal_ok (st_db s) -> Z.of_nat (length (journal (st_db s) sid)) < max_int64 ->
  CursorRepository_ValidateCursor sid after s = (Ok tt, s1) ->
  CursorRepository_GetCursorMetadata sid after s1 = (Ok m, s2) ->
  0 <= after <= Z.of_nat (length (journal (st_db s) sid)) /\
  cm_LastSequence m = cm_TotalEvents m /\
  cm_TotalEvents m = Z.of_nat (length (journal (st_db s) sid)) /\
  cm_RemainingEvents m = Z.of_nat (length (drop (Z.to_nat after) (journal (st_db s) sid))).
Proof.
  intros Hok Hlt E1 E2. revert E2. wp_start E1. unfold CursorRepository_ValidateCursor.
  case_decide as Ha; wp_simp; [done|].
  apply wp_GetLastSequence; [done|]. intros env1 _. rewrite max_sequence_length by done.
  case_decide as Hle; wp_simp; [done|]. intros _ E2.
  wp_start E2. unfold CursorRepository_GetCursorMetadata. wp_simp.
  apply wp_GetLastSequence; [done|]. cbn. intros env2 _. rewrite max_sequence_length by done.
  wp_simp. unfold EventRepository_Count. apply wp_exec_query; [done|]. cbn. intros env3 _.
  wp_simp. intros [= <-]. cbn. rewrite length_drop.
  split; [lia|]. split; [done|]. split; [done|].
  case_decide; [rewrite wrap64_small by (unfold min_int64; lia)|]; lia.
Qed.

Lemma cursor_metadata_counts_witness :
  let m := mkCursorMetadata "ses-1" 1 3 3 2 in
  0 <= 1 <= Z.of_nat (length (journal demo_journal_db "ses-1")) /\
  cm_LastSequence m = cm_TotalEvents m /\
  cm_TotalEvents m = Z.of_nat (length (journal demo_journal_db "ses-1")) /\
  cm_RemainingEvents m = Z.of_nat (length (drop (Z.to_nat 1) (journal demo_journal_db "ses-1"))).
Proof.
  apply (cursor_metadata_counts "ses-1" 1 demo_journal
           (CursorRepository_ValidateCursor "ses-1" 1 demo_journal).2 _
           (CursorRepository_GetCursorMetadata "ses-1" 1
              (CursorRepository_ValidateCursor "ses-1" 1 demo_journal).2).2 demo_journal_ok).
  - vm_compute. reflexivity.
  - apply run_answer. vm_compute. reflexivity.
  - apply run_answer. vm_compute. reflexivity.
Defined.

(** Sequences are reused after a purge.  When a purge has removed every
    event of a session, the next append to it is numbered 1 again, so a cursor
    handed out before the purge points past events it has never seen. *)
Theorem append_after_purge_restarts sid ev before s k s1 n s2 :
  e_SessionID ev = sid ->
  Forall (fun r => er_occurred_at r < before) (journal (st_db s) sid) ->
  CursorRepository_PurgeExpired before s = (Ok k, s1) ->
  CursorRepository_AppendWithoutTx ev s1 = (Ok n, s2) ->
  n = 1.
Proof.
  intros <- Hold E1 E2. revert E2. wp_start E1. unfold CursorRepository_PurgeExpired. wp_simp.
  apply wp_exec; [done|]. intros r d env1 _ [= <- <-]. wp_simp.
  apply wp_RowsAffected; [done|]. cbn. intros env2 _ _ E2.
  wp_start E2. apply wp_AppendWithoutTx; [done|]. intros now env3 _ _ [= <-].
  unfold next_sequence, select_max_sequence. cbn [st_db].
  match goal with |- context [journal ?d ?x] => assert (Hnil : journal d x = []) end;
    [|by rewrite Hnil].
  apply filter_none, Forall_forall. cbn. intros r [Hr Hin]%list_elem_of_filter Hs.
  apply Hr. rewrite Forall_forall in Hold. by apply Hold, list_elem_of_filter.
Qed.

Definition demo_purged : Store := (CursorRepository_PurgeExpired 1000 demo_journal).2.

Lemma append_after_purge_restarts_witness : length (journal demo_journal_db "ses-1") = 3%nat /\ 1 = 1.
Proof.
  split; [vm_compute; reflexivity|].
  apply (append_after_purge_restarts "ses-1" (demo_event 4) 1000 demo_journal 3 demo_purged 1
           (CursorRepository_AppendWithoutTx (demo_event 4) demo_purged).2);
    [reflexivity|repeat constructor; vm_compute; reflexivity
    |apply run_answer; vm_compute; reflexivity..].
Defined.
