(* ===== verification/Projection.v ===== *)
(** * Snapshots of a session (src/internal/projection/snapshot.go)

    A snapshot combines the session, its active run, its pending approval and
    the last sequence, read in one transaction. *)

From S2P Require Import Prelude Env Json Domain Schema SessionRepo Journal.

Record Snapshot := mkSnapshot {
  sn_Session : Session;
  sn_ActiveRun : option Run;
  sn_PendingApproval : option Approval;
  sn_LastSequence : Z
}.

(** ** Loading rows: a missing row is [sql.ErrNoRows] *)

Definition loadSession (id : string) : M Store (result Session) :=
  let? row := exec (query (select_session id)) in
  match row with
  | None => ret (Err sql_ErrNoRows)
  | Some r => ret (scan_session_columns r)
  end.

Definition loadActiveRun (sessionID : string) : M Store (result Run) :=
  let? row := exec (query (select_active_run sessionID)) in
  match row with
  | None => ret (Err sql_ErrNoRows)
  | Some r => ret (Ok (scan_run_columns r))
  end.

(** The payload column goes into the struct as it is. *)
Definition loadApproval (id : string) : M Store (result Approval) :=
  let? row := exec (query (fun d => approvals d !! id)) in
  match row with
  | None => ret (Err sql_ErrNoRows)
  | Some r =>
      ret (Ok (mkApproval id (ar_session_id r) (ar_category r) (ar_state r) (ar_action_kind r)
                 (ar_human_readable_context r) (ar_structured_payload r) (ar_created_at r)
                 (ar_expires_at r) (ar_decided_at r) (ar_decision_reason r)))
  end.

Definition loadLastEventSequence (sessionID : string) : M Store (result Z) :=
  let? seq := exec (query (select_max_sequence sessionID)) in
  match seq with None => ret (Ok 0) | Some n => ret (Ok n) end.

(** [err != nil && err != sql.ErrNoRows]: an absent row is no error. *)
Definition no_rows_nil {A} (r : result A) : result (option A) :=
  match r with
  | Ok a => Ok (Some a)
  | Err e => if decide (e = sql_ErrNoRows) then Ok None else Err e
  end.

(** The tail both readings share: the active run and the pending approval. *)
Definition load_run_and_approval (session : Session) (sessionID : string) (lastSeq : Z)
    : M Store (result Snapshot) :=
  let! run := loadActiveRun sessionID in
  match no_rows_nil run with
  | Err e => ret (Err e)
  | Ok run =>
      match s_PendingApproval session with
      | Some id =>
          if decide (id = "") then ret (Ok (mkSnapshot session run None lastSeq))
          else
            let! approval := loadApproval id in
            match no_rows_nil approval with
            | Err e => ret (Err e)
            | Ok approval => ret (Ok (mkSnapshot session run approval lastSeq))
            end
      | None => ret (Ok (mkSnapshot session run None lastSeq))
      end
  end.

Definition SnapshotProjection_GetSnapshot (sessionID : string) : M Store (result Snapshot) :=
  DB_WithTransaction (
    let? session := loadSession sessionID in
    load_run_and_approval session sessionID (s_LastSequence session)).

Definition SnapshotProjection_Reconstruct (sessionID : string) : M Store (result Snapshot) :=
  DB_WithTransaction (
    let? session := loadSession sessionID in
    let? lastSeq := loadLastEventSequence sessionID in
    let last := if decide (lastSeq <> s_LastSequence session) then lastSeq
                else s_LastSequence session in
    load_run_and_approval session sessionID last).

(** Sessions whose snapshot fails are skipped. *)
Definition collect_snapshots (load : string -> M Store (result Snapshot)) (ids : list string)
    : M Store (list Snapshot) :=
  fold_each ids [] (fun snapshots id =>
    let! snap := load id in
    match snap with
    | Err _ => ret snapshots
    | Ok snap => ret (snapshots ++ [snap])
    end).

Definition SnapshotProjection_GetSnapshotMultiple (sessionIDs : list string)
    : M Store (result (list Snapshot)) :=
  let! l := collect_snapshots SnapshotProjection_GetSnapshot sessionIDs in ret (Ok l).

(** The ids of a query's rows, then [rows.Err()]. *)
Definition SnapshotProjection_ReconstructAll : M Store (result (list Snapshot)) :=
  let? rows := exec (query (select_sessions (fun _ => true)))
    orelse wrap "querying sessions" in
  let! e := driver_call in
  match e with
  | Some e => ret (Err e)
  | None =>
      let! l := collect_snapshots SnapshotProjection_Reconstruct (rows.*1) in ret (Ok l)
  end.

Definition SnapshotProjection_getLastSequenceFromDB (sessionID : string) : M Store (result Z) :=
  let? seq := exec (query (select_max_sequence sessionID)) in
  match seq with None => ret (Ok 0) | Some n => ret (Ok n) end.

Definition SnapshotProjection_IsConsistent (sessionID : string) : M Store (result bool) :=
  let? stored := exec (query (fun d => sr_last_sequence <$> sessions d !! sessionID)) in
  match stored with
  | None => ret (Err sql_ErrNoRows)
  | Some storedSeq =>
      let? journalSeq := SnapshotProjection_getLastSequenceFromDB sessionID in
      ret (Ok (bool_decide (storedSeq = journalSeq)))
  end.

Definition set_sr_last_sequence (n : Z) (r : SessionRow) : SessionRow :=
  mkSessionRow (sr_workspace_id r) (sr_adapter_id r) (sr_state r) (sr_title r)
    (sr_created_at r) (sr_updated_at r) (sr_last_activity_at r) n (sr_pending_approval_id r)
    (sr_recovery_state r) (sr_owner_device_id r).

Definition SnapshotProjection_FixConsistency (sessionID : string) : M Store (result unit) :=
  let? journalSeq := SnapshotProjection_getLastSequenceFromDB sessionID in
  let? _ := exec (update_key t_sessions ["last_sequence"] sessions set_sessions
                    (set_sr_last_sequence journalSeq) (fun _ => true) sessionID) in
  ret (Ok tt).

(** ** What a snapshot is, as a function of the tables *)

Definition approval_of (d : DB) (id : string) : option Approval :=
  (fun r => mkApproval id (ar_session_id r) (ar_category r) (ar_state r) (ar_action_kind r)
              (ar_human_readable_context r) (ar_structured_payload r) (ar_created_at r)
              (ar_expires_at r) (ar_decided_at r) (ar_decision_reason r)) <$> approvals d !! id.

Definition pending_of (d : DB) (session : Session) : option Approval :=
  match s_PendingApproval session with
  | Some id => if decide (id = "") then None else approval_of d id
  | None => None
  end.

(** [journalled] says whether the sequence comes from the journal. *)
Definition snapshot_of (journalled : bool) (d : DB) (sid : string) : result Snapshot :=
  match sessions d !! sid with
  | None => Err sql_ErrNoRows
  | Some r =>
      match scan_session_columns (sid, r) with
      | Err e => Err e
      | Ok session =>
          Ok (mkSnapshot session (scan_run_columns <$> select_active_run sid d)
                (pending_of d session)
                (if journalled then default 0 (select_max_sequence sid d)
                 else s_LastSequence session))
      end
  end.

(** ** Specifications *)

(** A query in a transaction: a driver error is never [sql.ErrNoRows]. *)
Lemma wp_tx_query {A} (f : DB -> A) s (Q : result A -> Store -> Prop) :
  (forall e env', env_after (st_env s) env' -> faulty (st_env s) -> e <> sql_ErrNoRows ->
     Q (Err e) (mkStore (st_db s) env')) ->
  (forall env', env_after (st_env s) env' -> Q (Ok (f (st_db s))) (mkStore (st_db s) env')) ->
  wp (exec (query f)) s Q.
Proof.
  intros HF HS. unfold wp, exec, bind, driver_call.
  destruct (env_fault (st_env s) (env_calls (st_env s))) as [m|] eqn:E; cbn.
  - apply HF; [apply env_after_call| |done]. exists (env_calls (st_env s)). congruence.
  - apply HS, env_after_call.
Qed.

Lemma no_rows_nil_err {A} e : e <> sql_ErrNoRows -> @no_rows_nil A (Err e) = Err e.
Proof. intros H. unfold no_rows_nil. by rewrite decide_False. Qed.

Lemma wp_loadActiveRun sid s (Q : result Run -> Store -> Prop) :
  (forall e env', env_after (st_env s) env' -> faulty (st_env s) -> e <> sql_ErrNoRows ->
     Q (Err e) (mkStore (st_db s) env')) ->
  (forall r env', env_after (st_env s) env' ->
     no_rows_nil r = Ok (scan_run_columns <$> select_active_run sid (st_db s)) ->
     Q r (mkStore (st_db s) env')) ->
  wp (loadActiveRun sid) s Q.
Proof.
  intros HF HS. unfold loadActiveRun. wp_simp. apply wp_tx_query; [done|]. intros env1 He1.
  destruct (select_active_run sid (st_db s)); wp_simp; by apply HS.
Qed.

Lemma wp_loadApproval id s (Q : result Approval -> Store -> Prop) :
  (forall e env', env_after (st_env s) env' -> faulty (st_env s) -> e <> sql_ErrNoRows ->
     Q (Err e) (mkStore (st_db s) env')) ->
  (forall r env', env_after (st_env s) env' -> no_rows_nil r = Ok (approval_of (st_db s) id) ->
     Q r (mkStore (st_db s) env')) ->
  wp (loadApproval id) s Q.
Proof.
  intros HF HS. unfold loadApproval, approval_of in *. wp_simp.
  apply wp_tx_query; [done|]. intros env1 He1.
  destruct (approvals (st_db s) !! id); wp_simp; by apply HS.
Qed.

Lemma wp_load_run_and_approval session sid n s (Q : result Snapshot -> Store -> Prop) :
  (forall e env', env_after (st_env s) env' -> faulty (st_env s) ->
     Q (Err e) (mkStore (st_db s) env')) ->
  (forall env', env_after (st_env s) env' ->
     Q (Ok (mkSnapshot session (scan_run_columns <$> select_active_run sid (st_db s))
              (pending_of (st_db s) session) n)) (mkStore (st_db s) env')) ->
  wp (load_run_and_approval session sid n) s Q.
Proof.
  intros HF HS. unfold load_run_and_approval, pending_of in *. wp_simp.
  apply wp_loadActiveRun; [intros e env1 He1 Hf Hn|intros r env1 He1 Hr].
  { cbn beta. rewrite no_rows_nil_err by done. wp_simp. by apply HF. }
  cbn beta. rewrite Hr. destruct (s_PendingApproval session) as [id|]; [|wp_simp; by apply HS].
  case_decide; [wp_simp; by apply HS|]. wp_simp.
  apply wp_loadApproval; cbn [st_db st_env]; [intros e env2 He2 Hf Hn|intros a env2 He2 Ha].
  { cbn beta. rewrite no_rows_nil_err by done. wp_simp. apply HF; solve_env. }
  cbn beta. rewrite Ha. wp_simp. apply HS. solve_env.
Qed.

Lemma wp_loadSession sid s (Q : result Session -> Store -> Prop) :
  (forall e env', env_after (st_env s) env' -> faulty (st_env s) ->
     Q (Err e) (mkStore (st_db s) env')) ->
  (forall env', env_after (st_env s) env' ->
     Q (match sessions (st_db s) !! sid with
        | None => Err sql_ErrNoRows
        | Some r => scan_session_columns (sid, r)
        end) (mkStore (st_db s) env')) ->
  wp (loadSession sid) s Q.
Proof.
  intros HF HS. unfold loadSession. wp_simp. apply wp_exec_query; [done|]. intros env1 He1.
  specialize (HS env1 He1). unfold select_session. by destruct (sessions (st_db s) !! sid).
Qed.

(** The transaction body the two readings share, up to the journal's own count. *)
Definition snapshot_tx (journalled : bool) (sid : string) : M Store (result Snapshot) :=
  let? session := loadSession sid in
  if journalled then
    let? lastSeq := loadLastEventSequence sid in
    load_run_and_approval session sid
      (if decide (lastSeq <> s_LastSequence session) then lastSeq
       else s_LastSequence session)
  else load_run_and_approval session sid (s_LastSequence session).

Lemma wp_snapshot_tx (journalled : bool) sid s env1 :
  env_after (st_env s) env1 ->
  wp (snapshot_tx journalled sid) (mkStore (st_db s) env1) (fun r s' =>
    env_after env1 (st_env s') /\ st_db s' = st_db s /\
    ((faulty (st_env s) /\ is_ok r = false) \/ r = snapshot_of journalled (st_db s) sid)).
Proof.
  intros He1. unfold snapshot_tx. wp_simp. apply wp_loadSession; cbn [st_db st_env]; unfold snapshot_of.
  { intros e env2 He2 Hf. split; [done|]. split; [done|]. left. split; [solve_env|done]. }
  intros env2 He2. destruct (sessions (st_db s) !! sid) as [row|]; [|split; [solve_env|split; [done|by right]]].
  destruct (scan_session_columns (sid, row)) as [session|e]; [|split; [solve_env|split; [done|by right]]].
  destruct journalled.
  - unfold loadLastEventSequence. wp_simp. apply wp_exec_query; cbn.
    { intros e env3 He3 Hf. split; [solve_env|]. split; [done|]. left. split; [solve_env|done]. }
    intros env3 He3.
    assert (Hseq : forall n, default 0 (select_max_sequence sid (st_db s)) = n ->
      (if decide (n <> s_LastSequence session) then n else s_LastSequence session) = n)
      by (intros n _; case_decide; lia).
    destruct (select_max_sequence sid (st_db s)) as [n|]; wp_simp; rewrite Hseq by done;
      (apply wp_load_run_and_approval; cbn;
        [intros e env4 He4 Hf|intros env4 He4]; (split; [solve_env|split; [done|]]));
      first [left; split; [solve_env|done] | right; done].
  - apply wp_load_run_and_approval; cbn;
      [intros e env4 He4 Hf|intros env4 He4]; (split; [solve_env|split; [done|]]);
      first [left; split; [solve_env|done] | right; done].
Qed.

(** Both readings answer the snapshot of the tables, and change nothing. *)
Lemma wp_snapshot (journalled : bool) sid s (Q : result Snapshot -> Store -> Prop) :
  (forall e env', env_after (st_env s) env' -> faulty (st_env s) ->
     Q (Err e) (mkStore (st_db s) env')) ->
  (forall env', env_after (st_env s) env' ->
     Q (snapshot_of journalled (st_db s) sid) (mkStore (st_db s) env')) ->
  wp ((if journalled then SnapshotProjection_Reconstruct else SnapshotProjection_GetSnapshot) sid)
    s Q.
Proof.
  intros HF HS.
  assert (H : wp (DB_WithTransaction (snapshot_tx journalled sid)) s Q).
  { apply wp_WithTransaction; [done|]. intros env1 He1.
    eapply wp_mono; [by apply wp_snapshot_tx|]. cbn. intros r s' (He2 & Hdb & Hr).
    split; [done|]. split.
    - intros a env' -> He3. rewrite Hdb. destruct Hr as [[_ ?]|Hr]; [done|].
      rewrite Hr. apply HS. solve_env.
    - intros e env' -> He3 e' He'. destruct He' as [Hf| ->]; [apply HF; solve_env|].
      destruct Hr as [[Hf _]|Hr]; [apply HF; solve_env|]. rewrite Hr. apply HS. solve_env. }
  by destruct journalled.
Qed.

(** One session's part of a batch: its snapshot, or nothing. *)
Definition snapshot_list (journalled : bool) (d : DB) (sid : string) : list Snapshot :=
  match snapshot_of journalled d sid with Ok x => [x] | Err _ => [] end.

Lemma wp_collect_snapshots (journalled : bool) ids s :
  quiet (st_env s) ->
  wp (collect_snapshots (if journalled then SnapshotProjection_Reconstruct
                         else SnapshotProjection_GetSnapshot) ids) s (fun l s' =>
    l = ids ≫= snapshot_list journalled (st_db s) /\ st_db s' = st_db s /\
    env_after (st_env s) (st_env s')).
Proof.
  intros Hq. unfold collect_snapshots.
  apply (wp_fold_each _ _ _ (fun rest acc s' =>
    ids ≫= snapshot_list journalled (st_db s) =
      acc ++ (rest ≫= snapshot_list journalled (st_db s)) /\
    st_db s' = st_db s /\ env_after (st_env s) (st_env s'))).
  - split; [done|]. split; [done|reflexivity].
  - intros sid rest acc s' (Hl & Hdb & He). wp_simp.
    apply wp_snapshot; [intros; exfalso; eapply quiet_not_faulty; [exact Hq|solve_env]|].
    intros env' He'. rewrite Hdb in *. cbn in Hl. unfold snapshot_list at 2 in Hl.
    destruct (snapshot_of journalled (st_db s) sid); wp_simp; cbn in Hl |- *; rewrite Hl;
      (split; [|split; [done|solve_env]]); [by rewrite <- (assoc_L (++))|done].
  - intros acc s' (Hl & Hdb & He). cbn in Hl. rewrite app_nil_r in Hl. done.
Qed.

(** ** Properties *)

(** C36: a snapshot is consistent.  [GetSnapshot] and [Reconstruct] change no
    table, and unless the driver fails they answer the one snapshot that the
    session's row, its newest active run, its pending approval and its sequence
    determine together; a missing session is an error, a missing run or
    approval is not. *)
Theorem snapshot_consistent (journalled : bool) sid s r s' :
  (if journalled then SnapshotProjection_Reconstruct sid
   else SnapshotProjection_GetSnapshot sid) s = (r, s') ->
  st_db s' = st_db s /\
  (r = snapshot_of journalled (st_db s) sid \/ (faulty (st_env s) /\ is_ok r = false)).
Proof.
  intros E. assert (E' : (if journalled then SnapshotProjection_Reconstruct
    else SnapshotProjection_GetSnapshot) sid s = (r, s')) by (by destruct journalled).
  wp_start E'. apply wp_snapshot; intros; subst; cbn; eauto.
Qed.

Definition demo_snapshot : Snapshot :=
  mkSnapshot
    (mkSession "ses-1" "ws-1" "fake-adapter" SessionStateActive "demo" 10 20 (Some 10) 3
       None None None)
    (Some (scan_run_columns ("run-1", demo_run_row))) None 3.

Lemma snapshot_consistent_witness :
  st_db (SnapshotProjection_Reconstruct "ses-1" demo_journal).2 = demo_journal_db /\
  (Ok demo_snapshot = snapshot_of true demo_journal_db "ses-1" \/
   (faulty steady_env /\ is_ok (Ok demo_snapshot) = false)).
Proof.
  apply (snapshot_consistent true "ses-1" demo_journal).
  apply run_answer. vm_compute. reflexivity.
Defined.

(** After a restart the journal confirms the stored state.  While the
    journal invariant holds, rebuilding a snapshot from the journal gives the
    same answer as reading it. *)
Theorem Reconstruct_agrees sid s :
  journal_ok (st_db s) -> quiet (st_env s) ->
  (SnapshotProjection_Reconstruct sid s).1 = (SnapshotProjection_GetSnapshot sid s).1.
Proof.
  intros Hok Hq.
  assert (H : forall b : bool, ((if b then SnapshotProjection_Reconstruct
      else SnapshotProjection_GetSnapshot) sid s).1 = snapshot_of false (st_db s) sid).
  { intros b. change (wp ((if b then SnapshotProjection_Reconstruct
      else SnapshotProjection_GetSnapshot) sid) s (fun (r : result Snapshot) (_ : Store) => r = snapshot_of false (st_db s) sid)).
    apply wp_snapshot; [intros; exfalso; eapply quiet_not_faulty; [exact Hq|solve_env]|].
    intros _ _. destruct b; [|done]. unfold snapshot_of.
    destruct (sessions (st_db s) !! sid) as [row|] eqn:Hrow; [|done].
    unfold scan_session_columns. destruct (sr_title row); [|done]. cbn.
    by rewrite max_sequence_length, (jo_last _ Hok _ _ Hrow). }
  by rewrite (H true), (H false).
Qed.

Lemma Reconstruct_agrees_witness :
  (SnapshotProjection_Reconstruct "ses-1" demo_journal).1 =
  (SnapshotProjection_GetSnapshot "ses-1" demo_journal).1.
Proof. apply (Reconstruct_agrees "ses-1" demo_journal demo_journal_ok). intros n. reflexivity. Defined.

(** Repairing works.  After [FixConsistency] succeeds the session's stored
    sequence is the journal's, [IsConsistent] reports it if the session exists,
    and nothing but that one column of that one row has changed. *)
Theorem FixConsistency_repairs sid s s1 b s2 :
  SnapshotProjection_FixConsistency sid s = (Ok tt, s1) ->
  SnapshotProjection_IsConsistent sid s1 = (Ok b, s2) ->
  b = true /\
  st_db s1 = set_sessions
    (alter (set_sr_last_sequence (default 0 (select_max_sequence sid (st_db s)))) sid
       (sessions (st_db s))) (st_db s).
Proof.
  intros E1 E2. revert E2. wp_start E1.
  unfold SnapshotProjection_FixConsistency, SnapshotProjection_getLastSequenceFromDB. wp_simp.
  apply wp_exec_query; [done|]. intros env1 _.
  set (n := default 0 (select_max_sequence sid (st_db s))).
  assert (Hn : forall k, wp (match select_max_sequence sid (st_db s) with
      | Some m => ret (Ok m) | None => ret (Ok 0) end) (mkStore (st_db s) env1) k <->
      k (Ok n) (mkStore (st_db s) env1)).
  { intros k. unfold n. by destruct (select_max_sequence sid (st_db s)). }
  cbn beta iota. rewrite Hn. wp_simp. apply wp_update_key; [done|done|..]; cbn.
  - intros r env2 _ Hr _. wp_simp. intros _ E2. split.
    + wp_start E2. unfold SnapshotProjection_IsConsistent. wp_simp.
      apply wp_exec_query; [done|]. cbn. intros env3 _. rewrite lookup_insert_eq. cbn.
      unfold SnapshotProjection_getLastSequenceFromDB. wp_simp.
      apply wp_exec_query; [done|]. cbn. intros env4 _.
      change (select_max_sequence sid (set_sessions _ _)) with
        (select_max_sequence sid (st_db s)).
      unfold n. destruct (select_max_sequence sid (st_db s)); wp_simp;
        intros [= <-]; first [done|by apply bool_decide_eq_true].
    + cbn [st_db]. f_equal. apply map_eq. intros k. destruct (decide (sid = k)) as [<-|Hne].
      * by rewrite lookup_insert_eq, lookup_alter_eq, Hr.
      * by rewrite lookup_insert_ne, lookup_alter_ne.
  - intros env2 _ Hr. wp_simp. intros _ E2.
    assert (Hnone : sessions (st_db s) !! sid = None)
      by (destruct (sessions (st_db s) !! sid) as [r|]; [by specialize (Hr r eq_refl)|done]).
    wp_start E2. unfold SnapshotProjection_IsConsistent. wp_simp.
    apply wp_exec_query; [done|]. cbn [st_db]. intros env3 _. rewrite Hnone. by wp_simp.
Qed.

(** The row's count is wrong here: the journal has three events. *)
Definition demo_drifted : Store :=
  mkStore (set_sessions {["ses-1" := demo_session_row]} demo_journal_db) steady_env.
Definition demo_repaired : Store := (SnapshotProjection_FixConsistency "ses-1" demo_drifted).2.

Lemma FixConsistency_repairs_witness :
  true = true /\
  st_db demo_repaired = set_sessions
    (alter (set_sr_last_sequence (default 0 (select_max_sequence "ses-1" (st_db demo_drifted))))
       "ses-1" (sessions (st_db demo_drifted))) (st_db demo_drifted).
Proof.
  apply (FixConsistency_repairs "ses-1" demo_drifted demo_repaired true
           (SnapshotProjection_IsConsistent "ses-1" demo_repaired).2);
    apply run_answer; vm_compute; reflexivity.
Defined.

(** A batch over rows of the table answers one snapshot a row, in order. *)
Lemma snapshot_list_rows (d : DB) rows :
  map_Forall (fun _ r => sr_title r <> None) (sessions d) ->
  Forall (fun kv => sessions d !! kv.1 = Some kv.2) rows ->
  let l := rows.*1 ≫= snapshot_list true d in
  (fun x => (s_ID (sn_Session x), s_CreatedAt (sn_Session x))) <$> l =
    (fun kv => (kv.1, sr_created_at kv.2)) <$> rows /\
  Forall (fun x => snapshot_of true d (s_ID (sn_Session x)) = Ok x) l.
Proof.
  intros Ht Hmem. induction Hmem as [|[k v] rows Hk _ [IH1 IH2]]; [done|].
  cbn in Hk, IH1, IH2 |- *. unfold snapshot_list at 1 3, snapshot_of.
  rewrite Hk. unfold scan_session_columns. pose proof (Ht k v Hk) as Htk. cbn in Htk.
  destruct (sr_title v) as [t|] eqn:Et; [|done]. cbn. split; [by f_equal|].
  constructor; [|done]. unfold snapshot_of. cbn. rewrite Hk.
  unfold scan_session_columns. by rewrite Et.
Qed.

(** Restart recovery covers every session.  Without driver failures
    [ReconstructAll] answers, newest first, exactly one journal-derived
    snapshot for each stored session whose title is not NULL. *)
Theorem ReconstructAll_covers s :
  quiet (st_env s) ->
  map_Forall (fun _ r => sr_title r <> None) (sessions (st_db s)) ->
  exists l s', SnapshotProjection_ReconstructAll s = (Ok l, s') /\ st_db s' = st_db s /\
    ((fun x => s_ID (sn_Session x)) <$> l) ≡ₚ (map_to_list (sessions (st_db s))).*1 /\
    StronglySorted (by_desc (fun x => s_CreatedAt (sn_Session x))) l /\
    Forall (fun x => snapshot_of true (st_db s) (s_ID (sn_Session x)) = Ok x) l.
Proof.
  intros Hq Ht.
  set (rows := select_sessions (fun _ => true) (st_db s)).
  assert (Hrows : rows ≡ₚ map_to_list (sessions (st_db s))).
  { unfold rows, select_sessions. rewrite merge_sort_Permutation, filter_id; [done|].
    by apply Forall_forall. }
  assert (Hsorted : StronglySorted (by_desc (fun kv => sr_created_at kv.2)) rows)
    by (apply StronglySorted_merge_sort; apply _).
  set (l := rows.*1 ≫= snapshot_list true (st_db s)).
  assert (Hrun : wp SnapshotProjection_ReconstructAll s (fun r s' =>
            r = Ok l /\ st_db s' = st_db s)).
  { unfold SnapshotProjection_ReconstructAll. wp_simp.
    apply wp_exec_query; [intros; exfalso; by eapply quiet_not_faulty|]. intros env1 He1. wp_simp.
    apply wp_driver_call; [intros; exfalso; eapply quiet_not_faulty; [exact Hq|solve_env]|].
    cbn. intros env2 He2. wp_simp.
    eapply wp_mono; [apply (wp_collect_snapshots true); solve_env|].
    cbn. intros l' s' (-> & Hdb & _). by wp_simp. }
  destruct Hrun as [Hr Hdb].
  exists l, (SnapshotProjection_ReconstructAll s).2.
  split; [by apply run_answer|]. split; [done|].
  destruct (snapshot_list_rows (st_db s) rows) as [Hmap Hsnap]; [done| |].
  { apply Forall_forall. intros [k v]. rewrite Hrows. apply elem_of_map_to_list. }
  fold l in Hmap, Hsnap. clearbody rows.
  split; [|split; [|done]].
  - rewrite <- Hrows. apply (f_equal (fmap fst)) in Hmap. rewrite <- !list_fmap_compose in Hmap.
    apply reflexive_eq. exact Hmap.
  - apply StronglySorted_of_lookup. intros i j x y Hij Hx Hy.
    pose proof (f_equal (.!! i) Hmap) as Hi. pose proof (f_equal (.!! j) Hmap) as Hj.
    cbn in Hi, Hj. rewrite !list_lookup_fmap, Hx in Hi. rewrite !list_lookup_fmap, Hy in Hj.
    destruct (rows !! i) as [[k1 v1]|] eqn:H1; [|done].
    destruct (rows !! j) as [[k2 v2]|] eqn:H2; [|done]. injection Hi as _ Hi. injection Hj as _ Hj.
    unfold by_desc. rewrite Hi, Hj. exact (StronglySorted_lookup _ _ _ _ _ _ Hsorted Hij H1 H2).
Qed.

Lemma ReconstructAll_covers_witness :
  exists l s', SnapshotProjection_ReconstructAll demo_journal = (Ok l, s') /\
    st_db s' = demo_journal_db /\
    ((fun x => s_ID (sn_Session x)) <$> l) ≡ₚ (map_to_list (sessions demo_journal_db)).*1 /\
    StronglySorted (by_desc (fun x => s_CreatedAt (sn_Session x))) l /\
    Forall (fun x => snapshot_of true demo_journal_db (s_ID (sn_Session x)) = Ok x) l.
Proof.
  apply (ReconstructAll_covers demo_journal); [intros n; reflexivity|].
  change (sessions (st_db demo_journal)) with (sessions demo_journal_db).
  rewrite demo_journal_sessions. by apply map_Forall_singleton.
Defined.
