(* ===== verification/ApprovalStore.v ===== *)
(** * Approval stores (src/internal/approval/store.go and the ApprovalStore
      interface of src/internal/approval/approval.go)

    The code passes approvals by pointer, and a store may keep the pointer it
    is given (MemoryStore) or copy the value out and in (DBStore), so the model
    has a heap of approvals.  The interface is a class of operations; the laws
    the bridge relies on are a second class, proved for each implementation. *)

From S2P Require Import Prelude Env Json Domain Schema SessionRepo Journal.

(** ** The heap *)

Abbreviation loc := nat (only parsing).

#[export] Instance approval_inhabited : Inhabited Approval :=
  populate (mkApproval "" "" "" "" "" "" "" 0 0 None None).

(** The heap, the state of the store, and the environment. *)
Record World (T : Type) := mkWorld {
  w_heap : list Approval;
  w_store : T;
  w_env : Env
}.
Arguments mkWorld {T} _ _ _.
Arguments w_heap {T} _.
Arguments w_store {T} _.
Arguments w_env {T} _.

Definition set_w_heap {T} (h : list Approval) (w : World T) : World T :=
  mkWorld h (w_store w) (w_env w).
Definition set_w_store {T} (x : T) (w : World T) : World T :=
  mkWorld (w_heap w) x (w_env w).

(** [*p] and [*p = a]. *)
Definition deref {T} (l : loc) (w : World T) : Approval := w_heap w !!! l.
Definition assign {T} (l : loc) (a : Approval) : M (World T) unit :=
  modify (fun w => set_w_heap (<[l := a]> (w_heap w)) w).

(** [&a] of a fresh value. *)
Definition new_approval {T} (a : Approval) : M (World T) loc :=
  fun w => (length (w_heap w), set_w_heap (w_heap w ++ [a]) w).

Definition world_Now {T} : M (World T) Z :=
  zoom w_env (fun e w => mkWorld (w_heap w) (w_store w) e) time_Now.

(** ** The interface *)

Class ApprovalStore (T : Type) := mkApprovalStore {
  as_Create : loc -> M (World T) (result unit);
  as_GetByID : string -> M (World T) (result loc);
  as_Update : loc -> M (World T) (result unit);
  as_GetPendingBySession : string -> M (World T) (result (list loc));
  as_Delete : string -> M (World T) (result unit)
}.

(** What a client may rely on: a store never changes an approval object that
    exists, it hands out allocated pointers only, and it only reads on in the
    environment.  [as_ok] is the implementation's own invariant. *)
Record world_after {T} (ok : World T -> Prop) (w w' : World T) : Prop := mk_world_after {
  wa_heap : w_heap w `prefix_of` w_heap w';
  wa_env : env_after (w_env w) (w_env w');
  wa_ok : ok w'
}.

Class ApprovalStoreLaws (T : Type) `{ApprovalStore T} := {
  as_ok : World T -> Prop;
  as_ok_heap : forall w h e, as_ok w -> (length (w_heap w) <= length h)%nat ->
    as_ok (mkWorld h (w_store w) e);
  as_Create_law : forall l w, as_ok w -> (l < length (w_heap w))%nat ->
    world_after as_ok w (as_Create l w).2;
  as_Update_law : forall l w, as_ok w -> (l < length (w_heap w))%nat ->
    world_after as_ok w (as_Update l w).2;
  as_GetByID_law : forall id w, as_ok w ->
    world_after as_ok w (as_GetByID id w).2 /\
    forall l, (as_GetByID id w).1 = Ok l -> (l < length (w_heap (as_GetByID id w).2))%nat;
  as_Delete_law : forall id w, as_ok w -> world_after as_ok w (as_Delete id w).2
}.

(** ** A bridge without a store ([store == nil]): persisting is skipped and
    a lookup finds nothing *)

Definition err_approval_not_found : error := ErrNew "approval not found".

#[export] Instance nil_store : ApprovalStore unit := {|
  as_Create _ := ret (Ok tt);
  as_GetByID _ := ret (Err err_approval_not_found);
  as_Update _ := ret (Ok tt);
  as_GetPendingBySession _ := ret (Ok []);
  as_Delete _ := ret (Ok tt)
|}.

(** ** DBStore *)

Definition on_store {A} (m : M Store A) : M (World DB) A :=
  zoom (fun w => mkStore (w_store w) (w_env w))
       (fun s w => mkWorld (w_heap w) (st_db s) (st_env s)) m.

Definition approval_row (a : Approval) : ApprovalRow :=
  mkApprovalRow (a_SessionID a) (a_Category a) (a_State a) (a_ActionKind a)
    (a_HumanReadableContext a) (json_quote (a_StructuredPayload a)) (a_CreatedAt a)
    (a_ExpiresAt a) None None.

Definition DBStore_Create (approval : Approval) : M Store (result unit) :=
  exec (insert_approval (a_ID approval) (approval_row approval)).

(** [json.Unmarshal] of the payload column into a string. *)
Definition scan_payload (t : string) : result string :=
  if decide (t = "null") then Ok ""
  else match json_unquote t with
       | Some x => Ok x
       | None => Err (wrap "unmarshaling payload" (ErrNew "json: cannot unmarshal into string"))
       end.

Definition scanApprovalRow (row : string * ApprovalRow) : result Approval :=
  let '(id, r) := row in
  match scan_payload (ar_structured_payload r) with
  | Err e => Err e
  | Ok p =>
      Ok (mkApproval id (ar_session_id r) (ar_category r) (ar_state r) (ar_action_kind r)
            (ar_human_readable_context r) p (ar_created_at r) (ar_expires_at r)
            (ar_decided_at r) (ar_decision_reason r))
  end.

Definition scanApproval (row : result (option (string * ApprovalRow))) : result Approval :=
  match row with
  | Err e => Err (wrap "scanning approval" e)
  | Ok None => Err err_approval_not_found
  | Ok (Some r) => scanApprovalRow r
  end.

Definition scanApprovals (rows : list (string * ApprovalRow)) : M Store (result (list Approval)) :=
  match scan_rows scanApprovalRow rows with
  | Err e => ret (Err e)
  | Ok l =>
      let! e := driver_call in
      ret (match e with Some e => Err (wrap "iterating approvals" e) | None => Ok l end)
  end.

Definition DBStore_GetByID (id : string) : M Store (result Approval) :=
  let! row := exec (query (fun d => pair id <$> approvals d !! id)) in
  ret (scanApproval row).

Definition upd_approval (a : Approval) (r : ApprovalRow) : ApprovalRow :=
  mkApprovalRow (ar_session_id r) (ar_category r) (a_State a) (ar_action_kind r)
    (ar_human_readable_context r) (ar_structured_payload r) (ar_created_at r)
    (ar_expires_at r) (a_DecidedAt a) (a_DecisionReason a).

Definition DBStore_Update (approval : Approval) : M Store (result unit) :=
  let? _ := exec (update_key t_approvals ["state"; "decided_at"; "decision_reason"]
                    approvals set_approvals (upd_approval approval) (fun _ => true)
                    (a_ID approval)) in
  ret (Ok tt).

Definition DBStore_GetPendingBySession (sessionID : string) : M Store (result (list Approval)) :=
  let? rows := exec (query (fun d =>
      merge_sort (by_asc (fun kv => ar_created_at kv.2))
        (filter (fun kv => ar_session_id kv.2 = sessionID /\ ar_state kv.2 = "pending")
           (map_to_list (approvals d)))))
    orelse wrap "querying approvals" in
  scanApprovals rows.

Definition DBStore_Delete (id : string) : M Store (result unit) :=
  exec (fun d => (Ok tt, set_approvals (delete id (approvals d)) d)).

(** Every value read from the database is a new object. *)
Definition alloc_all {T} (l : list Approval) : M (World T) (list loc) :=
  fun w => (seq (length (w_heap w)) (length l), set_w_heap (w_heap w ++ l) w).

#[export] Instance DBStore : ApprovalStore DB := {|
  as_Create l := let! a := gets (deref l) in on_store (DBStore_Create a);
  as_GetByID id :=
    let? a := on_store (DBStore_GetByID id) in
    let! l := new_approval a in ret (Ok l);
  as_Update l := let! a := gets (deref l) in on_store (DBStore_Update a);
  as_GetPendingBySession sid :=
    let? l := on_store (DBStore_GetPendingBySession sid) in
    let! ls := alloc_all l in ret (Ok ls);
  as_Delete id := on_store (DBStore_Delete id)
|}.

(** ** MemoryStore: a map of pointers *)

Abbreviation MemoryMap := (gmap string loc) (only parsing).

Definition MemoryStore_Create (l : loc) : M (World MemoryMap) (result unit) :=
  let! a := gets (deref l) in
  modify (fun w => set_w_store (<[a_ID a := l]> (w_store w)) w);;; ret (Ok tt).

Definition MemoryStore_GetByID (id : string) : M (World MemoryMap) (result loc) :=
  let! m := gets w_store in
  match m !! id with
  | None => ret (Err err_approval_not_found)
  | Some l => ret (Ok l)
  end.

Definition MemoryStore_Update (l : loc) : M (World MemoryMap) (result unit) :=
  let! a := gets (deref l) in
  let! m := gets w_store in
  match m !! a_ID a with
  | None => ret (Err err_approval_not_found)
  | Some _ => modify (fun w => set_w_store (<[a_ID a := l]> (w_store w)) w);;; ret (Ok tt)
  end.

Definition MemoryStore_GetPendingBySession (sessionID : string)
    : M (World MemoryMap) (result (list loc)) :=
  let! m := gets w_store in
  let! w := get in
  ret (Ok (filter (fun l => a_SessionID (deref l w) = sessionID /\
                            a_State (deref l w) = ApprovalStatePending)
             (map_to_list m).*2)).

Definition MemoryStore_Delete (id : string) : M (World MemoryMap) (result unit) :=
  modify (fun w => set_w_store (delete id (w_store w)) w);;; ret (Ok tt).

(** Accessors of tests: any pointer under any id. *)
Definition MemoryStore_SetApproval (id : string) (l : loc) : M (World MemoryMap) unit :=
  modify (fun w => set_w_store (<[id := l]> (w_store w)) w).
Definition MemoryStore_GetApproval (id : string) : M (World MemoryMap) (option loc) :=
  gets (fun w => w_store w !! id).
Definition MemoryStore_GetAll : M (World MemoryMap) (list loc) := gets (fun w => (map_to_list (w_store w)).*2).

#[export] Instance MemoryStore : ApprovalStore MemoryMap := {|
  as_Create := MemoryStore_Create;
  as_GetByID := MemoryStore_GetByID;
  as_Update := MemoryStore_Update;
  as_GetPendingBySession := MemoryStore_GetPendingBySession;
  as_Delete := MemoryStore_Delete
|}.

(** ** The laws hold *)

#[export] Instance nil_store_laws : ApprovalStoreLaws unit.
Proof.
  refine {| as_ok := fun _ => True |}; try done.
Defined.

Lemma wp_on_store {A} (m : M Store A) w Q :
  wp (on_store m) w Q <->
  wp m (mkStore (w_store w) (w_env w))
    (fun a s' => Q a (mkWorld (w_heap w) (st_db s') (st_env s'))).
Proof. unfold on_store. by rewrite wp_zoom. Qed.

Lemma later_scanApprovals rows : later (scanApprovals rows).
Proof. unfold scanApprovals. auto with later. Qed.
Lemma later_DBStore_Create a : later (DBStore_Create a).
Proof. unfold DBStore_Create. auto with later. Qed.
Lemma later_DBStore_GetByID id : later (DBStore_GetByID id).
Proof. unfold DBStore_GetByID. auto with later. Qed.
Lemma later_DBStore_Update a : later (DBStore_Update a).
Proof. unfold DBStore_Update. auto with later. Qed.
Lemma later_DBStore_Delete id : later (DBStore_Delete id).
Proof. unfold DBStore_Delete. auto with later. Qed.

Lemma on_store_after {A} (m : M Store A) w : later m ->
  world_after (fun _ => True) w (on_store m w).2.
Proof.
  intros Hm. unfold on_store, zoom. specialize (Hm (mkStore (w_store w) (w_env w))).
  destruct (m _) as [a s']. by split.
Qed.

#[export] Instance DBStore_laws : ApprovalStoreLaws DB.
Proof.
  refine {| as_ok := fun _ : World DB => True |}.
  - done.
  - intros l w _ _. apply on_store_after, later_DBStore_Create.
  - intros l w _ _. apply on_store_after, later_DBStore_Update.
  - intros id w _. cbn. unfold try_bind, bind.
    pose proof (on_store_after (DBStore_GetByID id) w (later_DBStore_GetByID id)) as [H1 H2 _].
    destruct (on_store (DBStore_GetByID id) w) as [[a|e] w']; cbn in *.
    + split; [split; cbn; [by apply prefix_app_r|done|done]|].
      intros l [= <-]. rewrite length_app. cbn. lia.
    + by split.
  - intros id w _. apply on_store_after, later_DBStore_Delete.
Defined.

(** The pointers a MemoryStore holds are allocated. *)
Definition memory_ok (w : World MemoryMap) : Prop :=
  map_Forall (fun _ l => (l < length (w_heap w))%nat) (w_store w).

#[export] Instance MemoryStore_laws : ApprovalStoreLaws MemoryMap.
Proof.
  refine {| as_ok := memory_ok |}.
  - intros w h e Hok Hle. eapply map_Forall_impl; [exact Hok|]. cbn. lia.
  - intros l w Hok Hl. split; [done|reflexivity|]. apply map_Forall_insert_2; [done|exact Hok].
  - intros l w Hok Hl. unfold as_Update, MemoryStore, MemoryStore_Update, bind, gets.
    destruct (w_store w !! a_ID (deref l w)); [|by split].
    split; [done|reflexivity|]. apply map_Forall_insert_2; [done|exact Hok].
  - intros id w Hok. unfold as_GetByID, MemoryStore, MemoryStore_GetByID, bind, gets.
    destruct (w_store w !! id) as [l|] eqn:E; cbn; (split; [by split|]); [|done].
    intros l' [= <-]. by apply (Hok id).
  - intros id w Hok. split; [done|reflexivity|]. by apply map_Forall_delete.
Defined.

(** ** Properties *)

(** The stored form of an approval loses nothing that a reader gets back:
    an approval that [Create] stored, whose payload text is ASCII, is read by
    [GetByID] as it was, without the decision (a new approval has none). *)
Theorem DBStore_Create_GetByID a s s1 r s2 :
  is_ascii (a_StructuredPayload a) ->
  DBStore_Create a s = (Ok tt, s1) ->
  DBStore_GetByID (a_ID a) s1 = (Ok r, s2) ->
  r = mkApproval (a_ID a) (a_SessionID a) (a_Category a) (a_State a) (a_ActionKind a)
        (a_HumanReadableContext a) (a_StructuredPayload a) (a_CreatedAt a) (a_ExpiresAt a)
        None None.
Proof.
  intros Ha E1 E2. revert E2. wp_start E1. unfold DBStore_Create.
  apply wp_exec; [done|]. intros r1 d env1 _. unfold insert_approval.
  case_decide; [by intros [= <- <-]|]. case_match; [by intros [= <- <-]|].
  intros [= <- <-] _ E2. wp_start E2. unfold DBStore_GetByID. wp_simp.
  apply wp_exec_query; [done|]. cbn -[scan_payload json_quote]. intros env2 _.
  rewrite lookup_insert_eq. cbn -[scan_payload json_quote].
  assert (Hp : scan_payload (json_quote (a_StructuredPayload a)) = Ok (a_StructuredPayload a)).
  { unfold scan_payload. rewrite decide_False, json_unquote_quote; [done|done|].
    unfold json_quote. cbn. by intros Hq. }
  rewrite Hp. by intros [= <-].
Qed.

(** What [Update] persists, and what it does not.  After a successful
    update the row holds the state, decision time and reason it was given; the
    expiry time, like every other column, keeps its old value. *)
Theorem DBStore_Update_fields a s s1 row :
  DBStore_Update a s = (Ok tt, s1) ->
  approvals (st_db s) !! a_ID a = Some row ->
  exists row', approvals (st_db s1) !! a_ID a = Some row' /\
    ar_state row' = a_State a /\ ar_decided_at row' = a_DecidedAt a /\
    ar_decision_reason row' = a_DecisionReason a /\
    ar_expires_at row' = ar_expires_at row /\
    ar_structured_payload row' = ar_structured_payload row /\
    ar_created_at row' = ar_created_at row /\ ar_session_id row' = ar_session_id row.
Proof.
  intros E Hrow. wp_start E. unfold DBStore_Update. wp_simp.
  apply wp_update_key; [done|done|..]; cbn.
  - intros r env1 _ Hr _ _. rewrite Hr in Hrow. injection Hrow as ->.
    cbn. eexists. split; [apply lookup_insert_eq|by repeat split].
  - intros env1 _ Hr _. by specialize (Hr row Hrow).
Qed.

(** An approval for the examples. *)
Definition demo_approval : Approval :=
  mkApproval "apr-1" "ses-1" "exec" ApprovalStatePending "shell" "run make"
    (json_text (JObj [("cmd", JStr "make")])) 100 400 None None.
Definition demo_approval_stored : Store := (DBStore_Create demo_approval demo_store).2.

Lemma DBStore_Create_GetByID_witness :
  demo_approval = mkApproval "apr-1" "ses-1" "exec" ApprovalStatePending "shell" "run make"
    (json_text (JObj [("cmd", JStr "make")])) 100 400 None None.
Proof.
  apply (DBStore_Create_GetByID demo_approval demo_store demo_approval_stored demo_approval
           (DBStore_GetByID "apr-1" demo_approval_stored).2).
  - apply (bool_decide_unpack _). vm_compute. exact I.
  - apply run_answer. vm_compute. reflexivity.
  - apply run_answer. vm_compute. reflexivity.
Defined.

Definition demo_denied : Approval :=
  set_a_reason "no" (set_a_ExpiresAt 9000 (set_a_decided ApprovalStateDenied 200 demo_approval)).
Definition demo_approval_updated : Store := (DBStore_Update demo_denied demo_approval_stored).2.

Lemma DBStore_Update_fields_witness :
  exists row', approvals (st_db demo_approval_updated) !! "apr-1" = Some row' /\
    ar_state row' = ApprovalStateDenied /\ ar_decided_at row' = Some 200 /\
    ar_decision_reason row' = Some "no" /\ ar_expires_at row' = 400 /\
    ar_structured_payload row' = json_quote (a_StructuredPayload demo_approval) /\
    ar_created_at row' = 100 /\ ar_session_id row' = "ses-1".
Proof.
  apply (DBStore_Update_fields demo_denied demo_approval_stored demo_approval_updated
           (approval_row demo_approval)).
  - apply run_answer. vm_compute. reflexivity.
  - vm_compute. reflexivity.
Defined.
