(* ===== verification/Approval.v ===== *)
(** * The approval bridge (src/internal/approval/approval.go)

    Approval objects live in the heap of [ApprovalStore]; the bridge keeps
    pointers to them by id.  Each operation is the sequence of its critical
    sections (the code's locked regions and its store calls); [Decide]'s
    sections are also the steps of concurrent deciders. *)

From S2P Require Import Prelude Env Json Domain Schema SessionRepo ApprovalStore.

Record Decision := mkDecision {
  de_Approved : bool;
  de_Reason : string;
  de_ActorID : string
}.

Record DecisionResult := mkDecisionResult {
  dres_ApprovalID : string;
  dres_SessionID : string;
  dres_Decision : Decision;
  dres_Error : option error;
  dres_AlreadyFinal : bool;
  dres_FinalState : string
}.

Record Request := mkRequest {
  rq_ID : string;
  rq_SessionID : string;
  rq_Category : string;
  rq_ActionKind : string;
  rq_HumanReadableContext : string;
  rq_StructuredPayload : option payload
}.

Record ApprovalStats := mkApprovalStats {
  st_Pending : Z;
  st_Approved : Z;
  st_Denied : Z;
  st_Expired : Z;
  st_Cancelled : Z;
  st_Total : Z
}.

(** [subscribers] maps a session to its channel's buffered pointers. *)
Record ApprovalBridge (T : Type) := mkApprovalBridge {
  ab_world : World T;
  ab_approvals : gmap string loc;
  ab_decisionCh : list DecisionResult;
  ab_subscribers : gmap string (list loc);
  ab_defaultExpiry : Z
}.
Arguments mkApprovalBridge {T} _ _ _ _ _.
Arguments ab_world {T} _.
Arguments ab_approvals {T} _.
Arguments ab_decisionCh {T} _.
Arguments ab_subscribers {T} _.
Arguments ab_defaultExpiry {T} _.

Definition decisionCh_cap : nat := 100.
Definition subscriber_cap : nat := 10.

Section Bridge.
Context {T : Type} `{ApprovalStore T}.

Definition set_ab_world (w : World T) (b : ApprovalBridge T) : ApprovalBridge T :=
  mkApprovalBridge w (ab_approvals b) (ab_decisionCh b) (ab_subscribers b) (ab_defaultExpiry b).
Definition set_ab_approvals (m : gmap string loc) (b : ApprovalBridge T) : ApprovalBridge T :=
  mkApprovalBridge (ab_world b) m (ab_decisionCh b) (ab_subscribers b) (ab_defaultExpiry b).
Definition set_ab_decisionCh (l : list DecisionResult) (b : ApprovalBridge T) : ApprovalBridge T :=
  mkApprovalBridge (ab_world b) (ab_approvals b) l (ab_subscribers b) (ab_defaultExpiry b).
Definition set_ab_subscribers (m : gmap string (list loc)) (b : ApprovalBridge T)
    : ApprovalBridge T :=
  mkApprovalBridge (ab_world b) (ab_approvals b) (ab_decisionCh b) m (ab_defaultExpiry b).

Definition NewApprovalBridge (w : World T) : ApprovalBridge T :=
  mkApprovalBridge w ∅ [] ∅ (5 * Minute).

Definition on_world {A} (m : M (World T) A) : M (ApprovalBridge T) A :=
  zoom ab_world set_ab_world m.

Definition ab_deref (l : loc) (b : ApprovalBridge T) : Approval := deref l (ab_world b).

(** A non-blocking send on a buffered channel. *)
Definition try_send {A} (cap : nat) (x : A) (ch : list A) : list A :=
  if decide (length ch < cap)%nat then ch ++ [x] else ch.

Definition ApprovalBridge_notifySubscribers (sessionID : string) (l : loc)
    : M (ApprovalBridge T) unit :=
  modify (fun b =>
    match ab_subscribers b !! sessionID with
    | Some ch => set_ab_subscribers (<[sessionID := try_send subscriber_cap l ch]>
                                       (ab_subscribers b)) b
    | None => b
    end).

Definition ApprovalBridge_Request (req : Request) : M (ApprovalBridge T) (result loc) :=
  let! now := on_world world_Now in
  let! b := get in
  let approval :=
    mkApproval (rq_ID req) (rq_SessionID req) (rq_Category req) ApprovalStatePending
      (rq_ActionKind req) (rq_HumanReadableContext req)
      (match rq_StructuredPayload req with
       | Some p => json_text (JObj p)
       | None => ""
       end) now (now + ab_defaultExpiry b) None None in
  let! l := on_world (new_approval approval) in
  modify (fun b => set_ab_approvals (<[rq_ID req := l]> (ab_approvals b)) b);;;
  let? _ := on_world (as_Create l) orelse wrap "persisting approval" in
  ApprovalBridge_notifySubscribers (rq_SessionID req) l;;;
  ret (Ok l).

(** ** Decide, section by section *)

Definition decide_result (id : string) (d : Decision) : DecisionResult :=
  mkDecisionResult id "" d None false "".
Definition set_dres_SessionID (sid : string) (r : DecisionResult) : DecisionResult :=
  mkDecisionResult (dres_ApprovalID r) sid (dres_Decision r) (dres_Error r)
    (dres_AlreadyFinal r) (dres_FinalState r).
Definition set_dres_Error (e : error) (r : DecisionResult) : DecisionResult :=
  mkDecisionResult (dres_ApprovalID r) (dres_SessionID r) (dres_Decision r) (Some e)
    (dres_AlreadyFinal r) (dres_FinalState r).

(** The first locked region: the lookup in memory. *)
Definition Decide_lookup (id : string) : M (ApprovalBridge T) (option loc) :=
  gets (fun b => ab_approvals b !! id).

(** Outside the lock: the lookup in the store; any error is "not found". *)
Definition Decide_load (id : string) : M (ApprovalBridge T) (option loc) :=
  let! r := on_world (as_GetByID id) in
  ret (match r with Ok l => Some l | Err _ => None end).

(** What the second locked region decides to do. *)
Inductive verdict :=
  | AlreadyFinal (sid state : string)
  | Expired
  | Applied.

(** The second locked region: the pending check and the state write. *)
Definition Decide_apply (id : string) (d : Decision) (l : loc) : M (ApprovalBridge T) verdict :=
  let! approval := gets (ab_deref l) in
  if decide (a_State approval <> ApprovalStatePending)
  then ret (AlreadyFinal (a_SessionID approval) (a_State approval))
  else
    let! now := on_world world_Now in
    if decide (a_ExpiresAt approval < now) then
      on_world (assign l (set_a_decided ApprovalStateExpired now approval));;;
      ret Expired
    else
      let st := if de_Approved d then ApprovalStateApproved else ApprovalStateDenied in
      on_world (assign l (set_a_reason (de_Reason d) (set_a_decided st now approval)));;;
      modify (fun b => set_ab_approvals (<[id := l]> (ab_approvals b)) b);;;
      ret Applied.

(** Outside the lock again: persist, then offer the result to the channel. *)
Definition Decide_finish (id : string) (d : Decision) (l : loc) (v : verdict)
    : M (ApprovalBridge T) DecisionResult :=
  let r := decide_result id d in
  match v with
  | AlreadyFinal sid st =>
      ret (mkDecisionResult id sid d None true st)
  | Expired =>
      let! _ := on_world (as_Update l) in
      let! approval := gets (ab_deref l) in
      ret (set_dres_Error (ErrNew "approval expired")
             (set_dres_SessionID (a_SessionID approval) r))
  | Applied =>
      let! approval := gets (ab_deref l) in
      let r := set_dres_SessionID (a_SessionID approval) r in
      let! u := on_world (as_Update l) in
      match u with
      | Err e => ret (set_dres_Error (wrap "updating approval" e) r)
      | Ok _ =>
          modify (fun b => set_ab_decisionCh (try_send decisionCh_cap r (ab_decisionCh b)) b);;;
          ret r
      end
  end.

(** The error result is [dres_Error]. *)
Definition ApprovalBridge_Decide (approvalID : string) (decision : Decision)
    : M (ApprovalBridge T) DecisionResult :=
  let! found := Decide_lookup approvalID in
  let! found := match found with
                | Some l => ret (Some l)
                | None => Decide_load approvalID
                end in
  match found with
  | None => ret (set_dres_Error err_approval_not_found (decide_result approvalID decision))
  | Some l =>
      let! v := Decide_apply approvalID decision l in
      Decide_finish approvalID decision l v
  end.

(** ** The other operations *)

Definition ApprovalBridge_GetByID (approvalID : string) : M (ApprovalBridge T) (result loc) :=
  let! b := get in
  match ab_approvals b !! approvalID with
  | None => on_world (as_GetByID approvalID)
  | Some l => ret (Ok l)
  end.

Definition ApprovalBridge_GetPendingBySession (sessionID : string)
    : M (ApprovalBridge T) (list loc) :=
  gets (fun b =>
    filter (fun l => a_SessionID (ab_deref l b) = sessionID /\
                     a_State (ab_deref l b) = ApprovalStatePending)
      (map_to_list (ab_approvals b)).*2).

Definition ApprovalBridge_Subscribe (sessionID : string) : M (ApprovalBridge T) unit :=
  modify (fun b => set_ab_subscribers (<[sessionID := []]> (ab_subscribers b)) b).

Definition ApprovalBridge_Unsubscribe (sessionID : string) : M (ApprovalBridge T) unit :=
  modify (fun b =>
    match ab_subscribers b !! sessionID with
    | Some _ => set_ab_subscribers (delete sessionID (ab_subscribers b)) b
    | None => b
    end).

(** One turn of the sweep's loop. *)
Definition expire_one (now : Z) (l : loc) : M (ApprovalBridge T) unit :=
  let! a := gets (ab_deref l) in
  if decide (a_State a = ApprovalStatePending /\ a_ExpiresAt a < now) then
    on_world (assign l (set_a_decided ApprovalStateExpired now a));;;
    let! _ := on_world (as_Update l) in ret tt
  else ret tt.

Definition ApprovalBridge_checkExpiry : M (ApprovalBridge T) unit :=
  let! now := on_world world_Now in
  let! ls := gets (fun b => (map_to_list (ab_approvals b)).*2) in
  for_each ls (expire_one now).

(** A guarded change of a pending approval, under the lock. *)
Definition change_pending (approvalID : string) (change : Approval -> M (ApprovalBridge T) Approval)
    : M (ApprovalBridge T) (result unit) :=
  let! b := get in
  match ab_approvals b !! approvalID with
  | None => ret (Err err_approval_not_found)
  | Some l =>
      let a := ab_deref l b in
      if decide (a_State a <> ApprovalStatePending) then ret (Err (ErrNew "approval not pending"))
      else
        let! a' := change a in
        on_world (assign l a');;;
        on_world (as_Update l)
  end.

Definition ApprovalBridge_Cancel (approvalID : string) : M (ApprovalBridge T) (result unit) :=
  change_pending approvalID (fun a =>
    let! now := on_world world_Now in
    ret (set_a_decided ApprovalStateCancelled now a)).

Definition ApprovalBridge_ExtendExpiry (approvalID : string) (d : Z)
    : M (ApprovalBridge T) (result unit) :=
  change_pending approvalID (fun a => ret (set_a_ExpiresAt (a_ExpiresAt a + d) a)).

Definition count_state (st : string) (l : list Approval) : Z :=
  Z.of_nat (length (filter (fun a => a_State a = st) l)).

Definition ApprovalBridge_Stats : M (ApprovalBridge T) ApprovalStats :=
  gets (fun b =>
    let l := (fun l => ab_deref l b) <$> (map_to_list (ab_approvals b)).*2 in
    mkApprovalStats (count_state ApprovalStatePending l) (count_state ApprovalStateApproved l)
      (count_state ApprovalStateDenied l) (count_state ApprovalStateExpired l)
      (count_state ApprovalStateCancelled l) 0).

End Bridge.

(** ** The invariant: pointers are allocated, decided approvals are final *)

Section Invariant.
Context {T : Type} `{ApprovalStoreLaws T}.
Implicit Types b : ApprovalBridge T.

Definition heap_size b : nat := length (w_heap (ab_world b)).

Record bridge_ok b : Prop := mk_bridge_ok {
  bo_store : as_ok (ab_world b);
  bo_alloc : map_Forall (fun _ l => (l < heap_size b)%nat) (ab_approvals b)
}.

(** How any step of the bridge may change the approval objects: new ones may
    appear, and only pending ones change. *)
Record bridge_after b b' : Prop := mk_bridge_after {
  ba_ok : bridge_ok b';
  ba_size : (heap_size b <= heap_size b')%nat;
  ba_final : forall l, (l < heap_size b)%nat ->
    a_State (ab_deref l b) <> ApprovalStatePending -> ab_deref l b' = ab_deref l b
}.

Lemma bridge_after_refl b : bridge_ok b -> bridge_after b b.
Proof. by split. Qed.

Lemma bridge_after_trans b1 b2 b3 : bridge_after b1 b2 -> bridge_after b2 b3 -> bridge_after b1 b3.
Proof.
  intros [_ Hs1 Hf1] [Hok Hs2 Hf2]. split; [done|lia|].
  intros l Hl Hst. rewrite Hf2; [by apply Hf1|lia|]. by rewrite Hf1.
Qed.

Lemma deref_prefix (w w' : World T) l :
  w_heap w `prefix_of` w_heap w' -> (l < length (w_heap w))%nat -> deref l w' = deref l w.
Proof.
  intros [h Hh] Hl. unfold deref. rewrite Hh. by apply lookup_total_app_l.
Qed.

(** Changing the world only by what a store operation may do. *)
Lemma after_world b w' : bridge_ok b -> world_after as_ok (ab_world b) w' ->
  bridge_after b (set_ab_world w' b) /\
  forall l, (l < heap_size b)%nat -> ab_deref l (set_ab_world w' b) = ab_deref l b.
Proof.
  intros Hok [Hpre He Hok'].
  assert (Hd : forall l, (l < heap_size b)%nat -> ab_deref l (set_ab_world w' b) = ab_deref l b)
    by (intros l Hl; by apply (deref_prefix (ab_world b))).
  assert (Hsz : (heap_size b <= length (w_heap w'))%nat) by (by apply prefix_length).
  split; [|done]. split; [split; [done|]|done|by auto].
  eapply map_Forall_impl; [apply (bo_alloc _ Hok)|]. cbn. unfold heap_size in *. cbn. lia.
Qed.

(** Operations of the store, run by the bridge. *)
Lemma wp_store_op {A} (m : M (World T) A) b (Q : A -> ApprovalBridge T -> Prop) :
  bridge_ok b -> world_after as_ok (ab_world b) (m (ab_world b)).2 ->
  (forall b', bridge_after b b' -> ab_approvals b' = ab_approvals b ->
     ab_subscribers b' = ab_subscribers b -> ab_decisionCh b' = ab_decisionCh b ->
     (forall l, (l < heap_size b)%nat -> ab_deref l b' = ab_deref l b) ->
     Q (m (ab_world b)).1 b') ->
  wp (on_world m) b Q.
Proof.
  intros Hok Hm HQ. unfold on_world. rewrite wp_zoom. unfold wp.
  destruct (after_world b _ Hok Hm) as [Ha Hd]. by apply HQ.
Qed.

Lemma wp_Now b (Q : Z -> ApprovalBridge T -> Prop) :
  bridge_ok b ->
  (forall b', bridge_after b b' -> ab_approvals b' = ab_approvals b ->
     ab_subscribers b' = ab_subscribers b -> ab_decisionCh b' = ab_decisionCh b ->
     ab_defaultExpiry b' = ab_defaultExpiry b ->
     (forall l, ab_deref l b' = ab_deref l b) -> heap_size b' = heap_size b ->
     Q (world_Now (ab_world b)).1 b') ->
  wp (on_world world_Now) b Q.
Proof.
  intros Hok HQ. unfold on_world. rewrite wp_zoom. unfold wp.
  apply HQ; try done. split; [split|done|done]; cbn.
  - by apply as_ok_heap; [apply (bo_store _ Hok)|].
  - exact (bo_alloc _ Hok).
Qed.

(** Writing a pending approval. *)
Lemma wp_assign l a b (Q : unit -> ApprovalBridge T -> Prop) :
  bridge_ok b -> (l < heap_size b)%nat -> a_State (ab_deref l b) = ApprovalStatePending ->
  (forall b', bridge_after b b' -> ab_approvals b' = ab_approvals b ->
     ab_subscribers b' = ab_subscribers b -> ab_decisionCh b' = ab_decisionCh b ->
     ab_deref l b' = a -> (forall k, k <> l -> ab_deref k b' = ab_deref k b) ->
     heap_size b' = heap_size b ->
     Q tt b') ->
  wp (on_world (assign l a)) b Q.
Proof.
  intros Hok Hl Hp HQ. unfold on_world. rewrite wp_zoom. unfold wp. cbn.
  assert (Hne : forall k, k <> l ->
    ab_deref k (set_ab_world (set_w_heap (<[l:=a]> (w_heap (ab_world b))) (ab_world b)) b) =
    ab_deref k b).
  { intros k Hk. by apply list_lookup_total_insert_ne. }
  assert (Hsz : heap_size (set_ab_world (set_w_heap (<[l:=a]> (w_heap (ab_world b)))
                  (ab_world b)) b) = heap_size b) by apply length_insert.
  apply HQ; try done.
  - split; [split|lia|].
    + apply as_ok_heap; [apply (bo_store _ Hok)|]. by rewrite length_insert.
    + rewrite Hsz. exact (bo_alloc _ Hok).
    + intros k Hk Hst. apply Hne. by intros ->.
  - by apply list_lookup_total_insert_eq.
Qed.

Lemma after_approvals m b : bridge_ok b ->
  map_Forall (fun _ l => (l < heap_size b)%nat) m ->
  bridge_after b (set_ab_approvals m b).
Proof. intros Hok Hm. split; [split; [apply Hok|done]|done|done]. Qed.
End Invariant.

(** ** Specifications of the critical sections *)

Definition swept (now : Z) (a : Approval) : Approval :=
  if decide (a_State a = ApprovalStatePending /\ a_ExpiresAt a < now)
  then set_a_decided ApprovalStateExpired now a else a.

Definition decided (now : Z) (d : Decision) (a : Approval) : Approval :=
  set_a_reason (de_Reason d)
    (set_a_decided (if de_Approved d then ApprovalStateApproved else ApprovalStateDenied) now a).

Lemma swept_final now a : a_State a <> ApprovalStatePending -> swept now a = a.
Proof. intros Ha. unfold swept. rewrite decide_False; [done|]. by intros []. Qed.

Lemma swept_idem now a : swept now (swept now a) = swept now a.
Proof. unfold swept at 2 3. case_decide as Ha; [by apply swept_final|]. by apply decide_False. Qed.

Section Sections.
Context {T : Type} `{ApprovalStoreLaws T}.
Implicit Types b : ApprovalBridge T.

(** The clock reading the next operation gets. *)
Definition now_of b : Z := (world_Now (ab_world b)).1.

Lemma wp_expire_one now l b (Q : unit -> ApprovalBridge T -> Prop) :
  bridge_ok b -> (l < heap_size b)%nat ->
  (forall b', bridge_after b b' -> ab_approvals b' = ab_approvals b ->
     ab_deref l b' = swept now (ab_deref l b) ->
     (forall k, k <> l -> (k < heap_size b)%nat -> ab_deref k b' = ab_deref k b) -> Q tt b') ->
  wp (expire_one now l) b Q.
Proof.
  intros Hok Hl HQ. unfold expire_one, swept in *. wp_simp.
  case_decide as Hc; wp_simp; [|by apply HQ; [apply bridge_after_refl|..]].
  apply wp_assign; [done|done|by apply Hc|].
  intros b1 Ha1 Hm1 _ _ Hl1 Hk1 Hs1. wp_simp.
  apply wp_store_op; [apply Ha1|apply as_Update_law; [apply Ha1|unfold heap_size in *; lia]|].
  intros b2 Ha2 Hm2 _ _ Hd2. wp_simp. apply HQ.
  - by eapply bridge_after_trans.
  - congruence.
  - rewrite Hd2 by lia. done.
  - intros k Hk Hlt. rewrite Hd2 by lia. by apply Hk1.
Qed.

Lemma wp_checkExpiry b (Q : unit -> ApprovalBridge T -> Prop) :
  bridge_ok b ->
  (forall b', bridge_after b b' -> ab_approvals b' = ab_approvals b ->
     (forall l, (l < heap_size b)%nat -> ab_deref l b' =
        if decide (l ∈ (map_to_list (ab_approvals b)).*2)
        then swept (now_of b) (ab_deref l b) else ab_deref l b) -> Q tt b') ->
  wp ApprovalBridge_checkExpiry b Q.
Proof.
  intros Hok HQ. unfold ApprovalBridge_checkExpiry. wp_simp.
  apply wp_Now; [done|]. intros b1 Ha1 Hm1 _ _ _ Hd1 Hs1. wp_simp. rewrite Hm1.
  fold (now_of b). set (now := now_of b) in *. set (ls := (map_to_list (ab_approvals b)).*2) in *.
  assert (Hls : Forall (fun l => (l < heap_size b)%nat) ls).
  { apply Forall_forall. intros l ([id k] & -> & Hin)%list_elem_of_fmap.
    apply elem_of_map_to_list in Hin. by apply (bo_alloc _ Hok id). }
  apply (wp_for_each _ _ (fun rest b' =>
    bridge_after b b' /\ ab_approvals b' = ab_approvals b /\
    exists done_, ls = done_ ++ rest /\ forall l, (l < heap_size b)%nat -> ab_deref l b' =
      if decide (l ∈ done_) then swept now (ab_deref l b) else ab_deref l b)).
  - split; [done|]. split; [done|]. exists []. split; [done|]. intros l Hl.
    rewrite decide_False by apply not_elem_of_nil. done.
  - intros l rest b' (Ha & Hm & dn & Heq & Hd).
    assert (Hl : (l < heap_size b)%nat).
    { rewrite Forall_forall in Hls. apply Hls. rewrite Heq. apply elem_of_app. right. left. }
    apply wp_expire_one; [apply Ha|by eapply Nat.lt_le_trans, (ba_size _ _ Ha)|].
    intros b2 Ha2 Hm2 Hl2 Hk2. split; [by eapply bridge_after_trans|]. split; [congruence|].
    exists (dn ++ [l]). split; [by rewrite <- (assoc_L (++))|]. intros k Hk.
    destruct (decide (k = l)) as [->|Hne].
    + rewrite Hl2, Hd by done. rewrite (decide_True (P := l ∈ dn ++ [l]))
        by (apply elem_of_app; right; by left).
      case_decide; [apply swept_idem|done].
    + rewrite Hk2, Hd by (done || eapply Nat.lt_le_trans, (ba_size _ _ Ha); done).
      assert (Hin : k ∈ dn ++ [l] <-> k ∈ dn)
        by (rewrite elem_of_app, list_elem_of_singleton; naive_solver).
      by rewrite (decide_ext _ _ _ _ Hin).
  - intros b' (Ha & Hm & dn & Heq & Hd). apply HQ; [done|done|].
    rewrite app_nil_r in Heq. by rewrite Heq.
Qed.

Lemma wp_Decide_apply id d l b (Q : verdict -> ApprovalBridge T -> Prop) :
  bridge_ok b -> (l < heap_size b)%nat ->
  (a_State (ab_deref l b) <> ApprovalStatePending ->
     Q (AlreadyFinal (a_SessionID (ab_deref l b)) (a_State (ab_deref l b))) b) ->
  (forall b', bridge_after b b' -> ab_approvals b' = ab_approvals b ->
     a_State (ab_deref l b) = ApprovalStatePending ->
     a_ExpiresAt (ab_deref l b) < now_of b ->
     ab_deref l b' = set_a_decided ApprovalStateExpired (now_of b) (ab_deref l b) ->
     Q Expired b') ->
  (forall b', bridge_after b b' -> ab_approvals b' = <[id := l]> (ab_approvals b) ->
     ab_decisionCh b' = ab_decisionCh b ->
     a_State (ab_deref l b) = ApprovalStatePending ->
     ~ a_ExpiresAt (ab_deref l b) < now_of b ->
     ab_deref l b' = decided (now_of b) d (ab_deref l b) ->
     Q Applied b') ->
  wp (Decide_apply id d l) b Q.
Proof.
  intros Hok Hl HF HE HA. unfold Decide_apply, decided in *. wp_simp.
  case_decide as Hp; [wp_simp; by apply HF|]. wp_simp.
  apply wp_Now; [done|]. intros b1 Ha1 Hm1 Hsub1 Hch1 _ Hd1 Hs1. fold (now_of b).
  case_decide as Hx; wp_simp; (apply wp_assign; [apply Ha1|lia|by rewrite Hd1|]);
    intros b2 Ha2 Hm2 _ Hch2 Hl2 _ Hs2; wp_simp.
  - apply HE; try done; [by eapply bridge_after_trans|congruence].
  - apply HA; try done; cbn; [|congruence..].
    eapply bridge_after_trans; [exact Ha1|]. eapply bridge_after_trans; [exact Ha2|].
    apply after_approvals; [apply Ha2|]. apply map_Forall_insert_2; [lia|].
    rewrite Hm2, Hm1, Hs2, Hs1. apply (bo_alloc _ Hok).
Qed.

Lemma wp_Decide_finish id d l v b (Q : DecisionResult -> ApprovalBridge T -> Prop) :
  bridge_ok b -> (l < heap_size b)%nat ->
  (forall sid st, v = AlreadyFinal sid st -> Q (mkDecisionResult id sid d None true st) b) ->
  (forall b', bridge_after b b' -> ab_approvals b' = ab_approvals b ->
     v = Expired -> ab_deref l b' = ab_deref l b ->
     Q (mkDecisionResult id (a_SessionID (ab_deref l b)) d (Some (ErrNew "approval expired"))
          false "") b') ->
  (forall b' e, bridge_after b b' -> ab_approvals b' = ab_approvals b ->
     v = Applied -> ab_deref l b' = ab_deref l b ->
     (as_Update l (ab_world b)).1 = Err e -> ab_decisionCh b' = ab_decisionCh b ->
     Q (mkDecisionResult id (a_SessionID (ab_deref l b)) d (Some (wrap "updating approval" e))
          false "") b') ->
  (forall b', bridge_after b b' -> ab_approvals b' = ab_approvals b ->
     v = Applied -> ab_deref l b' = ab_deref l b ->
     let r := mkDecisionResult id (a_SessionID (ab_deref l b)) d None false "" in
     ab_decisionCh b' = try_send decisionCh_cap r (ab_decisionCh b) -> Q r b') ->
  wp (Decide_finish id d l v) b Q.
Proof.
  intros Hok Hl HF HX HE HA. unfold Decide_finish.
  assert (Hu : world_after as_ok (ab_world b) (as_Update l (ab_world b)).2)
    by (apply as_Update_law; [apply Hok|done]).
  destruct v as [sid st| |]; wp_simp.
  - by apply HF.
  - apply wp_store_op; [done|done|]. intros b1 Ha1 Hm1 _ _ Hd1. wp_simp.
    rewrite Hd1 by done. apply HX; [done..|by apply Hd1].
  - apply wp_store_op; [done|done|]. intros b1 Ha1 Hm1 _ Hch1 Hd1.
    destruct (as_Update l (ab_world b)).1 as [[]|e] eqn:Hr; wp_simp.
    + apply HA; [|done..|by apply Hd1|cbn; by rewrite Hch1].
      destruct Ha1 as [[? ?] ? ?]. by repeat split.
    + apply HE; [done..|by apply Hd1|done|done].
Qed.

(** A lookup, in memory or in the store, gives an allocated pointer. *)
Lemma wp_Decide_load id b (Q : option loc -> ApprovalBridge T -> Prop) :
  bridge_ok b ->
  (forall b' r, bridge_after b b' -> ab_approvals b' = ab_approvals b ->
     (forall l, r = Some l -> (l < heap_size b')%nat) -> Q r b') ->
  wp (Decide_load id) b Q.
Proof.
  intros Hok HQ. unfold Decide_load. wp_simp. unfold on_world. rewrite wp_zoom. unfold wp.
  destruct (as_GetByID_law id (ab_world b)) as [Hw Hl]; [apply Hok|]. wp_simp. unfold wp, ret. cbn.
  destruct (after_world b _ Hok Hw) as [Ha _]. apply HQ; [done|done|].
  intros l. destruct (as_GetByID id (ab_world b)).1; [|done]. intros [= ->]. by apply Hl.
Qed.
End Sections.

(** ** Specifications of the operations *)

(** One call on the bridge. *)
Inductive bridge_op :=
  | OpRequest (req : Request)
  | OpDecide (id : string) (d : Decision)
  | OpGetByID (id : string)
  | OpSubscribe (sid : string)
  | OpUnsubscribe (sid : string)
  | OpCheckExpiry
  | OpCancel (id : string)
  | OpExtendExpiry (id : string) (d : Z).

Definition run_bridge_op {T} `{ApprovalStore T} (op : bridge_op) : M (ApprovalBridge T) unit :=
  match op with
  | OpRequest req => let! _ := ApprovalBridge_Request req in ret tt
  | OpDecide id d => let! _ := ApprovalBridge_Decide id d in ret tt
  | OpGetByID id => let! _ := ApprovalBridge_GetByID id in ret tt
  | OpSubscribe sid => ApprovalBridge_Subscribe sid
  | OpUnsubscribe sid => ApprovalBridge_Unsubscribe sid
  | OpCheckExpiry => ApprovalBridge_checkExpiry
  | OpCancel id => let! _ := ApprovalBridge_Cancel id in ret tt
  | OpExtendExpiry id d => let! _ := ApprovalBridge_ExtendExpiry id d in ret tt
  end.

(** The approval a request creates. *)
Definition requested (now expiry : Z) (req : Request) : Approval :=
  mkApproval (rq_ID req) (rq_SessionID req) (rq_Category req) ApprovalStatePending
    (rq_ActionKind req) (rq_HumanReadableContext req)
    (match rq_StructuredPayload req with Some p => json_text (JObj p) | None => "" end)
    now (now + expiry) None None.

Section Operations.
Context {T : Type} `{ApprovalStoreLaws T}.
Implicit Types b : ApprovalBridge T.

Lemma after_subscribers m b : bridge_ok b -> bridge_after b (set_ab_subscribers m b).
Proof. intros Hok. split; [split; apply Hok|done|done]. Qed.

Lemma wp_new_approval a b (Q : loc -> ApprovalBridge T -> Prop) :
  bridge_ok b ->
  (forall b', bridge_after b b' -> ab_approvals b' = ab_approvals b ->
     ab_subscribers b' = ab_subscribers b ->
     heap_size b' = S (heap_size b) -> ab_deref (heap_size b) b' = a ->
     (forall l, (l < heap_size b)%nat -> ab_deref l b' = ab_deref l b) ->
     Q (heap_size b) b') ->
  wp (on_world (new_approval a)) b Q.
Proof.
  intros Hok HQ. unfold on_world. rewrite wp_zoom. unfold wp. cbn.
  assert (Hsz : length (w_heap (ab_world b) ++ [a]) = S (heap_size b))
    by (rewrite length_app; cbn; unfold heap_size; lia).
  assert (Hd : forall l, (l < heap_size b)%nat ->
    ab_deref l (set_ab_world (set_w_heap (w_heap (ab_world b) ++ [a]) (ab_world b)) b) =
    ab_deref l b) by (intros l Hl; by apply lookup_total_app_l).
  apply HQ; try done.
  - split; [split| |by auto].
    + apply as_ok_heap; [apply (bo_store _ Hok)|]. rewrite Hsz. unfold heap_size. lia.
    + eapply map_Forall_impl; [apply (bo_alloc _ Hok)|]. unfold heap_size. cbn.
      intros _ l. rewrite length_app. lia.
    + unfold heap_size. cbn. rewrite length_app. lia.
  - unfold ab_deref, deref. cbn. apply list_lookup_total_middle. done.
Qed.

Lemma wp_Request req b (Q : result loc -> ApprovalBridge T -> Prop) :
  bridge_ok b ->
  (forall b' r, bridge_after b b' ->
     ab_approvals b' = <[rq_ID req := heap_size b]> (ab_approvals b) ->
     ab_deref (heap_size b) b' = requested (now_of b) (ab_defaultExpiry b) req ->
     (forall l, r = Ok l -> l = heap_size b) ->
     Q r b') ->
  wp (ApprovalBridge_Request req) b Q.
Proof.
  intros Hok HQ. unfold ApprovalBridge_Request. wp_simp.
  apply wp_Now; [done|]. intros b1 Ha1 Hm1 Hsub1 _ Hexp Hd1 Hs1. fold (now_of b). wp_simp.
  fold (requested (now_of b) (ab_defaultExpiry b1) req). rewrite Hexp.
  apply wp_new_approval; [apply Ha1|]. intros b2 Ha2 Hm2 Hsub2 Hs2 Hl2 _. wp_simp.
  rewrite Hs1 in *. rewrite Hm2, Hm1.
  assert (Ha3 : bridge_after b2 (set_ab_approvals (<[rq_ID req:=heap_size b]>
            (ab_approvals b)) b2)).
  { apply after_approvals; [apply Ha2|]. apply map_Forall_insert_2; [lia|].
    eapply map_Forall_impl; [apply (bo_alloc _ Hok)|]. cbn. lia. }
  assert (Ha : bridge_after b (set_ab_approvals (<[rq_ID req:=heap_size b]>
            (ab_approvals b)) b2))
    by (eapply bridge_after_trans; [exact Ha1|]; by eapply bridge_after_trans).
  set (b3 := set_ab_approvals _ b2) in *.
  apply wp_store_op; [apply Ha|apply as_Create_law; [apply Ha|]|].
  { change (heap_size b < heap_size b2)%nat. lia. }
  intros b4 Ha4 Hm4 _ _ Hd4.
  assert (Hnew : ab_deref (heap_size b) b4 = requested (now_of b) (ab_defaultExpiry b) req).
  { rewrite Hd4; [done|]. change (heap_size b < heap_size b2)%nat. lia. }
  destruct (as_Create _ _).1 as [[]|e]; wp_simp.
  - unfold ApprovalBridge_notifySubscribers. wp_simp. destruct (_ !! _) eqn:E.
    + apply HQ; [|done|done|by intros ? [= <-]].
      eapply bridge_after_trans; [by eapply bridge_after_trans|]. apply after_subscribers, Ha4.
    + apply HQ; [by eapply bridge_after_trans|done|done|by intros ? [= <-]].
  - apply HQ; [by eapply bridge_after_trans|done|done|done].
Qed.

(** [Decide] is its sections in sequence, so it inherits their effects. *)
Lemma wp_Decide_after id d b :
  bridge_ok b -> wp (ApprovalBridge_Decide id d) b (fun _ => bridge_after b).
Proof.
  intros Hok. unfold ApprovalBridge_Decide, Decide_lookup. wp_simp.
  assert (Hrest : forall found b1, bridge_after b b1 ->
    (forall l, found = Some l -> (l < heap_size b1)%nat) ->
    wp (match found with
        | Some l => let! v := Decide_apply id d l in Decide_finish id d l v
        | None => ret (set_dres_Error err_approval_not_found (decide_result id d))
        end) b1 (fun _ => bridge_after b)).
  { intros [l|] b1 Ha1 Hl; wp_simp; [|done]. specialize (Hl l eq_refl).
    assert (Hfin : forall v b2, bridge_after b1 b2 ->
      wp (Decide_finish id d l v) b2 (fun _ => bridge_after b)).
    { intros v b2 Ha2. apply wp_Decide_finish;
        [apply Ha2|eapply Nat.lt_le_trans, (ba_size _ _ Ha2); done|intros; subst..];
        eauto 6 using bridge_after_trans. }
    apply wp_Decide_apply; [apply Ha1|done|..]; intros; apply Hfin; try done.
    apply bridge_after_refl, Ha1. }
  destruct (ab_approvals b !! id) as [l|] eqn:E.
  - rewrite wp_ret. apply (Hrest (Some l)); [by apply bridge_after_refl|]. intros l' [= <-].
    by apply (bo_alloc _ Hok id).
  - apply wp_Decide_load; [done|]. intros b1 r Ha1 _ Hr. by apply Hrest.
Qed.

Lemma wp_change_pending id change b (Q : result unit -> ApprovalBridge T -> Prop) :
  bridge_ok b ->
  (forall a (P : Approval -> ApprovalBridge T -> Prop),
     (forall a' b', bridge_after b b' -> ab_approvals b' = ab_approvals b ->
        heap_size b' = heap_size b -> (forall l, ab_deref l b' = ab_deref l b) -> P a' b') ->
     wp (change a) b P) ->
  (forall r b', bridge_after b b' -> Q r b') ->
  wp (change_pending id change) b Q.
Proof.
  intros Hok Hch HQ. unfold change_pending. wp_simp.
  destruct (ab_approvals b !! id) as [l|] eqn:El; wp_simp; [|by apply HQ, bridge_after_refl].
  pose proof (bo_alloc _ Hok id l El) as Hl. cbn in Hl.
  destruct (decide (a_State (ab_deref l b) <> ApprovalStatePending)) as [|Hp]; wp_simp;
    [by apply HQ, bridge_after_refl|]. apply dec_stable in Hp.
  apply Hch. intros a' b1 Ha1 _ Hs1 Hd1. wp_simp.
  apply wp_assign; [apply Ha1|lia|by rewrite Hd1|]. intros b2 Ha2 _ _ _ _ _ Hs2. wp_simp.
  apply wp_store_op; [apply Ha2|apply as_Update_law; [apply Ha2|]|].
  { change (l < heap_size b2)%nat. lia. }
  intros b3 Ha3 _ _ _ _. apply HQ. eapply bridge_after_trans; [exact Ha1|].
  by eapply bridge_after_trans.
Qed.

Lemma wp_bridge_op op b : bridge_ok b -> wp (run_bridge_op op) b (fun _ => bridge_after b).
Proof.
  intros Hok. destruct op; cbn; wp_simp.
  - apply wp_Request; [done|]. intros. by wp_simp.
  - eapply wp_mono; [by apply wp_Decide_after|]. intros. by wp_simp.
  - unfold ApprovalBridge_GetByID. wp_simp. destruct (ab_approvals b !! id); wp_simp.
    + by apply bridge_after_refl.
    + apply wp_store_op; [done|apply as_GetByID_law, Hok|]. intros. by wp_simp.
  - unfold ApprovalBridge_Subscribe. wp_simp. by apply after_subscribers.
  - unfold ApprovalBridge_Unsubscribe. wp_simp.
    destruct (ab_subscribers b !! sid); [by apply after_subscribers|by apply bridge_after_refl].
  - by apply wp_checkExpiry.
  - apply wp_change_pending; [done| |intros; by wp_simp].
    intros a P HP. wp_simp. apply wp_Now; [done|]. intros. wp_simp. by apply HP.
  - apply wp_change_pending; [done| |intros; by wp_simp].
    intros a P HP. wp_simp. by apply HP.
Qed.

Lemma wp_bridge_ops ops b : bridge_ok b ->
  wp (for_each ops run_bridge_op) b (fun _ => bridge_after b).
Proof.
  intros Hok. apply (wp_for_each _ _ (fun _ => bridge_after b)); [by apply bridge_after_refl| |done].
  intros op rest b' Ha. eapply wp_mono; [apply wp_bridge_op, Ha|]. cbn. intros _ b2 Ha2.
  by eapply bridge_after_trans.
Qed.
End Operations.

(** ** Concurrent deciders

    Goroutines in [Decide] for one id, as threads whose steps are the critical
    sections: a hit in memory checks and writes under one lock; a miss releases
    the lock for the store and takes it again. *)

Inductive decider :=
  | DStart
  | DLoading
  | DFound (l : loc)
  | DVerdict (l : loc) (v : verdict)
  | DDone (v : option verdict) (r : DecisionResult).

Definition decider_step {T} `{ApprovalStore T} (id : string) (d : Decision) (t : decider)
    : M (ApprovalBridge T) decider :=
  match t with
  | DStart =>
      let! found := Decide_lookup id in
      match found with
      | Some l => let! v := Decide_apply id d l in ret (DVerdict l v)
      | None => ret DLoading
      end
  | DLoading =>
      let! found := Decide_load id in
      match found with
      | Some l => ret (DFound l)
      | None => ret (DDone None (set_dres_Error err_approval_not_found (decide_result id d)))
      end
  | DFound l => let! v := Decide_apply id d l in ret (DVerdict l v)
  | DVerdict l v => let! r := Decide_finish id d l v in ret (DDone (Some v) r)
  | DDone v r => ret (DDone v r)
  end.

(** A schedule interleaves the deciders with sweeps of the expiry loop. *)
Inductive sched_item := SDecide (i : nat) | SExpire.

Definition sched_step {T} `{ApprovalStore T} (id : string)
    (sys : ApprovalBridge T * list (Decision * decider)) (x : sched_item)
    : ApprovalBridge T * list (Decision * decider) :=
  let '(b, ts) := sys in
  match x with
  | SExpire => ((ApprovalBridge_checkExpiry b).2, ts)
  | SDecide i =>
      match ts !! i with
      | None => (b, ts)
      | Some (d, t) => let '(t', b') := decider_step id d t b in (b', <[i := (d, t')]> ts)
      end
  end.

Definition run_schedule {T} `{ApprovalStore T} (id : string) (sched : list sched_item)
    (sys : ApprovalBridge T * list (Decision * decider))
    : ApprovalBridge T * list (Decision * decider) :=
  fold_left (sched_step id) sched sys.

(** The decider's decision was the one applied. *)
Definition has_applied (t : decider) : bool :=
  match t with
  | DVerdict _ Applied | DDone (Some Applied) _ => true
  | _ => false
  end.

Lemma decision_not_pending (approved : bool) :
  (if approved then ApprovalStateApproved else ApprovalStateDenied) <> ApprovalStatePending.
Proof. by destruct approved; vm_compute. Qed.

Section Deciders.
Context {T : Type} `{ApprovalStoreLaws T}.
Implicit Types b : ApprovalBridge T.

(** Run the code around the sections of [Decide]. *)
Ltac decide_go := cbn -[Decide_apply Decide_load Decide_finish]; unfold bind, ret, gets.

(** Alone, a decider does what [Decide] does: four steps are enough. *)
Lemma decider_steps_Decide id d b :
  ApprovalBridge_Decide id d b =
  (let! t1 := decider_step id d DStart in
   let! t2 := decider_step id d t1 in
   let! t3 := decider_step id d t2 in
   let! t4 := decider_step id d t3 in
   ret (match t4 with DDone _ r => r | _ => decide_result id d end)) b.
Proof.
  unfold ApprovalBridge_Decide, decider_step, Decide_lookup. decide_go.
  destruct (ab_approvals b !! id) as [l|]; decide_go.
  - destruct (Decide_apply id d l b) as [v b1]; decide_go.
    by destruct (Decide_finish id d l v b1).
  - destruct (Decide_load id b) as [[l|] b1]; decide_go; [|done].
    destruct (Decide_apply id d l b1) as [v b2]; decide_go.
    by destruct (Decide_finish id d l v b2).
Qed.

(** What holds while the approval stays in memory under [l]. *)
Record deciders_ok (id : string) (l : loc) b (ts : list (Decision * decider)) : Prop :=
  mk_deciders_ok {
  do_bridge : bridge_ok b;
  do_memory : ab_approvals b !! id = Some l;
  do_threads : Forall (fun dt => dt.2 = DStart \/ (exists v, dt.2 = DVerdict l v) \/
                                 exists v r, dt.2 = DDone v r) ts;
  do_applied : forall i d t, ts !! i = Some (d, t) -> has_applied t = true ->
    a_State (ab_deref l b) =
      (if de_Approved d then ApprovalStateApproved else ApprovalStateDenied) /\
    a_DecisionReason (ab_deref l b) = Some (de_Reason d) /\
    forall j dj tj, ts !! j = Some (dj, tj) -> has_applied tj = true -> j = i
}.

(** A step that keeps the memory and changes no thread's claim. *)
Lemma deciders_ok_bridge id l b b' ts :
  deciders_ok id l b ts -> bridge_after b b' -> ab_approvals b' = ab_approvals b ->
  deciders_ok id l b' ts.
Proof.
  intros [Hok Hm Ht Ha] Hb Hm'. split; [apply Hb|congruence|done|].
  intros i d t Hi Hap. destruct (Ha i d t Hi Hap) as (Hs & Hr & Hu).
  rewrite (ba_final _ _ Hb); [done|by apply (bo_alloc _ Hok id)|].
  rewrite Hs. apply decision_not_pending.
Qed.

(** Replacing a thread by one that claims the same. *)
Lemma deciders_ok_thread id l b ts i d t t' :
  deciders_ok id l b ts -> ts !! i = Some (d, t) -> has_applied t' = has_applied t ->
  (t' = DStart \/ (exists v, t' = DVerdict l v) \/ exists v r, t' = DDone v r) ->
  deciders_ok id l b (<[i := (d, t')]> ts).
Proof.
  intros [Hok Hm Ht Ha] Hi Hsame Hshape. pose proof (lookup_lt_Some _ _ _ Hi) as Hlt.
  assert (Hinv : forall j dj tj, <[i:=(d, t')]> ts !! j = Some (dj, tj) -> has_applied tj = true ->
    exists tj', ts !! j = Some (dj, tj') /\ has_applied tj' = true).
  { intros j dj tj Hj Hap. destruct (decide (i = j)) as [<-|Hne].
    - rewrite list_lookup_insert_eq in Hj by done. injection Hj as <- <-. eexists.
      split; [exact Hi|congruence].
    - rewrite list_lookup_insert_ne in Hj by done. eauto. }
  split; [done|done|by apply Forall_insert|].
  intros j dj tj Hj Hap. destruct (Hinv _ _ _ Hj Hap) as (tj' & Hj' & Hap').
  destruct (Ha _ _ _ Hj' Hap') as (Hs & Hr & Hu). split; [done|]. split; [done|].
  intros k dk tk Hk Hapk. destruct (Hinv _ _ _ Hk Hapk) as (tk' & Hk' & Hapk'). eauto.
Qed.

(** While the approval is pending nobody has applied a decision. *)
Lemma deciders_pending id l b ts i d t :
  deciders_ok id l b ts -> a_State (ab_deref l b) = ApprovalStatePending ->
  ts !! i = Some (d, t) -> has_applied t = false.
Proof.
  intros Hok Hp Hi. destruct (has_applied t) eqn:E; [|done].
  destruct (do_applied _ _ _ _ Hok _ _ _ Hi E) as (Hs & _). rewrite Hp in Hs.
  by destruct (decision_not_pending (de_Approved d)).
Qed.

(** Applying a decision to the pending approval. *)
Lemma deciders_ok_apply id l b b' ts i d now :
  deciders_ok id l b ts -> ts !! i = Some (d, DStart) -> bridge_after b b' ->
  ab_approvals b' = <[id := l]> (ab_approvals b) ->
  a_State (ab_deref l b) = ApprovalStatePending ->
  ab_deref l b' = decided now d (ab_deref l b) ->
  deciders_ok id l b' (<[i := (d, DVerdict l Applied)]> ts).
Proof.
  intros Hok Hi Hb Hm Hp Hd. pose proof (lookup_lt_Some _ _ _ Hi) as Hlt.
  assert (Honly : forall j dj tj, <[i:=(d, DVerdict l Applied)]> ts !! j = Some (dj, tj) ->
    has_applied tj = true -> j = i /\ dj = d).
  { intros j dj tj Hj Hap. destruct (decide (i = j)) as [<-|Hne].
    - rewrite list_lookup_insert_eq in Hj by done. by injection Hj as <- <-.
    - rewrite list_lookup_insert_ne in Hj by done.
      by rewrite (deciders_pending _ _ _ _ _ _ _ Hok Hp Hj) in Hap. }
  split; [apply Hb|by rewrite Hm, lookup_insert_eq| |].
  - apply Forall_insert; [apply Hok|]. eauto.
  - intros j dj tj Hj Hap. destruct (Honly _ _ _ Hj Hap) as [-> ->]. rewrite Hd.
    split; [done|]. split; [done|]. intros k dk tk Hk Hapk. by destruct (Honly _ _ _ Hk Hapk).
Qed.

Lemma decider_step_ok id l b ts i d t :
  deciders_ok id l b ts -> ts !! i = Some (d, t) ->
  wp (decider_step id d t) b (fun t' b' => deciders_ok id l b' (<[i := (d, t')]> ts)).
Proof.
  intros Hok Hi. pose proof (do_bridge _ _ _ _ Hok) as Hb.
  pose proof (bo_alloc _ Hb id l (do_memory _ _ _ _ Hok)) as Hl. cbn in Hl.
  pose proof (do_threads _ _ _ _ Hok) as Hts. rewrite Forall_lookup in Hts.
  specialize (Hts _ _ Hi). cbn in Hts. destruct Hts as [->|[[v ->]|(v & r & ->)]]; cbn.
  - unfold Decide_lookup. wp_simp. rewrite (do_memory _ _ _ _ Hok). wp_simp.
    apply wp_Decide_apply; [done|done|intros Hs|intros b' Ha Hm Hs Hx Hd|intros b' Ha Hm _ Hs Hx Hd];
      wp_simp.
    + eapply deciders_ok_thread; eauto.
    + eapply deciders_ok_thread; eauto. by eapply deciders_ok_bridge.
    + by eapply deciders_ok_apply.
  - wp_simp. apply wp_Decide_finish; [done|done|..]; intros; subst; wp_simp;
      (eapply deciders_ok_thread;
       [first [exact Hok|by eapply deciders_ok_bridge]|exact Hi|reflexivity|eauto]).
  - wp_simp. by rewrite list_insert_id.
Qed.

Lemma run_schedule_ok id l sched b ts :
  deciders_ok id l b ts ->
  deciders_ok id l (run_schedule id sched (b, ts)).1 (run_schedule id sched (b, ts)).2.
Proof.
  revert b ts. induction sched as [|x sched IH]; intros b ts Hok; [done|].
  cbn. destruct x as [i|]; cbn.
  - destruct (ts !! i) as [[d t]|] eqn:Hi; [|by apply IH].
    pose proof (decider_step_ok _ _ _ _ _ _ _ Hok Hi) as H'. unfold wp in H'.
    destruct (decider_step id d t b) as [t' b']. by apply IH.
  - apply IH. pose proof (do_bridge _ _ _ _ Hok) as Hb.
    assert (Hsw : wp ApprovalBridge_checkExpiry b (fun _ b' =>
        bridge_after b b' /\ ab_approvals b' = ab_approvals b))
      by (by apply wp_checkExpiry).
    destruct Hsw. by eapply deciders_ok_bridge.
Qed.
End Deciders.

(** ** Examples *)

Definition demo_request : Request :=
  mkRequest "apr-1" "ses-1" "exec" "shell" "run make" (Some [("cmd", JStr "make")]).
Definition approve : Decision := mkDecision true "fine" "dev-1".
Definition deny : Decision := mkDecision false "no" "dev-2".
Definition demo_bridge0 : ApprovalBridge DB := NewApprovalBridge (mkWorld [] demo_db steady_env).
Definition demo_bridge : ApprovalBridge DB := (ApprovalBridge_Request demo_request demo_bridge0).2.

Lemma demo_bridge0_ok : bridge_ok demo_bridge0.
Proof. split; [exact I|apply map_Forall_empty]. Qed.
Lemma demo_bridge_after : bridge_after demo_bridge0 demo_bridge.
Proof.
  apply (wp_Request demo_request demo_bridge0 (fun _ => bridge_after demo_bridge0));
    [apply demo_bridge0_ok|done].
Qed.
Lemma demo_bridge_ok : bridge_ok demo_bridge.
Proof. apply demo_bridge_after. Qed.

(** ** Properties *)

(** C12: a decided approval is final.  For every approval store that satisfies
    the interface's laws and any sequence of calls on the bridge (requests,
    decisions, lookups, sweeps, cancellations, extensions, subscriptions), an
    approval object that is not pending never changes again. *)
Theorem decided_is_final {T} `{ApprovalStoreLaws T} (b : ApprovalBridge T) ops l :
  bridge_ok b -> (l < heap_size b)%nat -> a_State (ab_deref l b) <> ApprovalStatePending ->
  let b' := (for_each ops run_bridge_op b).2 in
  bridge_ok b' /\ ab_deref l b' = ab_deref l b.
Proof.
  intros Hok Hl Hst. pose proof (wp_bridge_ops ops b Hok) as [Hok' _ Hf].
  split; [exact Hok'|by apply Hf].
Qed.

Definition demo_decided : ApprovalBridge DB := (ApprovalBridge_Decide "apr-1" deny demo_bridge).2.

Lemma decided_is_final_witness :
  let b' := (for_each [OpDecide "apr-1" approve; OpCheckExpiry; OpCancel "apr-1";
                       OpExtendExpiry "apr-1" Hour] run_bridge_op demo_decided).2 in
  bridge_ok b' /\ ab_deref 0%nat b' = ab_deref 0%nat demo_decided.
Proof.
  apply (decided_is_final demo_decided).
  - apply (wp_Decide_after "apr-1" deny demo_bridge demo_bridge_ok).
  - vm_compute. lia.
  - vm_compute. discriminate.
Defined.

(** [Decide] on an approval in memory, on every branch.  A non-pending
    approval answers its final state, without an error and without touching
    anything; a pending one past its expiry becomes expired and the call fails;
    otherwise the decision, its time and its reason are recorded, and if
    persisting succeeds exactly that result is offered to the decision channel. *)
Theorem Decide_in_memory {T} `{ApprovalStoreLaws T} id d (b : ApprovalBridge T) l r b' :
  bridge_ok b -> ab_approvals b !! id = Some l -> ApprovalBridge_Decide id d b = (r, b') ->
  let a := ab_deref l b in
  dres_SessionID r = a_SessionID a /\
  (if decide (a_State a = ApprovalStatePending) then
     dres_AlreadyFinal r = false /\
     if decide (a_ExpiresAt a < now_of b) then
       ab_deref l b' = set_a_decided ApprovalStateExpired (now_of b) a /\
       dres_Error r = Some (ErrNew "approval expired")
     else
       ab_deref l b' = decided (now_of b) d a /\
       ((dres_Error r = None /\
         ab_decisionCh b' = try_send decisionCh_cap r (ab_decisionCh b)) \/
        (exists e, dres_Error r = Some (wrap "updating approval" e) /\
         ab_decisionCh b' = ab_decisionCh b))
   else dres_AlreadyFinal r = true /\ dres_FinalState r = a_State a /\
        dres_Error r = None /\ b' = b).
Proof.
  intros Hok Hm E. pose proof (bo_alloc _ Hok id l Hm) as Hl. cbn in Hl.
  wp_start E. unfold ApprovalBridge_Decide, Decide_lookup. rewrite wp_bind, wp_gets, Hm.
  rewrite wp_bind, wp_ret, wp_bind. cbv zeta.
  apply wp_Decide_apply; [done|done|intros Hs|intros b1 Ha1 Hm1 Hs Hx Hd1|
    intros b1 Ha1 Hm1 Hch1 Hs Hx Hd1]; (apply wp_Decide_finish;
    [by (apply Ha1 || apply Hok)|first [exact Hl|by eapply Nat.lt_le_trans, (ba_size _ _ Ha1)]|..]);
    try (intros; discriminate).
  - intros sid st [= <- <-] <-. by rewrite decide_False.
  - intros b2 _ _ _ Hd2 <-. cbn. by rewrite Hd2, Hd1, !decide_True by done.
  - intros b2 e _ _ _ Hd2 _ Hch2 <-. cbn.
    rewrite Hd2, Hd1, Hch2, Hch1, decide_True, decide_False by done. eauto 10.
  - intros b2 _ _ _ Hd2 r2 Hch2 <-. cbn.
    rewrite Hd2, Hch2, Hd1, Hch1, decide_True, decide_False by done. eauto 10.
Qed.

Definition demo_result : DecisionResult := mkDecisionResult "apr-1" "ses-1" deny None false "".

Lemma Decide_in_memory_witness :
  let a := ab_deref 0%nat demo_bridge in
  dres_SessionID demo_result = a_SessionID a /\
  (if decide (a_State a = ApprovalStatePending) then
     dres_AlreadyFinal demo_result = false /\
     if decide (a_ExpiresAt a < now_of demo_bridge) then
       ab_deref 0%nat demo_decided = set_a_decided ApprovalStateExpired (now_of demo_bridge) a /\
       dres_Error demo_result = Some (ErrNew "approval expired")
     else
       ab_deref 0%nat demo_decided = decided (now_of demo_bridge) deny a /\
       ((dres_Error demo_result = None /\ ab_decisionCh demo_decided =
           try_send decisionCh_cap demo_result (ab_decisionCh demo_bridge)) \/
        (exists e, dres_Error demo_result = Some (wrap "updating approval" e) /\
         ab_decisionCh demo_decided = ab_decisionCh demo_bridge))
   else dres_AlreadyFinal demo_result = true /\ dres_FinalState demo_result = a_State a /\
        dres_Error demo_result = None /\ demo_decided = demo_bridge).
Proof.
  apply (Decide_in_memory "apr-1" deny demo_bridge 0%nat demo_result demo_decided demo_bridge_ok).
  - vm_compute. reflexivity.
  - apply run_answer. vm_compute. reflexivity.
Defined.

(** The expiry sweep is exact.  One sweep marks as expired, at the time it
    read, precisely the approvals in memory that are pending and past their
    expiry, and changes no other approval object. *)
Theorem checkExpiry_exact {T} `{ApprovalStoreLaws T} (b : ApprovalBridge T) l :
  bridge_ok b -> (l < heap_size b)%nat ->
  let b' := (ApprovalBridge_checkExpiry b).2 in
  let a := ab_deref l b in
  ab_approvals b' = ab_approvals b /\
  ab_deref l b' =
    if decide (l ∈ (map_to_list (ab_approvals b)).*2 /\
               a_State a = ApprovalStatePending /\ a_ExpiresAt a < now_of b)
    then set_a_decided ApprovalStateExpired (now_of b) a else a.
Proof.
  intros Hok Hl b' a.
  assert (Hw : wp ApprovalBridge_checkExpiry b (fun _ b' => ab_approvals b' = ab_approvals b /\
    ab_deref l b' = if decide (l ∈ (map_to_list (ab_approvals b)).*2)
                    then swept (now_of b) a else a)).
  { apply wp_checkExpiry; [done|]. intros b2 _ Hm2 Hd. split; [done|by apply Hd]. }
  destruct Hw as [Hm Hd]. split; [exact Hm|]. unfold b'. rewrite Hd. unfold swept.
  repeat case_decide; naive_solver.
Qed.

(** The same approval, seen after its five minutes. *)
Definition demo_late : ApprovalBridge DB :=
  set_ab_world (mkWorld (w_heap (ab_world demo_bridge)) (w_store (ab_world demo_bridge))
                  (mkEnv (fun _ => 2000 * Hour) 9 (env_rand steady_env) 0 (fun _ => None) 9))
    demo_bridge.

Lemma demo_late_ok : bridge_ok demo_late.
Proof. destruct demo_bridge_ok as [_ Ha]. by split. Qed.

Lemma checkExpiry_exact_witness :
  a_State (ab_deref 0%nat demo_late) = ApprovalStatePending /\
  let b' := (ApprovalBridge_checkExpiry demo_late).2 in
  let a := ab_deref 0%nat demo_late in
  ab_approvals b' = ab_approvals demo_late /\
  ab_deref 0%nat b' =
    if decide (0%nat ∈ (map_to_list (ab_approvals demo_late)).*2 /\
               a_State a = ApprovalStatePending /\ a_ExpiresAt a < now_of demo_late)
    then set_a_decided ApprovalStateExpired (now_of demo_late) a else a.
Proof.
  split; [vm_compute; reflexivity|].
  apply (checkExpiry_exact demo_late 0%nat demo_late_ok). vm_compute. lia.
Defined.

(** C13: concurrent decisions on an approval in memory take effect once.
    However the critical sections of any number of concurrent [Decide] calls
    interleave with each other and with expiry sweeps, at most one of them
    applies its decision, and the approval records exactly that decision. *)
Theorem Decide_takes_effect_once {T} `{ApprovalStoreLaws T} id l (b : ApprovalBridge T) ds sched :
  bridge_ok b -> ab_approvals b !! id = Some l ->
  let sys := run_schedule id sched (b, (fun d => (d, DStart)) <$> ds) in
  forall i d t, sys.2 !! i = Some (d, t) -> has_applied t = true ->
    a_State (ab_deref l sys.1) =
      (if de_Approved d then ApprovalStateApproved else ApprovalStateDenied) /\
    a_DecisionReason (ab_deref l sys.1) = Some (de_Reason d) /\
    forall j dj tj, sys.2 !! j = Some (dj, tj) -> has_applied tj = true -> j = i.
Proof.
  intros Hok Hm sys. apply (do_applied id l sys.1 sys.2).
  apply run_schedule_ok. split; [done|done| |].
  - apply Forall_forall. intros [d t] (d' & [= -> ->] & _)%list_elem_of_fmap. by left.
  - intros i d t Hi. rewrite list_lookup_fmap in Hi.
    destruct (ds !! i); [|done]. by injection Hi as <- <-.
Qed.

Definition demo_race : ApprovalBridge DB * list (Decision * decider) :=
  run_schedule "apr-1" [SDecide 1; SDecide 0; SExpire; SDecide 0; SDecide 1]
    (demo_bridge, (fun d => (d, DStart)) <$> [approve; deny]).

Lemma Decide_takes_effect_once_witness :
  has_applied (DDone (Some Applied) demo_result) = true /\
  a_State (ab_deref 0%nat demo_race.1) = ApprovalStateDenied /\
  a_DecisionReason (ab_deref 0%nat demo_race.1) = Some "no" /\
  forall j dj tj, demo_race.2 !! j = Some (dj, tj) -> has_applied tj = true -> j = 1%nat.
Proof.
  split; [reflexivity|].
  apply (Decide_takes_effect_once "apr-1" 0%nat demo_bridge [approve; deny]
           [SDecide 1; SDecide 0; SExpire; SDecide 0; SDecide 1] demo_bridge_ok
           ltac:(vm_compute; reflexivity) 1%nat deny (DDone (Some Applied) demo_result));
    vm_compute; reflexivity.
Defined.

(** The approval as it is after a restart: in the database, not in memory. *)
Definition demo_restarted : ApprovalBridge DB :=
  NewApprovalBridge (mkWorld [] (w_store (ab_world demo_bridge)) steady_env).

(** After a restart concurrent decisions can both take effect.  The memory
    is empty, so both deciders release the lock to read the store, each gets an
    object of its own in the pending state, and both apply and persist, one
    approving and one denying, neither reporting an error or a final state. *)
Theorem Decide_twice_after_restart :
  exists (sched : list sched_item) r1 r2,
    (run_schedule "apr-1" sched
       (demo_restarted, (fun d => (d, DStart)) <$> [approve; deny])).2 =
      [(approve, DDone (Some Applied) r1); (deny, DDone (Some Applied) r2)] /\
    dres_Error r1 = None /\ dres_AlreadyFinal r1 = false /\
    dres_Error r2 = None /\ dres_AlreadyFinal r2 = false.
Proof.
  exists [SDecide 0; SDecide 1; SDecide 0; SDecide 1; SDecide 0; SDecide 1; SDecide 0; SDecide 1].
  exists (mkDecisionResult "apr-1" "ses-1" approve None false ""), demo_result.
  split; [vm_compute; reflexivity|done].
Qed.

(** ** With the database store *)

Definition db_of (b : ApprovalBridge DB) : DB := w_store (ab_world b).

Lemma wp_on_db {A} (m : M Store A) (b : ApprovalBridge DB) Q :
  wp (on_world (on_store m)) b Q <->
  wp m (mkStore (db_of b) (w_env (ab_world b))) (fun a s' =>
    Q a (set_ab_world (mkWorld (w_heap (ab_world b)) (st_db s') (st_env s')) b)).
Proof. unfold on_world. by rewrite wp_zoom, wp_on_store. Qed.

(** A request under an id that is already stored fails, yet forgets the
    stored approval.  Memory is written before the insert is tried, so after
    the error the id names a fresh pending approval there, while the row, with
    whatever decision it holds, is unchanged. *)
Theorem Request_duplicate_reopens req (b : ApprovalBridge DB) r b' :
  bridge_ok b -> is_Some (approvals (db_of b) !! rq_ID req) ->
  ApprovalBridge_Request req b = (r, b') ->
  (exists e, r = Err e) /\ approvals (db_of b') = approvals (db_of b) /\
  exists l, ab_approvals b' !! rq_ID req = Some l /\
    ab_deref l b' = requested (now_of b) (ab_defaultExpiry b) req.
Proof.
  intros Hok Hrow E.
  assert (H1 : wp (ApprovalBridge_Request req) b (fun r b' =>
    exists l, ab_approvals b' !! rq_ID req = Some l /\
      ab_deref l b' = requested (now_of b) (ab_defaultExpiry b) req)).
  { apply wp_Request; [done|]. intros b2 r2 _ Hm Hd _. exists (heap_size b).
    by rewrite Hm, lookup_insert_eq. }
  assert (H2 : wp (ApprovalBridge_Request req) b (fun r b' =>
    (exists e, r = Err e) /\ approvals (db_of b') = approvals (db_of b))).
  { clear H1 E. unfold ApprovalBridge_Request, on_world, world_Now. wp_simp. cbn.
    unfold time_Now, wp at 1. cbn. wp_simp. unfold new_approval, wp at 1. cbn. wp_simp.
    rewrite wp_on_store. unfold DBStore_Create, deref. cbn.
    rewrite list_lookup_total_middle by done.
    apply wp_exec; cbn; [intros e env' _ _; split; [eauto|done]|].
    intros r2 d env' _. unfold insert_approval. cbn. rewrite decide_True by done.
    intros [= <- <-]. split; [eauto|done]. }
  destruct (wp_elim _ _ _ _ _ H2 E) as [? ?].
  split; [done|]. split; [done|]. exact (wp_elim _ _ _ _ _ H1 E).
Qed.

Lemma Request_duplicate_reopens_witness :
  a_State (ab_deref 0%nat demo_decided) = ApprovalStateDenied /\
  let b' := (ApprovalBridge_Request demo_request demo_decided).2 in
  (exists e, (ApprovalBridge_Request demo_request demo_decided).1 = Err e) /\
  approvals (db_of b') = approvals (db_of demo_decided) /\
  exists l, ab_approvals b' !! "apr-1" = Some l /\
    ab_deref l b' = requested (now_of demo_decided) (ab_defaultExpiry demo_decided) demo_request.
Proof.
  split; [vm_compute; reflexivity|].
  apply (Request_duplicate_reopens demo_request demo_decided).
  - apply (wp_Decide_after "apr-1" deny demo_bridge demo_bridge_ok).
  - vm_compute. eexists. reflexivity.
  - by apply run_answer.
Defined.

(** An extension does not survive a restart.  A successful [ExtendExpiry]
    moves the expiry of the object in memory, but the row keeps the old expiry,
    so whoever loads the approval from the database later sees the old one. *)
Theorem ExtendExpiry_not_persisted id d (b : ApprovalBridge DB) l row b' :
  bridge_ok b -> ab_approvals b !! id = Some l ->
  approvals (db_of b) !! a_ID (ab_deref l b) = Some row ->
  ApprovalBridge_ExtendExpiry id d b = (Ok tt, b') ->
  a_ExpiresAt (ab_deref l b') = a_ExpiresAt (ab_deref l b) + d /\
  exists row', approvals (db_of b') !! a_ID (ab_deref l b) = Some row' /\
    ar_expires_at row' = ar_expires_at row.
Proof.
  intros Hok Hm Hrow E. pose proof (bo_alloc _ Hok id l Hm) as Hl. cbn in Hl.
  wp_start E. unfold ApprovalBridge_ExtendExpiry, change_pending, on_world. wp_simp. rewrite Hm.
  destruct (decide (a_State (ab_deref l b) <> ApprovalStatePending)); wp_simp; [done|].
  unfold assign. wp_simp. cbn. wp_simp. rewrite wp_on_store. unfold deref. cbn.
  rewrite !list_lookup_total_insert_eq by done. unfold DBStore_Update. wp_simp.
  apply wp_update_key; [done|done|..]; cbn.
  - intros r env' _ Hr _. wp_simp. intros _. unfold ab_deref, deref, db_of in *. cbn in *.
    rewrite !list_lookup_total_insert_eq by done. split; [done|]. rewrite lookup_insert_eq.
    eexists. split; [done|]. cbn. congruence.
  - intros env' _ Hr _. unfold ab_deref, deref, db_of in *. cbn in *. by specialize (Hr _ Hrow).
Qed.

Definition demo_extended : ApprovalBridge DB :=
  (ApprovalBridge_ExtendExpiry "apr-1" Hour demo_bridge).2.

Lemma ExtendExpiry_not_persisted_witness :
  a_ExpiresAt (ab_deref 0%nat demo_extended) = a_ExpiresAt (ab_deref 0%nat demo_bridge) + Hour /\
  exists row', approvals (db_of demo_extended) !! "apr-1" = Some row' /\
    ar_expires_at row' = 1000 * Hour + 5 * Minute.
Proof.
  apply (ExtendExpiry_not_persisted "apr-1" Hour demo_bridge 0%nat
           (approval_row (ab_deref 0%nat demo_bridge)) demo_extended demo_bridge_ok).
  - vm_compute. reflexivity.
  - vm_compute. reflexivity.
  - apply run_answer. vm_compute. reflexivity.
Defined.
