(* ===== verification/Lifecycle.v ===== *)
(** * Startup reconciliation and graceful shutdown
      (src/internal/lifecycle/manager.go)

    The manager's fields, with its channels as the flags "closed"; logging is
    left out.  [Start] and [Shutdown] are sequences of their critical sections.
    The adapter's recovery query is an argument, and so is which branch of the
    select each drained run takes. *)

From S2P Require Import Prelude Env Json Domain StateMachine Schema SessionRepo.

Definition PhaseStarting : string := "starting".
Definition PhaseRunning : string := "running".
Definition PhaseDraining : string := "draining".
Definition PhaseStopped : string := "stopped".

(** [RunReconciler]: the reported state and whether it can recover. *)
Abbreviation RunReconciler := (Session -> result (string * bool)) (only parsing).

(** [run_Done] indexes the flag of the run's channel. *)
Record drainingRun := mkDrainingRun {
  run_SessionID : string;
  run_RunID : string;
  run_StartedAt : Z;
  run_Done : nat
}.

Record Manager := mkManager {
  lm_phase : string;
  lm_store : Store;
  lm_activeRuns : gmap string drainingRun;
  lm_drainTimeout : Z;
  lm_shutdownCh : bool;  (** closed *)
  lm_done : bool;        (** closed *)
  lm_runDone : list bool (** closed, for every run's channel *)
}.

Definition NewManager (s : Store) : Manager :=
  mkManager PhaseStarting s ∅ (30 * Second) false false [].

Definition set_lm_phase (p : string) (m : Manager) : Manager :=
  mkManager p (lm_store m) (lm_activeRuns m) (lm_drainTimeout m) (lm_shutdownCh m) (lm_done m)
    (lm_runDone m).
Definition set_lm_store (s : Store) (m : Manager) : Manager :=
  mkManager (lm_phase m) s (lm_activeRuns m) (lm_drainTimeout m) (lm_shutdownCh m) (lm_done m)
    (lm_runDone m).
Definition set_lm_runs (r : gmap string drainingRun) (f : list bool) (m : Manager) : Manager :=
  mkManager (lm_phase m) (lm_store m) r (lm_drainTimeout m) (lm_shutdownCh m) (lm_done m) f.
Definition set_lm_drainTimeout (d : Z) (m : Manager) : Manager :=
  mkManager (lm_phase m) (lm_store m) (lm_activeRuns m) d (lm_shutdownCh m) (lm_done m)
    (lm_runDone m).
Definition set_lm_closed (sh dn : bool) (m : Manager) : Manager :=
  mkManager (lm_phase m) (lm_store m) (lm_activeRuns m) (lm_drainTimeout m) sh dn (lm_runDone m).

Definition on_db {A} (x : M Store A) : M Manager A := zoom lm_store set_lm_store x.

(** A call returns normally, or panics by closing a closed channel. *)
Inductive outcome := Returned | Panicked.

Definition isNonterminalState (state : string) : bool :=
  bool_decide (state ∈ [SessionStateCreated; SessionStateStarting; SessionStateActive;
                        SessionStateWaitingApprov; SessionStateRecovering]).

(** ** Recovery *)

Definition resolveRecovery (reconciler : option RunReconciler) (session : Session)
    : result string :=
  match reconciler with
  | None => Ok SessionStateFailed
  | Some recover =>
      match recover session with
      | Err e => Err e
      | Ok (state, canRecover) =>
          if negb canRecover then Ok SessionStateFailed
          else if decide (state = SessionStateActive) then Ok SessionStateActive
          else if decide (state = SessionStateCompleted) then Ok SessionStateCompleted
          else if decide (state = SessionStateFailed) then Ok SessionStateFailed
          else if decide (state = SessionStateResumable) then Ok SessionStateResumable
          else if decide (state = RunStateStarting \/ state = RunStatePending)
          then Ok SessionStateStarting
          else if decide (state = RunStateInterrupted) then Ok SessionStateInterrupted
          else Ok SessionStateFailed
      end
  end.

(** The error is logged. *)
Definition markFailed (sessionID : string) : M Store unit :=
  let! _ := SessionRepository_UpdateState sessionID SessionStateFailed None in ret tt.

Definition markSessionForRecovery (sessionID : string) : M Store unit :=
  let! _ := SessionRepository_UpdateState sessionID SessionStateRecovering None in ret tt.

(** One turn of the loop; the accumulator counts (reconciled, failed). *)
Definition reconcile_one (reconciler : option RunReconciler) (acc : Z * Z) (session : Session)
    : M Store (Z * Z) :=
  let '(reconciled, failed) := acc in
  if negb (isNonterminalState (s_State session)) then ret acc
  else
    let! r := SessionRepository_UpdateState (s_ID session) SessionStateRecovering None in
    match r with
    | Err _ => ret (reconciled, failed + 1)
    | Ok _ =>
        match resolveRecovery reconciler session with
        | Err _ => markFailed (s_ID session);;; ret (reconciled, failed + 1)
        | Ok resolved =>
            let! r := SessionRepository_UpdateState (s_ID session) resolved
                        (Some SessionStateRecovering) in
            match r with
            | Err _ => ret (reconciled, failed + 1)
            | Ok _ => ret (reconciled + 1, failed)
            end
        end
    end.

Definition reconcileOnStartup (reconciler : option RunReconciler) : M Store (result (Z * Z)) :=
  let? sessions := SessionRepository_GetAll orelse wrap "querying sessions" in
  let! counts := fold_each sessions (0, 0) (reconcile_one reconciler) in
  ret (Ok counts).

Definition mark_one (marked : Z) (session : Session) : M Store Z :=
  if negb (isNonterminalState (s_State session)) then ret marked
  else
    let! r := SessionRepository_UpdateState (s_ID session) SessionStateRecovering None in
    match r with
    | Err _ => ret marked
    | Ok _ => ret (marked + 1)
    end.

Definition markUnresolvedForRecovery : M Store (result Z) :=
  let? sessions := SessionRepository_GetAll orelse wrap "querying sessions" in
  let! marked := fold_each sessions 0 mark_one in
  ret (Ok marked).

(** ** Start *)

(** The first locked region: the error, if the phase is wrong. *)
Definition Start_check : M Manager (option error) :=
  let! m := get in
  if decide (lm_phase m <> PhaseStarting)
  then ret (Some (ErrNew ("cannot start from phase " +:+ lm_phase m)))
  else ret None.

(** Outside the lock, then the second locked region; a reconciliation error is
    not fatal. *)
Definition Start_finish (reconciler : option RunReconciler) : M Manager unit :=
  let! _ := on_db (reconcileOnStartup reconciler) in
  modify (set_lm_phase PhaseRunning).

Definition Manager_Start (reconciler : option RunReconciler) : M Manager (option error) :=
  let! e := Start_check in
  match e with
  | Some e => ret (Some e)
  | None => Start_finish reconciler;;; ret None
  end.

(** ** Shutdown *)

(** How the wait for a run ends. *)
Inductive drain := Drained | TimedOut | Cancelled.

Definition drainRun (how : string -> drain) (run : drainingRun) : M Manager unit :=
  match how (run_RunID run) with
  | Drained => ret tt
  | TimedOut | Cancelled => on_db (markSessionForRecovery (run_SessionID run))
  end.

(** The first locked region: the runs to drain, unless there is nothing to do. *)
Definition Shutdown_begin : M Manager (option (outcome * list drainingRun)) :=
  let! m := get in
  if decide (lm_phase m = PhaseStopped \/ lm_phase m = PhaseDraining) then ret None
  else
    modify (set_lm_phase PhaseDraining);;;
    if lm_shutdownCh m then ret (Some (Panicked, []))
    else
      modify (set_lm_closed true (lm_done m));;;
      ret (Some (Returned, (map_to_list (lm_activeRuns m)).*2)).

(** The last locked region. *)
Definition Shutdown_end : M Manager outcome :=
  modify (set_lm_phase PhaseStopped);;;
  let! m := get in
  if lm_done m then ret Panicked
  else modify (set_lm_closed (lm_shutdownCh m) true);;; ret Returned.

Definition Manager_Shutdown (how : string -> drain) : M Manager outcome :=
  let! b := Shutdown_begin in
  match b with
  | None => ret Returned
  | Some (Panicked, _) => ret Panicked
  | Some (Returned, activeRuns) =>
      for_each activeRuns (drainRun how);;;
      let! _ := on_db markUnresolvedForRecovery in
      Shutdown_end
  end.

(** ** Runs *)

Definition Manager_RegisterRun (sessionID runID : string) : M Manager (result drainingRun) :=
  let! m := get in
  if decide (lm_phase m <> PhaseRunning)
  then ret (Err (ErrNew ("cannot register run in phase " +:+ lm_phase m +:+
                         " (server is shutting down)")))
  else
    let! now := on_db (on_env time_Now) in
    let run := mkDrainingRun sessionID runID now (length (lm_runDone m)) in
    modify (fun m => set_lm_runs (<[runID := run]> (lm_activeRuns m)) (lm_runDone m ++ [false]) m);;;
    ret (Ok run).

Definition Manager_CompleteRun (runID : string) : M Manager unit :=
  modify (fun m =>
    match lm_activeRuns m !! runID with
    | Some run => set_lm_runs (delete runID (lm_activeRuns m))
                    (<[run_Done run := true]> (lm_runDone m)) m
    | None => m
    end).

Definition Manager_IsAcceptingRuns (m : Manager) : bool := bool_decide (lm_phase m = PhaseRunning).
Definition Manager_IsShuttingDown (m : Manager) : bool :=
  bool_decide (lm_phase m = PhaseDraining \/ lm_phase m = PhaseStopped).
Definition Manager_SetDrainTimeout (d : Z) : M Manager unit := modify (set_lm_drainTimeout d).
Definition Manager_ActiveRunCount (m : Manager) : Z := Z.of_nat (size (lm_activeRuns m)).

(** ** Specifications *)

(** What a loop over all sessions does, when its body rewrites the state of the
    session it is given, or leaves it. *)
Definition settled (target : string -> SessionRow -> option string) (sid : string)
    (now : Z) (row : SessionRow) : SessionRow :=
  match target sid row with Some st => upd_state st now row | None => row end.

(** The tables differ from [d] in the sessions only, each of which is settled. *)
Definition all_settled (target : string -> SessionRow -> option string) (d d' : DB) : Prop :=
  d' = set_sessions (sessions d') d /\
  forall sid, match sessions d !! sid with
    | None => sessions d' !! sid = None
    | Some row => exists now, sessions d' !! sid = Some (settled target sid now row)
    end.

Section Loop.
Context {B : Type} (body : B -> Session -> M Store B)
  (target : string -> SessionRow -> option string).
Hypothesis body_spec : forall acc sid row s,
  quiet (st_env s) -> sessions (st_db s) !! sid = Some row -> sr_title row <> None ->
  wp (body acc (session_of sid row)) s (fun _ s' => env_after (st_env s) (st_env s') /\
    exists now, st_db s' =
      set_sessions (<[sid := settled target sid now row]> (sessions (st_db s))) (st_db s)).

Lemma wp_all_sessions rows acc s (Q : B -> Store -> Prop) :
  quiet (st_env s) -> titled (st_db s) -> rows ≡ₚ map_to_list (sessions (st_db s)) ->
  (forall acc' s', env_after (st_env s) (st_env s') ->
     all_settled target (st_db s) (st_db s') -> Q acc' s') ->
  wp (fold_each ((fun kv => session_of kv.1 kv.2) <$> rows) acc body) s Q.
Proof.
  intros Hq Ht Hrows HQ.
  assert (Hnd : NoDup rows.*1) by (rewrite Hrows; apply NoDup_fst_map_to_list).
  apply (wp_fold_each _ _ _ (fun rest _ s' => exists rest',
    rest = (fun kv => session_of kv.1 kv.2) <$> rest' /\ NoDup rest'.*1 /\
    env_after (st_env s) (st_env s') /\
    st_db s' = set_sessions (sessions (st_db s')) (st_db s) /\
    (forall kv, kv ∈ rest' -> sessions (st_db s) !! kv.1 = Some kv.2) /\
    forall sid, match sessions (st_db s) !! sid with
      | None => sessions (st_db s') !! sid = None
      | Some row => if decide (sid ∈ rest'.*1) then sessions (st_db s') !! sid = Some row
                    else exists now, sessions (st_db s') !! sid = Some (settled target sid now row)
      end)).
  - exists rows. split; [done|]. split; [done|]. split; [reflexivity|].
    split; [by destruct (st_db s)|]. split.
    { intros [k v]. rewrite Hrows. apply elem_of_map_to_list. }
    intros sid. destruct (sessions (st_db s) !! sid) as [row|] eqn:E; [|done].
    rewrite decide_True; [done|]. apply list_elem_of_fmap. exists (sid, row). split; [done|].
    rewrite Hrows. by apply elem_of_map_to_list.
  - intros x rest acc' s' (rest' & Heq & Hnd' & He & Hdb & Hin & Hall).
    destruct rest' as [|[sid row] rest']; [done|]. injection Heq as -> ->. cbn in *.
    apply NoDup_cons in Hnd' as [Hsid Hnd'].
    assert (Hrow : sessions (st_db s) !! sid = Some row) by (apply (Hin (sid, row)); left).
    assert (Hcur : sessions (st_db s') !! sid = Some row).
    { specialize (Hall sid). rewrite Hrow, decide_True in Hall by left. done. }
    eapply wp_mono; [apply body_spec; [solve_env|exact Hcur|by apply (Ht sid)]|].
    cbn. intros _ s2 [He2 [now Hdb2]]. exists rest'. split; [done|]. split; [done|].
    split; [solve_env|]. rewrite Hdb2. cbn. split; [by rewrite Hdb|].
    split; [intros kv Hkv; apply Hin; by right|].
    intros sid'. specialize (Hall sid'). destruct (decide (sid = sid')) as [<-|Hne].
    + rewrite Hrow, decide_False by done. rewrite lookup_insert_eq. eauto.
    + rewrite lookup_insert_ne by done. destruct (sessions (st_db s) !! sid'); [|done].
      assert (Hiff : sid' ∈ sid :: rest'.*1 <-> sid' ∈ rest'.*1)
        by (rewrite elem_of_cons; naive_solver).
      by rewrite (decide_ext _ _ _ _ Hiff) in Hall.
  - intros acc' s' (rest' & Heq & _ & He & Hdb & _ & Hall).
    symmetry in Heq. apply fmap_nil_inv in Heq. subst rest'. apply HQ; [done|]. split; [done|].
    intros sid. specialize (Hall sid). destruct (sessions (st_db s) !! sid); [|done].
    rewrite decide_False in Hall; [done|]. apply not_elem_of_nil.
Qed.
End Loop.

(** The state reconciliation gives a session. *)
Definition recovered (reconciler : option RunReconciler) (sid : string) (row : SessionRow)
    : option string :=
  if isNonterminalState (sr_state row) then
    Some (match resolveRecovery reconciler (session_of sid row) with
          | Ok st => st
          | Err _ => SessionStateFailed
          end)
  else None.

Definition unfinished (sid : string) (row : SessionRow) : option string :=
  if isNonterminalState (sr_state row) then Some SessionStateRecovering else None.

Lemma upd_state_twice a b t u r : upd_state a t (upd_state b u r) = upd_state a t r.
Proof. done. Qed.

Lemma insert_id_db sid row (d : DB) : sessions d !! sid = Some row ->
  d = set_sessions (<[sid := row]> (sessions d)) d.
Proof. intros H. rewrite insert_id by done. by destruct d. Qed.

Lemma set_sessions_twice x y d : set_sessions x (set_sessions y d) = set_sessions x d.
Proof. done. Qed.

Lemma reconcile_one_spec reconciler acc sid row s :
  quiet (st_env s) -> sessions (st_db s) !! sid = Some row -> sr_title row <> None ->
  wp (reconcile_one reconciler acc (session_of sid row)) s (fun _ s' =>
    env_after (st_env s) (st_env s') /\ exists now, st_db s' =
      set_sessions (<[sid := settled (recovered reconciler) sid now row]> (sessions (st_db s)))
        (st_db s)).
Proof.
  intros Hq Hr _. destruct acc as [n f]. unfold reconcile_one, settled, recovered. cbn.
  destruct (isNonterminalState (sr_state row)); cbn; wp_simp.
  2: { split; [reflexivity|]. exists 0. by apply insert_id_db. }
  eapply wp_UpdateState_quiet; [done|exact Hr|done|]. intros now1 env1 He1. cbn.
  destruct (resolveRecovery reconciler (session_of sid row)) as [st|e]; wp_simp; unfold markFailed;
    wp_simp; (eapply wp_UpdateState_quiet;
      [solve_env|apply lookup_insert_eq|first [done|by apply bool_decide_eq_true]|]);
    intros now2 env2 He2; wp_simp; cbn; (split; [solve_env|]); exists now2;
    by rewrite insert_insert_eq, upd_state_twice.
Qed.

Lemma mark_one_spec acc sid row s :
  quiet (st_env s) -> sessions (st_db s) !! sid = Some row -> sr_title row <> None ->
  wp (mark_one acc (session_of sid row)) s (fun _ s' =>
    env_after (st_env s) (st_env s') /\ exists now, st_db s' =
      set_sessions (<[sid := settled unfinished sid now row]> (sessions (st_db s))) (st_db s)).
Proof.
  intros Hq Hr _. unfold mark_one, settled, unfinished. cbn.
  destruct (isNonterminalState (sr_state row)); cbn; wp_simp.
  2: { split; [reflexivity|]. exists 0. by apply insert_id_db. }
  eapply wp_UpdateState_quiet; [done|exact Hr|done|]. intros now1 env1 He1. wp_simp. cbn. eauto.
Qed.

Lemma wp_reconcile reconciler s (Q : result (Z * Z) -> Store -> Prop) :
  quiet (st_env s) -> titled (st_db s) ->
  (forall r s', env_after (st_env s) (st_env s') ->
     all_settled (recovered reconciler) (st_db s) (st_db s') -> Q r s') ->
  wp (reconcileOnStartup reconciler) s Q.
Proof.
  intros Hq Ht HQ. unfold reconcileOnStartup. wp_simp.
  apply wp_GetAll; [done|intros; by destruct (quiet_not_faulty _ Hq)|].
  intros rows env1 He1 Hrows. wp_simp.
  eapply wp_all_sessions; [apply reconcile_one_spec|solve_env|done|done|].
  intros acc s' He Hs. wp_simp. apply HQ; [solve_env|done].
Qed.

Lemma wp_mark s (Q : result Z -> Store -> Prop) :
  quiet (st_env s) -> titled (st_db s) ->
  (forall r s', env_after (st_env s) (st_env s') ->
     all_settled unfinished (st_db s) (st_db s') -> Q r s') ->
  wp markUnresolvedForRecovery s Q.
Proof.
  intros Hq Ht HQ. unfold markUnresolvedForRecovery. wp_simp.
  apply wp_GetAll; [done|intros; by destruct (quiet_not_faulty _ Hq)|].
  intros rows env1 He1 Hrows. wp_simp.
  eapply wp_all_sessions; [apply mark_one_spec|solve_env|done|done|].
  intros acc s' He Hs. wp_simp. apply HQ; [solve_env|done].
Qed.

Lemma wp_lifecycle_db {A} (x : M Store A) m Q :
  wp (on_db x) m Q <-> wp x (lm_store m) (fun a s' => Q a (set_lm_store s' m)).
Proof. unfold on_db. by rewrite wp_zoom. Qed.

(** Some wait for a run of this session did not end with the run. *)
Definition undrained (how : string -> drain) (runs : list drainingRun) (sid : string) : bool :=
  existsb (fun run => bool_decide (run_SessionID run = sid) &&
                      match how (run_RunID run) with Drained => false | _ => true end) runs.

Definition undrained_target (how : string -> drain) (runs : list drainingRun) (sid : string)
    (row : SessionRow) : option string :=
  if undrained how runs sid then Some SessionStateRecovering else None.

(** Marking one session, whether it exists or not. *)
Lemma wp_markSessionForRecovery sid s (Q : unit -> Store -> Prop) :
  quiet (st_env s) ->
  (forall s', env_after (st_env s) (st_env s') ->
     all_settled (fun k _ => if decide (k = sid) then Some SessionStateRecovering else None)
       (st_db s) (st_db s') -> Q tt s') ->
  wp (markSessionForRecovery sid) s Q.
Proof.
  intros Hq HQ. unfold markSessionForRecovery. wp_simp. apply wp_UpdateState.
  - intros. by destruct (quiet_not_faulty _ Hq).
  - intros. by destruct (quiet_not_faulty _ Hq).
  - intros now r env' He Hr _. wp_simp. apply HQ; [done|]. split; [done|]. intros k. cbn.
    unfold settled. destruct (decide (k = sid)) as [->|Hne].
    + rewrite Hr. exists now. apply lookup_insert_eq.
    + rewrite lookup_insert_ne by done. destruct (sessions (st_db s) !! k); [exists 0|]; done.
  - intros env' He Hn. wp_simp. apply HQ; [done|]. split; [by destruct (st_db s)|]. intros k. cbn.
    unfold settled. destruct (sessions (st_db s) !! k) as [row|] eqn:E; [|done].
    case_decide; [|by exists 0]. subst k. by specialize (Hn row E).
Qed.

(** Settling twice, when the second target agrees with the state the first left. *)
Lemma all_settled_trans t1 t2 t d d1 d2 :
  all_settled t1 d d1 -> all_settled t2 d1 d2 ->
  (forall sid row now, t sid row = match t2 sid (settled t1 sid now row) with
                                   | Some st => Some st | None => t1 sid row end) ->
  all_settled t d d2.
Proof.
  intros [Hd1 H1] [Hd2 H2] Ht. split; [by rewrite Hd2, Hd1|].
  intros sid. specialize (H1 sid). specialize (H2 sid).
  destruct (sessions d !! sid) as [row|]; [|by rewrite H1 in H2].
  destruct H1 as [now1 H1]. rewrite H1 in H2. destruct H2 as [now2 H2].
  rewrite H2. specialize (Ht sid row now1). unfold settled in *.
  destruct (t2 sid _); rewrite Ht.
  - exists now2. by destruct (t1 sid row).
  - exists now1. by destruct (t1 sid row).
Qed.

Lemma all_settled_refl d : all_settled (fun _ _ => None) d d.
Proof.
  split; [by destruct d|]. intros sid. destruct (sessions d !! sid); [exists 0|]; done.
Qed.

Lemma all_settled_titled t d d' : all_settled t d d' -> titled d -> titled d'.
Proof.
  intros [_ H] Ht sid row' Hrow'. specialize (H sid).
  destruct (sessions d !! sid) as [row|] eqn:E; [|congruence].
  destruct H as [now H]. rewrite H in Hrow'. injection Hrow' as <-.
  pose proof (Ht sid row E) as Hrow. cbn in Hrow. unfold settled. by destruct (t sid row).
Qed.

Lemma wp_drains how runs m (Q : unit -> Manager -> Prop) :
  quiet (st_env (lm_store m)) ->
  (forall s', env_after (st_env (lm_store m)) (st_env s') ->
     all_settled (undrained_target how runs) (st_db (lm_store m)) (st_db s') ->
     Q tt (set_lm_store s' m)) ->
  wp (for_each runs (drainRun how)) m Q.
Proof.
  intros Hq HQ.
  apply (wp_for_each _ _ (fun rest m' => exists dn s', runs = dn ++ rest /\
    m' = set_lm_store s' m /\ env_after (st_env (lm_store m)) (st_env s') /\
    all_settled (undrained_target how dn) (st_db (lm_store m)) (st_db s'))).
  - exists [], (lm_store m). split; [done|]. split; [by destruct m|].
    split; [reflexivity|]. apply all_settled_refl.
  - intros run rest m' (dn & s' & -> & -> & He & Hs). unfold drainRun.
    assert (Hsplit : forall sid, undrained how (dn ++ [run]) sid = undrained how dn sid ||
      (bool_decide (run_SessionID run = sid) &&
       match how (run_RunID run) with Drained => false | _ => true end)).
    { intros sid. unfold undrained. rewrite existsb_app. cbn. by rewrite orb_false_r. }
    assert (Hmark : how (run_RunID run) <> Drained ->
      wp (on_db (markSessionForRecovery (run_SessionID run))) (set_lm_store s' m)
        (fun _ m' => exists dn0 s0, dn ++ run :: rest = dn0 ++ rest /\ m' = set_lm_store s0 m /\
           env_after (st_env (lm_store m)) (st_env s0) /\
           all_settled (undrained_target how dn0) (st_db (lm_store m)) (st_db s0))).
    { intros Hh. rewrite wp_lifecycle_db. cbn. apply wp_markSessionForRecovery; [solve_env|].
      intros s2 He2 Hs2. exists (dn ++ [run]), s2. split; [by rewrite <- (assoc_L (++))|].
      split; [done|]. split; [solve_env|]. eapply all_settled_trans; [exact Hs|exact Hs2|].
      intros sid row now. unfold undrained_target. rewrite Hsplit. cbn.
      destruct (undrained how dn sid), (decide (sid = run_SessionID run)) as [->|Hne];
        rewrite ?bool_decide_true by done; try done; cbn.
      - by destruct (how (run_RunID run)).
      - by rewrite bool_decide_false. }
    destruct (how (run_RunID run)) eqn:Hh; [|by apply Hmark..]. wp_simp.
    exists (dn ++ [run]), s'. split; [by rewrite <- (assoc_L (++))|]. split; [done|].
    split; [done|]. eapply all_settled_trans; [exact Hs|apply all_settled_refl|].
    intros sid row now. unfold undrained_target. rewrite Hsplit, andb_false_r.
    by rewrite orb_false_r.
  - intros m' (dn & s' & Heq & -> & He & Hs). rewrite app_nil_r in Heq. subst dn. by apply HQ.
Qed.

(** The state a session has after a shutdown. *)
Definition shut_target (how : string -> drain) (runs : list drainingRun) (sid : string)
    (row : SessionRow) : option string :=
  if isNonterminalState (sr_state row) || undrained how runs sid
  then Some SessionStateRecovering else None.

Lemma wp_Shutdown how m (Q : outcome -> Manager -> Prop) :
  quiet (st_env (lm_store m)) -> titled (st_db (lm_store m)) ->
  lm_phase m = PhaseStarting \/ lm_phase m = PhaseRunning ->
  lm_shutdownCh m = false -> lm_done m = false ->
  (forall s', env_after (st_env (lm_store m)) (st_env s') ->
     all_settled (shut_target how (map_to_list (lm_activeRuns m)).*2) (st_db (lm_store m))
       (st_db s') ->
     Q Returned (mkManager PhaseStopped s' (lm_activeRuns m) (lm_drainTimeout m) true true
                   (lm_runDone m))) ->
  wp (Manager_Shutdown how) m Q.
Proof.
  intros Hq Ht Hp Hsh Hdn HQ. unfold Manager_Shutdown, Shutdown_begin. wp_simp.
  rewrite decide_False by (intros [E|E]; rewrite E in Hp; by destruct Hp).
  wp_simp. rewrite Hsh. wp_simp. cbn.
  apply wp_drains; [done|]. cbn. intros s1 He1 Hs1. wp_simp. rewrite wp_lifecycle_db. cbn.
  apply wp_mark; [solve_env|by eapply all_settled_titled|]. intros r s2 He2 Hs2.
  unfold Shutdown_end. wp_simp. cbn. rewrite Hdn. wp_simp. cbn. apply HQ; [solve_env|].
  eapply all_settled_trans; [exact Hs1|exact Hs2|]. intros sid row now.
  unfold shut_target, unfinished, undrained_target, settled.
  destruct (undrained how _ sid); cbn; [by rewrite orb_true_r|]. rewrite orb_false_r.
  by destruct (isNonterminalState (sr_state row)).
Qed.

(** ** Sequences of calls *)

Inductive lifecycle_op :=
  | LStart (reconciler : option RunReconciler)
  | LShutdown (how : string -> drain)
  | LRegisterRun (sid rid : string)
  | LCompleteRun (rid : string)
  | LSetDrainTimeout (d : Z).

Definition run_lifecycle_op (op : lifecycle_op) : M Manager outcome :=
  match op with
  | LStart r => let! _ := Manager_Start r in ret Returned
  | LShutdown how => Manager_Shutdown how
  | LRegisterRun sid rid => let! _ := Manager_RegisterRun sid rid in ret Returned
  | LCompleteRun rid => Manager_CompleteRun rid;;; ret Returned
  | LSetDrainTimeout d => Manager_SetDrainTimeout d;;; ret Returned
  end.

(** A panic ends the program. *)
Fixpoint run_lifecycle (ops : list lifecycle_op) : M Manager outcome :=
  match ops with
  | [] => ret Returned
  | op :: ops' =>
      let! o := run_lifecycle_op op in
      match o with Panicked => ret Panicked | Returned => run_lifecycle ops' end
  end.

Definition phase_rank (p : string) : Z :=
  if decide (p = PhaseStarting) then 0 else if decide (p = PhaseRunning) then 1
  else if decide (p = PhaseDraining) then 2 else 3.

(** Between calls: the channels are closed exactly when the manager is stopped. *)
Record manager_ok (m : Manager) : Prop := mk_manager_ok {
  mo_phase : lm_phase m = PhaseStarting \/ lm_phase m = PhaseRunning \/ lm_phase m = PhaseStopped;
  mo_shutdown : lm_shutdownCh m = true <-> lm_phase m = PhaseStopped;
  mo_done : lm_done m = true <-> lm_phase m = PhaseStopped
}.

Lemma NewManager_ok s : manager_ok (NewManager s).
Proof. split; [by left|done|done]. Qed.

Lemma wp_lifecycle_store {A} (x : M Store A) m (Q : A -> Manager -> Prop) :
  (forall a s', Q a (set_lm_store s' m)) -> wp (on_db x) m Q.
Proof. intros H. rewrite wp_lifecycle_db. unfold wp. apply H. Qed.

Lemma wp_drains_store how runs m (Q : unit -> Manager -> Prop) :
  (forall s', Q tt (set_lm_store s' m)) -> wp (for_each runs (drainRun how)) m Q.
Proof.
  intros H. apply (wp_for_each _ _ (fun _ m' => exists s', m' = set_lm_store s' m)).
  - exists (lm_store m). by destruct m.
  - intros run rest m' [s' ->]. unfold drainRun. destruct (how (run_RunID run)); wp_simp;
      [by eexists|apply wp_lifecycle_store; intros; by eexists..].
  - intros m' [s' ->]. apply H.
Qed.

(** [Shutdown] as far as the phase and the channels go, in any environment. *)
Lemma wp_Shutdown_phase how m (Q : outcome -> Manager -> Prop) :
  (lm_phase m = PhaseStopped \/ lm_phase m = PhaseDraining -> Q Returned m) ->
  (~ (lm_phase m = PhaseStopped \/ lm_phase m = PhaseDraining) ->
   if lm_shutdownCh m then Q Panicked (set_lm_phase PhaseDraining m)
   else forall s', let m' := mkManager PhaseStopped s' (lm_activeRuns m) (lm_drainTimeout m) true
                               true (lm_runDone m) in
     if lm_done m then Q Panicked m' else Q Returned m') ->
  wp (Manager_Shutdown how) m Q.
Proof.
  intros H1 H2. unfold Manager_Shutdown, Shutdown_begin. wp_simp.
  destruct (decide (lm_phase m = PhaseStopped \/ lm_phase m = PhaseDraining)) as [Hp|Hp].
  { wp_simp. by apply H1. }
  specialize (H2 Hp). wp_simp. destruct (lm_shutdownCh m) eqn:Hs; wp_simp; [done|]. cbn.
  apply wp_drains_store. intros s1. wp_simp. apply wp_lifecycle_store. intros r s2.
  unfold Shutdown_end. wp_simp. cbn. specialize (H2 s2).
  destruct (lm_done m) eqn:Hd; wp_simp; cbn in *; by rewrite ?Hd in *.
Qed.

Lemma lifecycle_op_ok op m : manager_ok m ->
  wp (run_lifecycle_op op) m (fun o m' => o = Returned /\ manager_ok m' /\
    phase_rank (lm_phase m) <= phase_rank (lm_phase m')).
Proof.
  intros Hok. assert (Hsame : Returned = Returned /\ manager_ok m /\
    phase_rank (lm_phase m) <= phase_rank (lm_phase m)) by (split; [done|split; [done|lia]]).
  destruct op as [rec|how|sid rid|rid|d]; cbn.
  - unfold Manager_Start, Start_check, Start_finish. wp_simp.
    destruct (decide (lm_phase m <> PhaseStarting)) as [|Hp]; wp_simp; [done|].
    apply dec_stable in Hp. apply wp_lifecycle_store. intros r s'. wp_simp.
    rewrite Hp. split; [done|]. destruct Hok as [_ Hs Hd]. rewrite Hp in Hs, Hd. cbn.
    split; [|vm_compute; discriminate]. split; cbn; [by right; left|..].
    + split; [by intros ?%Hs|done].
    + split; [by intros ?%Hd|done].
  - apply wp_Shutdown_phase; [done|]. intros Hn. destruct Hok as [Hp Hs Hd].
    destruct (lm_shutdownCh m); [destruct Hn; left; by apply Hs|]. intros s'.
    destruct (lm_done m); [destruct Hn; left; by apply Hd|]. cbn. split; [done|].
    split; [split; cbn; [by right; right|done|done]|].
    destruct Hp as [-> |[-> | ->]]; vm_compute; discriminate.
  - unfold Manager_RegisterRun. wp_simp. destruct (decide (lm_phase m <> PhaseRunning)); wp_simp;
      [done|]. apply wp_lifecycle_store. intros now s'. wp_simp. split; [done|].
    destruct Hok. split; [by split|cbn; lia].
  - unfold Manager_CompleteRun. wp_simp. destruct (lm_activeRuns m !! rid); [|done].
    destruct Hok. split; [done|]. split; [by split|cbn; lia].
  - unfold Manager_SetDrainTimeout. wp_simp. destruct Hok. split; [done|].
    split; [by split|cbn; lia].
Qed.

Lemma lifecycle_ok ops m : manager_ok m ->
  wp (run_lifecycle ops) m (fun o m' => o = Returned /\ manager_ok m' /\
    phase_rank (lm_phase m) <= phase_rank (lm_phase m')).
Proof.
  revert m. induction ops as [|op ops IH]; intros m Hok; cbn; wp_simp.
  { split; [done|]. split; [done|lia]. }
  eapply wp_mono; [by apply lifecycle_op_ok|]. cbn. intros o m1 (-> & Hok1 & Hle1).
  eapply wp_mono; [by apply IH|]. cbn. intros o m2 (-> & Hok2 & Hle2).
  split; [done|]. split; [done|lia].
Qed.

(** ** Properties *)

(** Startup reconciliation settles every session.  Without driver failures
    and NULL titles, [Start] succeeds and moves to running; every session that
    was in a nonterminal state gets the state its adapter reports, mapped, or
    failed if it cannot recover; every other row is untouched.  With no
    reconciler no session is left in a nonterminal state. *)
Theorem Start_reconciles reconciler m :
  lm_phase m = PhaseStarting -> quiet (st_env (lm_store m)) -> titled (st_db (lm_store m)) ->
  exists m', Manager_Start reconciler m = (None, m') /\ lm_phase m' = PhaseRunning /\
    forall sid,
      match sessions (st_db (lm_store m)) !! sid with
      | None => sessions (st_db (lm_store m')) !! sid = None
      | Some row =>
          exists row', sessions (st_db (lm_store m')) !! sid = Some row' /\
          (isNonterminalState (sr_state row) = false -> row' = row) /\
          (isNonterminalState (sr_state row) = true -> sr_state row' =
             match resolveRecovery reconciler (session_of sid row) with
             | Ok st => st | Err _ => SessionStateFailed end) /\
          (reconciler = None -> isNonterminalState (sr_state row') = false)
      end.
Proof.
  intros Hp Hq Ht. exists (Manager_Start reconciler m).2.
  assert (Hw : wp (Manager_Start reconciler) m (fun e m' => e = None /\
    lm_phase m' = PhaseRunning /\
    all_settled (recovered reconciler) (st_db (lm_store m)) (st_db (lm_store m')))).
  { unfold Manager_Start, Start_check, Start_finish. wp_simp. rewrite decide_False by tauto.
    wp_simp. rewrite wp_lifecycle_db. apply wp_reconcile; [done|done|]. intros r s' He Hs. by wp_simp. }
  destruct Hw as (He & Hph & _ & Hs). split; [by apply run_answer|]. split; [done|].
  intros sid. specialize (Hs sid).
  destruct (sessions (st_db (lm_store m)) !! sid) as [row|]; [|done].
  destruct Hs as [now Hs]. eexists. split; [exact Hs|]. unfold settled, recovered.
  destruct (isNonterminalState (sr_state row)) eqn:Hnt; cbn.
  - split; [done|]. split; [done|]. by intros ->.
  - split; [done|]. by split.
Qed.

Definition demo_manager : Manager := NewManager demo_store.
Definition demo_started : Manager := (Manager_Start None demo_manager).2.

Lemma demo_titled : titled demo_db.
Proof.
  intros sid r Hr. cbn in Hr. apply lookup_singleton_Some in Hr as [_ <-]. discriminate.
Qed.

Lemma Start_reconciles_witness :
  exists m', Manager_Start None demo_manager = (None, m') /\ lm_phase m' = PhaseRunning /\
    forall sid,
      match sessions demo_db !! sid with
      | None => sessions (st_db (lm_store m')) !! sid = None
      | Some row =>
          exists row', sessions (st_db (lm_store m')) !! sid = Some row' /\
          (isNonterminalState (sr_state row) = false -> row' = row) /\
          (isNonterminalState (sr_state row) = true -> sr_state row' =
             match resolveRecovery None (session_of sid row) with
             | Ok st => st | Err _ => SessionStateFailed end) /\
          (@None RunReconciler = None -> isNonterminalState (sr_state row') = false)
      end.
Proof.
  apply (Start_reconciles None demo_manager); [reflexivity| |exact demo_titled].
  intros n. reflexivity.
Defined.

(** A shutdown loses no session.  Without driver failures [Shutdown] ends
    stopped, without a panic, and every session that was in a nonterminal state,
    or whose run did not end in time, is left as recovering for the next start;
    every other row is untouched. *)
Theorem Shutdown_marks_recovering how m :
  lm_phase m = PhaseRunning -> manager_ok m ->
  quiet (st_env (lm_store m)) -> titled (st_db (lm_store m)) ->
  exists m', Manager_Shutdown how m = (Returned, m') /\ lm_phase m' = PhaseStopped /\
    manager_ok m' /\
    forall sid,
      match sessions (st_db (lm_store m)) !! sid with
      | None => sessions (st_db (lm_store m')) !! sid = None
      | Some row =>
          exists row', sessions (st_db (lm_store m')) !! sid = Some row' /\
          if isNonterminalState (sr_state row) ||
             undrained how (map_to_list (lm_activeRuns m)).*2 sid
          then sr_state row' = SessionStateRecovering else row' = row
      end.
Proof.
  intros Hp [_ Hsh Hdn] Hq Ht. rewrite Hp in Hsh, Hdn.
  exists (Manager_Shutdown how m).2.
  assert (Hw : wp (Manager_Shutdown how) m (fun o m' => o = Returned /\
    lm_phase m' = PhaseStopped /\ manager_ok m' /\
    all_settled (shut_target how (map_to_list (lm_activeRuns m)).*2) (st_db (lm_store m))
      (st_db (lm_store m')))).
  { apply wp_Shutdown; [done|done|by right|..].
    - destruct (lm_shutdownCh m); [by destruct Hsh as [Hsh _]; specialize (Hsh eq_refl)|done].
    - destruct (lm_done m); [by destruct Hdn as [Hdn _]; specialize (Hdn eq_refl)|done].
    - intros s' _ Hs. split; [done|]. split; [done|]. split; [|done].
      split; [by right; right|done|done]. }
  destruct Hw as (Ho & Hph & Hok & _ & Hs). split; [by apply run_answer|]. split; [done|].
  split; [done|]. intros sid. specialize (Hs sid).
  destruct (sessions (st_db (lm_store m)) !! sid) as [row|]; [|done].
  destruct Hs as [now Hs]. eexists. split; [exact Hs|]. unfold settled, shut_target.
  by destruct (isNonterminalState (sr_state row) || undrained _ _ _).
Qed.

(** A manager that is running, with one run. *)
Definition demo_running : Manager :=
  (Manager_RegisterRun "ses-1" "run-1"
     (mkManager PhaseRunning demo_store ∅ (30 * Second) false false [])).2.

Lemma demo_running_ok : manager_ok demo_running.
Proof. split; [by right; left|done|done]. Qed.

Lemma Shutdown_marks_recovering_witness :
  exists m', Manager_Shutdown (fun _ => TimedOut) demo_running = (Returned, m') /\
    lm_phase m' = PhaseStopped /\ manager_ok m' /\
    forall sid,
      match sessions demo_db !! sid with
      | None => sessions (st_db (lm_store m')) !! sid = None
      | Some row =>
          exists row', sessions (st_db (lm_store m')) !! sid = Some row' /\
          if isNonterminalState (sr_state row) ||
             undrained (fun _ => TimedOut) (map_to_list (lm_activeRuns demo_running)).*2 sid
          then sr_state row' = SessionStateRecovering else row' = row
      end.
Proof.
  apply (Shutdown_marks_recovering (fun _ => TimedOut) demo_running);
    [reflexivity|exact demo_running_ok|intros n; reflexivity|exact demo_titled].
Defined.

(** Called one at a time, the lifecycle operations never panic and the
    phase never goes back.  From a new manager, in any environment and whatever
    the adapters answer, no sequence of calls closes a channel twice, the
    channels are closed exactly when the manager has stopped, and runs are
    registered only while it is running. *)
Theorem lifecycle_sequential_safe s ops1 ops2 sid rid :
  let m1 := (run_lifecycle ops1 (NewManager s)).2 in
  let m2 := (run_lifecycle ops2 m1).2 in
  (run_lifecycle ops2 m1).1 = Returned /\ manager_ok m2 /\
  phase_rank (lm_phase m1) <= phase_rank (lm_phase m2) /\
  is_ok (Manager_RegisterRun sid rid m2).1 = Manager_IsAcceptingRuns m2.
Proof.
  intros m1 m2. destruct (lifecycle_ok ops1 (NewManager s) (NewManager_ok s)) as (_ & Hok1 & _).
  fold m1 in Hok1. destruct (lifecycle_ok ops2 m1 Hok1) as (Ho & Hok2 & Hle).
  split; [exact Ho|]. split; [exact Hok2|]. split; [exact Hle|].
  unfold Manager_RegisterRun, Manager_IsAcceptingRuns, bind, get.
  destruct (decide (lm_phase m2 = PhaseRunning)) as [Hp|Hp].
  - rewrite decide_False by tauto. by rewrite bool_decide_true.
  - rewrite decide_True by done. by rewrite bool_decide_false.
Qed.

(** A shutdown during startup is undone.  [Start] checks the phase and sets
    it in separate locked regions: if a whole [Shutdown] runs in between, the
    manager ends up running and accepting runs although its shutdown channel
    and done channel are closed, and the next [Shutdown] panics. *)
Theorem Start_Shutdown_race reconciler how s :
  let m0 := NewManager s in
  let m1 := (Manager_Shutdown how (Start_check m0).2).2 in
  let m2 := (Start_finish reconciler m1).2 in
  (Start_check m0).1 = None /\
  Manager_IsShuttingDown m1 = true /\
  Manager_IsAcceptingRuns m2 = true /\ lm_done m2 = true /\
  (Manager_Shutdown how m2).1 = Panicked.
Proof.
  intros m0 m1 m2. split; [done|].
  assert (H1 : exists s1, m1 = mkManager PhaseStopped s1 ∅ (30 * Second) true true []).
  { change (wp (Manager_Shutdown how) m0 (fun _ m => exists s1,
      m = mkManager PhaseStopped s1 ∅ (30 * Second) true true [])).
    apply wp_Shutdown_phase; [by intros [?|?]|]. intros _. cbn. by eexists. }
  destruct H1 as [s1 H1]. split; [by rewrite H1|].
  assert (H2 : exists s2, m2 = mkManager PhaseRunning s2 ∅ (30 * Second) true true []).
  { change (wp (Start_finish reconciler) m1 (fun _ m => exists s2,
      m = mkManager PhaseRunning s2 ∅ (30 * Second) true true [])).
    rewrite H1. unfold Start_finish. wp_simp. apply wp_lifecycle_store. intros r s2. wp_simp.
    by exists s2. }
  destruct H2 as [s2 H2]. rewrite H2. split; [done|]. split; [done|].
  change (wp (Manager_Shutdown how) (mkManager PhaseRunning s2 ∅ (30 * Second) true true [])
    (fun o _ => o = Panicked)).
  apply wp_Shutdown_phase; [by intros [?|?]|]. done.
Qed.
