(* ===== verification/Identity.v ===== *)
(** * Device pairing, access tokens and revocation (src/internal/identity/service.go)

    Pairing challenges live in the service's map, devices and tokens in the
    database.  [PairDevice] is its locked region, which consumes the challenge,
    and the registration that follows outside the lock. *)

From S2P Require Import Prelude Env Json Domain Schema SessionRepo Journal.

Definition ErrChallengeExpired : error := ErrSentinel "pairing challenge expired or already used".
Definition ErrChallengeNotFound : error := ErrSentinel "pairing challenge not found".
Definition ErrDeviceRevoked : error := ErrSentinel "device has been revoked".
Definition ErrDeviceNotFound : error := ErrSentinel "device not found".
Definition ErrTokenInvalid : error := ErrSentinel "access token invalid or expired".

Record Challenge := mkChallenge {
  ch_Code : string;
  ch_ExpiresAt : Z;
  ch_Used : bool;
  ch_CreatedAt : Z
}.

Record AccessToken := mkAccessToken {
  tok_Value : string;
  tok_DeviceID : string;
  tok_ExpiresAt : Z;
  tok_IssuedAt : Z
}.

Record Service := mkService {
  id_store : Store;
  id_challenges : gmap string Challenge;
  id_accessExpiry : Z
}.

Definition NewService (s : Store) : Service := mkService s ∅ (15 * Minute).

Definition set_id_store (s : Store) (x : Service) : Service :=
  mkService s (id_challenges x) (id_accessExpiry x).
Definition set_id_challenges (c : gmap string Challenge) (x : Service) : Service :=
  mkService (id_store x) c (id_accessExpiry x).

Definition in_store {A} (m : M Store A) : M Service A := zoom id_store set_id_store m.

Definition maxChallenges : nat := 1024.
Definition DefaultChallengeTTL : Z := 5 * Minute.

(** ** Identifiers *)

(** Groups of four hex digits, separated by dashes. *)
Fixpoint dashed (fuel : nat) (h : list Ascii.ascii) : list Ascii.ascii :=
  match fuel, h with
  | S fuel', _ :: _ =>
      let rest := drop 4 h in
      take 4 h ++ match rest with [] => [] | _ => chars "-" ++ dashed fuel' rest end
  | _, _ => []
  end.

Definition generateChallengeCode : M Env (result string) :=
  let! b := rand_Read 12 in
  match b with
  | None => ret (Err (ErrNew "rand: read failed"))
  | Some b =>
      let h := chars (hex_EncodeToString b) in
      ret (Ok (text (dashed (length h) h)))
  end.

Definition newID (prefix : string) : M Env string :=
  let! b := rand_Read 12 in
  match b with
  | None => let! t := time_Now in ret (prefix +:+ "_" +:+ Itoa t)
  | Some b => ret (prefix +:+ "_" +:+ hex_EncodeToString b)
  end.

(** ** Persistence helpers *)

Definition persistToken (tok : AccessToken) : M Store (result unit) :=
  exec (insert_token (tok_Value tok)
          (mkTokenRow (tok_DeviceID tok) (tok_IssuedAt tok) (tok_ExpiresAt tok))).

Definition getToken (value : string) : M Store (result AccessToken) :=
  let? row := exec (query (fun d => access_tokens d !! value)) in
  match row with
  | None => ret (Err ErrTokenInvalid)
  | Some r => ret (Ok (mkAccessToken value (tr_device_id r) (tr_expires_at r) (tr_issued_at r)))
  end.

(** Its error is ignored. *)
Definition deleteExpiredTokens (now : Z) : M Store unit :=
  let! _ := exec (fun d =>
    (Ok tt, set_access_tokens (filter (fun kv => ~ tr_expires_at kv.2 < now) (access_tokens d)) d)) in
  ret tt.

Definition device_row (d : Device) : DeviceRow :=
  mkDeviceRow (d_Name d) (d_PublicKey d) (d_State d) (d_PairedAt d) None None (d_CreatedAt d).

Definition persistDevice (d : Device) : M Store (result unit) :=
  exec (insert_device (d_ID d) (device_row d)).

Definition upd_device (d : Device) (r : DeviceRow) : DeviceRow :=
  mkDeviceRow (dr_name r) (dr_public_key r) (d_State d) (dr_paired_at r) (d_RevokedAt d)
    (dr_last_seen_at r) (dr_created_at r).

Definition updateDevice (d : Device) : M Store (result unit) :=
  let? _ := exec (update_key t_devices ["state"; "revoked_at"] devices set_devices
                    (upd_device d) (fun _ => true) (d_ID d)) in
  ret (Ok tt).

(** Any failure of the query is "not found". *)
Definition scanDevice (row : result (option (string * DeviceRow))) : result Device :=
  match row with
  | Err e => Err (ErrWrap "" ErrDeviceNotFound (": " +:+ error_Error e))
  | Ok None => Err (ErrWrap "" ErrDeviceNotFound (": " +:+ error_Error sql_ErrNoRows))
  | Ok (Some (id, r)) =>
      Ok (mkDevice id (dr_name r) (dr_public_key r) (dr_state r) (dr_paired_at r)
            (dr_revoked_at r) (dr_last_seen_at r) (dr_created_at r))
  end.

Definition getDeviceByID (id : string) : M Store (result Device) :=
  let! row := exec (query (fun d => pair id <$> devices d !! id)) in
  ret (scanDevice row).

Definition device_by_key (pubKey : string) (d : DB) : option (string * DeviceRow) :=
  head (filter (fun kv => dr_public_key kv.2 = pubKey) (map_to_list (devices d))).

Definition getDeviceByKey (pubKey : string) : M Store (result Device) :=
  let! row := exec (query (device_by_key pubKey)) in
  ret (scanDevice row).

(** ** The service *)

(** Spent challenges are evicted; at the cap the whole map is replaced. *)
Definition evict (now : Z) (m : gmap string Challenge) : gmap string Challenge :=
  let m := filter (fun kv => ~ (ch_Used kv.2 = true \/ ch_ExpiresAt kv.2 < now)) m in
  if decide (maxChallenges <= size m)%nat then ∅ else m.

Definition Service_CreateChallenge (ttl : Z) : M Service (result Challenge) :=
  let? code := in_store (on_env generateChallengeCode) orelse wrap "generating challenge code" in
  let! now := in_store (on_env time_Now) in
  let ch := mkChallenge code (now + ttl) false now in
  modify (fun x => set_id_challenges (<[code := ch]> (evict now (id_challenges x))) x);;;
  ret (Ok ch).

Definition mark_used (ch : Challenge) : Challenge :=
  mkChallenge (ch_Code ch) (ch_ExpiresAt ch) true (ch_CreatedAt ch).

(** The locked region: consumes the challenge, and gives the time and the
    token lifetime to use. *)
Definition PairDevice_consume (code : string) : M Service (result (Z * Z)) :=
  let! x := get in
  match id_challenges x !! code with
  | None => ret (Err ErrChallengeNotFound)
  | Some ch =>
      let! now := in_store (on_env time_Now) in
      if ch_Used ch then ret (Err ErrChallengeExpired)
      else
        modify (fun x => set_id_challenges (<[code := mark_used ch]> (id_challenges x)) x);;;
        if decide (ch_ExpiresAt ch < now) then ret (Err ErrChallengeExpired)
        else ret (Ok (now, id_accessExpiry x))
  end.

Definition issueToken (deviceID : string) (now ttl : Z) : M Store (result AccessToken) :=
  let! value := on_env (newID "tok") in
  let tok := mkAccessToken value deviceID (now + ttl) now in
  deleteExpiredTokens now;;;
  let? _ := persistToken tok in
  ret (Ok tok).

(** Outside the lock: the device record and its first token. *)
Definition PairDevice_register (deviceName devicePubKey : string) (now expiry : Z)
    : M Store (result AccessToken) :=
  if decide (deviceName = "") then ret (Err (ErrNew "device name is required"))
  else if decide (devicePubKey = "") then ret (Err (ErrNew "device public key is required"))
  else
    let! id := on_env (newID "dev") in
    let device := mkDevice id deviceName devicePubKey DeviceStatePaired (Some now) None None
                    zero_time in
    let? _ := persistDevice device orelse wrap "persisting device" in
    let? token := issueToken id now expiry orelse wrap "issuing token" in
    ret (Ok token).

Definition Service_PairDevice (code deviceName devicePubKey : string)
    : M Service (result AccessToken) :=
  let? ne := PairDevice_consume code in
  in_store (PairDevice_register deviceName devicePubKey ne.1 ne.2).

Definition Service_RefreshToken (devicePubKey : string) : M Service (result AccessToken) :=
  let? dev := in_store (getDeviceByKey devicePubKey) in
  if decide (d_State dev = DeviceStateRevoked) then ret (Err ErrDeviceRevoked)
  else
    let! now := in_store (on_env time_Now) in
    let! ttl := gets id_accessExpiry in
    in_store (issueToken (d_ID dev) now ttl).

Definition Service_AuthorizeToken (token : string) : M Service (result string) :=
  let! now := in_store (on_env time_Now) in
  let? tok := in_store (getToken token) in
  if decide (tok_ExpiresAt tok < now) then ret (Err ErrTokenInvalid)
  else
    let! dev := in_store (getDeviceByID (tok_DeviceID tok)) in
    match dev with
    | Err _ => ret (Err ErrTokenInvalid)
    | Ok dev =>
        if decide (d_State dev = DeviceStateRevoked) then ret (Err ErrDeviceRevoked)
        else ret (Ok (tok_DeviceID tok))
    end.

Definition Service_AuthorizeWS (token : string) : M Service (result string) :=
  Service_AuthorizeToken token.

Definition Service_RevokeDevice (deviceID : string) : M Service (result unit) :=
  let? dev := in_store (getDeviceByID deviceID) in
  let! now := in_store (on_env time_Now) in
  in_store (updateDevice (set_d_revoked now dev)).

(** ** Sequences of calls *)

Inductive identity_op :=
  | ICreateChallenge (ttl : Z)
  | IPairDevice (code name key : string)
  | IRefreshToken (key : string)
  | IAuthorizeToken (token : string)
  | IRevokeDevice (id : string).

(** The codes of the challenges created are collected. *)
Definition run_identity_op (op : identity_op) (codes : list string) : M Service (list string) :=
  match op with
  | ICreateChallenge ttl =>
      let! r := Service_CreateChallenge ttl in
      ret (match r with Ok ch => ch_Code ch :: codes | Err _ => codes end)
  | IPairDevice code name key => let! _ := Service_PairDevice code name key in ret codes
  | IRefreshToken key => let! _ := Service_RefreshToken key in ret codes
  | IAuthorizeToken token => let! _ := Service_AuthorizeToken token in ret codes
  | IRevokeDevice id => let! _ := Service_RevokeDevice id in ret codes
  end.

Definition run_identity (ops : list identity_op) : M Service (list string) :=
  fold_each ops [] (fun codes op => run_identity_op op codes).

(** ** Invariants *)

Lemma wp_in_store {A} (m : M Store A) x Q :
  wp (in_store m) x Q <-> wp m (id_store x) (fun a s' => Q a (set_id_store s' x)).
Proof. unfold in_store. by rewrite wp_zoom. Qed.

(** Devices stay, with their key, and a revoked one stays revoked. *)
Definition devices_after (d d' : DB) : Prop :=
  forall id r, devices d !! id = Some r ->
  exists r', devices d' !! id = Some r' /\ dr_public_key r' = dr_public_key r /\
    (dr_state r = DeviceStateRevoked -> dr_state r' = DeviceStateRevoked).

#[export] Instance devices_after_preorder : PreOrder devices_after.
Proof.
  split.
  - intros d id r Hr. eauto.
  - intros d1 d2 d3 H1 H2 id r Hr. destruct (H1 id r Hr) as (r2 & Hr2 & Hk2 & Hs2).
    destruct (H2 id r2 Hr2) as (r3 & Hr3 & Hk3 & Hs3). exists r3.
    split; [done|]. split; [congruence|eauto].
Qed.

Lemma same_devices d d' : devices d' = devices d -> devices_after d d'.
Proof. intros H id r Hr. rewrite H. eauto. Qed.

Lemma rel_persistDevice dev : db_rel devices_after (persistDevice dev).
Proof.
  apply db_rel_exec; [apply _|]. intros d. unfold insert_device.
  case_decide as Hid; [reflexivity|]. case_decide; [reflexivity|].
  intros id r Hr. cbn. destruct (decide (d_ID dev = id)) as [Heq|Hne].
  - destruct Hid. rewrite Heq. by exists r.
  - rewrite lookup_insert_ne by done. eauto.
Qed.

Lemma rel_persistToken tok : db_rel devices_after (persistToken tok).
Proof.
  apply db_rel_exec; [apply _|]. intros d. unfold insert_token.
  case_decide; [reflexivity|]. case_match; [reflexivity|]. by apply same_devices.
Qed.

Lemma rel_deleteExpiredTokens now : db_rel devices_after (deleteExpiredTokens now).
Proof.
  apply db_rel_bind; [apply _| |intros; apply db_rel_ret, _].
  apply db_rel_exec; [apply _|]. intros d. by apply same_devices.
Qed.

Lemma rel_updateDevice now dev : db_rel devices_after (updateDevice (set_d_revoked now dev)).
Proof.
  apply db_rel_try_bind; [apply _| |intros; apply db_rel_ret, _].
  apply db_rel_exec; [apply _|]. intros d. unfold update_key. rewrite prepared_ok by done.
  destruct (devices d !! d_ID (set_d_revoked now dev)) as [r0|] eqn:E; [|reflexivity].
  intros id r Hr. cbn in *. destruct (decide (d_ID dev = id)) as [<-|Hne].
  - rewrite lookup_insert_eq. eexists. split; [done|]. rewrite Hr in E. by injection E as ->.
  - rewrite lookup_insert_ne by done. eauto.
Qed.

#[export] Hint Resolve rel_persistDevice rel_persistToken rel_deleteExpiredTokens
  rel_updateDevice : db_rel.

Lemma rel_issueToken id now ttl : db_rel devices_after (issueToken id now ttl).
Proof. unfold issueToken. auto with db_rel typeclass_instances. Qed.
#[export] Hint Resolve rel_issueToken : db_rel.
Lemma rel_register name key now expiry :
  db_rel devices_after (PairDevice_register name key now expiry).
Proof. unfold PairDevice_register. auto 10 with db_rel typeclass_instances. Qed.
Lemma rel_getToken v : db_rel devices_after (getToken v).
Proof. unfold getToken. auto with db_rel typeclass_instances. Qed.
Lemma rel_getDeviceByID id : db_rel devices_after (getDeviceByID id).
Proof. unfold getDeviceByID. auto with db_rel typeclass_instances. Qed.
Lemma rel_getDeviceByKey k : db_rel devices_after (getDeviceByKey k).
Proof. unfold getDeviceByKey. auto with db_rel typeclass_instances. Qed.
#[export] Hint Resolve rel_register rel_getToken rel_getDeviceByID rel_getDeviceByKey : db_rel.

(** A code that cannot pair any more. *)
Definition spent (code : string) (x : Service) : Prop :=
  forall ch, id_challenges x !! code = Some ch -> ch_Used ch = true.

(** What any call does: the map stays bounded, a spent code stays spent unless
    it is issued again, devices stay as [devices_after] says. *)
Record service_after (codes : list string) (x x' : Service) : Prop := mk_service_after {
  sa_bound : (size (id_challenges x) <= maxChallenges)%nat ->
             (size (id_challenges x') <= maxChallenges)%nat;
  sa_spent : forall code, spent code x -> code ∉ codes -> spent code x';
  sa_devices : devices_after (st_db (id_store x)) (st_db (id_store x'))
}.

Lemma service_after_refl codes x : service_after codes x x.
Proof. split; [done|done|reflexivity]. Qed.

Lemma service_after_trans codes codes' x1 x2 x3 : codes ⊆ codes' ->
  service_after codes x1 x2 -> service_after codes' x2 x3 -> service_after codes' x1 x3.
Proof.
  intros Hsub [Hb1 Hs1 Hd1] [Hb2 Hs2 Hd2]. split; [tauto| |by etransitivity].
  intros code Hc Hn. apply Hs2; [|done]. apply Hs1; [done|]. set_solver.
Qed.

(** Database work between changes of the map. *)
Lemma wp_store_part {A} (m : M Store A) x (Q : A -> Service -> Prop) :
  db_rel devices_after m ->
  (forall a s', devices_after (st_db (id_store x)) (st_db s') -> Q a (set_id_store s' x)) ->
  wp (in_store m) x Q.
Proof.
  intros Hm HQ. rewrite wp_in_store. eapply wp_db_rel; [exact Hm|]. intros a s'. apply HQ.
Qed.

Lemma after_store codes x s' : devices_after (st_db (id_store x)) (st_db s') ->
  service_after codes x (set_id_store s' x).
Proof. by split. Qed.

Lemma evict_bound now m : (size (evict now m) < maxChallenges)%nat.
Proof. unfold evict. case_decide; [|lia]. rewrite map_size_empty. unfold maxChallenges. lia. Qed.

Lemma evict_lookup now m code ch : evict now m !! code = Some ch -> m !! code = Some ch.
Proof.
  unfold evict. case_decide; [by rewrite lookup_empty|]. by intros [? _]%map_lookup_filter_Some.
Qed.

Lemma wp_CreateChallenge ttl codes x :
  wp (Service_CreateChallenge ttl) x (fun r x' =>
    service_after (match r with Ok ch => ch_Code ch :: codes | Err _ => codes end) x x').
Proof.
  unfold Service_CreateChallenge. wp_simp.
  apply wp_store_part; [auto with db_rel typeclass_instances|]. intros [code|e] s1 Hd1; wp_simp;
    [|by apply after_store].
  apply wp_store_part; [auto with db_rel typeclass_instances|]. cbn. intros now s2 Hd2. wp_simp.
  cbn. split; cbn.
  - intros _. pose proof (evict_bound now (id_challenges x)).
    rewrite map_size_insert. destruct (evict now (id_challenges x) !! code); cbn; lia.
  - intros c Hc Hn ch. cbn. rewrite lookup_insert_ne by (intros ->; apply Hn; left).
    intros Hch%evict_lookup. by apply Hc.
  - by etransitivity.
Qed.

(** Using a code, whatever comes of it, spends it. *)
Lemma wp_consume code codes x (Q : result (Z * Z) -> Service -> Prop) :
  (forall r x', service_after codes x x' -> spent code x' ->
     (spent code x -> exists e, r = Err e) ->
     (forall now expiry, r = Ok (now, expiry) -> exists ch, id_challenges x !! code = Some ch /\
        ch_Used ch = false /\ now <= ch_ExpiresAt ch /\ expiry = id_accessExpiry x) ->
     Q r x') ->
  wp (PairDevice_consume code) x Q.
Proof.
  intros HQ. unfold PairDevice_consume. wp_simp.
  destruct (id_challenges x !! code) as [ch|] eqn:E; wp_simp.
  2: { apply HQ; [apply service_after_refl|intros ch Hch; congruence|by eauto|done]. }
  apply wp_store_part; [auto with db_rel typeclass_instances|]. intros now s1 Hd1.
  destruct (ch_Used ch) eqn:Hu; wp_simp.
  { apply HQ; [by apply after_store| |by eauto|done]. intros ch' Hch'. cbn in Hch'. congruence. }
  cbn.
  assert (Ha : service_after codes x (set_id_challenges (<[code:=mark_used ch]> (id_challenges x))
                 (set_id_store s1 x))).
  { split; cbn; [|intros c Hc Hn ch'|done].
    - rewrite map_size_insert, E. done.
    - cbn. destruct (decide (code = c)) as [<-|Hne].
      + rewrite lookup_insert_eq. by intros [= <-].
      + rewrite lookup_insert_ne by done. apply Hc. }
  assert (Hsp : spent code (set_id_challenges (<[code:=mark_used ch]> (id_challenges x))
                 (set_id_store s1 x))).
  { intros ch'. cbn. rewrite lookup_insert_eq. by intros [= <-]. }
  case_decide as Hx; wp_simp; apply HQ; try done.
  - eauto.
  - intros Hsx. by rewrite (Hsx ch E) in Hu.
  - intros n e [= <- <-]. exists ch. split; [done|]. split; [done|]. split; [lia|done].
Qed.

Lemma wp_identity_op op codes x :
  wp (run_identity_op op codes) x (fun codes' x' => codes ⊆ codes' /\ service_after codes' x x').
Proof.
  assert (Hstore : forall A (m : M Store A) x0, service_after codes x x0 ->
    db_rel devices_after m ->
    wp (in_store m) x0 (fun _ x' => service_after codes x x')).
  { intros A m x0 H0 Hm. apply wp_store_part; [done|]. intros a s' Hd.
    eapply service_after_trans; [reflexivity|exact H0|]. by apply after_store. }
  destruct op as [ttl|code name key|key|token|id]; cbn; wp_simp.
  - eapply wp_mono; [apply (wp_CreateChallenge ttl codes)|]. cbn. intros [ch|e] x' Ha; wp_simp;
      (split; [set_solver|done]).
  - unfold Service_PairDevice. wp_simp. apply (wp_consume code codes).
    intros [[now expiry]|e] x1 Ha _ _ _; wp_simp; [|by split].
    eapply wp_mono; [apply Hstore; [exact Ha|auto with db_rel]|]. cbn. intros. wp_simp. by split.
  - unfold Service_RefreshToken. wp_simp.
    eapply wp_mono; [apply Hstore; [apply service_after_refl|auto with db_rel]|]. cbn.
    intros [dev|e] x1 Ha; wp_simp; [|by split]. case_decide; wp_simp; [by split|].
    eapply wp_mono; [apply Hstore; [exact Ha|auto with db_rel typeclass_instances]|]. cbn.
    intros now x2 Ha2. wp_simp.
    eapply wp_mono; [apply Hstore; [exact Ha2|auto with db_rel]|]. cbn. intros. wp_simp. by split.
  - unfold Service_AuthorizeToken. wp_simp.
    eapply wp_mono; [apply Hstore; [apply service_after_refl|
      auto with db_rel typeclass_instances]|]. cbn. intros now x1 Ha1. wp_simp.
    eapply wp_mono; [apply Hstore; [exact Ha1|auto with db_rel]|]. cbn.
    intros [tok|e] x2 Ha2; wp_simp; [|by split]. case_decide; wp_simp; [by split|].
    eapply wp_mono; [apply Hstore; [exact Ha2|auto with db_rel]|]. cbn.
    intros [dev|e] x3 Ha3; wp_simp; [case_decide; wp_simp|]; by split.
  - unfold Service_RevokeDevice. wp_simp.
    eapply wp_mono; [apply Hstore; [apply service_after_refl|auto with db_rel]|]. cbn.
    intros [dev|e] x1 Ha1; wp_simp; [|by split].
    eapply wp_mono; [apply Hstore; [exact Ha1|auto with db_rel typeclass_instances]|]. cbn.
    intros now x2 Ha2. wp_simp.
    eapply wp_mono; [apply Hstore; [exact Ha2|auto with db_rel]|]. cbn. intros. wp_simp. by split.
Qed.

Lemma wp_identity ops x :
  wp (run_identity ops) x (fun codes x' => service_after codes x x').
Proof.
  apply (wp_fold_each _ _ _ (fun _ codes x' => service_after codes x x')).
  - apply service_after_refl.
  - intros op rest codes x' Ha. eapply wp_mono; [apply wp_identity_op|]. cbn.
    intros codes' x2 [Hsub Ha2]. by eapply service_after_trans.
  - done.
Qed.

(** ** Specifications *)

Lemma wp_getDeviceByID id s (Q : result Device -> Store -> Prop) :
  (forall e env', env_after (st_env s) env' -> faulty (st_env s) ->
     Q (Err e) (mkStore (st_db s) env')) ->
  (forall env', env_after (st_env s) env' -> devices (st_db s) !! id = None ->
     Q (Err (ErrWrap "" ErrDeviceNotFound (": " +:+ error_Error sql_ErrNoRows)))
       (mkStore (st_db s) env')) ->
  (forall r env', env_after (st_env s) env' -> devices (st_db s) !! id = Some r ->
     Q (Ok (mkDevice id (dr_name r) (dr_public_key r) (dr_state r) (dr_paired_at r)
              (dr_revoked_at r) (dr_last_seen_at r) (dr_created_at r))) (mkStore (st_db s) env')) ->
  wp (getDeviceByID id) s Q.
Proof.
  intros HF HN HS. unfold getDeviceByID. wp_simp.
  apply wp_exec_query; [intros; wp_simp; by apply HF|]. intros env' He. wp_simp.
  destruct (devices (st_db s) !! id) as [r|] eqn:E; cbn; [by apply HS|by apply HN].
Qed.

Lemma wp_getToken v s (Q : result AccessToken -> Store -> Prop) :
  (forall e env', env_after (st_env s) env' -> faulty (st_env s) ->
     Q (Err e) (mkStore (st_db s) env')) ->
  (forall env', env_after (st_env s) env' -> access_tokens (st_db s) !! v = None ->
     Q (Err ErrTokenInvalid) (mkStore (st_db s) env')) ->
  (forall r env', env_after (st_env s) env' -> access_tokens (st_db s) !! v = Some r ->
     Q (Ok (mkAccessToken v (tr_device_id r) (tr_expires_at r) (tr_issued_at r)))
       (mkStore (st_db s) env')) ->
  wp (getToken v) s Q.
Proof.
  intros HF HN HS. unfold getToken. wp_simp. apply wp_exec_query; [done|]. intros env' He.
  destruct (access_tokens (st_db s) !! v) as [r|] eqn:E; wp_simp; [by apply HS|by apply HN].
Qed.

(** When a token is good for a device, at a time. *)
Definition authorizes (d : DB) (now : Z) (token dev : string) : Prop :=
  exists t r, access_tokens d !! token = Some t /\ tr_device_id t = dev /\
    now <= tr_expires_at t /\ devices d !! dev = Some r /\ dr_state r <> DeviceStateRevoked.

(** The clock reading the next call gets. *)
Definition clock_of (x : Service) : Z := (time_Now (st_env (id_store x))).1.

Lemma wp_AuthorizeToken token x :
  wp (Service_AuthorizeToken token) x (fun r x' =>
    st_db (id_store x') = st_db (id_store x) /\
    (forall dev, r = Ok dev -> authorizes (st_db (id_store x)) (clock_of x) token dev) /\
    (quiet (st_env (id_store x)) ->
     forall dev, authorizes (st_db (id_store x)) (clock_of x) token dev -> r = Ok dev)).
Proof.
  unfold Service_AuthorizeToken, authorizes. wp_simp. rewrite wp_in_store.
  unfold on_env. rewrite wp_zoom. unfold wp at 1. cbn. fold (clock_of x).
  set (now := clock_of x). wp_simp. rewrite wp_in_store. cbn.
  apply wp_getToken; cbn; [intros e env1 He Hf|intros env1 He Ht|intros t env1 He Ht]; wp_simp; cbn.
  - split; [done|]. split; [done|]. intros Hq. by destruct (quiet_not_faulty _ Hq).
  - split; [done|]. split; [done|]. intros _ dev (t & r & Ht' & _). congruence.
  - case_decide as Hx; wp_simp; cbn.
    { split; [done|]. split; [done|]. intros _ dev (t' & r & Ht' & _ & Hle & _).
      rewrite Ht in Ht'. injection Ht' as <-. lia. }
    rewrite wp_in_store. cbn.
    apply wp_getDeviceByID; cbn; [intros e env2 He2 Hf|intros env2 He2 Hd|intros r env2 He2 Hd];
      wp_simp; cbn.
    + split; [done|]. split; [done|]. intros Hq.
      exfalso. eapply quiet_not_faulty; [exact Hq|]. eapply faulty_before; [|exact Hf].
      eapply env_after_preorder; [apply env_after_tick|exact He].
    + split; [done|]. split; [done|]. intros _ dev (t' & r & Ht' & <- & _ & Hr & _).
      rewrite Ht in Ht'. injection Ht' as <-. congruence.
    + destruct (decide (dr_state r = DeviceStateRevoked)) as [Hs|Hs]; wp_simp; cbn;
        (split; [done|]); split.
      * done.
      * intros _ dev (t' & r' & Ht' & <- & _ & Hr & Hn). rewrite Ht in Ht'.
        injection Ht' as <-. congruence.
      * intros dev [= <-]. exists t, r. split; [done|]. split; [done|]. split; [lia|done].
      * intros _ dev (t' & r' & Ht' & <- & _). rewrite Ht in Ht'. by injection Ht' as <-.
Qed.

(** A revoked device. *)
Definition revoked (id : string) (d : DB) : Prop :=
  exists r, devices d !! id = Some r /\ dr_state r = DeviceStateRevoked.

Lemma revoked_after id d d' : revoked id d -> devices_after d d' -> revoked id d'.
Proof. intros (r & Hr & Hs) Ha. destruct (Ha id r Hr) as (r' & Hr' & _ & Hs'). exists r'. eauto. Qed.

Lemma wp_RevokeDevice id x :
  wp (Service_RevokeDevice id) x (fun r x' => r = Ok tt -> revoked id (st_db (id_store x'))).
Proof.
  unfold Service_RevokeDevice. wp_simp. rewrite wp_in_store.
  apply wp_getDeviceByID; [done|done|]. intros r env1 He1 Hr. wp_simp. rewrite wp_in_store. cbn.
  apply wp_on_env; [auto with env|]. cbn. intros now env2 He2. wp_simp. rewrite wp_in_store. cbn.
  unfold updateDevice. wp_simp. apply wp_update_key; [done|done|..]; cbn.
  - intros r0 env3 _ Hr0 _. wp_simp. intros _. exists (upd_device (set_d_revoked now
      (mkDevice id (dr_name r) (dr_public_key r) (dr_state r) (dr_paired_at r)
         (dr_revoked_at r) (dr_last_seen_at r) (dr_created_at r))) r0). cbn.
    by rewrite lookup_insert_eq.
  - intros env3 _ Hn. by specialize (Hn r Hr).
Qed.

Lemma wp_issueToken id now ttl s (Q : result AccessToken -> Store -> Prop) :
  (forall e d env', env_after (st_env s) env' -> Q (Err e) (mkStore d env')) ->
  (forall value d env', env_after (st_env s) env' ->
     access_tokens d !! value = Some (mkTokenRow id now (now + ttl)) ->
     devices d = devices (st_db s) ->
     Q (Ok (mkAccessToken value id (now + ttl) now)) (mkStore d env')) ->
  wp (issueToken id now ttl) s Q.
Proof.
  intros HF HS. unfold issueToken. wp_simp.
  apply wp_on_env.
  { unfold newID. apply reads_bind; [auto with env|]. intros [b|]; [apply reads_ret|].
    apply reads_bind; auto with env. }
  intros value env1 He1. wp_simp.
  assert (Hins : forall d2 env2, env_after (st_env s) env2 -> devices d2 = devices (st_db s) ->
    wp (let? _ := persistToken (mkAccessToken value id (now + ttl) now) in
        ret (Ok (mkAccessToken value id (now + ttl) now))) (mkStore d2 env2) Q).
  { intros d2 env2 He2 Hd2. wp_simp. apply wp_exec; cbn.
    { intros e env3 He3 _. apply HF. solve_env. }
    intros r d3 env3 He3. unfold insert_token. case_decide; [intros [= <- <-]; apply HF; solve_env|].
    case_match; intros [= <- <-]; [apply HF; solve_env|]. wp_simp.
    apply HS; [solve_env|cbn; apply lookup_insert_eq|done]. }
  unfold deleteExpiredTokens. wp_simp.
  apply wp_exec; cbn.
  - intros e env2 He2 _. specialize (Hins (st_db s) env2). rewrite wp_try_bind in Hins.
    wp_simp. apply Hins; [solve_env|done].
  - intros r d2 env2 He2 [= <- <-]. wp_simp. specialize (Hins
      (set_access_tokens (filter (fun kv => ~ tr_expires_at kv.2 < now)
         (access_tokens (st_db s))) (st_db s)) env2).
    rewrite wp_try_bind in Hins. apply Hins; [solve_env|done].
Qed.

Lemma wp_RefreshToken key x :
  wp (Service_RefreshToken key) x (fun r x' => forall tok, r = Ok tok ->
    ~ revoked (tok_DeviceID tok) (st_db (id_store x))).
Proof.
  unfold Service_RefreshToken, getDeviceByKey. wp_simp. rewrite wp_in_store. wp_simp.
  apply wp_exec_query; [done|]. intros env1 He1. wp_simp.
  destruct (device_by_key key (st_db (id_store x))) as [[id r]|] eqn:E; [|done]. cbn.
  destruct (decide (dr_state r = DeviceStateRevoked)) as [|Hs]; wp_simp; [done|].
  assert (Hr : devices (st_db (id_store x)) !! id = Some r).
  { unfold device_by_key in E. apply head_Some_elem_of in E.
    apply list_elem_of_filter in E as [_ E]. by apply elem_of_map_to_list in E. }
  rewrite wp_in_store. apply wp_on_env; [auto with env|]. cbn. intros now env2 He2. wp_simp.
  rewrite wp_in_store. apply wp_issueToken; [done|].
  intros value d env3 _ _ _ tok [= <-] (r' & Hr' & Hs'). cbn in Hr'. congruence.
Qed.

Lemma wp_PairDevice code name key x :
  wp (Service_PairDevice code name key) x (fun r x' => forall tok, r = Ok tok ->
    (exists ch, id_challenges x !! code = Some ch /\ ch_Used ch = false /\
       tok_IssuedAt tok <= ch_ExpiresAt ch) /\
    tok_ExpiresAt tok = tok_IssuedAt tok + id_accessExpiry x /\
    access_tokens (st_db (id_store x')) !! tok_Value tok =
      Some (mkTokenRow (tok_DeviceID tok) (tok_IssuedAt tok) (tok_ExpiresAt tok)) /\
    devices (st_db (id_store x)) !! tok_DeviceID tok = None /\
    devices (st_db (id_store x')) !! tok_DeviceID tok =
      Some (mkDeviceRow name key DeviceStatePaired (Some (tok_IssuedAt tok)) None None zero_time)).
Proof.
  unfold Service_PairDevice. wp_simp. unfold PairDevice_consume. wp_simp.
  destruct (id_challenges x !! code) as [ch|] eqn:E; wp_simp; [|done].
  rewrite wp_in_store. apply wp_on_env; [auto with env|]. cbn. intros now env1 He1. wp_simp.
  destruct (ch_Used ch) eqn:Hu; wp_simp; [done|]. cbn.
  destruct (decide (ch_ExpiresAt ch < now)) as [|Hx]; wp_simp; [done|].
  rewrite wp_in_store. cbn. unfold PairDevice_register.
  case_decide; wp_simp; [done|]. case_decide; wp_simp; [done|].
  apply wp_on_env.
  { unfold newID. apply reads_bind; [auto with env|]. intros [b|]; [apply reads_ret|].
    apply reads_bind; auto with env. }
  cbn. intros id env2 He2. wp_simp. apply wp_exec; [done|]. cbn. intros r d env3 He3.
  unfold insert_device. cbn. case_decide as Hid; [by intros [= <- <-]|].
  case_decide; [by intros [= <- <-]|]. intros [= <- <-]. wp_simp.
  apply wp_issueToken; [done|]. cbn. intros value d env4 He4 Htok Hdev tok [= <-]. cbn.
  split; [exists ch; split; [done|split; [done|lia]]|]. split; [done|]. split; [done|].
  rewrite Hdev. split; [by apply eq_None_not_Some|apply lookup_insert_eq].
Qed.

(** ** Properties *)

(** A service with one device paired. *)
Definition demo_code : string :=
  match (Service_CreateChallenge DefaultChallengeTTL (NewService demo_store)).1 with
  | Ok ch => ch_Code ch
  | Err _ => ""
  end.
Definition demo_challenged : Service :=
  (Service_CreateChallenge DefaultChallengeTTL (NewService demo_store)).2.
Definition demo_paired : Service := (Service_PairDevice demo_code "phone" "key-1" demo_challenged).2.
Definition demo_token : AccessToken :=
  match (Service_PairDevice demo_code "phone" "key-1" demo_challenged).1 with
  | Ok tok => tok
  | Err _ => mkAccessToken "" "" 0 0
  end.
Definition demo_revoked : Service := (Service_RevokeDevice (tok_DeviceID demo_token) demo_paired).2.

(** A pairing challenge is single use.  After any attempt to pair with a
    code, successful or not, and whatever calls follow, pairing with that code
    fails again unless a new challenge was issued under the same code. *)
Theorem challenge_single_use code name1 key1 name2 key2 ops x r1 x1 codes x2 :
  Service_PairDevice code name1 key1 x = (r1, x1) ->
  run_identity ops x1 = (codes, x2) -> code ∉ codes ->
  exists e, (Service_PairDevice code name2 key2 x2).1 = Err e.
Proof.
  intros E1 E2 Hn.
  assert (H1 : spent code x1).
  { wp_start E1. unfold Service_PairDevice. wp_simp. apply (wp_consume code []).
    intros [[now ex]|e] x' _ Hsp _ _; wp_simp; [|done]. rewrite wp_in_store. cbn. apply wp_intro.
    intros a s' _ _. exact Hsp. }
  assert (H2 : spent code x2).
  { revert Hn. wp_start E2. eapply wp_mono; [apply wp_identity|]. cbn.
    intros codes' x' Ha <- Hn. by apply (sa_spent _ _ _ Ha). }
  change (wp (Service_PairDevice code name2 key2) x2 (fun r _ => exists e, r = Err e)).
  unfold Service_PairDevice. wp_simp. apply (wp_consume code []).
  intros r x' _ _ Hr _. destruct (Hr H2) as [e ->]. eauto.
Qed.

Lemma challenge_single_use_witness :
  is_ok (Service_PairDevice demo_code "phone" "key-1" demo_challenged).1 = true /\
  exists e, (Service_PairDevice demo_code "thief" "key-2"
    (run_identity [IRefreshToken "key-1"; IAuthorizeToken "none"] demo_paired).2).1 = Err e.
Proof.
  split; [vm_compute; reflexivity|].
  apply (challenge_single_use demo_code "phone" "key-1" "thief" "key-2"
           [IRefreshToken "key-1"; IAuthorizeToken "none"] demo_challenged
           (Service_PairDevice demo_code "phone" "key-1" demo_challenged).1 demo_paired []).
  - by apply run_answer.
  - apply run_answer. vm_compute. reflexivity.
  - apply not_elem_of_nil.
Defined.

(** C34: What authorizes.  [AuthorizeToken] changes no table; it answers a
    device only for a stored, unexpired token of a stored, unrevoked device,
    and unless the driver fails it does answer then. *)
Theorem AuthorizeToken_exact token x :
  let r := (Service_AuthorizeToken token x).1 in
  st_db (id_store (Service_AuthorizeToken token x).2) = st_db (id_store x) /\
  (forall dev, r = Ok dev -> authorizes (st_db (id_store x)) (clock_of x) token dev) /\
  (quiet (st_env (id_store x)) ->
   forall dev, authorizes (st_db (id_store x)) (clock_of x) token dev -> r = Ok dev).
Proof. exact (wp_AuthorizeToken token x). Qed.

(** C17: Revocation is final.  After [RevokeDevice] succeeds, no sequence of
    calls makes any token authorize that device again, and no refresh issues a
    token for it. *)
Theorem revoked_device_stays_out id x x1 ops codes x2 :
  Service_RevokeDevice id x = (Ok tt, x1) -> run_identity ops x1 = (codes, x2) ->
  (forall token, (Service_AuthorizeToken token x2).1 <> Ok id) /\
  (forall key tok, (Service_RefreshToken key x2).1 = Ok tok -> tok_DeviceID tok <> id).
Proof.
  intros E1 E2.
  assert (H1 : revoked id (st_db (id_store x1))).
  { revert E2. wp_start E1. eapply wp_mono; [apply wp_RevokeDevice|]. cbn.
    intros r x' Hr Heq _. by apply Hr. }
  assert (H2 : revoked id (st_db (id_store x2))).
  { wp_start E2. eapply wp_mono; [apply wp_identity|]. cbn. intros codes' x' Ha _.
    eapply revoked_after; [exact H1|apply Ha]. }
  split.
  - intros token Hok. pose proof (wp_AuthorizeToken token x2) as (_ & Hs & _).
    destruct (Hs id Hok) as (t & r & _ & _ & _ & Hr & Hn). destruct H2 as (r' & Hr' & Hs').
    congruence.
  - intros key tok Hok Heq. pose proof (wp_RefreshToken key x2 tok Hok) as Hn. by rewrite Heq in Hn.
Qed.

Lemma revoked_device_stays_out_witness :
  is_ok (Service_AuthorizeToken (tok_Value demo_token) demo_paired).1 = true /\
  let x2 := (run_identity [IRefreshToken "key-1"] demo_revoked).2 in
  (forall token, (Service_AuthorizeToken token x2).1 <> Ok (tok_DeviceID demo_token)) /\
  (forall key tok, (Service_RefreshToken key x2).1 = Ok tok ->
     tok_DeviceID tok <> tok_DeviceID demo_token).
Proof.
  split; [vm_compute; reflexivity|].
  apply (revoked_device_stays_out (tok_DeviceID demo_token) demo_paired demo_revoked
           [IRefreshToken "key-1"] []); apply run_answer; vm_compute; reflexivity.
Defined.

(** Pairing grants access.  A successful [PairDevice] used a pending,
    unexpired challenge, created a new device and a token with the configured
    lifetime, and until the token expires it authorizes that device if the
    driver does not fail. *)
Theorem paired_token_authorizes code name key x tok x1 :
  Service_PairDevice code name key x = (Ok tok, x1) ->
  quiet (st_env (id_store x1)) -> clock_of x1 <= tok_ExpiresAt tok ->
  (exists ch, id_challenges x !! code = Some ch /\ ch_Used ch = false /\
     tok_IssuedAt tok <= ch_ExpiresAt ch) /\
  tok_ExpiresAt tok = tok_IssuedAt tok + id_accessExpiry x /\
  devices (st_db (id_store x)) !! tok_DeviceID tok = None /\
  (Service_AuthorizeToken (tok_Value tok) x1).1 = Ok (tok_DeviceID tok).
Proof.
  intros E Hq Hle. pose proof (wp_elim _ _ _ _ _ (wp_PairDevice code name key x) E tok eq_refl)
    as (Hch & Hexp & Htok & Hnew & Hdev).
  split; [done|]. split; [done|]. split; [done|].
  pose proof (wp_AuthorizeToken (tok_Value tok) x1) as (_ & _ & Hs). apply Hs; [done|].
  eexists _, _. split; [exact Htok|]. split; [done|]. split; [exact Hle|].
  split; [exact Hdev|]. done.
Qed.

Lemma paired_token_authorizes_witness :
  (exists ch, id_challenges demo_challenged !! demo_code = Some ch /\ ch_Used ch = false /\
     tok_IssuedAt demo_token <= ch_ExpiresAt ch) /\
  tok_ExpiresAt demo_token = tok_IssuedAt demo_token + id_accessExpiry demo_challenged /\
  devices demo_db !! tok_DeviceID demo_token = None /\
  (Service_AuthorizeToken (tok_Value demo_token) demo_paired).1 = Ok (tok_DeviceID demo_token).
Proof.
  apply (paired_token_authorizes demo_code "phone" "key-1" demo_challenged demo_token demo_paired).
  - apply run_answer. vm_compute. reflexivity.
  - intros n. reflexivity.
  - vm_compute. discriminate.
Defined.

(** The challenge map is bounded, at a price.  No sequence of calls makes
    it larger than the cap; and when the pending challenges reach the cap, a
    new challenge drops every one of them, not the oldest. *)
Theorem challenges_bounded s ops ttl :
  let x := (run_identity ops (NewService s)).2 in
  (size (id_challenges x) <= maxChallenges)%nat /\
  forall ch, (Service_CreateChallenge ttl x).1 = Ok ch ->
    let pending := filter (fun kv => ~ (ch_Used kv.2 = true \/ ch_ExpiresAt kv.2 < ch_CreatedAt ch))
                     (id_challenges x) in
    id_challenges (Service_CreateChallenge ttl x).2 =
      if decide (maxChallenges <= size pending)%nat then {[ch_Code ch := ch]}
      else <[ch_Code ch := ch]> pending.
Proof.
  intros x. split.
  - pose proof (wp_identity ops (NewService s)) as Ha. apply (sa_bound _ _ _ Ha).
    cbn. rewrite map_size_empty. lia.
  - intros ch Hch pending.
    assert (Hw : wp (Service_CreateChallenge ttl) x (fun r x' => forall ch, r = Ok ch ->
      id_challenges x' = <[ch_Code ch := ch]> (evict (ch_CreatedAt ch) (id_challenges x)))).
    { unfold Service_CreateChallenge. wp_simp. rewrite wp_in_store. apply wp_intro.
      intros [code|e] s1 _; wp_simp; [|done]. rewrite wp_in_store. apply wp_intro.
      intros now s2 _. wp_simp. by intros ? [= <-]. }
    rewrite (Hw ch Hch). unfold evict. fold pending. by case_decide.
Qed.
