(* ===== verification/Ws.v ===== *)
(** * The WebSocket gateway
      (src/internal/ws/hub.go, client.go and the frame logic of handler.go)

    The hub's subscriptions and the clients' queues.  A client's outbound
    channel is the list of everything it ever accepted, with the number of
    envelopes its writer has taken; the writer runs concurrently, so before
    each send it takes as many as an oracle says, and where a select has two
    ready branches the oracle chooses.  The socket itself is not modelled. *)

From S2P Require Import Prelude Env Json Domain Schema SessionRepo Journal.

(** ** The journal the hub replays from *)

Class EventJournal (J : Type) := mkEventJournal {
  ej_Replay : string -> Z -> Z -> M J (result CursorResult)
}.

(** What the hub relies on.  [ej_events] is the journal of a session; a page
    asked for inside it is the next events; replaying leaves it as it is. *)
Class EventJournalLaws (J : Type) `{EventJournal J} := {
  ej_ok : J -> Prop;
  ej_events : J -> string -> list Event;
  ej_sequence : forall j sid i e, ej_ok j -> ej_events j sid !! i = Some e ->
    e_Sequence e = Z.of_nat i + 1 /\ e_SessionID e = sid;
  ej_Replay_law : forall sid after limit j, ej_ok j ->
    0 <= after <= Z.of_nat (length (ej_events j sid)) ->
    let '(r, j') := ej_Replay sid after limit j in
    ej_ok j' /\ (forall k, ej_events j' k = ej_events j k) /\
    forall x, r = Ok x -> cr_ResyncRequired x = false /\
      cr_Events x = take (Z.to_nat (clamp_limit limit)) (drop (Z.to_nat after) (ej_events j sid))
}.

(** The cursor repository, with its retention, is such a journal. *)
Record CursorJournal := mkCursorJournal { cj_retention : Z; cj_store : Store }.

#[export] Instance CursorRepository_journal : EventJournal CursorJournal := {|
  ej_Replay sid after limit := fun j =>
    let '(r, s) := CursorRepository_Replay (cj_retention j) sid after limit (cj_store j) in
    (r, mkCursorJournal (cj_retention j) s)
|}.

#[export] Instance CursorRepository_journal_laws : EventJournalLaws CursorJournal.
Proof.
  refine {| ej_ok j := journal_ok (st_db (cj_store j));
            ej_events j sid := row_event <$> journal (st_db (cj_store j)) sid |}.
  - intros j sid i e Hok Hi. rewrite list_lookup_fmap in Hi.
    destruct (journal (st_db (cj_store j)) sid !! i) as [r|] eqn:E; [|done]. injection Hi as <-.
    split; [exact (journal_lookup _ _ _ _ Hok E)|].
    apply list_elem_of_lookup_2, list_elem_of_filter in E. apply E.
  - intros sid after limit j Hok Ha. cbn. rewrite length_fmap in Ha.
    assert (Hw : wp (CursorRepository_Replay (cj_retention j) sid after limit) (cj_store j)
      (fun r s' => st_db s' = st_db (cj_store j) /\ forall x, r = Ok x ->
         cr_ResyncRequired x = false /\
         cr_Events x = (row_event <$> page (st_db (cj_store j)) sid after limit))).
    { apply wp_Replay; [done|done|done|]. intros more env' _ _. split; [done|].
      by intros x [= <-]. }
    unfold wp in Hw. destruct (CursorRepository_Replay _ _ _ _ _) as [r s']. cbn in *.
    destruct Hw as [-> Hr]. split; [done|]. split; [done|]. intros x ->.
    destruct (Hr x eq_refl) as [Hx ->]. split; [done|].
    unfold page. by rewrite fmap_take, fmap_drop.
Defined.

(** ** Messages *)

Record Envelope := mkEnvelope {
  en_Type : string;
  en_MessageID : string;
  en_OccurredAt : Z;
  en_SessionID : string;
  en_Sequence : Z;
  en_Payload : payload
}.

Record Cursor := mkCursor { cu_SessionID : string; cu_After : Z }.

Record ResyncRequired := mkResyncRequired { rs_SessionID : string; rs_After : Z }.

Record Hello := mkHello {
  he_Type : string;
  he_ProtocolVersion : Z;
  he_DeviceID : string;
  he_Cursors : list Cursor
}.

Definition event_envelope (ev : Event) : Envelope :=
  mkEnvelope (e_Type ev) (e_MessageID ev) (e_OccurredAt ev) (e_SessionID ev) (e_Sequence ev)
    (e_Payload ev).

(** The checks of [decodeHello] on a decoded message. *)
Definition decodeHello (h : result Hello) : result Hello :=
  match h with
  | Err e => Err e
  | Ok h =>
      if decide (he_Type h <> "hello")
      then Err (ErrNew ("expected hello envelope, got " +:+ he_Type h))
      else if decide (he_ProtocolVersion h <> 1)
      then Err (ErrNew "unsupported protocol version")
      else if decide (he_DeviceID h = "") then Err (ErrNew "device_id is required")
      else Ok h
  end.

Definition CloseNormal : Z := 4000.
Definition CloseBackpressure : Z := 4001.
Definition CloseProtocolError : Z := 4002.
Definition CloseUnauthorized : Z := 4003.
Definition CloseResyncRequired : Z := 4004.

Definition closeReason (code : Z) : string :=
  if decide (code = CloseBackpressure) then "client too slow; reconnect with cursor"
  else if decide (code = CloseUnauthorized) then "token invalid or revoked"
  else if decide (code = CloseProtocolError) then "protocol error"
  else if decide (code = CloseResyncRequired) then "cursor past retention; resync required"
  else "bye".

(** ** Clients *)

(** [c_sent] is everything put into [sendCh], of which the writer took
    [c_taken]; [c_pace] is the oracle: envelopes the writer takes before the
    next send, and the branch of a select with both ready. *)
Record client := mkClient {
  c_deviceID : string;
  c_sent : list Envelope;
  c_taken : nat;
  c_cap : nat;
  c_closed : bool;
  c_slow : bool;
  c_closeCode : Z;
  c_buffering : bool;
  c_buffer : list Envelope;
  c_pace : list (nat * bool)
}.

Definition newClient (deviceID : string) (sendBuffer : nat) (pace : list (nat * bool)) : client :=
  mkClient deviceID [] 0 sendBuffer false false CloseNormal false [] pace.

Definition set_c_sent (l : list Envelope) (c : client) : client :=
  mkClient (c_deviceID c) l (c_taken c) (c_cap c) (c_closed c) (c_slow c) (c_closeCode c)
    (c_buffering c) (c_buffer c) (c_pace c).
Definition set_c_writer (taken : nat) (pace : list (nat * bool)) (c : client) : client :=
  mkClient (c_deviceID c) (c_sent c) taken (c_cap c) (c_closed c) (c_slow c) (c_closeCode c)
    (c_buffering c) (c_buffer c) pace.
Definition set_c_buffer (b : bool) (l : list Envelope) (c : client) : client :=
  mkClient (c_deviceID c) (c_sent c) (c_taken c) (c_cap c) (c_closed c) (c_slow c) (c_closeCode c)
    b l (c_pace c).
Definition set_c_slow (c : client) : client :=
  mkClient (c_deviceID c) (c_sent c) (c_taken c) (c_cap c) (c_closed c) true CloseBackpressure
    (c_buffering c) (c_buffer c) (c_pace c).
Definition set_c_closed (c : client) : client :=
  mkClient (c_deviceID c) (c_sent c) (c_taken c) (c_cap c) true (c_slow c) (c_closeCode c)
    (c_buffering c) (c_buffer c) (c_pace c).

(** ** The hub: clients by reference, and who subscribes to what *)

Record Hub (J : Type) := mkHub {
  h_subs : gmap string (gset nat);
  h_clients : gmap nat client;
  h_journal : J;
  h_replayLimit : Z
}.
Arguments mkHub {J} _ _ _ _.
Arguments h_subs {J} _.
Arguments h_clients {J} _.
Arguments h_journal {J} _.
Arguments h_replayLimit {J} _.

Definition sendBuffer : nat := 256.

Section Hub.
Context {J : Type} `{EventJournal J}.

Definition NewHub (j : J) : Hub J := mkHub ∅ ∅ j 100.

Definition set_h_subs (m : gmap string (gset nat)) (h : Hub J) : Hub J :=
  mkHub m (h_clients h) (h_journal h) (h_replayLimit h).
Definition set_h_clients (m : gmap nat client) (h : Hub J) : Hub J :=
  mkHub (h_subs h) m (h_journal h) (h_replayLimit h).
Definition set_h_journal (j : J) (h : Hub J) : Hub J :=
  mkHub (h_subs h) (h_clients h) j (h_replayLimit h).

(** Changing one client in place. *)
Definition upd_client (c : nat) (f : client -> client) : M (Hub J) unit :=
  modify (fun h => set_h_clients (alter f c (h_clients h)) h).

Definition Hub_subscribe (c : nat) (sessionID : string) : M (Hub J) unit :=
  modify (fun h => set_h_subs
    (<[sessionID := {[c]} ∪ default ∅ (h_subs h !! sessionID)]> (h_subs h)) h).

(** Removing a client from a set of subscribers; an empty set goes. *)
Definition drop_sub (c : nat) (subs : gset nat) : option (gset nat) :=
  let subs := subs ∖ {[c]} in if decide (subs = ∅) then None else Some subs.

Definition Hub_unsubscribe (c : nat) : M (Hub J) unit :=
  modify (fun h => set_h_subs (omap (drop_sub c) (h_subs h)) h).

Definition Hub_unsubscribeSession (c : nat) (sessionID : string) : M (Hub J) unit :=
  modify (fun h => set_h_subs (partial_alter (fun o => o ≫= drop_sub c) sessionID (h_subs h)) h).

(** [closeOnce]: signal closed, then [onClose] unsubscribes. *)
Definition client_close (c : nat) : M (Hub J) unit :=
  let! h := get in
  match h_clients h !! c with
  | Some cl => if c_closed cl then ret tt else upd_client c set_c_closed;;; Hub_unsubscribe c
  | None => ret tt
  end.

Definition client_markSlow (c : nat) : M (Hub J) unit :=
  upd_client c set_c_slow;;; client_close c.

(** The writer's progress before the next select. *)
Definition writer_moves (cl : client) : client * bool :=
  match c_pace cl with
  | [] => (cl, false)
  | (n, b) :: p => (set_c_writer (min (length (c_sent cl)) (c_taken cl + n)) p cl, b)
  end.

(** [select { case sendCh <- env: ... case <-closed: ... default: ... }] *)
Inductive selected := Pushed | SawClosed | Full.

Definition push (env : Envelope) (cl : client) : client * selected :=
  let '(cl, choice) := writer_moves cl in
  let room := bool_decide (length (c_sent cl) - c_taken cl < c_cap cl)%nat in
  if room && (negb (c_closed cl) || choice) then (set_c_sent (c_sent cl ++ [env]) cl, Pushed)
  else if c_closed cl then (cl, SawClosed)
  else (cl, Full).

Definition client_push (c : nat) (env : Envelope) : M (Hub J) selected :=
  let! h := get in
  match h_clients h !! c with
  | Some cl =>
      let '(cl', r) := push env cl in
      modify (fun h => set_h_clients (<[c := cl']> (h_clients h)) h);;; ret r
  | None => ret SawClosed
  end.

Definition client_sendDirect (c : nat) (env : Envelope) : M (Hub J) unit :=
  let! h := get in
  match h_clients h !! c with
  | Some cl =>
      if c_closed cl then ret tt
      else
        let! r := client_push c env in
        match r with Full => client_markSlow c | _ => ret tt end
  | None => ret tt
  end.

Definition client_send (c : nat) (env : Envelope) : M (Hub J) unit :=
  let! h := get in
  match h_clients h !! c with
  | Some cl =>
      if c_closed cl then ret tt
      else if c_buffering cl
      then upd_client c (fun cl => set_c_buffer true (c_buffer cl ++ [env]) cl)
      else client_sendDirect c env
  | None => ret tt
  end.

Definition client_startBuffering (c : nat) : M (Hub J) unit :=
  upd_client c (set_c_buffer true []).

(** The loop over the buffer; it stops when it sees the client closed. *)
Fixpoint flush_loop (c : nat) (buffer : list Envelope) : M (Hub J) unit :=
  match buffer with
  | [] => ret tt
  | env :: rest =>
      let! r := client_push c env in
      match r with
      | Pushed => flush_loop c rest
      | SawClosed => ret tt
      | Full => client_markSlow c;;; flush_loop c rest
      end
  end.

Definition client_flushAndStopBuffering (c : nat) : M (Hub J) unit :=
  let! h := get in
  flush_loop c (match h_clients h !! c with Some cl => c_buffer cl | None => [] end);;;
  upd_client c (set_c_buffer false []).

(** ** Publishing and replaying *)

Definition Hub_Publish (ev : Event) : M (Hub J) unit :=
  let! h := get in
  for_each (elements (default ∅ (h_subs h !! e_SessionID ev)))
    (fun c => client_send c (event_envelope ev)).

Definition on_journal {A} (m : M J A) : M (Hub J) A := zoom h_journal set_h_journal m.

(** One cursor's turn: the resynchronisation it asks for, if any. *)
Definition replay_cursor (c : nat) (cur : Cursor) : M (Hub J) (list ResyncRequired) :=
  let! h := get in
  let! r := on_journal (ej_Replay (cu_SessionID cur) (cu_After cur) (h_replayLimit h)) in
  match r with
  | Err _ => Hub_unsubscribeSession c (cu_SessionID cur);;; ret []
  | Ok x =>
      if cr_ResyncRequired x then
        Hub_unsubscribeSession c (cu_SessionID cur);;;
        ret [mkResyncRequired (cu_SessionID cur) (cu_After cur)]
      else
        for_each (cr_Events x) (fun ev => client_sendDirect c (event_envelope ev));;;
        ret []
  end.

(** The first part: from here on live events are captured. *)
Definition replay_begin (c : nat) (cursors : list Cursor) : M (Hub J) unit :=
  client_startBuffering c;;;
  for_each cursors (fun cur => Hub_subscribe c (cu_SessionID cur)).

Definition Hub_replayAndSubscribe (c : nat) (cursors : list Cursor)
    : M (Hub J) (list ResyncRequired) :=
  replay_begin c cursors;;;
  let! resyncs := fold_each cursors [] (fun resyncs cur =>
    let! r := replay_cursor c cur in ret (resyncs ++ r)) in
  client_flushAndStopBuffering c;;;
  ret resyncs.

(** The resync frames the handler sends after the replay. *)
Definition resync_envelope (r : ResyncRequired) : Envelope :=
  mkEnvelope "resync_required" "" zero_time (rs_SessionID r) (rs_After r)
    [("session_id", JStr (rs_SessionID r)); ("after", JNum (rs_After r))].

Definition Handler_afterHello (c : nat) (hello : Hello) : M (Hub J) unit :=
  let! resyncs := Hub_replayAndSubscribe c (he_Cursors hello) in
  for_each resyncs (fun r => client_send c (resync_envelope r)).

Definition Hub_SubscriberCount (sessionID : string) (h : Hub J) : Z :=
  Z.of_nat (size (default ∅ (h_subs h !! sessionID))).

End Hub.

(** ** One client through the replay window *)

Section Window.
Context {J : Type} `{EventJournal J} (c : nat) (sid : string).
Implicit Types h : Hub J.

Definition subscribed h : Prop := c ∈ default ∅ (h_subs h !! sid).

(** The client as expected, unless it has been closed. *)
Definition expects (buffering : bool) (sent buffer : list Envelope) h : Prop :=
  exists cl, h_clients h !! c = Some cl /\
    (c_closed cl = true \/
     (c_buffering cl = buffering /\ c_sent cl = sent /\ c_buffer cl = buffer /\ subscribed h)).

Definition same_journal h h' : Prop :=
  h_journal h' = h_journal h /\ h_replayLimit h' = h_replayLimit h.

Lemma same_journal_trans h1 h2 h3 :
  same_journal h1 h2 -> same_journal h2 h3 -> same_journal h1 h3.
Proof. unfold same_journal. intuition congruence. Qed.

(** Changing another client, or its subscriptions. *)
Lemma expects_other b sent buf h h' :
  expects b sent buf h -> h_clients h' !! c = h_clients h !! c ->
  (subscribed h -> subscribed h') -> expects b sent buf h'.
Proof. intros (cl & Hcl & Hc) Heq Hs. exists cl. rewrite Heq. naive_solver. Qed.

Lemma subscribed_omap c' h : c' <> c -> subscribed h ->
  subscribed (set_h_subs (omap (drop_sub c') (h_subs h)) h).
Proof.
  intros Hne. unfold subscribed. cbn. rewrite lookup_omap.
  destruct (h_subs h !! sid) as [subs|]; cbn; [|done]. intros Hin. unfold drop_sub.
  case_decide as He; cbn; set_solver.
Qed.

Lemma wp_close_other c' b sent buf h : c' <> c -> expects b sent buf h ->
  wp (client_close c') h (fun _ h' => expects b sent buf h' /\ same_journal h h').
Proof.
  intros Hne He. unfold client_close. wp_simp.
  destruct (h_clients h !! c') as [cl|]; [destruct (c_closed cl)|]; wp_simp;
    [done| |done]. unfold upd_client, Hub_unsubscribe. wp_simp. split; [|done].
  eapply expects_other; [exact He|by apply lookup_alter_ne|].
  intros Hs. by apply (subscribed_omap c' (set_h_clients _ h)).
Qed.

Lemma wp_push_other c' env b sent buf h : c' <> c -> expects b sent buf h ->
  wp (client_push c' env) h (fun _ h' => expects b sent buf h' /\ same_journal h h').
Proof.
  intros Hne He. unfold client_push. wp_simp. destruct (h_clients h !! c'); wp_simp; [|done].
  destruct (push env c0) as [cl' r]. wp_simp. split; [|done].
  eapply expects_other; [exact He|by apply lookup_insert_ne|done].
Qed.

Lemma wp_markSlow_other c' b sent buf h : c' <> c -> expects b sent buf h ->
  wp (client_markSlow c') h (fun _ h' => expects b sent buf h' /\ same_journal h h').
Proof.
  intros Hne He. unfold client_markSlow, upd_client. wp_simp.
  eapply wp_mono; [apply (wp_close_other c' b sent buf); [done|]|].
  - eapply expects_other; [exact He|by apply lookup_alter_ne|done].
  - cbn. intros _ h' [? Hj]. by split.
Qed.

Lemma wp_sendDirect_other c' env b sent buf h : c' <> c -> expects b sent buf h ->
  wp (client_sendDirect c' env) h (fun _ h' => expects b sent buf h' /\ same_journal h h').
Proof.
  intros Hne He. unfold client_sendDirect. wp_simp.
  destruct (h_clients h !! c') as [cl|]; [destruct (c_closed cl)|]; wp_simp; [done| |done].
  eapply wp_mono; [by apply (wp_push_other c' env b sent buf)|]. cbn. intros r h' [He' Hj'].
  destruct r; wp_simp; [done|done|].
  eapply wp_mono; [by apply (wp_markSlow_other c' b sent buf)|]. cbn. intros _ h2 [He2 Hj2].
  split; [done|by eapply same_journal_trans].
Qed.

Lemma wp_send_other c' env b sent buf h : c' <> c -> expects b sent buf h ->
  wp (client_send c' env) h (fun _ h' => expects b sent buf h' /\ same_journal h h').
Proof.
  intros Hne He. unfold client_send. wp_simp.
  destruct (h_clients h !! c') as [cl|]; [destruct (c_closed cl)|]; wp_simp; [done| |done].
  destruct (c_buffering cl); [|by apply wp_sendDirect_other].
  unfold upd_client. wp_simp. split; [|done].
  eapply expects_other; [exact He|by apply lookup_alter_ne|done].
Qed.

(** A push to this client: accepted, or it is closed, or it is full. *)
Lemma push_spec env cl cl' r : push env cl = (cl', r) ->
  c_closed cl' = c_closed cl /\ c_buffering cl' = c_buffering cl /\ c_buffer cl' = c_buffer cl /\
  match r with
  | Pushed => c_sent cl' = c_sent cl ++ [env]
  | SawClosed => c_closed cl = true
  | Full => c_sent cl' = c_sent cl
  end.
Proof.
  unfold push, writer_moves. destruct (c_pace cl) as [|[n ch] p]; cbn;
    destruct (bool_decide _); cbn; destruct (c_closed cl) eqn:Hc; try destruct ch; cbn;
    intros [= <- <-]; cbn; by rewrite ?Hc.
Qed.

Lemma wp_push_self env b sent buf h : expects b sent buf h ->
  wp (client_push c env) h (fun r h' => same_journal h h' /\
    match r with
    | Pushed => expects b (sent ++ [env]) buf h'
    | SawClosed => forall b' sent' buf', expects b' sent' buf' h'
    | Full => expects b sent buf h'
    end).
Proof.
  intros (cl & Hcl & Hc). unfold client_push. wp_simp. rewrite Hcl.
  destruct (push env cl) as [cl' r] eqn:Hp. wp_simp. split; [done|].
  destruct (push_spec _ _ _ _ Hp) as (H1 & H2 & H3 & H4).
  assert (Hex : forall sent', (c_closed cl' = true \/ c_sent cl' = sent') -> c_closed cl' = true \/
    c_sent cl = sent -> expects b sent' buf (set_h_clients (<[c := cl']> (h_clients h)) h)).
  { intros sent' Hs Hs'. exists cl'. split; [by apply lookup_insert_eq|].
    destruct Hc as [Hc|(Hb & Hse & Hbu & Hsub)]; [left; congruence|].
    destruct Hs as [|Hs]; [by left|]. right. repeat split; congruence || done. }
  destruct Hc as [Hc|(Hb & Hse & Hbu & Hsub)].
  - destruct r; [apply Hex; left; congruence..| |apply Hex; left; congruence].
    intros b' sent' buf'. exists cl'. split; [by apply lookup_insert_eq|]. left. congruence.
  - destruct r.
    + apply Hex; right; congruence.
    + intros b' sent' buf'. exists cl'. split; [by apply lookup_insert_eq|]. left. congruence.
    + apply Hex; right; congruence.
Qed.

(** Once slow, it is closed, and then anything may be expected of it. *)
Lemma wp_markSlow_self b sent buf h b' sent' buf' : expects b sent buf h ->
  wp (client_markSlow c) h (fun _ h' => same_journal h h' /\ expects b' sent' buf' h').
Proof.
  intros (cl & Hcl & _). unfold client_markSlow, client_close, upd_client. wp_simp. cbn.
  rewrite lookup_alter_eq, Hcl. cbn. destruct (c_closed cl) eqn:Hc; wp_simp.
  - split; [done|]. eexists. split; [cbn; by rewrite lookup_alter_eq, Hcl|by left].
  - unfold Hub_unsubscribe. wp_simp. split; [done|]. eexists.
    split; [cbn; by rewrite !lookup_alter_eq, Hcl|by left].
Qed.

Lemma wp_sendDirect_self env b sent buf h : expects b sent buf h ->
  wp (client_sendDirect c env) h (fun _ h' => same_journal h h' /\
    expects b (sent ++ [env]) buf h').
Proof.
  intros He. pose proof He as (cl & Hcl & Hc). unfold client_sendDirect. wp_simp. rewrite Hcl.
  destruct (c_closed cl) eqn:Hcc; wp_simp.
  { split; [done|]. exists cl. auto. }
  eapply wp_mono; [by apply wp_push_self|]. cbn. intros [| |] h' [Hj He']; wp_simp; [done|by split|].
  eapply wp_mono; [by eapply wp_markSlow_self|]. cbn. intros _ h2 [Hj2 He2].
  split; [by eapply same_journal_trans|exact He2].
Qed.

Lemma wp_send_self env (b : bool) sent buf h : expects b sent buf h ->
  wp (client_send c env) h (fun _ h' => same_journal h h' /\
    (if b then expects b sent (buf ++ [env]) h' else expects b (sent ++ [env]) buf h')).
Proof.
  intros He. pose proof He as (cl & Hcl & Hc). unfold client_send. wp_simp. rewrite Hcl.
  destruct (c_closed cl) eqn:Hcc; wp_simp.
  { split; [done|]. destruct b; exists cl; auto. }
  destruct Hc as [|(Hb & Hs & Hbu & Hsub)]; [done|]. rewrite Hb. destruct b.
  - unfold upd_client. wp_simp. split; [done|]. eexists.
    split; [cbn; by rewrite lookup_alter_eq, Hcl|]. right. cbn. by rewrite Hbu.
  - by apply wp_sendDirect_self.
Qed.

Lemma wp_sendDirects evs b sent buf h : expects b sent buf h ->
  wp (for_each evs (fun ev => client_sendDirect c (event_envelope ev))) h (fun _ h' =>
    same_journal h h' /\ expects b (sent ++ (event_envelope <$> evs)) buf h').
Proof.
  intros He. apply (wp_for_each _ _ (fun rest h' => same_journal h h' /\
    exists dn, evs = dn ++ rest /\ expects b (sent ++ (event_envelope <$> dn)) buf h')).
  - split; [done|]. exists []. split; [done|]. cbn. by rewrite app_nil_r.
  - intros ev rest h' (Hj & dn & -> & He'). eapply wp_mono; [by apply wp_sendDirect_self|]. cbn.
    intros _ h2 [Hj2 He2]. split; [by eapply same_journal_trans|]. exists (dn ++ [ev]).
    split; [by rewrite <- (assoc_L (++))|]. rewrite fmap_app. cbn. by rewrite (assoc_L (++)).
  - intros h' (Hj & dn & Heq & He'). rewrite app_nil_r in Heq. by subst.
Qed.

Lemma wp_flush_loop buffer b sent buf h : expects b sent buf h ->
  wp (flush_loop c buffer) h (fun _ h' => same_journal h h' /\ expects b (sent ++ buffer) buf h').
Proof.
  revert sent h. induction buffer as [|env rest IH]; intros sent h He; cbn; wp_simp.
  { split; [done|]. by rewrite app_nil_r. }
  eapply wp_mono; [by apply wp_push_self|]. cbn. intros [| |] h' [Hj He']; wp_simp.
  - eapply wp_mono; [by apply IH|]. cbn. intros _ h2 [Hj2 He2].
    split; [by eapply same_journal_trans|]. by rewrite <- (assoc_L (++)) in He2.
  - by split.
  - eapply wp_mono; [apply (wp_markSlow_self _ _ _ _ b (sent ++ [env]) buf He')|]. cbn.
    intros _ h2 [Hj2 He2]. eapply wp_mono; [by apply IH|]. cbn. intros _ h3 [Hj3 He3].
    split; [eapply same_journal_trans; [exact Hj|by eapply same_journal_trans]|].
    by rewrite <- (assoc_L (++)) in He3.
Qed.

Lemma wp_flush sent buf h : expects true sent buf h ->
  wp (client_flushAndStopBuffering c) h (fun _ h' => same_journal h h' /\
    expects false (sent ++ buf) [] h').
Proof.
  intros He. pose proof He as (cl & Hcl & Hc). unfold client_flushAndStopBuffering. wp_simp.
  rewrite Hcl. destruct Hc as [Hc|(_ & _ & <- & _)].
  - (* a closed client stays closed *)
    assert (Hany : forall b, expects b [] [] h) by (intros b; exists cl; auto).
    eapply wp_mono; [apply wp_and; [apply (wp_flush_loop (c_buffer cl)), (Hany true)|
                                    apply (wp_flush_loop (c_buffer cl)), (Hany false)]|].
    cbn. intros _ h' [[Hj (cl1 & Hcl1 & H1)] [_ (cl2 & Hcl2 & H2)]].
    unfold upd_client. wp_simp. split; [done|]. eexists.
    split; [cbn; by rewrite lookup_alter_eq, Hcl1|]. left. cbn. rewrite Hcl1 in Hcl2.
    injection Hcl2 as <-. destruct H1 as [|[H1 _]]; [done|]. destruct H2 as [|[H2 _]]; congruence.
  - eapply wp_mono; [by apply wp_flush_loop|]. cbn. intros _ h' [Hj (cl' & Hcl' & Hc')].
    unfold upd_client. wp_simp. split; [done|].
    eexists. split; [cbn; by rewrite lookup_alter_eq, Hcl'|]. cbn. naive_solver.
Qed.

(** Publishing an event of the session reaches the client once. *)
Lemma wp_Publish (b : bool) sent buf h ev : e_SessionID ev = sid -> expects b sent buf h ->
  wp (Hub_Publish ev) h (fun _ h' => same_journal h h' /\
    (if b then expects b sent (buf ++ [event_envelope ev]) h'
     else expects b (sent ++ [event_envelope ev]) buf h')).
Proof.
  intros Hsid He. unfold Hub_Publish. wp_simp. rewrite Hsid.
  set (after := fun h' => (if b then expects b sent (buf ++ [event_envelope ev]) h'
                           else expects b (sent ++ [event_envelope ev]) buf h')).
  set (ids := elements (default ∅ (h_subs h !! sid))).
  assert (Hnd : NoDup ids) by apply NoDup_elements.
  assert (Hother : forall c' h', c' <> c -> after h' ->
    wp (client_send c' (event_envelope ev)) h' (fun _ h2 => after h2 /\ same_journal h' h2)).
  { intros c' h' Hne Ha. unfold after in *. destruct b; cbn in *; by apply wp_send_other. }
  assert (Hclosed : forall cl, h_clients h !! c = Some cl -> c_closed cl = true ->
    expects b sent buf h /\ after h).
  { intros cl Hcl Hc. split; [exists cl; auto|]. unfold after. destruct b; exists cl; auto. }
  apply (wp_for_each _ _ (fun rest h' => same_journal h h' /\ NoDup rest /\
    ((c ∈ rest /\ expects b sent buf h') \/ (c ∉ rest /\ after h')))).
  - split; [done|]. split; [done|]. destruct (decide (c ∈ ids)) as [Hin|Hin]; [by left|].
    right. split; [done|]. destruct He as (cl & Hcl & [Hc|(_ & _ & _ & Hsub)]).
    + by eapply Hclosed.
    + destruct Hin. unfold ids. by apply elem_of_elements.
  - intros c' rest h' (Hj & Hndr & Hst). apply NoDup_cons in Hndr as [Hc' Hndr].
    destruct (decide (c' = c)) as [->|Hne].
    + destruct Hst as [[_ He']|[Hn _]]; [|destruct Hn; left].
      eapply wp_mono; [by apply wp_send_self|]. cbn. intros _ h2 [Hj2 He2].
      split; [by eapply same_journal_trans|]. split; [done|]. by right.
    + destruct Hst as [[Hin He']|[Hn Ha]].
      * eapply wp_mono; [by apply (wp_send_other c' _ b sent buf)|]. cbn. intros _ h2 [He2 Hj2].
        split; [by eapply same_journal_trans|]. split; [done|]. left.
        apply elem_of_cons in Hin as [|Hin]; [congruence|done].
      * eapply wp_mono; [by apply Hother|]. cbn. intros _ h2 [Ha2 Hj2].
        split; [by eapply same_journal_trans|]. split; [done|]. right. split; [|done].
        intros Hin. apply Hn. by right.
  - intros h' (Hj & _ & [[Hin _]|[_ Ha]]); [by apply not_elem_of_nil in Hin|done].
Qed.
End Window.

(** ** The window with the world going on

    While a client replays, events are appended to the journal and published
    in order.  [p] counts the events of the session published so far. *)

Section Trace.
Context {J : Type} `{EventJournalLaws J}.
Implicit Types h : Hub J.

Inductive live_step :=
  | LGrow (f : J -> J)
  | LPublish.

Definition live (sid : string) (st : Hub J * nat) (x : live_step) : Hub J * nat :=
  let '(h, p) := st in
  match x with
  | LGrow f => (set_h_journal (f (h_journal h)) h, p)
  | LPublish =>
      match ej_events (h_journal h) sid !! p with
      | Some ev => ((Hub_Publish ev h).2, S p)
      | None => (h, p)
      end
  end.

Definition lives (sid : string) (xs : list live_step) (st : Hub J * nat) : Hub J * nat :=
  fold_left (live sid) xs st.

(** The journal only grows. *)
Definition grows (x : live_step) : Prop :=
  match x with
  | LGrow f => forall j, ej_ok j ->
      ej_ok (f j) /\ forall k, ej_events j k `prefix_of` ej_events (f j) k
  | LPublish => True
  end.

(** The envelopes of events number [p0+1] to [p]. *)
Definition window (p0 p : nat) (evs : list Event) : list Envelope :=
  event_envelope <$> take (p - p0) (drop p0 evs).

#[local] Arguments window : simpl never.
#[local] Arguments Hub_Publish : simpl never.
#[local] Arguments client_flushAndStopBuffering : simpl never.

Lemma window_grow p0 p evs evs' : evs `prefix_of` evs' -> (p <= length evs)%nat ->
  window p0 p evs' = window p0 p evs.
Proof.
  intros [l ->] Hp. unfold window. f_equal. destruct (Nat.le_gt_cases p0 (length evs)).
  - rewrite drop_app_le by done. apply take_app_le. rewrite length_drop. lia.
  - by replace (p - p0)%nat with 0%nat by lia.
Qed.

Lemma window_S p0 p evs ev : (p0 <= p)%nat -> evs !! p = Some ev ->
  window p0 (S p) evs = window p0 p evs ++ [event_envelope ev].
Proof.
  intros Hle Hev. unfold window. rewrite Nat.sub_succ_l by done.
  rewrite (take_S_r _ _ ev), fmap_app; [done|]. rewrite lookup_drop.
  by replace (p0 + (p - p0))%nat with p by lia.
Qed.

(** Events number [p0+1] on are captured: in the buffer, or after the flush in
    the channel. *)
Record captures (c : nat) (sid : string) (b : bool) (sent : list Envelope) (p0 : nat)
    (st : Hub J * nat) : Prop := mk_captures {
  cap_ok : ej_ok (h_journal st.1);
  cap_range : (p0 <= st.2 <= length (ej_events (h_journal st.1) sid))%nat;
  cap_client : let w := window p0 st.2 (ej_events (h_journal st.1) sid) in
    if b then expects c sid true sent w st.1 else expects c sid false (sent ++ w) [] st.1
}.

Lemma expects_journal c sid b sent buf h j : expects c sid b sent buf h ->
  expects c sid b sent buf (set_h_journal j h).
Proof. done. Qed.

Lemma live_ok c sid b sent p0 x st :
  grows x -> captures c sid b sent p0 st ->
  captures c sid b sent p0 (live sid st x) /\
  ej_events (h_journal st.1) sid `prefix_of` ej_events (h_journal (live sid st x).1) sid /\
  h_replayLimit (live sid st x).1 = h_replayLimit st.1.
Proof.
  destruct st as [h p]. intros Hx [Hok Hr Hc]. cbn in *. destruct x as [f|]; cbn.
  - destruct (Hx _ Hok) as [Hok' Hpre]. specialize (Hpre sid).
    split; [|done]. split; cbn; [done| |].
    + apply prefix_length in Hpre. lia.
    + rewrite (window_grow _ _ _ _ Hpre) by lia. by destruct b; apply expects_journal.
  - destruct (ej_events (h_journal h) sid !! p) as [ev|] eqn:Hev; [|by split; [split|]].
    destruct (ej_sequence _ _ _ _ Hok Hev) as [_ Hsid]. cbn [fst snd].
    assert (Hpub : same_journal h (Hub_Publish ev h).2 /\
      (if b then expects c sid true sent (window p0 (S p) (ej_events (h_journal h) sid))
              (Hub_Publish ev h).2
       else expects c sid false (sent ++ window p0 (S p) (ej_events (h_journal h) sid)) []
              (Hub_Publish ev h).2)).
    { rewrite (window_S _ _ _ _ (proj1 Hr) Hev), (assoc_L (++)).
      destruct b; [apply (wp_Publish c sid true sent _ h ev Hsid Hc)|
                   apply (wp_Publish c sid false _ [] h ev Hsid Hc)]. }
    destruct Hpub as [[Hj Hl] Hpub]. rewrite Hj. split; [|done].
    split; cbn [fst snd]; rewrite Hj; [done| |done].
    apply lookup_lt_Some in Hev. lia.
Qed.

Lemma lives_ok c sid b sent p0 xs st :
  Forall grows xs -> captures c sid b sent p0 st ->
  captures c sid b sent p0 (lives sid xs st) /\
  ej_events (h_journal st.1) sid `prefix_of` ej_events (h_journal (lives sid xs st).1) sid /\
  h_replayLimit (lives sid xs st).1 = h_replayLimit st.1.
Proof.
  intros Hxs. revert st. induction Hxs as [|x xs Hx _ IH]; intros st Hc; [done|]. cbn.
  destruct (live_ok _ _ _ _ _ _ _ Hx Hc) as (Hc1 & Hp1 & Hl1).
  destruct (IH _ Hc1) as (Hc2 & Hp2 & Hl2).
  split; [exact Hc2|]. split; [by etransitivity|etransitivity; [exact Hl2|exact Hl1]].
Qed.

(** The sequences of consecutive events are consecutive. *)
Lemma window_seq j sid p0 p : ej_ok j -> (p0 <= p <= length (ej_events j sid))%nat ->
  en_Sequence <$> window p0 p (ej_events j sid) = seqZ (Z.of_nat p0 + 1) (Z.of_nat (p - p0)).
Proof.
  intros Hok Hp. apply list_eq. intros i. unfold window.
  rewrite <- list_fmap_compose, list_lookup_fmap.
  destruct (decide (i < p - p0)%nat) as [Hi|Hi].
  - rewrite lookup_take_lt, lookup_drop by done.
    destruct (lookup_lt_is_Some_2 (ej_events j sid) (p0 + i)) as [e He]; [lia|].
    rewrite He. cbn. rewrite (proj1 (ej_sequence _ _ _ _ Hok He)).
    rewrite lookup_seqZ_lt by lia. f_equal. lia.
  - rewrite lookup_take_ge by lia. cbn. symmetry. apply lookup_seqZ_ge. lia.
Qed.

(** Before the first event of the window: subscribed and buffering. *)
Lemma begin_captures c sid after h p cl :
  h_clients h !! c = Some cl -> c_sent cl = [] -> ej_ok (h_journal h) ->
  (p <= length (ej_events (h_journal h) sid))%nat ->
  captures c sid true [] p ((replay_begin c [mkCursor sid after] h).2, p).
Proof.
  intros Hcl Hs Hok Hp. split; cbn; [done|lia|]. unfold window. rewrite Nat.sub_diag. cbn.
  eexists. cbn. rewrite lookup_alter_eq, Hcl. split; [done|]. right. cbn.
  split; [done|]. split; [done|]. split; [done|].
  unfold subscribed. cbn. rewrite lookup_insert_eq. cbn. set_solver.
Qed.

(** One cursor's turn puts the retained page in the channel. *)
Lemma cursor_captures c sid after h p p0 :
  captures c sid true [] p0 (h, p) -> h_replayLimit h = 100 ->
  0 <= after <= Z.of_nat (length (ej_events (h_journal h) sid)) ->
  is_ok (ej_Replay sid after 100 (h_journal h)).1 = true ->
  let h' := (replay_cursor c (mkCursor sid after) h).2 in
  captures c sid true (event_envelope <$> take 100 (drop (Z.to_nat after)
    (ej_events (h_journal h) sid))) p0 (h', p) /\
  ej_events (h_journal h') sid = ej_events (h_journal h) sid.
Proof.
  intros [Hok Hr Hc] Hl Ha Hres. cbn in *.
  pose proof (ej_Replay_law sid after 100 (h_journal h) Hok Ha) as Hlaw.
  change (wp (replay_cursor c (mkCursor sid after)) h (fun _ h' =>
    captures c sid true (event_envelope <$> take 100 (drop (Z.to_nat after)
      (ej_events (h_journal h) sid))) p0 (h', p) /\
    ej_events (h_journal h') sid = ej_events (h_journal h) sid)).
  unfold replay_cursor, on_journal. wp_simp. unfold wp at 1. cbn. rewrite Hl.
  destruct (ej_Replay sid after 100 (h_journal h)) as [[x|e] j]; [|done]. cbn in Hlaw |- *.
  destruct Hlaw as (Hok' & Hev & Hx). destruct (Hx x eq_refl) as [Hrs Hpage]. rewrite Hrs.
  wp_simp. rewrite Hpage. eapply wp_mono; [apply wp_sendDirects, (expects_journal _ _ _ _ _ _ j), Hc|].
  cbn. intros _ h' [[Hj _] He]. wp_simp. cbn in Hj. rewrite Hj, Hev. split; [|done].
  split; cbn; rewrite Hj, ?Hev; [done|done|exact He].
Qed.

Lemma flush_captures c sid sent p p0 h :
  captures c sid true sent p0 (h, p) ->
  captures c sid false sent p0 ((client_flushAndStopBuffering c h).2, p) /\
  ej_events (h_journal (client_flushAndStopBuffering c h).2) sid = ej_events (h_journal h) sid.
Proof.
  intros [Hok Hr Hc]. cbn in *. destruct (wp_flush _ _ _ _ _ Hc) as [[Hj _] He].
  split; [|by rewrite Hj]. split; cbn; by rewrite Hj.
Qed.

(** What the client of a cursor has been sent, at the end. *)
Lemma replay_window c sid after cl h p mid1 h1 p1 mid2 h3 p3 post h5 p5 :
  h_clients h !! c = Some cl -> c_sent cl = [] -> h_replayLimit h = 100 ->
  ej_ok (h_journal h) -> (p <= length (ej_events (h_journal h) sid))%nat ->
  Forall grows mid1 -> Forall grows mid2 -> Forall grows post ->
  lives sid mid1 ((replay_begin c [mkCursor sid after] h).2, p) = (h1, p1) ->
  let n := Z.of_nat (length (ej_events (h_journal h1) sid)) in
  0 <= after <= n -> is_ok (ej_Replay sid after 100 (h_journal h1)).1 = true ->
  lives sid mid2 ((replay_cursor c (mkCursor sid after) h1).2, p1) = (h3, p3) ->
  lives sid post ((client_flushAndStopBuffering c h3).2, p3) = (h5, p5) ->
  Z.of_nat p <= n /\ (p <= p5)%nat /\
  exists cl', h_clients h5 !! c = Some cl' /\
    (c_closed cl' = true \/
     (c_buffering cl' = false /\
      (en_Sequence <$> c_sent cl') = seqZ (after + 1) (Z.min 100 (n - after)) ++
                                     seqZ (Z.of_nat p + 1) (Z.of_nat (p5 - p)))).
Proof.
  intros Hcl Hs Hl Hok Hp Hg1 Hg2 Hg3 E1 n Ha Hres E2 E3.
  pose proof (begin_captures c sid after h p cl Hcl Hs Hok Hp) as Hc0.
  destruct (lives_ok _ _ _ _ _ _ _ Hg1 Hc0) as (Hc1 & Hpre1 & Hl1). rewrite E1 in *.
  assert (Hl1' : h_replayLimit h1 = 100) by (rewrite <- Hl; exact Hl1).
  destruct (cursor_captures c sid after h1 p1 p Hc1 Hl1' Ha Hres) as [Hc2 Hev2].
  destruct (lives_ok _ _ _ _ _ _ _ Hg2 Hc2) as (Hc3 & _ & _). rewrite E2 in *.
  destruct (flush_captures _ _ _ _ _ _ Hc3) as [Hc4 _].
  destruct (lives_ok _ _ _ _ _ _ _ Hg3 Hc4) as (Hc5 & _ & _). rewrite E3 in *.
  pose proof (cap_range _ _ _ _ _ _ Hc1) as Hr1. pose proof (cap_range _ _ _ _ _ _ Hc5) as Hr5.
  cbn in Hr1, Hr5. split; [lia|]. split; [lia|].
  destruct (cap_client _ _ _ _ _ _ Hc5) as (cl' & Hcl' & Hc'). cbn in Hcl'.
  exists cl'. split; [done|]. destruct Hc' as [|(Hb & Hse & _ & _)]; [by left|right].
  split; [done|]. rewrite Hse, fmap_app. cbn.
  rewrite (window_seq _ _ _ _ (cap_ok _ _ _ _ _ _ Hc5)) by done. f_equal.
  set (k := Z.to_nat (Z.min 100 (n - after))).
  assert (Htake : event_envelope <$> take 100 (drop (Z.to_nat after) (ej_events (h_journal h1) sid))
    = window (Z.to_nat after) (Z.to_nat after + k) (ej_events (h_journal h1) sid)).
  { unfold window. f_equal. rewrite Nat.add_comm, Nat.add_sub.
    destruct (decide (n - after <= 100)).
    - rewrite !take_ge; [done|rewrite length_drop; unfold n in *; lia..].
    - by replace k with 100%nat by lia. }
  rewrite Htake, (window_seq _ _ _ _ (cap_ok _ _ _ _ _ _ Hc1)) by (cbn; unfold n in *; lia).
  f_equal; lia.
Qed.
End Trace.

(** How the Android client follows a session: only the next event counts. *)
Definition advanceIfContiguous (last seq : Z) : Z := if decide (seq = last + 1) then seq else last.

Lemma advance_seqZ k s last : 0 <= k -> s <= last ->
  fold_left advanceIfContiguous (seqZ (s + 1) k) last = Z.max last (s + k).
Proof.
  intros Hk. revert s last. pattern k. apply natlike_ind; [| |done].
  - intros s last Hs. change (seqZ (s + 1) 0) with (@nil Z). cbn [fold_left]. lia.
  - intros x Hx IH s last Hs. rewrite seqZ_cons by lia. cbn [fold_left].
    rewrite Z.pred_succ, <- Z.add_1_r.
    destruct (decide (s = last)) as [->|Hne].
    + unfold advanceIfContiguous at 2. rewrite decide_True by done. rewrite IH by lia. lia.
    + unfold advanceIfContiguous at 2. rewrite decide_False by lia. rewrite IH by lia. lia.
Qed.

Lemma advance_beyond l last : Forall (fun seq => last + 1 < seq) l ->
  fold_left advanceIfContiguous l last = last.
Proof.
  induction 1 as [|x l Hx _ IH]; [done|]. cbn. unfold advanceIfContiguous at 2.
  by rewrite decide_False by lia.
Qed.

(** ** Bounded queues *)

(** The channel never holds more than its capacity, and a client marked slow
    has been closed with the backpressure code. *)
Definition client_ok (cl : client) : Prop :=
  (length (c_sent cl) - c_taken cl <= c_cap cl)%nat /\ (c_taken cl <= length (c_sent cl))%nat /\
  (c_slow cl = true -> c_closed cl = true /\ c_closeCode cl = CloseBackpressure).

(** The calls on a hub: a connection, its replay, an event, a disconnection. *)
Inductive hub_op :=
  | HConnect (c : nat) (deviceID : string) (pace : list (nat * bool))
  | HHello (c : nat) (hello : Hello)
  | HPublish (ev : Event)
  | HClose (c : nat).

Section Bounded.
Context {J : Type} `{EventJournal J}.

Definition run_hub_op (op : hub_op) : M (Hub J) unit :=
  match op with
  | HConnect c deviceID pace =>
      modify (fun h => set_h_clients (<[c := newClient deviceID sendBuffer pace]> (h_clients h)) h)
  | HHello c hello => Handler_afterHello c hello
  | HPublish ev => Hub_Publish ev
  | HClose c => client_close c
  end.

Definition clients_ok (h : Hub J) : Prop := map_Forall (fun _ cl => client_ok cl) (h_clients h).

Lemma ok_modify_subs f : preserves clients_ok (modify (fun h => set_h_subs (f h) h)).
Proof. by intros h Hh. Qed.

Lemma ok_upd_client c f : (forall cl, client_ok cl -> client_ok (f cl)) ->
  preserves clients_ok (upd_client c f).
Proof.
  intros Hf h Hh k cl. unfold upd_client. cbn. rewrite lookup_alter_Some.
  intros [(-> & cl0 & Hcl0 & ->)|[_ Hcl]]; [by apply Hf, (Hh _ _ Hcl0)|by apply (Hh _ _ Hcl)].
Qed.

Lemma ok_subscribe c sid : preserves clients_ok (Hub_subscribe c sid).
Proof. apply ok_modify_subs. Qed.
Lemma ok_unsubscribe c : preserves clients_ok (Hub_unsubscribe c).
Proof. apply ok_modify_subs. Qed.
Lemma ok_unsubscribeSession c sid : preserves clients_ok (Hub_unsubscribeSession c sid).
Proof. apply ok_modify_subs. Qed.
Lemma ok_on_journal {A} (m : M J A) : preserves clients_ok (on_journal m).
Proof. intros h Hh. unfold on_journal, zoom. by destruct (m (h_journal h)). Qed.
Lemma ok_buffer c (b : bool) g : preserves clients_ok (upd_client c (fun cl => set_c_buffer b (g cl) cl)).
Proof. by apply ok_upd_client. Qed.

Lemma ok_close c : preserves clients_ok (client_close c).
Proof.
  apply preserves_bind; [apply preserves_get|]. intros h0.
  destruct (h_clients h0 !! c) as [cl|]; [destruct (c_closed cl)|]; try apply preserves_ret.
  apply preserves_bind; [|intros; apply ok_unsubscribe]. apply ok_upd_client.
  intros cl0 (H1 & H2 & H3). split; [done|]. split; [done|]. intros Hs. split; [done|by apply H3].
Qed.

(** Marking and closing, together. *)
Lemma ok_markSlow c : preserves clients_ok (client_markSlow c).
Proof.
  intros h Hh k cl'. unfold client_markSlow, client_close, upd_client, bind, get, modify. cbn.
  rewrite lookup_alter_eq. destruct (h_clients h !! c) as [cl|] eqn:E; cbn.
  - pose proof (Hh _ _ E) as (H1 & H2 & H3). destruct (c_closed cl) eqn:Hc; cbn;
      rewrite lookup_alter_Some; intros Hk.
    + destruct Hk as [(-> & cl0 & Hcl0 & ->)|[_ Hcl]]; [|by apply (Hh _ _ Hcl)].
      rewrite E in Hcl0. injection Hcl0 as <-. by split; [|split].
    + destruct Hk as [(-> & cl0 & Hcl0 & ->)|[Hne Hcl]].
      * rewrite lookup_alter_eq, E in Hcl0. injection Hcl0 as <-. by split; [|split].
      * rewrite lookup_alter_ne in Hcl by done. by apply (Hh _ _ Hcl).
  - rewrite lookup_alter_Some. intros [(-> & cl0 & Hcl0 & ->)|[_ Hcl]]; [congruence|].
    by apply (Hh _ _ Hcl).
Qed.

Lemma push_ok env cl : client_ok cl -> client_ok (push env cl).1.
Proof.
  intros (H1 & H2 & H3). unfold push, writer_moves.
  destruct (c_pace cl) as [|[n ch] p]; cbn;
    case_bool_decide as Hroom; cbn; destruct (c_closed cl) eqn:Hc; try destruct ch; cbn;
    unfold client_ok; cbn; rewrite ?length_app, ?Hc; cbn; (split; [lia|split; [lia|done]]).
Qed.

Lemma ok_push c env : preserves clients_ok (client_push c env).
Proof.
  intros h Hh. unfold client_push, bind, get, modify, ret.
  destruct (h_clients h !! c) as [cl|] eqn:E; [|done].
  pose proof (push_ok env cl (Hh _ _ E)) as Hok. destruct (push env cl) as [cl' r].
  by apply map_Forall_insert_2.
Qed.

Hint Resolve ok_subscribe ok_unsubscribe ok_unsubscribeSession ok_on_journal ok_buffer ok_close
  ok_markSlow ok_push : preserves.

Lemma ok_sendDirect c env : preserves clients_ok (client_sendDirect c env).
Proof. unfold client_sendDirect. auto 10 with preserves. Qed.
Hint Resolve ok_sendDirect : preserves.
Lemma ok_send c env : preserves clients_ok (client_send c env).
Proof. unfold client_send. auto 10 with preserves. Qed.
Hint Resolve ok_send : preserves.
Lemma ok_flush_loop c l : preserves clients_ok (flush_loop c l).
Proof. induction l; cbn; auto 10 with preserves. Qed.
Hint Resolve ok_flush_loop : preserves.
Lemma ok_startBuffering c : preserves clients_ok (client_startBuffering c).
Proof. apply (ok_buffer c true (fun _ => [])). Qed.
Lemma ok_flush c : preserves clients_ok (client_flushAndStopBuffering c).
Proof.
  unfold client_flushAndStopBuffering. apply preserves_bind; [apply preserves_get|]. intros h.
  apply preserves_bind; [apply ok_flush_loop|]. intros _. apply (ok_buffer c false (fun _ => [])).
Qed.
Hint Resolve ok_startBuffering ok_flush : preserves.
Lemma ok_replay_cursor c cur : preserves clients_ok (replay_cursor c cur).
Proof. unfold replay_cursor. auto 10 with preserves. Qed.
Hint Resolve ok_replay_cursor : preserves.

Lemma ok_hub_op op : preserves clients_ok (run_hub_op op).
Proof.
  destruct op as [c dev pace|c hello|ev|c]; cbn; [|auto 12 with preserves..].
  - intros h Hh. apply map_Forall_insert_2; [|done]. by repeat split; cbn; try lia.
  - unfold Handler_afterHello, Hub_replayAndSubscribe, replay_begin. auto 12 with preserves.
  - unfold Hub_Publish. auto 12 with preserves.
Qed.
End Bounded.

(** ** Properties *)


(** A client that connects with three events in the journal, two of them
    published; the third is published while it replays. *)
Definition demo_hub : Hub CursorJournal :=
  set_h_clients {[1%nat := newClient "dev-1" sendBuffer []]}
    (NewHub (mkCursorJournal 0 demo_journal)).
Definition demo_subscribed : Hub CursorJournal * nat :=
  lives "ses-1" [LPublish] ((replay_begin 1 [mkCursor "ses-1" 1] demo_hub).2, 2%nat).
Definition demo_live : Hub CursorJournal :=
  (client_flushAndStopBuffering 1 (replay_cursor 1 (mkCursor "ses-1" 1) demo_subscribed.1).2).2.


(** A client more than a page behind stalls.  The replay sends one page of
    100 events and does not follow [HasMore]; if the events after that page
    were published before the client subscribed, it is never sent the next
    event, and a client that applies only contiguous events stays at the end of
    the page however many events are published later. *)
Theorem replay_gap {J} `{EventJournalLaws J} c sid after cl (h : Hub J) p
    mid1 h1 p1 mid2 h3 p3 post h5 p5 :
  h_clients h !! c = Some cl -> c_sent cl = [] -> h_replayLimit h = 100 ->
  ej_ok (h_journal h) -> (p <= length (ej_events (h_journal h) sid))%nat ->
  Forall grows mid1 -> Forall grows mid2 -> Forall grows post ->
  lives sid mid1 ((replay_begin c [mkCursor sid after] h).2, p) = (h1, p1) ->
  0 <= after -> after + 100 < Z.of_nat p ->
  is_ok (ej_Replay sid after 100 (h_journal h1)).1 = true ->
  lives sid mid2 ((replay_cursor c (mkCursor sid after) h1).2, p1) = (h3, p3) ->
  lives sid post ((client_flushAndStopBuffering c h3).2, p3) = (h5, p5) ->
  exists cl', h_clients h5 !! c = Some cl' /\
    (c_closed cl' = true \/
     (~ (after + 101 ∈ en_Sequence <$> c_sent cl') /\
      fold_left advanceIfContiguous (en_Sequence <$> c_sent cl') after = after + 100)).
Proof.
  intros Hcl Hs Hl Hok Hp Hg1 Hg2 Hg3 E1 Ha Hgap Hres E2 E3.
  pose proof (begin_captures c sid after h p cl Hcl Hs Hok Hp) as Hc0.
  destruct (lives_ok _ _ _ _ _ _ _ Hg1 Hc0) as (Hc1 & _ & _). rewrite E1 in Hc1.
  pose proof (cap_range _ _ _ _ _ _ Hc1) as Hr1.
  change ((p <= p1 <= length (ej_events (h_journal h1) sid))%nat) in Hr1.
  destruct (replay_window c sid after cl h p mid1 h1 p1 mid2 h3 p3 post h5 p5 Hcl Hs Hl Hok Hp
    Hg1 Hg2 Hg3 E1 ltac:(lia) Hres E2 E3) as (Hpn & Hp5 & cl' & Hcl' & Hc').
  exists cl'. split; [done|]. destruct Hc' as [|[Hb Hseq]]; [by left|right].
  rewrite Z.min_l in Hseq by lia. rewrite Hseq. split.
  - rewrite elem_of_app, !elem_of_seqZ. lia.
  - rewrite fold_left_app, (advance_seqZ 100 after after) by lia. rewrite Z.max_r by lia. apply advance_beyond.
    apply Forall_forall. intros x. rewrite elem_of_seqZ. lia.
Qed.


Definition demo_busy : Hub CursorJournal :=
  (for_each [HConnect 1 "dev-1" []; HHello 1 (mkHello "hello" 1 "dev-1" [mkCursor "ses-1" 0]);
             HPublish (demo_event 4)] run_hub_op (NewHub (mkCursorJournal 0 demo_journal))).2.


(** A session with 102 events. *)
Definition demo_long_db : DB :=
  set_events ((fun i => event_row i (demo_event i) i) <$> seqZ 1 102) 103
    (set_sessions {["ses-1" := upd_last_sequence 102 20 demo_session_row]} demo_db).

Lemma demo_long_ok : journal_ok demo_long_db.
Proof.
  assert (Hs : sessions demo_long_db = {["ses-1" := upd_last_sequence 102 20 demo_session_row]})
    by done.
  split.
  - intros sid. destruct (decide (sid = "ses-1")) as [->|Hne]; [vm_compute; reflexivity|].
    unfold journal. rewrite filter_none; [done|]. apply Forall_fmap, Forall_true. cbn. congruence.
  - intros sid r. rewrite Hs. intros Hr. apply lookup_singleton_Some in Hr as [<- <-].
    vm_compute. reflexivity.
  - apply Forall_fmap, Forall_true. intros i. cbn. eauto.
  - intros _. apply Forall_fmap, Forall_true. intros i. rewrite Hs. cbn.
    rewrite lookup_singleton_eq. eauto.
Qed.

Definition demo_far : Hub CursorJournal :=
  set_h_clients {[1%nat := newClient "dev-1" sendBuffer []]}
    (NewHub (mkCursorJournal 0 (mkStore demo_long_db steady_env))).
Definition demo_far_subscribed : Hub CursorJournal := (replay_begin 1 [mkCursor "ses-1" 0] demo_far).2.
Definition demo_far_live : Hub CursorJournal :=
  (client_flushAndStopBuffering 1 (replay_cursor 1 (mkCursor "ses-1" 0) demo_far_subscribed).2).2.

Lemma replay_gap_witness :
  exists cl', h_clients demo_far_live !! 1%nat = Some cl' /\
    (c_closed cl' = true \/
     (~ (0 + 101 ∈ en_Sequence <$> c_sent cl') /\
      fold_left advanceIfContiguous (en_Sequence <$> c_sent cl') 0 = 0 + 100)).
Proof.
  apply (replay_gap 1 "ses-1" 0 (newClient "dev-1" sendBuffer []) demo_far 102
           [] demo_far_subscribed 102 [] (replay_cursor 1 (mkCursor "ses-1" 0)
              demo_far_subscribed).2 102 [] demo_far_live 102);
    [vm_compute; reflexivity|reflexivity|reflexivity|exact demo_long_ok
    |vm_compute; lia|constructor|constructor|constructor|reflexivity
    |lia|vm_compute; reflexivity|vm_compute; reflexivity|reflexivity|reflexivity].
Defined.

(** A closed client that is then subscribed stays subscribed.  The close
    hook runs once, so when a connection is closed before its replay (the
    heartbeat can do that), the replay subscribes the dead client and closing
    it again does not unsubscribe it. *)
Theorem subscribe_after_close_leaks {J} `{EventJournalLaws J} c sid after cl (h : Hub J) :
  h_clients h !! c = Some cl -> c_closed cl = true -> ej_ok (h_journal h) ->
  0 <= after <= Z.of_nat (length (ej_events (h_journal h) sid)) ->
  is_ok (ej_Replay sid after (h_replayLimit h) (h_journal h)).1 = true ->
  let h1 := (Hub_replayAndSubscribe c [mkCursor sid after] h).2 in
  let h2 := (client_close c h1).2 in
  c ∈ default ∅ (h_subs h2 !! sid).
Proof.
  intros Hcl Hc Hok Ha Hres.
  change (wp (Hub_replayAndSubscribe c [mkCursor sid after]) h (fun _ h1 =>
    subscribed c sid (client_close c h1).2)).
  pose proof (ej_Replay_law sid after (h_replayLimit h) (h_journal h) Hok Ha) as Hlaw.
  set (dead := fun h' : Hub J => subscribed c sid h' /\
    exists cl', h_clients h' !! c = Some cl' /\ c_closed cl' = true).
  assert (Hclose : forall h', dead h' -> subscribed c sid (client_close c h').2).
  { intros h' [Hs (cl' & Hcl' & Hc')]. unfold client_close, bind, get. by rewrite Hcl', Hc'. }
  assert (Hflush : forall l h', dead h' ->
    wp (for_each l (fun ev => client_sendDirect c (event_envelope ev))) h' (fun _ => dead)).
  { intros l h' Hd. apply (wp_for_each _ _ (fun _ => dead)); [done| |done].
    intros ev rest h2 Hd2. destruct Hd2 as [Hs (cl' & Hcl' & Hc')]. unfold client_sendDirect.
    wp_simp. rewrite Hcl', Hc'. wp_simp. split; eauto. }
  unfold Hub_replayAndSubscribe, replay_begin, client_startBuffering, upd_client, Hub_subscribe.
  cbn [for_each fold_each]. wp_simp. unfold replay_cursor, on_journal. wp_simp. unfold wp at 1.
  cbn [h_journal set_h_subs set_h_clients h_replayLimit cu_SessionID cu_After].
  destruct (ej_Replay sid after (h_replayLimit h) (h_journal h)) as [[x|e] j]; [|done].
  destruct Hlaw as (_ & _ & Hx). destruct (Hx x eq_refl) as [Hrs _]. cbn [fst snd]. rewrite Hrs.
  wp_simp. eapply wp_mono; [apply Hflush|].
  - split; [unfold subscribed; cbn; rewrite lookup_insert_eq; set_solver|].
    eexists. cbn. rewrite lookup_alter_eq, Hcl. by split.
  - cbn beta. intros _ h' [Hs (cl' & Hcl' & Hc')]. wp_simp.
    unfold client_flushAndStopBuffering. wp_simp. rewrite Hcl'.
    assert (Hloop : forall l h', dead h' -> wp (flush_loop c l) h' (fun _ => dead)).
    { clear -Hcl. induction l as [|env l IH]; intros h1 [Hs1 (cl1 & Hcl1 & Hc1)]; cbn [flush_loop];
        wp_simp; [split; eauto|]. unfold client_push. wp_simp. rewrite Hcl1.
      destruct (push env cl1) as [cl2 r] eqn:Hp. wp_simp.
      destruct (push_spec _ _ _ _ Hp) as (Hc2 & _ & _ & Hr).
      assert (Hd2 : dead (set_h_clients (<[c:=cl2]> (h_clients h1)) h1)).
      { split; [done|]. exists cl2. cbn. rewrite lookup_insert_eq. split; [done|congruence]. }
      destruct r; [by apply IH|by wp_simp|]. exfalso.
      revert Hp. unfold push. destruct (writer_moves cl1) as [cl3 ch] eqn:Hw.
      assert (Hc3 : c_closed cl3 = c_closed cl1)
        by (unfold writer_moves in Hw; destruct (c_pace cl1) as [|[] ?]; by injection Hw as <- _).
      rewrite Hc3, Hc1. by destruct (bool_decide _ && _). }
    eapply wp_mono; [apply Hloop; split; eauto|]. cbn beta. intros _ h2 [Hs2 (cl2 & Hcl2 & Hc2)].
    unfold upd_client. wp_simp. apply Hclose. split; [done|]. eexists. cbn.
    rewrite lookup_alter_eq, Hcl2. by split.
Qed.

(** The connection of [demo_hub]'s client, already closed. *)
Definition demo_dead : Hub CursorJournal := (client_close 1 demo_hub).2.

Lemma subscribe_after_close_leaks_witness :
  let h1 := (Hub_replayAndSubscribe 1 [mkCursor "ses-1" 0] demo_dead).2 in
  let h2 := (client_close 1 h1).2 in
  1%nat ∈ default (∅ : gset nat) (h_subs h2 !! "ses-1").
Proof.
  apply (subscribe_after_close_leaks 1 "ses-1" 0
           (set_c_closed (newClient "dev-1" sendBuffer [])) demo_dead);
    [vm_compute; reflexivity|reflexivity|exact demo_journal_ok
    |split; vm_compute; discriminate|vm_compute; reflexivity].
Defined.
