(* ===== verification/AuditLog.v ===== *)
(** * The audit writer and its redaction (src/internal/audit/writer.go)

    [redactPatterns] replaces texts with the byte algorithm of
    [strings.ReplaceAll]; [isSensitiveKey] compares in lower case. *)

From S2P Require Import Prelude Env Json GoStrings Domain Schema SessionRepo.

(** ** Context values

    A value of a [map[string]any]: the types [redactValue] distinguishes, and
    any other value by the JSON it marshals to. *)
#[warnings="-register-all"]
Inductive any : Type :=
  | AString (s : string)
  | ABytes (s : string)     (** [[]byte] *)
  | ARaw (s : string)       (** [json.RawMessage] *)
  | AMap (m : list (string * any))
  | ASlice (l : list any)
  | AOther (v : json).

Definition redacted : string := "[REDACTED]".

Definition ActorTypeUser : string := "user".
Definition OutcomeSuccess : string := "success".
Definition ActionPromptSubmit : string := "prompt_submit".
Definition ActionInterrupt : string := "interrupt".
Definition ActionApprovalDecision : string := "approval_decision".
Definition ActionSessionCreate : string := "session_create".
Definition ActionSessionStart : string := "session_start".

Record Entry := mkEntry {
  ent_ActorID : string;
  ent_ActorType : string;
  ent_Action : string;
  ent_TargetType : string;
  ent_TargetID : string;
  ent_Outcome : string;
  ent_Context : option (list (string * any))
}.

(** The writer's configuration; its database is the state. *)
Record Writer := mkWriter { wr_redactPatterns : list string; wr_redactKeys : list string }.

Definition NewWriter : Writer :=
  mkWriter [] ["token"; "api_key"; "apikey"; "secret"; "password"; "passwd"; "authorization";
               "cookie"; "credential"; "private_key"; "access_token"; "refresh_token"; "bearer";
               "prompt"].

Definition Writer_WithRedactPatterns (patterns : list string) (w : Writer) : Writer :=
  mkWriter (wr_redactPatterns w ++ patterns) (wr_redactKeys w).
Definition Writer_WithRedactKeys (keys : list string) (w : Writer) : Writer :=
  mkWriter (wr_redactPatterns w) (wr_redactKeys w ++ keys).

Definition isSensitiveKey (key : string) (sensitiveKeys : list string) : bool :=
  existsb (fun sk => contains (chars (strings_ToLower sk)) (chars (strings_ToLower key)))
    sensitiveKeys.

Definition redactPatterns (value : string) (patterns : list string) : string :=
  fold_left (fun value p =>
    if decide (p <> "" /\ (4 <= String.length p)%nat) then strings_ReplaceAll value p redacted
    else value) patterns value.

Fixpoint redactValue (keys patterns : list string) (key : string) (v : any) : any :=
  if isSensitiveKey key keys then AString redacted
  else match v with
       | AString s => AString (redactPatterns s patterns)
       | ABytes s => AString (redactPatterns s patterns)
       | ARaw s => AString (redactPatterns s patterns)
       | AMap m => AMap (map (fun kv => (kv.1, redactValue keys patterns kv.1 kv.2)) m)
       | ASlice l => ASlice (map (redactValue keys patterns "") l)
       | AOther v => AOther v
       end.

Definition Writer_redactContext (w : Writer) (context : option (list (string * any)))
    : option (list (string * any)) :=
  (fun m => map (fun kv => (kv.1, redactValue (wr_redactKeys w) (wr_redactPatterns w) kv.1 kv.2)) m)
  <$> context.

(** ** Marshalling and storing *)

(** The base64 text of a [[]byte] and the parsed value of a RawMessage, which
    [json.Marshal] needs, do not occur in a redacted context. *)
Fixpoint any_json (v : any) : json :=
  match v with
  | AString s | ABytes s | ARaw s => JStr s
  | AMap m => JObj (map (fun kv => (kv.1, any_json kv.2)) m)
  | ASlice l => JArr (map any_json l)
  | AOther v => v
  end.

Definition context_json (c : option (list (string * any))) : json :=
  match c with Some m => any_json (AMap m) | None => JNull end.

Definition insert_audit (e : Entry) (ctx : json) (now : Z) : stmt unit := fun d =>
  (Ok tt, set_audit_log (audit_log d ++
     [mkAuditRow (next_audit_id d) (ent_ActorID e) (ent_ActorType e) (ent_Action e) (ent_TargetType e)
        (ent_TargetID e) (ent_Outcome e) ctx now]) (next_audit_id d + 1) d).

Definition with_outcome (e : Entry) : Entry :=
  if decide (ent_Outcome e = "")
  then mkEntry (ent_ActorID e) (ent_ActorType e) (ent_Action e) (ent_TargetType e) (ent_TargetID e)
         OutcomeSuccess (ent_Context e)
  else e.

(** [created_at] takes its default, the current time. *)
Definition Writer_Record (w : Writer) (entry : Entry) : M Store (result unit) :=
  if decide (ent_ActorID entry = "") then ret (Err (ErrNew "actor_id is required"))
  else if decide (ent_Action entry = "") then ret (Err (ErrNew "action is required"))
  else
    let entry := with_outcome entry in
    let redactedContext := Writer_redactContext w (ent_Context entry) in
    let! now := on_env sql_datetime_now in
    let? _ := exec (insert_audit entry (context_json redactedContext) now)
      orelse wrap "writing audit entry" in
    ret (Ok tt).

(** The caller runs it inside [DB_WithTransaction]. *)
Definition Writer_RecordWithTx (w : Writer) (entry : Entry) : M Store (result unit) :=
  Writer_Record w entry.

(** ** Reading *)

Definition scan_audit_row (r : AuditRow) : AuditEntry :=
  mkAuditEntry (aur_id r) (aur_actor_id r) (aur_actor_type r) (aur_action r) (aur_target_type r)
    (aur_target_id r) (aur_outcome r) (Some (json_text (aur_context r))) (aur_created_at r).

Definition scanAuditEntry (row : result (option AuditRow)) : result AuditEntry :=
  match row with
  | Err e => Err (wrap "scanning audit entry" e)
  | Ok None => Err (ErrNew "audit entry not found")
  | Ok (Some r) => Ok (scan_audit_row r)
  end.

Definition scanAuditEntries (rows : list AuditRow) : M Store (result (list AuditEntry)) :=
  let! e := driver_call in
  ret (match e with
       | Some e => Err (wrap "iterating audit entries" e)
       | None => Ok (scan_audit_row <$> rows)
       end).

Definition Writer_GetByID (id : Z) : M Store (result AuditEntry) :=
  let! row := exec (query (fun d => head (filter (fun r => aur_id r = id) (audit_log d)))) in
  ret (scanAuditEntry row).

Definition clamp_audit_limit (limit : Z) : Z :=
  if decide (limit <= 0 \/ 1000 < limit) then 100 else limit.

(** The rows a query selects, newest first. *)
Definition select_audit (P : AuditRow -> bool) (limit : Z) (d : DB) : list AuditRow :=
  sql_limit (clamp_audit_limit limit)
    (merge_sort (by_desc aur_created_at) (filter (fun r => P r = true) (audit_log d))).

Definition audit_query (P : AuditRow -> bool) (limit : Z) : M Store (result (list AuditEntry)) :=
  let? rows := exec (query (select_audit P limit)) orelse wrap "querying audit entries" in
  scanAuditEntries rows.

Definition Writer_GetByActor (actorID : string) (limit : Z) :=
  audit_query (fun r => bool_decide (aur_actor_id r = actorID)) limit.
Definition Writer_GetByTarget (targetType targetID : string) (limit : Z) :=
  audit_query (fun r => bool_decide (aur_target_type r = targetType /\ aur_target_id r = targetID))
    limit.
Definition Writer_GetByAction (action : string) (limit : Z) :=
  audit_query (fun r => bool_decide (aur_action r = action)) limit.
Definition Writer_GetRecent (limit : Z) := audit_query (fun _ => true) limit.
Definition Writer_GetByTimeRange (from to limit : Z) :=
  audit_query (fun r => bool_decide (from <= aur_created_at r <= to)) limit.

Definition Writer_Count : M Store (result Z) :=
  exec (query (fun d => Z.of_nat (length (audit_log d)))).

Definition Writer_PurgeOlderThan (before : Z) : M Store (result Z) :=
  let? n := exec (fun d =>
    (Ok (Z.of_nat (length (filter (fun r => aur_created_at r < before) (audit_log d)))),
     set_audit_log (filter (fun r => ~ aur_created_at r < before) (audit_log d))
       (next_audit_id d) d)) orelse wrap "purging audit entries" in
  RowsAffected n.

(** ** What redaction guarantees *)

(** A pattern that cannot straddle or lie inside the replacement text. *)
Definition plain_pattern (p : string) : Prop :=
  (4 <= String.length p)%nat /\
  Forall (fun c => byte_of c <> 91 /\ byte_of c <> 93) (chars p) /\
  contains (chars p) (chars "REDACTED") = false.

(** No text of the value outside map keys contains the pattern, as far as the
    value is made of the types that [redactValue] looks into. *)
Fixpoint free_of (p : string) (v : any) : Prop :=
  match v with
  | AString s | ABytes s | ARaw s => contains (chars p) (chars s) = false
  | AMap m => foldr (fun kv P => free_of p kv.2 /\ P) True m
  | ASlice l => foldr (fun v P => free_of p v /\ P) True l
  | AOther _ => True
  end.

(** Every value under a sensitive key is the replacement text. *)
Fixpoint keys_redacted (keys : list string) (v : any) : Prop :=
  match v with
  | AMap m => foldr (fun kv P =>
      (isSensitiveKey kv.1 keys = true -> kv.2 = AString redacted) /\
      keys_redacted keys kv.2 /\ P) True m
  | ASlice l => foldr (fun v P => keys_redacted keys v /\ P) True l
  | _ => True
  end.

Section Any_ind.
Context (P : any -> Prop)
  (Hs : forall s, P (AString s)) (Hb : forall s, P (ABytes s)) (Hr : forall s, P (ARaw s))
  (Hm : forall m, Forall (fun kv => P kv.2) m -> P (AMap m))
  (Hl : forall l, Forall P l -> P (ASlice l)) (Ho : forall v, P (AOther v)).
Fixpoint any_nested_ind (v : any) : P v :=
  match v with
  | AString s => Hs s
  | ABytes s => Hb s
  | ARaw s => Hr s
  | AMap m => Hm m ((fix go m := match m return Forall (fun kv => P kv.2) m with
                     | [] => Forall_nil_2 _
                     | kv :: m' => Forall_cons_2 _ _ _ (any_nested_ind kv.2) (go m')
                     end) m)
  | ASlice l => Hl l ((fix go l := match l return Forall P l with
                     | [] => Forall_nil_2 _
                     | v :: l' => Forall_cons_2 _ _ _ (any_nested_ind v) (go l')
                     end) l)
  | AOther v => Ho v
  end.
End Any_ind.

(** Bracket-free texts inside the replacement are inside the word it brackets. *)
Lemma contains_app_bracket p r s c : Forall (fun x => x <> c) p -> p <> [] ->
  contains p (r ++ c :: s) = true -> contains p r = true \/ contains p s = true.
Proof.
  intros Hp Hne. rewrite !contains_spec. intros (l1 & l2 & Heq).
  apply app_eq_app in Heq as [k [[-> Hk]|[-> Hk]]].
  - (* [p] starts inside [r] *)
    destruct (app_eq_app _ _ _ _ (eq_sym Hk)) as [k' [[-> Hk']|[-> Hk']]]; [left; eauto|].
    destruct k' as [|x k']; [left; exists l1, []; by rewrite !app_nil_r in *|].
    injection Hk' as <- ->. exfalso. rewrite Forall_app, Forall_cons in Hp. by destruct Hp as (_ & ? & _).
  - (* at the bracket or after *)
    destruct k as [|x k].
    + destruct p as [|y p]; [done|]. injection Hk as <- ->. by apply Forall_cons in Hp as [].
    + injection Hk as <- ->. right. eauto.
Qed.

Definition plain (p : bytes) : Prop :=
  p <> [] /\ Forall (fun x => x <> ascii_of 91) p /\ Forall (fun x => x <> ascii_of 93) p /\
  contains p (chars "REDACTED") = false.

Lemma plain_bytes p : plain_pattern p -> plain (chars p).
Proof.
  intros (Hl & Hb & Hc). split; [|split; [|split; [|done]]].
  - intros Hn. apply (f_equal text) in Hn. rewrite text_chars in Hn. subst p. cbn in Hl. lia.
  - eapply Forall_impl; [exact Hb|]. intros x [Hx _] ->. by apply Hx.
  - eapply Forall_impl; [exact Hb|]. intros x [_ Hx] ->. by apply Hx.
Qed.

(** A match at the front of a replaced text is one at the front of the original. *)
Lemma replace_all_prefix p old fuel s : plain p -> (length s < fuel)%nat ->
  has_prefix p (replace_all fuel s old (chars redacted)) = true -> p <> [] ->
  has_prefix p s = true /\ has_prefix old s = false.
Proof.
  intros (_ & Hp & _). revert s p Hp. induction fuel as [|fuel IH]; intros s p Hp Hl H Hne; [lia|].
  cbn in H. destruct (has_prefix old s) eqn:E.
  - destruct p as [|c p]; [done|]. cbn in H. apply Forall_cons in Hp as [Hc _].
    case_decide as Hd; [|done]. by destruct Hc.
  - split; [|done]. destruct s as [|d s]; [done|]. destruct p as [|c p]; [done|]. cbn in *.
    case_decide; [|done]. apply Forall_cons in Hp as [_ Hp].
    destruct p as [|c' p]; [by destruct s|]. by apply (IH s (c' :: p)); [|lia|..].
Qed.

(** Replacing removes its own pattern and creates no other plain one. *)
Lemma replace_all_free p old fuel s : plain p -> old <> [] -> (length s < fuel)%nat ->
  p = old \/ contains p s = false ->
  contains p (replace_all fuel s old (chars redacted)) = false.
Proof.
  intros Hp Ho. pose proof Hp as (Hne & H91 & H93 & Hr). revert s.
  induction fuel as [|fuel IH]; intros s Hl Hs; [lia|].
  pose proof (replace_all_prefix p old (S fuel) s Hp Hl) as Hpre. cbn in Hpre |- *.
  destruct (has_prefix old s) eqn:E.
  - assert (Hold : (1 <= length old)%nat) by (destruct old; [done|cbn; lia]).
    apply not_true_is_false. intros H.
    change (contains p ([] ++ ascii_of 91 :: chars "REDACTED" ++ ascii_of 93 ::
      replace_all fuel (drop (length old) s) old (chars redacted)) = true) in H.
    apply contains_app_bracket in H as [H|H]; [by rewrite contains_nil in H| |done..].
    apply contains_app_bracket in H as [H|H]; [congruence| |done..].
    rewrite IH in H; [done| |].
    + rewrite length_drop. destruct s; cbn in E, Hl |- *; [|lia]. by destruct old.
    + destruct Hs; [by left|]. right. by apply contains_drop.
  - destruct s as [|c s]; [by apply contains_nil|]. cbn in Hl, Hs, Hpre |- *.
    apply orb_false_iff. split.
    + apply not_true_is_false. intros H. destruct (Hpre H Hne) as [H1 H2].
      destruct Hs as [->|[Hs _]%orb_false_iff]; [by rewrite E in H1|].
      change (has_prefix p (c :: s) = false) in Hs. by rewrite Hs in H1.
    + apply IH; [lia|]. destruct Hs as [|Hs]; [by left|right]. by apply orb_false_iff in Hs as [_ Hs].
Qed.

(** After the patterns are replaced none of the plain ones is left. *)
Lemma redactPatterns_free p patterns s : plain_pattern p ->
  p ∈ patterns \/ contains (chars p) (chars s) = false ->
  contains (chars p) (chars (redactPatterns s patterns)) = false.
Proof.
  intros Hp. pose proof (plain_bytes _ Hp) as Hb. revert s. unfold redactPatterns.
  induction patterns as [|q patterns IH]; intros s Hs; cbn.
  - by destruct Hs as [?%not_elem_of_nil|].
  - apply IH. case_decide as Hq.
    + destruct Hq as [Hq Hlen].
      assert (Hfree : p = q \/ contains (chars p) (chars s) = false ->
        contains (chars p) (chars (strings_ReplaceAll s q redacted)) = false).
      { intros H. unfold strings_ReplaceAll. rewrite chars_text. apply replace_all_free; [done| |lia|].
        - intros Hn. apply (f_equal length) in Hn. rewrite length_chars in Hn. cbn in Hn. lia.
        - destruct H as [->|]; auto. }
      rewrite elem_of_cons in Hs. destruct Hs as [[->|?]|?]; auto.
    + rewrite elem_of_cons in Hs. destruct Hs as [[->|?]|?]; [|by left|by right].
      destruct Hq. split; [|apply Hp]. intros ->. destruct Hp as [Hp _]. cbn in Hp. lia.
Qed.

Lemma redacted_free p : plain_pattern p -> contains (chars p) (chars redacted) = false.
Proof.
  intros (Hne & H91 & H93 & Hr)%plain_bytes. apply not_true_is_false. intros H.
  change (contains (chars p) ([] ++ ascii_of 91 :: chars "REDACTED" ++ [ascii_of 93]) = true) in H.
  apply contains_app_bracket in H as [H|H]; [by rewrite contains_nil in H| |done..].
  apply contains_app_bracket in H as [H|H]; [congruence| |done..]. by rewrite contains_nil in H.
Qed.

Lemma redactValue_free p keys patterns key v : plain_pattern p -> p ∈ patterns ->
  free_of p (redactValue keys patterns key v).
Proof.
  intros Hp Hin. revert key. induction v as [s|s|s|m IH|l IH|w] using any_nested_ind; intros key;
    cbn; (destruct (isSensitiveKey key keys); [by apply redacted_free|]); cbn;
    try (by apply redactPatterns_free; auto).
  - induction IH as [|[k v] m Hv _ IHm]; cbn; auto.
  - induction IH as [|v l Hv _ IHl]; cbn; auto.
  - done.
Qed.

Lemma redactValue_keys keys patterns key v : keys_redacted keys (redactValue keys patterns key v).
Proof.
  revert key. induction v as [s|s|s|m IH|l IH|w] using any_nested_ind; intros key;
    cbn; (destruct (isSensitiveKey key keys); [done|]); cbn; try done.
  - induction IH as [|[k v] m Hv _ IHm]; cbn; [done|]. split; [|by split].
    intros Hk. destruct v; cbn; by rewrite Hk.
  - induction IH as [|v l Hv _ IHl]; cbn; auto.
Qed.

(** ** Properties *)


(** A context with a secret under a sensitive key, one inside a text, and one
    nested. *)
Definition demo_entry : Entry :=
  mkEntry "dev-1" ActorTypeUser ActionApprovalDecision "approval" "apr-1" ""
    (Some [("Api_Key", AString "k"); ("reason", AString "use s3cr3t now");
           ("headers", AMap [("x", ASlice [ABytes "s3cr3t"])])]).
Definition demo_writer : Writer := Writer_WithRedactPatterns ["s3cr3t"] NewWriter.
Definition demo_audited : Store := (Writer_Record demo_writer demo_entry demo_store).2.

