(* ===== verification/Registry.v ===== *)
(** * The workspace registry (src/internal/workspace/registry.go)

    The maps in front of the workspace repository, and the canonical paths
    that workspaces are registered under.  What the operating system answers
    about paths (working directory, symbolic links, existence) is a record of
    oracles given to each operation. *)

From S2P Require Import Prelude Env Json GoStrings Paths Domain Schema SessionRepo.

(** ** The file system, as the registry asks it *)

Inductive EvalSymlinks_answer :=
  | Canonical (p : string)
  | NotExist
  | EvalFailed (e : string).

Record OS := mkOS {
  os_Getwd : string + string;               (** the directory, or an error *)
  os_EvalSymlinks : string -> EvalSymlinks_answer;
  os_Stat_NotExist : string -> bool         (** [os.IsNotExist] of the error of [os.Stat] *)
}.

Definition filepath_Abs (os : OS) (p : string) : result string :=
  if filepath_IsAbs p then Ok (filepath_Clean p)
  else match os_Getwd os with
       | inr e => Err (ErrNew e)
       | inl wd => Ok (text (path_Join (chars wd) (chars p)))
       end.

(** The repository's database is the state of the computations. *)
Record Registry := mkRegistry {
  rg_workspaces : gmap string Workspace;
  rg_paths : gmap string string;
  rg_workspaceDir : string
}.

Definition NewRegistry (workspaceDir : string) : Registry := mkRegistry ∅ ∅ workspaceDir.

Definition Registry_GetByID (r : Registry) (id : string) : M Store (result Workspace) :=
  match rg_workspaces r !! id with
  | Some ws => ret (Ok ws)
  | None => WorkspaceRepository_GetByID id
  end.

Definition Registry_IsRegistered (r : Registry) (id : string) : M Store bool :=
  match rg_workspaces r !! id with
  | Some _ => ret true
  | None => let! x := WorkspaceRepository_GetByID id in ret (is_ok x)
  end.

Definition Registry_validateAllowedAdapters (adapters : list string) : option error :=
  match filter (fun a => a ∉ ["claude-code"; "fake-adapter"]) adapters with
  | [] => None
  | a :: _ => Some (ErrNew ("unknown adapter '" +:+ a +:+ "'"))
  end.

(** ** Canonical paths *)

Definition Registry_resolveCanonicalPath (os : OS) (path : string) : result string :=
  let cleaned := filepath_Clean path in
  match (if filepath_IsAbs cleaned then Ok cleaned else filepath_Abs os cleaned) with
  | Err e => Err (wrap "making path absolute" e)
  | Ok cleaned =>
      match os_EvalSymlinks os cleaned with
      | Canonical p => Ok p
      | NotExist => Ok cleaned
      | EvalFailed e => Err (wrap "evaluating symlinks" (ErrNew e))
      end
  end.

(** The verb %s between single quotes. *)
Definition quoted (s : string) : string := "'" +:+ s +:+ "'".

Definition escapes (path baseDir : string) : error :=
  ErrNew ("path " +:+ quoted path +:+ " escapes workspace directory " +:+ quoted baseDir).

(** A path component that ends in two dots. *)
Definition has_traversal (cleaned : bytes) : bool :=
  contains (dotdot ++ [slash]) cleaned || has_suffix dotdot cleaned.

Definition Registry_validatePathEscape (os : OS) (r : Registry) (path : string) : option error :=
  if negb (filepath_IsAbs path) then Some (ErrNew ("path must be absolute, got " +:+ strconv_Quote path))
  else if has_traversal (chars (filepath_Clean path))
  then Some (ErrNew ("path contains traversal: " +:+ strconv_Quote path))
  else if decide (rg_workspaceDir r = "") then None
  else
    match filepath_Abs os (rg_workspaceDir r) with
    | Err e => Some (wrap "resolving base directory" e)
    | Ok baseDir =>
        if negb (strings_HasPrefix path baseDir) then Some (escapes path baseDir)
        else
          let remaining := trim_prefix (chars baseDir) (chars path) in
          if decide (remaining <> [] /\ has_prefix [slash] remaining = false)
          then Some (escapes path baseDir) else None
    end.

(** ** Registering *)

Record RegisterResult := mkRegisterResult { reg_Workspace : Workspace; reg_Warning : string }.

Definition set_w_path (p : string) (w : Workspace) : Workspace :=
  mkWorkspace (w_ID w) (w_DisplayName w) p (w_AllowedAdapters w) (w_ExecutionPolicy w)
    (w_CreatedAt w) (w_UpdatedAt w).

Definition already_registered (id : string) : error :=
  ErrNew ("workspace ID " +:+ quoted id +:+ " is already registered").

(** Answers the result and the registry with the workspace. *)
Definition Registry_Register (os : OS) (r : Registry) (ws : Workspace)
    : M Store (result (RegisterResult * Registry)) :=
  if decide (w_ID ws = "") then ret (Err (ErrNew "workspace ID cannot be empty"))
  else if decide (is_Some (rg_workspaces r !! w_ID ws)) then ret (Err (already_registered (w_ID ws)))
  else
    let! existing := WorkspaceRepository_GetByID (w_ID ws) in
    if is_ok existing then ret (Err (already_registered (w_ID ws)))
    else if decide (w_Path ws = "") then ret (Err (ErrNew "workspace path cannot be empty"))
    else
      match Registry_resolveCanonicalPath os (w_Path ws) with
      | Err e => ret (Err (wrap "resolving path" e))
      | Ok canonicalPath =>
          match Registry_validatePathEscape os r canonicalPath with
          | Some e => ret (Err (wrap "path validation" e))
          | None =>
              match rg_paths r !! canonicalPath with
              | Some existingID =>
                  ret (Err (ErrNew ("path " +:+ quoted canonicalPath +:+
                    " is already registered as workspace " +:+ quoted existingID)))
              | None =>
                  if os_Stat_NotExist os canonicalPath
                  then ret (Err (ErrNew ("workspace path does not exist: " +:+ canonicalPath)))
                  else
                    let ws := set_w_path canonicalPath ws in
                    match Registry_validateAllowedAdapters (w_AllowedAdapters ws) with
                    | Some e => ret (Err (wrap "invalid adapters" e))
                    | None =>
                        let? ws := WorkspaceRepository_Create ws
                          orelse wrap "persisting workspace" in
                        let r := mkRegistry (<[w_ID ws := ws]> (rg_workspaces r))
                                   (<[canonicalPath := w_ID ws]> (rg_paths r))
                                   (rg_workspaceDir r) in
                        let warning :=
                          if decide (rg_workspaceDir r <> "" /\
                                     strings_HasPrefix canonicalPath (rg_workspaceDir r) = false)
                          then "workspace path is outside recommended directory " +:+
                               quoted (rg_workspaceDir r)
                          else "" in
                        ret (Ok (mkRegisterResult ws warning, r))
                    end
              end
          end
      end.

(** Answers the registry without the workspace. *)
Definition Registry_Unregister (r : Registry) (id : string) : M Store (result Registry) :=
  let! found := match rg_workspaces r !! id with
                | Some ws => ret (Ok ws)
                | None => WorkspaceRepository_GetByID id
                end in
  match found with
  | Err _ => ret (Err (ErrNew "workspace not found"))
  | Ok ws =>
      let? _ := WorkspaceRepository_Delete id orelse wrap "deleting workspace" in
      ret (Ok (mkRegistry (delete id (rg_workspaces r)) (delete (w_Path ws) (rg_paths r))
                 (rg_workspaceDir r)))
  end.

(** The registry's answer by path; an id in [paths] without its workspace gives
    a nil workspace. *)
Definition Registry_GetByPath (os : OS) (r : Registry) (path : string)
    : M Store (result (option Workspace)) :=
  match Registry_resolveCanonicalPath os path with
  | Err e => ret (Err e)
  | Ok canonical =>
      match rg_paths r !! canonical with
      | Some id => ret (Ok (rg_workspaces r !! id))
      | None => let? ws := WorkspaceRepository_GetByPath canonical in ret (Ok (Some ws))
      end
  end.

Definition Registry_IsPathRegistered (os : OS) (r : Registry) (path : string) : M Store bool :=
  match Registry_resolveCanonicalPath os path with
  | Err _ => ret false
  | Ok canonical =>
      match rg_paths r !! canonical with
      | Some _ => ret true
      | None => let! x := WorkspaceRepository_GetByPath canonical in ret (is_ok x)
      end
  end.

Definition Registry_GetAll (r : Registry) : M Store (result (list Workspace)) :=
  let? stored := WorkspaceRepository_GetAll in
  ret (Ok ((map_to_list (rg_workspaces r)).*2 ++
           filter (fun ws => rg_workspaces r !! w_ID ws = None) stored)).

Definition Registry_ValidatePath (os : OS) (r : Registry) (path : string) : option error :=
  if decide (path = "") then Some (ErrNew "path cannot be empty")
  else match Registry_resolveCanonicalPath os path with
       | Err e => Some e
       | Ok canonical =>
           match Registry_validatePathEscape os r canonical with
           | Some e => Some e
           | None => if os_Stat_NotExist os canonical
                     then Some (ErrNew ("path does not exist: " +:+ canonical)) else None
           end
       end.

(** The registry, the registered workspaces and the errors so far. *)
Record Loaded := mkLoaded {
  ld_registry : Registry; ld_registered : list Workspace; ld_errors : list error }.

Definition load_one (os : OS) (acc : Loaded) (cfg : Workspace) : M Store Loaded :=
  let r := ld_registry acc in
  let! known := Registry_GetByID r (w_ID cfg) in
  if is_ok known then ret acc
  else
    let! existing := WorkspaceRepository_GetByID (w_ID cfg) in
    let persisted := match existing with
                     | Ok ws => if decide (w_Path ws = w_Path cfg) then Some ws else None
                     | Err _ => None
                     end in
    match persisted with
    | Some ws =>
        ret (mkLoaded (mkRegistry (<[w_ID ws := ws]> (rg_workspaces r))
                         (<[w_Path ws := w_ID ws]> (rg_paths r)) (rg_workspaceDir r))
               (ld_registered acc) (ld_errors acc))
    | None =>
        let! res := Registry_Register os r cfg in
        match res with
        | Err e => ret (mkLoaded r (ld_registered acc)
                     (ld_errors acc ++ [wrap ("workspace " +:+ w_ID cfg) e]))
        | Ok (result_, r') =>
            ret (mkLoaded r' (ld_registered acc ++ [reg_Workspace result_]) (ld_errors acc))
        end
    end.

Definition Registry_LoadFromConfig (os : OS) (r : Registry) (configs : list Workspace)
    : M Store Loaded :=
  fold_each configs (mkLoaded r [] []) (load_one os).

Definition Registry_Stats (r : Registry) : Z := Z.of_nat (size (rg_workspaces r)).

Lemma later_Registry_GetByID r id : later (Registry_GetByID r id).
Proof.
  unfold Registry_GetByID, WorkspaceRepository_GetByID. destruct (rg_workspaces r !! id); auto with later.
Qed.
#[export] Hint Resolve later_Registry_GetByID : later.

(** ** Confinement *)

(** The base directory itself, or below it. *)
Definition inside (base path : bytes) : Prop := path = base \/ exists rest, path = base ++ slash :: rest.

Lemma validatePathEscape_inside os r path :
  Registry_validatePathEscape os r path = None ->
  filepath_IsAbs path = true /\
  (rg_workspaceDir r <> "" -> exists base,
     filepath_Abs os (rg_workspaceDir r) = Ok base /\ inside (chars base) (chars path)).
Proof.
  unfold Registry_validatePathEscape. destruct (filepath_IsAbs path); [|done]. cbn [negb].
  destruct (has_traversal _); [done|]. case_decide as Hdir; [done|].
  destruct (filepath_Abs os (rg_workspaceDir r)) as [base|e]; [|done].
  unfold strings_HasPrefix. destruct (has_prefix (chars base) (chars path)) eqn:Hp; [|done].
  cbn [negb]. case_decide as Hrem; [done|]. intros _. split; [done|]. intros _. exists base.
  split; [done|]. unfold trim_prefix in Hrem. rewrite Hp in Hrem.
  apply has_prefix_spec in Hp as [rest Hp]. rewrite Hp, drop_app_length in Hrem.
  destruct rest as [|c rest]; [left; by rewrite Hp, app_nil_r|]. right. exists rest. rewrite Hp.
  do 2 f_equal. destruct (decide (c = slash)) as [|Hc]; [done|]. exfalso. apply Hrem.
  split; [done|]. cbn [has_prefix]. rewrite decide_False; [done|by intros <-].
Qed.

(** What registering a workspace checked and did. *)
Record registered (os : OS) (r : Registry) (d : DB) (ws : Workspace) (res : RegisterResult)
    (r' : Registry) (d' : DB) : Prop := mk_registered {
  rd_canonical : Registry_resolveCanonicalPath os (w_Path ws) = Ok (w_Path (reg_Workspace res));
  rd_abs : filepath_IsAbs (w_Path (reg_Workspace res)) = true;
  rd_inside : rg_workspaceDir r <> "" -> exists base,
    filepath_Abs os (rg_workspaceDir r) = Ok base /\
    inside (chars base) (chars (w_Path (reg_Workspace res)));
  rd_exists : os_Stat_NotExist os (w_Path (reg_Workspace res)) = false;
  rd_id : w_ID (reg_Workspace res) = w_ID ws /\ w_ID ws <> "";
  rd_adapters : Registry_validateAllowedAdapters (w_AllowedAdapters ws) = None;
  rd_new_id : rg_workspaces r !! w_ID ws = None /\ workspaces d !! w_ID ws = None;
  rd_new_path : rg_paths r !! w_Path (reg_Workspace res) = None /\
    map_Forall (fun _ row => wr_path row <> w_Path (reg_Workspace res)) (workspaces d);
  rd_row : d' = set_workspaces (<[w_ID ws := workspace_row (reg_Workspace res)]> (workspaces d)) d;
  rd_memory : r' = mkRegistry (<[w_ID ws := reg_Workspace res]> (rg_workspaces r))
    (<[w_Path (reg_Workspace res) := w_ID ws]> (rg_paths r)) (rg_workspaceDir r)
}.

Lemma wp_Register os r ws s (Q : result (RegisterResult * Registry) -> Store -> Prop) :
  (forall e env', env_after (st_env s) env' -> Q (Err e) (mkStore (st_db s) env')) ->
  (forall res r' d' env', env_after (st_env s) env' ->
     registered os r (st_db s) ws res r' d' -> Q (Ok (res, r')) (mkStore d' env')) ->
  wp (Registry_Register os r ws) s Q.
Proof.
  intros HE HS. unfold Registry_Register.
  assert (Hret : forall e env', env_after (st_env s) env' ->
    wp (ret (Err e)) (mkStore (st_db s) env') Q) by (intros; apply HE; solve_env).
  assert (Hs : s = mkStore (st_db s) (st_env s)) by by destruct s.
  case_decide as Hid; [rewrite Hs; apply Hret; reflexivity|].
  case_decide as Hmem; [rewrite Hs; apply Hret; reflexivity|].
  apply eq_None_not_Some in Hmem. unfold WorkspaceRepository_GetByID. wp_simp.
  eapply wp_mono with (Q := fun (_ : result (option (string * WorkspaceRow))) s' =>
    st_db s' = st_db s /\ env_after (st_env s) (st_env s')).
  { apply wp_exec_query; intros; split; (done || solve_env). }
  intros row [d1 env1] [Hd1 He1]. cbn in Hd1, He1. subst d1. wp_simp.
  destruct (is_ok (scanWorkspace row)); [by apply Hret|].
  case_decide as Hpath; [by apply Hret|].
  destruct (Registry_resolveCanonicalPath os (w_Path ws)) as [canonical|e] eqn:Hcan; [|by apply Hret].
  destruct (Registry_validatePathEscape os r canonical) as [e|] eqn:Hesc; [by apply Hret|].
  destruct (rg_paths r !! canonical) as [eid|] eqn:Hdup; [by apply Hret|].
  destruct (os_Stat_NotExist os canonical) eqn:Hstat; [by apply Hret|].
  destruct (Registry_validateAllowedAdapters _) as [e|] eqn:Had; [by apply Hret|].
  apply validatePathEscape_inside in Hesc as [Habs Hin].
  unfold WorkspaceRepository_Create. wp_simp. apply wp_on_env; [auto with env|].
  intros now env2 He2. cbn in He2. wp_simp.
  apply wp_exec.
  { intros e env3 He3 _. cbn in He3. wp_simp. apply HE. solve_env. }
  intros rr d env3 He3 Hins. cbn in He3, Hins. unfold insert_workspace in Hins.
  case_decide as Hex; [injection Hins as <- <-; wp_simp; apply HE; solve_env|].
  case_decide as Hup; [injection Hins as <- <-; wp_simp; apply HE; solve_env|].
  injection Hins as <- <-. wp_simp. apply HS; [solve_env|].
  constructor; cbn; try done.
  - split; [done|]. by apply eq_None_not_Some.
  - split; [done|]. intros id row' Hrow Hsame. apply Hup. exists id, row'. done.
Qed.


Definition demo_os : OS :=
  mkOS (inl "/home/op") (fun p => if decide (p = "/srv/link") then Canonical "/srv/car/app"
                                  else Canonical p) (fun p => bool_decide (p = "/srv/car/gone")).
Definition demo_new_ws : Workspace :=
  mkWorkspace "ws-2" "App" "/srv//link/" ["claude-code"] demo_policy 0 0.
Definition demo_registry : Registry := NewRegistry "/srv/car".


(** A root of / refuses every path below it: the base directory / ends with
    the separator that the remaining path is required to start with. *)
Lemma root_refuses os r path :
  rg_workspaceDir r = "/" -> path <> "/" -> strings_HasPrefix path "//" = false ->
  Registry_validatePathEscape os r path <> None.
Proof.
  intros Hr Hne H2 H. destruct (validatePathEscape_inside os r path H) as [_ Hin].
  rewrite Hr in Hin. destruct (Hin ltac:(done)) as (base & Hb & Hi).
  change (filepath_Abs os "/") with (Ok "/") in Hb. injection Hb as <-.
  destruct Hi as [Hi|[rest Hi]].
  - apply Hne. by rewrite <- (text_chars path), Hi.
  - unfold strings_HasPrefix in H2. rewrite Hi in H2. done.
Qed.

(** ** The registry against the database *)

(** Paths are unique in the table; every workspace in memory has its row, with
    its path, and the map of paths is the inverse of the map of workspaces. *)
Record registry_ok (r : Registry) (d : DB) : Prop := mk_registry_ok {
  rok_unique : forall i j x y, workspaces d !! i = Some x -> workspaces d !! j = Some y ->
    wr_path x = wr_path y -> i = j;
  rok_memory : forall id ws, rg_workspaces r !! id = Some ws ->
    w_ID ws = id /\ rg_paths r !! w_Path ws = Some id /\
    exists row, workspaces d !! id = Some row /\ wr_path row = w_Path ws;
  rok_paths : forall p id, rg_paths r !! p = Some id ->
    exists ws, rg_workspaces r !! id = Some ws /\ w_Path ws = p
}.

Lemma registered_ok os r d ws res r' d' :
  registry_ok r d -> registered os r d ws res r' d' -> registry_ok r' d'.
Proof.
  intros [Hu Hm Hp] [_ _ _ _ [Hid _] _ [Hn1 Hn2] [Hn3 Hn4] -> ->].
  set (w := reg_Workspace res) in *. split; cbn.
  - intros i j x y. rewrite !lookup_insert_Some.
    intros [[<- <-]|[Hi Hx]] [[<- <-]|[Hj Hy]] Heq; try done.
    + symmetry in Heq. by apply (Hn4 _ _ Hy) in Heq.
    + by apply (Hn4 _ _ Hx) in Heq.
    + eauto.
  - intros id v. rewrite lookup_insert_Some. intros [[<- <-]|[Hne Hv]].
    + split; [done|]. rewrite lookup_insert_eq. split; [done|].
      exists (workspace_row w). by rewrite lookup_insert_eq.
    + destruct (Hm _ _ Hv) as (H1 & H2 & row & H3 & H4). split; [done|].
      rewrite lookup_insert_ne by congruence. split; [done|].
      exists row. by rewrite lookup_insert_ne.
  - intros p id. rewrite lookup_insert_Some. intros [[<- <-]|[Hne Hv]].
    + exists w. by rewrite lookup_insert_eq.
    + destruct (Hp _ _ Hv) as (v & H1 & H2). exists v. rewrite lookup_insert_ne; [done|].
      intros <-. congruence.
Qed.

(** The operations that change the registry. *)
Inductive registry_op :=
  | RegRegister (os : OS) (ws : Workspace)
  | RegUnregister (id : string)
  | RegLoadFromConfig (os : OS) (configs : list Workspace).

(** A failed call leaves the registry as it was. *)
Definition run_registry_op (r : Registry) (o : registry_op) : M Store Registry :=
  match o with
  | RegRegister os ws =>
      let! x := Registry_Register os r ws in
      ret (match x with Ok y => y.2 | Err _ => r end)
  | RegUnregister id =>
      let! x := Registry_Unregister r id in ret (match x with Ok r' => r' | Err _ => r end)
  | RegLoadFromConfig os configs =>
      let! x := Registry_LoadFromConfig os r configs in ret (ld_registry x)
  end.

Lemma wp_Register_ok os r ws s :
  registry_ok r (st_db s) ->
  wp (Registry_Register os r ws) s (fun x s' =>
    registry_ok (match x with Ok y => y.2 | Err _ => r end) (st_db s')).
Proof.
  intros Hr. apply wp_Register; [done|]. intros res r' d' env' _ H. by eapply registered_ok.
Qed.

Lemma wp_WorkspaceRepository_GetByID id s (Q : result Workspace -> Store -> Prop) :
  (forall x env', (forall ws, x = Ok ws -> exists row, workspaces (st_db s) !! id = Some row /\
     ws = scan_workspace_columns (id, row)) -> Q x (mkStore (st_db s) env')) ->
  wp (WorkspaceRepository_GetByID id) s Q.
Proof.
  intros HQ. unfold WorkspaceRepository_GetByID. wp_simp. apply wp_exec_query.
  - intros e env' _ _. wp_simp. by apply HQ.
  - intros env' _. wp_simp. apply HQ. intros ws.
    destruct (workspaces (st_db s) !! id) as [row|]; [|done]. cbn. intros [= <-]. eauto.
Qed.

Lemma wp_Unregister_ok r id s :
  registry_ok r (st_db s) ->
  wp (Registry_Unregister r id) s (fun x s' =>
    registry_ok (match x with Ok r' => r' | Err _ => r end) (st_db s')).
Proof.
  intros Hr. pose proof Hr as [Hu Hm Hp]. unfold Registry_Unregister. wp_simp.
  assert (Hdel : forall ws s1, st_db s1 = st_db s ->
    (rg_workspaces r !! id = Some ws \/ (rg_workspaces r !! id = None /\
      exists row, workspaces (st_db s) !! id = Some row /\ wr_path row = w_Path ws)) ->
    wp (let? _ := WorkspaceRepository_Delete id orelse wrap "deleting workspace" in
        ret (Ok (mkRegistry (delete id (rg_workspaces r)) (delete (w_Path ws) (rg_paths r))
                   (rg_workspaceDir r)))) s1
      (fun x s' => registry_ok (match x with Ok r' => r' | Err _ => r end) (st_db s'))).
  { intros ws [d1 e1] Hd1 Hws. cbn in Hd1. subst d1. unfold WorkspaceRepository_Delete. wp_simp.
    apply wp_exec; [by intros|]. intros x d env' _ Hst. cbn in Hst. unfold delete_workspace in Hst.
    destruct (_ && _) in Hst; injection Hst as <- <-; cbn; [done|]. wp_simp. cbn.
    assert (Hpath : forall p i, rg_paths r !! p = Some i -> p = w_Path ws <-> i = id).
    { intros p i Hi. destruct (Hp _ _ Hi) as (v & Hv & Hvp). destruct (Hm _ _ Hv) as (_ & Hq & row & Hrow & Hrp).
      destruct Hws as [Hws|(Hn & row' & Hrow' & Hrp')].
      - destruct (Hm _ _ Hws) as (_ & Hq2 & _). split; [intros ->; congruence|].
        intros ->. congruence.
      - split; [intros ->|intros ->; congruence]. eapply Hu; [exact Hrow|exact Hrow'|congruence]. }
    split; cbn.
    - intros i j a b [_ Ha]%lookup_delete_Some [_ Hb]%lookup_delete_Some. eauto.
    - intros i v [Hne Hv]%lookup_delete_Some. destruct (Hm _ _ Hv) as (H1 & H2 & row & H3 & H4).
      split; [done|]. rewrite lookup_delete_ne by (intros E; symmetry in E; by apply (Hpath _ _ H2) in E).
      split; [done|]. exists row. by rewrite lookup_delete_ne.
    - intros p i [Hne Hi]%lookup_delete_Some. destruct (Hp _ _ Hi) as (v & H1 & H2). exists v.
      rewrite lookup_delete_ne; [done|]. intros <-. apply Hne. symmetry. by apply (Hpath _ _ Hi). }
  destruct (rg_workspaces r !! id) as [ws|] eqn:E; [apply wp_ret; apply (Hdel ws s); auto|].
  apply wp_WorkspaceRepository_GetByID. intros [ws|e] env' Hws; [|done]. cbn.
  destruct (Hws ws eq_refl) as (row & Hrow & ->). apply (Hdel _ (mkStore (st_db s) env')); [done|].
  right. split; [done|]. by exists row.
Qed.

Lemma wp_load_one_ok os acc cfg s :
  registry_ok (ld_registry acc) (st_db s) ->
  wp (load_one os acc cfg) s (fun acc' s' => registry_ok (ld_registry acc') (st_db s')).
Proof.
  intros Hr. unfold load_one. wp_simp.
  eapply wp_mono with (Q := fun x s' => st_db s' = st_db s /\
    (is_ok x = false -> rg_workspaces (ld_registry acc) !! w_ID cfg = None)).
  { unfold Registry_GetByID. destruct (rg_workspaces _ !! _) eqn:E; [by wp_simp|].
    by apply wp_WorkspaceRepository_GetByID. }
  intros known [d1 env1] [Hd1 Hk]. cbn in Hd1. subst d1. destruct (is_ok known); [by wp_simp|].
  specialize (Hk eq_refl). wp_simp. apply wp_WorkspaceRepository_GetByID. cbn [st_db].
  intros x env2 Hx.
  destruct (match x with Ok ws => _ | Err _ => _ end) as [ws|] eqn:Eper.
  - destruct x as [ws'|]; [|done]. case_decide as Hpath; [|done]. injection Eper as ->.
    destruct (Hx ws eq_refl) as (row & Hrow & ->). wp_simp. cbn.
    destruct Hr as [Hu Hm Hp]. split; cbn; [done| |].
    + intros i v. rewrite lookup_insert_Some. intros [[<- <-]|[Hne Hv]].
      * cbn. rewrite lookup_insert_eq. eauto.
      * destruct (Hm _ _ Hv) as (H1 & H2 & row' & H3 & H4). split; [done|].
        rewrite lookup_insert_ne; [eauto|]. intros E. apply Hne.
        eapply Hu; [exact Hrow|exact H3|congruence].
    + intros p i. rewrite lookup_insert_Some. intros [[<- <-]|[Hne Hv]].
      * eexists. by rewrite lookup_insert_eq.
      * destruct (Hp _ _ Hv) as (v & H1 & H2). exists v. rewrite lookup_insert_ne; [done|].
        intros <-. congruence.
  - wp_simp. eapply wp_mono; [by apply wp_Register_ok|].
    intros [[y r']|e] s' H; wp_simp; exact H.
Qed.

Lemma wp_run_registry_op r o s :
  registry_ok r (st_db s) ->
  wp (run_registry_op r o) s (fun r' s' => registry_ok r' (st_db s')).
Proof.
  intros Hr. destruct o as [os ws|id|os configs]; cbn [run_registry_op]; wp_simp.
  - eapply wp_mono; [by apply wp_Register_ok|]. intros x s' H. by wp_simp.
  - eapply wp_mono; [by apply wp_Unregister_ok|]. intros x s' H. by wp_simp.
  - unfold Registry_LoadFromConfig.
    apply wp_fold_each with (I := fun _ acc s' => registry_ok (ld_registry acc) (st_db s')); [done| |].
    + intros x l acc s' H. by apply wp_load_one_ok.
    + intros acc s' H. by wp_simp.
Qed.

(** C15: The registry agrees with the database.  In every sequence of
    registrations, removals and loads from the configuration, with any driver
    failures, starting with an empty registry over a table with unique paths:
    paths stay unique, every workspace in memory has its row with the same
    path, and the two maps in memory are inverse to each other. *)
Theorem registry_invariant dir ops s r s' :
  (forall i j x y, workspaces (st_db s) !! i = Some x -> workspaces (st_db s) !! j = Some y ->
     wr_path x = wr_path y -> i = j) ->
  fold_each ops (NewRegistry dir) run_registry_op s = (r, s') ->
  registry_ok r (st_db s').
Proof.
  intros Hu E. wp_start E.
  apply wp_fold_each with (I := fun _ r s' => registry_ok r (st_db s')).
  - split; [done|by intros ? ?|by intros ? ?].
  - intros o l r1 s1 H. by apply wp_run_registry_op.
  - by intros r1 s1 H <-.
Qed.

Lemma registry_invariant_witness :
  registry_ok (fold_each [RegRegister demo_os demo_new_ws; RegUnregister "ws-2"]
    demo_registry run_registry_op (mkStore empty_DB steady_env)).1
    (st_db (fold_each [RegRegister demo_os demo_new_ws; RegUnregister "ws-2"]
       demo_registry run_registry_op (mkStore empty_DB steady_env)).2).
Proof.
  apply (registry_invariant "/srv/car" [RegRegister demo_os demo_new_ws; RegUnregister "ws-2"]
           (mkStore empty_DB steady_env)).
  - intros i j x y H. exfalso. discriminate H.
  - apply surjective_pairing.
Defined.

(** The configuration does not reach a persisted workspace.  Without
    driver failures an entry whose id is already stored is skipped whatever
    its path: it is not registered, not loaded into memory and reported as no
    error, so a changed path is silently ignored after a restart, and the
    registry of a restarted server stays empty for its stored workspaces. *)
Theorem LoadFromConfig_ignores_persisted os r configs s acc s' :
  quiet (st_env s) ->
  Forall (fun cfg => is_Some (workspaces (st_db s) !! w_ID cfg)) configs ->
  Registry_LoadFromConfig os r configs s = (acc, s') ->
  acc = mkLoaded r [] [] /\ st_db s' = st_db s.
Proof.
  intros Hq Hall E. wp_start E. unfold Registry_LoadFromConfig.
  apply wp_fold_each with (I := fun l acc s1 => acc = mkLoaded r [] [] /\ st_db s1 = st_db s /\
    env_after (st_env s) (st_env s1) /\ Forall (fun cfg => is_Some (workspaces (st_db s) !! w_ID cfg)) l).
  - repeat split; done || reflexivity.
  - intros cfg l acc1 [d1 e1] (-> & Hd & He & Hl). cbn in Hd, He. subst d1.
    apply Forall_cons in Hl as [[row Hrow] Hl]. unfold load_one. wp_simp. cbn [ld_registry].
    eapply wp_mono with (Q := fun x s2 => is_ok x = true /\ st_db s2 = st_db s /\
      env_after (st_env s) (st_env s2)).
    + unfold Registry_GetByID. destruct (rg_workspaces r !! w_ID cfg); [by wp_simp|].
      unfold WorkspaceRepository_GetByID. wp_simp. apply wp_exec_query.
      * intros e env' _ Hf. exfalso. eapply quiet_not_faulty; [exact Hq|]. by eapply faulty_before.
      * intros env' He'. wp_simp. cbn [st_db] in *. rewrite Hrow. split; [done|]. split; [done|solve_env].
    + intros x s2 (-> & Hd2 & He2). by wp_simp.
  - intros acc1 s1 (-> & Hd & _) <-. done.
Qed.

Definition demo_persisted : Store :=
  mkStore (set_workspaces {["ws-1" := demo_workspace_row]} empty_DB) steady_env.
Definition demo_moved : Workspace :=
  mkWorkspace "ws-1" "Demo" "/srv/elsewhere" ["fake-adapter"] demo_policy 0 0.

Lemma LoadFromConfig_ignores_persisted_witness :
  exists s', Registry_LoadFromConfig demo_os (NewRegistry "") [demo_moved] demo_persisted =
    (mkLoaded (NewRegistry "") [] [], s') /\ st_db s' = st_db demo_persisted.
Proof.
  destruct (Registry_LoadFromConfig demo_os (NewRegistry "") [demo_moved] demo_persisted)
    as [acc s'] eqn:E.
  destruct (LoadFromConfig_ignores_persisted demo_os (NewRegistry "") [demo_moved] demo_persisted
    acc s') as [H1 H2].
  - intros n. reflexivity.
  - apply Forall_cons. split; [eexists; reflexivity|constructor].
  - exact E.
  - exists s'. split; [by rewrite H1|exact H2].
Defined.
