(* ===== verification/Adapter.v ===== *)
(** * The adapter interface (src/internal/adapter/adapter.go)

    An adapter is a record of operations on its own state (the processes it
    runs), as the [Adapter] interface lists them; the signals of a run are
    values, their payloads raw JSON that the core decodes. *)

From S2P Require Import Prelude Env Json GoStrings Domain.

Definition SignalOutput : string := "output".
Definition SignalStatusChange : string := "status_change".
Definition SignalApprovalRequest : string := "approval_request".
Definition SignalChangedFile : string := "changed_file".
Definition SignalDiagnostic : string := "diagnostic".
Definition SignalCompletion : string := "completion".
Definition SignalError : string := "error".

Record AdapterSignal := mkAdapterSignal {
  sig_Type : string;
  sig_SessionID : string;
  sig_Timestamp : Z;
  sig_Payload : RawMessage
}.

(** ** Payloads *)

Record OutputPayload := mkOutputPayload { op_Content : string; op_Stream : string }.
Record StatusChangePayload := mkStatusChangePayload {
  sc_OldState : string; sc_NewState : string; sc_Reason : string }.
Record ApprovalRequestPayload := mkApprovalRequestPayload {
  arp_ApprovalID : string;
  arp_Category : string;
  arp_ActionKind : string;
  arp_HumanReadableContext : string;
  arp_StructuredPayload : option payload;
  arp_ExpiresIn : Z
}.
Record ChangedFilePayload := mkChangedFilePayload {
  cf_Path : string; cf_Operation : string; cf_Diff : string; cf_ContentSize : Z }.
Record DiagnosticPayload := mkDiagnosticPayload { dp_Level : string; dp_Message : string }.
Record CompletionPayload := mkCompletionPayload {
  cp_ExitCode : Z; cp_ExitError : string; cp_DurationMs : Z }.
Record ErrorPayload := mkErrorPayload {
  ep_Code : string; ep_Message : string; ep_Details : string }.

Definition decode_OutputPayload : RawMessage -> result OutputPayload :=
  unmarshal_struct "adapter.OutputPayload" (fun k v p =>
    let '(mkOutputPayload c s) := p in
    if names k "content" then set_field (fun x => mkOutputPayload x s)
      (assign_string "OutputPayload.content" v c)
    else if names k "stream" then set_field (mkOutputPayload c)
      (assign_string "OutputPayload.stream" v s)
    else Ok p) (mkOutputPayload "" "").

Definition decode_StatusChangePayload : RawMessage -> result StatusChangePayload :=
  unmarshal_struct "adapter.StatusChangePayload" (fun k v p =>
    let '(mkStatusChangePayload o n r) := p in
    if names k "old_state" then set_field (fun x => mkStatusChangePayload x n r)
      (assign_string "StatusChangePayload.old_state" v o)
    else if names k "new_state" then set_field (fun x => mkStatusChangePayload o x r)
      (assign_string "StatusChangePayload.new_state" v n)
    else if names k "reason" then set_field (mkStatusChangePayload o n)
      (assign_string "StatusChangePayload.reason" v r)
    else Ok p) (mkStatusChangePayload "" "" "").

Definition decode_ApprovalRequestPayload : RawMessage -> result ApprovalRequestPayload :=
  unmarshal_struct "adapter.ApprovalRequestPayload" (fun k v p =>
    let '(mkApprovalRequestPayload i c a h m e) := p in
    if names k "approval_id" then set_field (fun x => mkApprovalRequestPayload x c a h m e)
      (assign_string "ApprovalRequestPayload.approval_id" v i)
    else if names k "category" then set_field (fun x => mkApprovalRequestPayload i x a h m e)
      (assign_string "ApprovalRequestPayload.category" v c)
    else if names k "action_kind" then set_field (fun x => mkApprovalRequestPayload i c x h m e)
      (assign_string "ApprovalRequestPayload.action_kind" v a)
    else if names k "human_readable_context"
    then set_field (fun x => mkApprovalRequestPayload i c a x m e)
      (assign_string "ApprovalRequestPayload.human_readable_context" v h)
    else if names k "structured_payload"
    then set_field (fun x => mkApprovalRequestPayload i c a h x e)
      (assign_map "ApprovalRequestPayload.structured_payload" v m)
    else if names k "expires_in" then set_field (mkApprovalRequestPayload i c a h m)
      (assign_int "ApprovalRequestPayload.expires_in" v e)
    else Ok p) (mkApprovalRequestPayload "" "" "" "" None 0).

Definition decode_CompletionPayload : RawMessage -> result CompletionPayload :=
  unmarshal_struct "adapter.CompletionPayload" (fun k v p =>
    let '(mkCompletionPayload c e d) := p in
    if names k "exit_code" then set_field (fun x => mkCompletionPayload x e d)
      (assign_int "CompletionPayload.exit_code" v c)
    else if names k "exit_error" then set_field (fun x => mkCompletionPayload c x d)
      (assign_string "CompletionPayload.exit_error" v e)
    else if names k "duration_ms" then set_field (mkCompletionPayload c e)
      (assign_int "CompletionPayload.duration_ms" v d)
    else Ok p) (mkCompletionPayload 0 "" 0).

Definition decode_ErrorPayload : RawMessage -> result ErrorPayload :=
  unmarshal_struct "adapter.ErrorPayload" (fun k v p =>
    let '(mkErrorPayload c m d) := p in
    if names k "code" then set_field (fun x => mkErrorPayload x m d)
      (assign_string "ErrorPayload.code" v c)
    else if names k "message" then set_field (fun x => mkErrorPayload c x d)
      (assign_string "ErrorPayload.message" v m)
    else if names k "details" then set_field (mkErrorPayload c m)
      (assign_string "ErrorPayload.details" v d)
    else Ok p) (mkErrorPayload "" "" "").

(** *** Marshalling

    A field marked omitempty is left out when it is empty; invalid UTF-8 in a
    string is replaced. *)

Definition field (k s : string) : payload := [(k, JStr (strings_coerce s))].
Definition field_omitempty (k s : string) : payload := if decide (s = "") then [] else field k s.

Definition encode_OutputPayload (p : OutputPayload) : json :=
  JObj (field "content" (op_Content p) ++ field_omitempty "stream" (op_Stream p)).
Definition encode_StatusChangePayload (p : StatusChangePayload) : json :=
  JObj (field "old_state" (sc_OldState p) ++ field "new_state" (sc_NewState p) ++
        field_omitempty "reason" (sc_Reason p)).
Definition encode_ApprovalRequestPayload (p : ApprovalRequestPayload) : json :=
  JObj (field "approval_id" (arp_ApprovalID p) ++ field "category" (arp_Category p) ++
        field "action_kind" (arp_ActionKind p) ++
        field "human_readable_context" (arp_HumanReadableContext p) ++
        [("structured_payload", match arp_StructuredPayload p with
                                | Some m => JObj m | None => JNull end);
         ("expires_in", JNum (arp_ExpiresIn p))]).
Definition encode_DiagnosticPayload (p : DiagnosticPayload) : json :=
  JObj (field "level" (dp_Level p) ++ field "message" (dp_Message p)).
Definition encode_CompletionPayload (p : CompletionPayload) : json :=
  JObj ([("exit_code", JNum (cp_ExitCode p))] ++ field_omitempty "exit_error" (cp_ExitError p) ++
        [("duration_ms", JNum (cp_DurationMs p))]).
Definition encode_ErrorPayload (p : ErrorPayload) : json :=
  JObj (field "code" (ep_Code p) ++ field "message" (ep_Message p) ++
        field_omitempty "details" (ep_Details p)).

Lemma strings_coerce_empty : strings_coerce "" = "".
Proof. reflexivity. Qed.

(** The core decodes what an adapter marshals. *)
Lemma decode_encode_OutputPayload p :
  decode_OutputPayload (RawJSON (encode_OutputPayload p)) =
  Ok (mkOutputPayload (strings_coerce (op_Content p)) (strings_coerce (op_Stream p))).
Proof.
  destruct p as [c s]. unfold encode_OutputPayload, field_omitempty; cbn [op_Stream op_Content].
  destruct (decide (s = "")) as [->|]; reflexivity.
Qed.

Lemma decode_encode_StatusChangePayload p :
  decode_StatusChangePayload (RawJSON (encode_StatusChangePayload p)) =
  Ok (mkStatusChangePayload (strings_coerce (sc_OldState p)) (strings_coerce (sc_NewState p))
        (strings_coerce (sc_Reason p))).
Proof.
  destruct p as [o n r]. unfold encode_StatusChangePayload, field_omitempty; cbn [sc_Reason].
  destruct (decide (r = "")) as [->|]; reflexivity.
Qed.

Lemma decode_encode_CompletionPayload p :
  min_int64 <= cp_ExitCode p <= max_int64 -> min_int64 <= cp_DurationMs p <= max_int64 ->
  decode_CompletionPayload (RawJSON (encode_CompletionPayload p)) =
  Ok (mkCompletionPayload (cp_ExitCode p) (strings_coerce (cp_ExitError p)) (cp_DurationMs p)).
Proof.
  destruct p as [c e d]. cbn [cp_ExitCode cp_DurationMs]. intros Hc Hd.
  unfold encode_CompletionPayload, field_omitempty; cbn [cp_ExitCode cp_DurationMs cp_ExitError].
  unfold decode_CompletionPayload, unmarshal_struct.
  destruct (decide (e = "")) as [->|]; cbn -[names min_int64 max_int64 strings_coerce];
    repeat (rewrite (decide_True (P := _ <= _ <= _)) by done; cbn -[min_int64 max_int64 strings_coerce]);
    reflexivity.
Qed.

(** ** The interface *)

Record ValidationResult := mkValidationResult {
  vr_Valid : bool; vr_Errors : list string; vr_Warnings : list string }.
Record RunHandle := mkRunHandle {
  rh_ID : string; rh_SessionID : string; rh_PID : Z; rh_StartedAt : Z }.
Record Accepted := mkAccepted { acc_Accepted : bool; acc_Message : string }.

Record RecoveryResult := mkRecoveryResult {
  rec_CanRecover : bool; rec_State : string; rec_Metadata : list (string * string);
  rec_Error : string }.
Record CapabilitySet := mkCapabilitySet {
  cap_SupportsResume : bool; cap_SupportsApproval : bool; cap_SupportsInterrupt : bool;
  cap_SupportsStreaming : bool; cap_Version : string; cap_AgentType : string;
  cap_AgentVersion : string }.

(** Maps are lists, in the order in which they are iterated. *)
Record Input := mkInput {
  in_WorkspacePath : string;
  in_InitialPrompt : string;
  in_Args : list string;
  in_Env : list (string * string);
  in_Secrets : list (string * string)
}.

(** The operations the core calls; the signals of [Observe] are given to the
    observer as a list. *)
Record Adapter (W : Type) := mkAdapter {
  ad_ID : string;
  ad_ValidateWorkspace : Workspace -> ValidationResult;
  ad_Start : Session -> Input -> M W (result RunHandle);
  ad_SubmitInput : RunHandle -> string -> M W Accepted;
  ad_Interrupt : RunHandle -> M W Accepted;
  ad_DecideApproval : RunHandle -> string -> bool -> string -> M W Accepted
}.
Arguments mkAdapter {W} _ _ _ _ _ _.
Arguments ad_ID {W} _.
Arguments ad_ValidateWorkspace {W} _ _.
Arguments ad_Start {W} _ _ _.
Arguments ad_SubmitInput {W} _ _ _.
Arguments ad_Interrupt {W} _ _.
Arguments ad_DecideApproval {W} _ _ _ _ _.

Record BaseAdapter := mkBaseAdapter { ba_id : string; ba_capabilities : CapabilitySet }.
Definition NewBaseAdapter (id : string) (caps : CapabilitySet) : BaseAdapter := mkBaseAdapter id caps.
Definition BaseAdapter_ID (a : BaseAdapter) : string := ba_id a.
Definition BaseAdapter_Capabilities (a : BaseAdapter) : CapabilitySet := ba_capabilities a.

(** The default validation, for the adapter with this id. *)
Definition BaseAdapter_ValidateWorkspace (id : string) (ws : Workspace) : ValidationResult :=
  let errs1 := if decide (w_Path ws = "") then ["workspace path is empty"] else [] in
  let errs2 := if decide (w_AllowedAdapters ws <> [] /\ id ∉ w_AllowedAdapters ws)
               then ["adapter not allowed in workspace"] else [] in
  mkValidationResult (bool_decide (errs1 ++ errs2 = [])) (errs1 ++ errs2) [].
