(* ===== verification/FakeAdapter.v ===== *)
(** * The fake adapter (src/internal/adapter/fake_adapter.go)

    Every run has a goroutine that plays the scenario: a program counter with a
    step for each timer it waits for and each signal it sends.  Its steps, those
    of other runs, the observers that receive from the channels and the calls of
    the core interleave.  Runs and their channels are pointers, a run and its
    channel being made together: the maps by run id may be changed while a
    goroutine still holds its run.  Timers fire at any time; a panic ends the
    program. *)

From S2P Require Import Prelude Env Json GoStrings Domain Adapter.

(** ** Scenarios *)

Record ApprovalRequest := mkApprovalRequest {
  aq_Category : string; aq_ActionKind : string; aq_HumanReadableContext : string;
  aq_StructuredPayload : option payload; aq_AfterOutput : Z }.

(** Durations only delay the goroutine. *)
Record FakeScenario := mkFakeScenario {
  fs_StartupDelay : Z; fs_OutputLines : list string; fs_OutputDelay : Z;
  fs_RequestApproval : option ApprovalRequest; fs_ExitCode : Z; fs_ExitAfterApproval : Z;
  fs_FailOnStart : bool; fs_FailWithError : string }.

(** ** State *)

(** Where a goroutine is.  [n] lines are out and [todo] is left. *)
Inductive fake_pc :=
  | FBegin                                                   (** waiting for the startup delay *)
  | FStarted                                                 (** about to send the first signal *)
  | FWait (n : Z) (todo : list string)                       (** waiting for the output delay *)
  | FOutput (n : Z) (line : string) (todo : list string)     (** about to send a line *)
  | FAsk (n : Z) (todo : list string)                        (** about to ask for the approval *)
  | FAskStatus (n : Z) (todo : list string)
  | FPoll (n : Z) (todo : list string) (deadline : Z)        (** polling for the decision *)
  | FResolved (n : Z) (todo : list string)
  | FPause (n : Z) (todo : list string)                      (** waiting after the decision *)
  | FComplete
  | FFinish
  | FDefer                                                   (** in the deferred function *)
  | FGone.

(** A run; the context it was started with, its goroutine and its channel (what
    waits in it, whether it is closed, what the observer received) come with it. *)
Record fakeRun := mkFakeRun {
  fr_handle : RunHandle;
  fr_state : string;
  fr_startedAt : Z;
  fr_outputIdx : Z;
  fr_approval : option ApprovalRequest;
  fr_approved : option bool;
  fr_done : bool;
  fr_cancelled : bool;
  fr_pc : fake_pc;
  fr_queue : list AdapterSignal;
  fr_closed : bool;
  fr_received : list AdapterSignal }.

Definition set_fr_state (x : string) (r : fakeRun) : fakeRun :=
  mkFakeRun (fr_handle r) x (fr_startedAt r) (fr_outputIdx r) (fr_approval r) (fr_approved r) (fr_done r)
    (fr_cancelled r) (fr_pc r) (fr_queue r) (fr_closed r) (fr_received r).
Definition set_fr_outputIdx (x : Z) (r : fakeRun) : fakeRun :=
  mkFakeRun (fr_handle r) (fr_state r) (fr_startedAt r) x (fr_approval r) (fr_approved r) (fr_done r)
    (fr_cancelled r) (fr_pc r) (fr_queue r) (fr_closed r) (fr_received r).
Definition set_fr_approved (x : bool) (r : fakeRun) : fakeRun :=
  mkFakeRun (fr_handle r) (fr_state r) (fr_startedAt r) (fr_outputIdx r) (fr_approval r) (Some x) (fr_done r)
    (fr_cancelled r) (fr_pc r) (fr_queue r) (fr_closed r) (fr_received r).
Definition set_fr_done (r : fakeRun) : fakeRun :=
  mkFakeRun (fr_handle r) (fr_state r) (fr_startedAt r) (fr_outputIdx r) (fr_approval r) (fr_approved r) true
    (fr_cancelled r) (fr_pc r) (fr_queue r) (fr_closed r) (fr_received r).
Definition set_fr_cancelled (r : fakeRun) : fakeRun :=
  mkFakeRun (fr_handle r) (fr_state r) (fr_startedAt r) (fr_outputIdx r) (fr_approval r) (fr_approved r) (fr_done r)
    true (fr_pc r) (fr_queue r) (fr_closed r) (fr_received r).
Definition set_fr_pc (x : fake_pc) (r : fakeRun) : fakeRun :=
  mkFakeRun (fr_handle r) (fr_state r) (fr_startedAt r) (fr_outputIdx r) (fr_approval r) (fr_approved r) (fr_done r)
    (fr_cancelled r) x (fr_queue r) (fr_closed r) (fr_received r).
Definition set_fr_chan (q : list AdapterSignal) (c : bool) (o : list AdapterSignal) (r : fakeRun) : fakeRun :=
  mkFakeRun (fr_handle r) (fr_state r) (fr_startedAt r) (fr_outputIdx r) (fr_approval r) (fr_approved r) (fr_done r)
    (fr_cancelled r) (fr_pc r) q c o.

Record FakeAdapter := mkFakeAdapter {
  fa_runs : gmap string nat;
  fa_signals : gmap string nat;      (** the run whose channel it is *)
  fa_scenario : FakeScenario;
  fa_degraded : bool;
  fa_heap : list fakeRun;
  fa_panicked : bool;
  fa_env : Env }.

Definition set_fa_heap (h : list fakeRun) (a : FakeAdapter) : FakeAdapter :=
  mkFakeAdapter (fa_runs a) (fa_signals a) (fa_scenario a) (fa_degraded a) h (fa_panicked a) (fa_env a).
Definition set_fa_env (e : Env) (a : FakeAdapter) : FakeAdapter :=
  mkFakeAdapter (fa_runs a) (fa_signals a) (fa_scenario a) (fa_degraded a) (fa_heap a) (fa_panicked a) e.
Definition fa_panic (a : FakeAdapter) : FakeAdapter :=
  mkFakeAdapter (fa_runs a) (fa_signals a) (fa_scenario a) (fa_degraded a) (fa_heap a) true (fa_env a).
Definition add_run (id : string) (r : fakeRun) (a : FakeAdapter) : FakeAdapter :=
  mkFakeAdapter (<[id := length (fa_heap a)]> (fa_runs a)) (<[id := length (fa_heap a)]> (fa_signals a))
    (fa_scenario a) (fa_degraded a) (fa_heap a ++ [r]) (fa_panicked a) (fa_env a).

Definition upd_run (i : nat) (f : fakeRun -> fakeRun) : M FakeAdapter unit :=
  modify (fun a => set_fa_heap (alter f i (fa_heap a)) a).
Definition fa_now : M FakeAdapter Z := zoom fa_env set_fa_env time_Now.

Definition NewFakeAdapter (e : Env) : FakeAdapter :=
  mkFakeAdapter ∅ ∅
    (mkFakeScenario (100 * Millisecond) ["Hello from fake agent"; "Processing..."; "Done."] (50 * Millisecond)
       None 0 (50 * Millisecond) false "")
    false [] false e.
Definition fake_capabilities : CapabilitySet := mkCapabilitySet true true true true "1.0.0" "fake" "0.0.0".

(** ** The calls of the core *)

Definition FakeAdapter_WithScenario (s : FakeScenario) : M FakeAdapter unit :=
  modify (fun a => mkFakeAdapter (fa_runs a) (fa_signals a) s (fa_degraded a) (fa_heap a) (fa_panicked a) (fa_env a)).
Definition FakeAdapter_SetCompatibilityDegraded (d : bool) : M FakeAdapter unit :=
  modify (fun a => mkFakeAdapter (fa_runs a) (fa_signals a) (fa_scenario a) d (fa_heap a) (fa_panicked a) (fa_env a)).
Definition FakeAdapter_IsCompatibilityDegraded (a : FakeAdapter) : bool := fa_degraded a.

Definition FakeAdapter_ValidateWorkspace (ws : Workspace) : ValidationResult := mkValidationResult true [] [].

Definition FakeAdapter_Start (session : Session) (input : Input) : M FakeAdapter (result RunHandle) :=
  let! a := get in
  let sc := fa_scenario a in
  if fs_FailOnStart sc then ret (Err (ErrNew ("simulated startup failure: " +:+ fs_FailWithError sc)))
  else
    let! now := fa_now in
    let handle := mkRunHandle ("run-" +:+ s_ID session) (s_ID session) 12345 now in
    modify (add_run (rh_ID handle)
      (mkFakeRun handle RunStateStarting now 0 (fs_RequestApproval sc) None false false FBegin [] false []));;;
    ret (Ok handle).

Definition FakeAdapter_SubmitInput (run : RunHandle) (prompt : string) : M FakeAdapter Accepted :=
  ret (mkAccepted true "prompt accepted").

Definition fake_run (id : string) (a : FakeAdapter) : option (nat * fakeRun) :=
  i ← fa_runs a !! id; r ← fa_heap a !! i; Some (i, r).

Definition FakeAdapter_Interrupt (run : RunHandle) : M FakeAdapter Accepted :=
  let! found := gets (fake_run (rh_ID run)) in
  match found with
  | None => ret (mkAccepted false "run not found")
  | Some (i, r) =>
      if fr_done r then ret (mkAccepted false "run already completed")
      else
        upd_run i (fun r => set_fr_state RunStateInterrupted (set_fr_done r));;;
        ret (mkAccepted true "interrupt accepted")
  end.

(** The run whose channel is returned; without one, a closed channel. *)
Definition FakeAdapter_Observe (run : RunHandle) (a : FakeAdapter) : option nat := fa_signals a !! rh_ID run.

Definition FakeAdapter_DecideApproval (run : RunHandle) (approvalID : string) (approved : bool) (reason : string)
    : M FakeAdapter Accepted :=
  let! found := gets (fake_run (rh_ID run)) in
  match found with
  | None => ret (mkAccepted false "run not found")
  | Some (i, r) =>
      match fr_approval r with
      | None => ret (mkAccepted false "no approval pending")
      | Some _ => upd_run i (set_fr_approved approved);;; ret (mkAccepted true "decision recorded")
      end
  end.

(** [now] is the time as RFC 3339 text. *)
Definition FakeAdapter_Recover (session : Session) (now : string) : RecoveryResult :=
  mkRecoveryResult true SessionStateResumable [("recovered_at", now); ("adapter", "fake-adapter")] "".

Definition FakeAdapter_GetRunState (id : string) (a : FakeAdapter) : string :=
  match fake_run id a with Some (_, r) => fr_state r | None => "" end.
Definition FakeAdapter_GetRun (id : string) (a : FakeAdapter) : option RunHandle :=
  (fun ir => fr_handle ir.2) <$> fake_run id a.

(** What the core sees of the adapter. *)
Definition fake_adapter : Adapter FakeAdapter :=
  mkAdapter "fake-adapter" FakeAdapter_ValidateWorkspace FakeAdapter_Start FakeAdapter_SubmitInput
    FakeAdapter_Interrupt FakeAdapter_DecideApproval.

(** ** The goroutine of a run *)

Definition fake_cap : nat := 100.

(** The send does not block: a full channel drops the signal, a closed one panics. *)
Definition emitSignal (runID type : string) (p : json) : M FakeAdapter unit :=
  let! a := get in
  match fa_signals a !! runID ≫= fun c => (fun r => (c, r)) <$> fa_heap a !! c with
  | None => ret tt
  | Some (c, r) =>
      let! now := fa_now in
      if fr_closed r then modify fa_panic
      else if (length (fr_queue r) <? fake_cap)%nat then
        upd_run c (set_fr_chan (fr_queue r ++ [mkAdapterSignal type "" now (RawJSON p)]) false (fr_received r))
      else ret tt
  end.

Definition closeSignals (runID : string) : M FakeAdapter unit :=
  let! a := get in
  match fa_signals a !! runID ≫= fun c => (fun r => (c, r)) <$> fa_heap a !! c with
  | None => ret tt
  | Some (c, r) => if fr_closed r then modify fa_panic else upd_run c (set_fr_chan (fr_queue r) true (fr_received r))
  end.

Definition status_json (old new reason : string) : json := encode_StatusChangePayload (mkStatusChangePayload old new reason).

Definition request_json (runID : string) (req : ApprovalRequest) : json :=
  encode_ApprovalRequestPayload (mkApprovalRequestPayload ("approval-" +:+ runID) (aq_Category req) (aq_ActionKind req)
    (aq_HumanReadableContext req) (aq_StructuredPayload req) (5 * Minute)).

(** Whether the scenario asks for the approval after [n] lines. *)
Definition asks (sc : FakeScenario) (n : Z) : bool :=
  match fs_RequestApproval sc with Some req => bool_decide (n = aq_AfterOutput req) | None => false end.

Definition next_line (n : Z) (todo : list string) : fake_pc :=
  match todo with [] => FComplete | _ :: _ => FWait n todo end.

(** One step of the goroutine of run [i].  In a select that waits for a timer and
    for the context, [ctx] takes the context, which must be cancelled. *)
Definition simulate_step (i : nat) (ctx : bool) : M FakeAdapter unit :=
  let! a := get in
  match fa_heap a !! i with
  | None => ret tt
  | Some r =>
      let id := rh_ID (fr_handle r) in
      let sc := fa_scenario a in
      let goto pc := upd_run i (set_fr_pc pc) in
      let cancelled := ctx && fr_cancelled r in
      match fr_pc r with
      | FBegin => goto (if cancelled then FDefer else FStarted)
      | FStarted =>
          emitSignal id SignalStatusChange (status_json RunStatePending RunStateActive "");;;
          goto (next_line 0 (fs_OutputLines sc))
      | FWait n todo =>
          if cancelled then goto FDefer
          else match todo with [] => goto FComplete | line :: rest => goto (FOutput n line rest) end
      | FOutput n line rest =>
          emitSignal id SignalOutput (encode_OutputPayload (mkOutputPayload line "stdout"));;;
          upd_run i (set_fr_outputIdx (n + 1));;;
          goto (if asks sc (n + 1) then FAsk (n + 1) rest else next_line (n + 1) rest)
      | FAsk n rest =>
          match fs_RequestApproval sc with
          | Some req => emitSignal id SignalApprovalRequest (request_json id req)
          | None => modify fa_panic
          end;;;
          goto (FAskStatus n rest)
      | FAskStatus n rest =>
          emitSignal id SignalStatusChange (status_json RunStateActive SessionStateWaitingApprov "approval requested");;;
          let! now := fa_now in
          goto (FPoll n rest (now + 30 * Second))
      | FPoll n rest deadline =>
          let! now := fa_now in
          if decide (now < deadline) then
            if cancelled then goto FDefer
            else match fr_approved r with Some _ => goto (FResolved n rest) | None => ret tt end
          else goto FDefer
      | FResolved n rest =>
          emitSignal id SignalStatusChange
            (status_json "waiting_approval" RunStateActive "approval decision received");;;
          goto (FPause n rest)
      | FPause n rest => goto (next_line n rest)
      | FComplete =>
          let! now := fa_now in
          emitSignal id SignalCompletion (encode_CompletionPayload (mkCompletionPayload (fs_ExitCode sc) ""
            (Z.quot (time_Sub now (fr_startedAt r)) Millisecond)));;;
          goto FFinish
      | FFinish => upd_run i (set_fr_state RunStateCompleted);;; goto FDefer
      | FDefer => closeSignals id;;; goto FGone
      | FGone => ret tt
      end
  end.

(** ** Interleavings *)

Inductive fake_op :=
  | FStart (session : Session) (input : Input)
  | FStep (i : nat) (ctx : bool)
  | FReceive (i : nat)                 (** the observer takes a signal *)
  | FCancel (i : nat)                  (** the context of the run is cancelled *)
  | FInterrupt (run : RunHandle)
  | FDecide (run : RunHandle) (approvalID : string) (approved : bool) (reason : string)
  | FScenario (s : FakeScenario)
  | FDegraded (d : bool).

Definition receive (r : fakeRun) : fakeRun :=
  match fr_queue r with
  | [] => r
  | s :: q => set_fr_chan q (fr_closed r) (fr_received r ++ [s]) r
  end.

Definition fake_do (o : fake_op) : M FakeAdapter unit :=
  match o with
  | FStart session input => FakeAdapter_Start session input;;; ret tt
  | FStep i ctx => simulate_step i ctx
  | FReceive i => upd_run i receive
  | FCancel i => upd_run i set_fr_cancelled
  | FInterrupt run => FakeAdapter_Interrupt run;;; ret tt
  | FDecide run id approved reason => FakeAdapter_DecideApproval run id approved reason;;; ret tt
  | FScenario s => FakeAdapter_WithScenario s
  | FDegraded d => FakeAdapter_SetCompatibilityDegraded d
  end.
(** Nothing happens after a panic. *)
Definition fake_op_step (o : fake_op) : M FakeAdapter unit :=
  let! a := get in if fa_panicked a then ret tt else fake_do o.
Definition fake_ops (l : list fake_op) : M FakeAdapter unit := for_each l fake_op_step.

(** ** The script of a scenario *)

Definition signal_of (s : AdapterSignal) : string * RawMessage := (sig_Type s, sig_Payload s).
(** What a run has sent: received by the observer or still in the channel. *)
Definition fr_sent (r : fakeRun) : list (string * RawMessage) := signal_of <$> fr_received r ++ fr_queue r.

Definition started_signal : string * RawMessage :=
  (SignalStatusChange, RawJSON (status_json RunStatePending RunStateActive "")).
Definition line_signal (line : string) : string * RawMessage :=
  (SignalOutput, RawJSON (encode_OutputPayload (mkOutputPayload line "stdout"))).
Definition request_signal (id : string) (req : ApprovalRequest) : string * RawMessage :=
  (SignalApprovalRequest, RawJSON (request_json id req)).
Definition waiting_signal : string * RawMessage :=
  (SignalStatusChange, RawJSON (status_json RunStateActive SessionStateWaitingApprov "approval requested")).
Definition resolved_signal : string * RawMessage :=
  (SignalStatusChange, RawJSON (status_json "waiting_approval" RunStateActive "approval decision received")).
Definition completion_signal (code ms : Z) : string * RawMessage :=
  (SignalCompletion, RawJSON (encode_CompletionPayload (mkCompletionPayload code "" ms))).

Section Script.
Context (sc : FakeScenario) (id : string).

Definition approval_script (n : Z) : list (string * RawMessage) :=
  match fs_RequestApproval sc with
  | Some req => if asks sc n then [request_signal id req; waiting_signal; resolved_signal] else []
  | None => []
  end.
Fixpoint lines_script (n : Z) (todo : list string) : list (string * RawMessage) :=
  match todo with
  | [] => []
  | line :: rest => line_signal line :: approval_script (n + 1) ++ lines_script (n + 1) rest
  end.
Definition fake_script : list (string * RawMessage) := started_signal :: lines_script 0 (fs_OutputLines sc).

(** What a goroutine has yet to send before its completion. *)
Definition pending_script (pc : fake_pc) : list (string * RawMessage) :=
  match pc with
  | FBegin | FStarted => fake_script
  | FWait n todo => lines_script n todo
  | FOutput n line rest => lines_script n (line :: rest)
  | FAsk n rest => approval_script n ++ lines_script n rest
  | FAskStatus n rest => waiting_signal :: resolved_signal :: lines_script n rest
  | FPoll n rest _ | FResolved n rest => resolved_signal :: lines_script n rest
  | FPause n rest => lines_script n rest
  | _ => []
  end.
Definition plays (pc : fake_pc) : Prop :=
  match pc with
  | FFinish | FDefer | FGone => False
  | FAsk n _ => asks sc n = true
  | FAskStatus _ _ | FPoll _ _ _ | FResolved _ _ => fs_RequestApproval sc <> None
  | _ => True
  end.

(** The end of a run: the whole script and its completion, or a part of the script
    because the context was cancelled or no decision came. *)
Definition played (r : fakeRun) : Prop :=
  (exists ms, fr_sent r = fake_script ++ [completion_signal (fs_ExitCode sc) ms]) \/
  exists rest, fake_script = fr_sent r ++ rest /\ (fr_cancelled r = true \/ head rest = Some resolved_signal).
End Script.

(** How many steps a goroutine has left, once a decision is there. *)
Definition lines_left (todo : list string) : nat := 7 * length todo.
Definition steps_left (sc : FakeScenario) (pc : fake_pc) : nat :=
  match pc with
  | FBegin => lines_left (fs_OutputLines sc) + 6
  | FStarted => lines_left (fs_OutputLines sc) + 5
  | FWait _ todo => lines_left todo + 4
  | FOutput _ _ rest => lines_left rest + 10
  | FAsk _ rest => lines_left rest + 9
  | FAskStatus _ rest => lines_left rest + 8
  | FPoll _ rest _ => lines_left rest + 7
  | FResolved _ rest => lines_left rest + 6
  | FPause _ rest => lines_left rest + 5
  | FComplete => 3
  | FFinish => 2
  | FDefer => 1
  | FGone => 0
  end.

Definition run_id (r : fakeRun) : string := rh_ID (fr_handle r).

Definition run_ok (sc : FakeScenario) (r : fakeRun) : Prop :=
  match fr_pc r with
  | FFinish => exists ms, fr_sent r = fake_script sc (run_id r) ++ [completion_signal (fs_ExitCode sc) ms]
  | FDefer | FGone => played sc (run_id r) r
  | pc => plays sc pc /\ fake_script sc (run_id r) = fr_sent r ++ pending_script sc (run_id r) pc
  end /\ (fr_closed r = true <-> fr_pc r = FGone).

Record fake_ok (sc : FakeScenario) (a : FakeAdapter) : Prop := mk_fake_ok {
  fo_scenario : fa_scenario a = sc;
  fo_panicked : fa_panicked a = false;
  fo_run : forall i r, fa_heap a !! i = Some r -> run_ok sc r;
  fo_left : forall i r, fa_heap a !! i = Some r -> (steps_left sc (fr_pc r) <= steps_left sc FBegin)%nat;
  fo_live : forall i r, fa_heap a !! i = Some r -> fr_pc r <> FGone -> fa_signals a !! run_id r = Some i
}.

(** Only the run [i] changes, and the clock. *)
Definition changed (i : nat) (f : fakeRun -> fakeRun) (a a' : FakeAdapter) : Prop :=
  exists e, a' = set_fa_env e (set_fa_heap (alter f i (fa_heap a)) a).

Lemma alter_alter {A} (f g : A -> A) (i : nat) (l : list A) : alter g i (alter f i l) = alter (g ∘ f) i l.
Proof. revert i. induction l as [|x l IH]; intros [|i]; cbn; f_equal; auto. Qed.
Lemma alter_id {A} (i : nat) (l : list A) : alter id i l = l.
Proof. revert i. induction l as [|x l IH]; intros [|i]; cbn; f_equal; auto. Qed.
Lemma alter_none {A} (f : A -> A) (i : nat) (l : list A) : l !! i = None -> alter f i l = l.
Proof. revert i. induction l as [|x l IH]; intros [|i]; cbn; [done..|]. intros H. f_equal. by apply IH. Qed.

Lemma changed_trans i f g a a1 a2 : changed i f a a1 -> changed i g a1 a2 -> changed i (g ∘ f) a a2.
Proof. intros [e1 ->] [e2 ->]. exists e2. unfold set_fa_env, set_fa_heap. cbn. by rewrite alter_alter. Qed.

Lemma changed_lookup i f a a' r : changed i f a a' -> fa_heap a !! i = Some r -> fa_heap a' !! i = Some (f r).
Proof. intros [e ->] Hr. cbn. by rewrite list_lookup_alter_eq, Hr. Qed.

Lemma changed_ok sc i f a a' r : fake_ok sc a -> changed i f a a' -> fa_heap a !! i = Some r ->
  run_ok sc (f r) -> fr_handle (f r) = fr_handle r -> (steps_left sc (fr_pc (f r)) <= steps_left sc (fr_pc r))%nat -> fake_ok sc a'.
Proof.
  intros [Hs Hp Hrun Hleft Hlive] [e ->] Hr Hf Hh Hg.
  assert (Hg' : fr_pc r = FGone -> fr_pc (f r) = FGone) by (intros E; rewrite E in Hg; destruct (fr_pc (f r)); cbn in Hg; done || lia).
  constructor; cbn -[steps_left]; [done|done| | |].
  - intros j q. destruct (decide (j = i)) as [->|Hne]; [rewrite list_lookup_alter_eq, Hr; by intros [= <-]|].
    rewrite list_lookup_alter_ne by done. apply Hrun.
  - intros j q. destruct (decide (j = i)) as [->|Hne].
    + rewrite list_lookup_alter_eq, Hr. intros [= <-]. specialize (Hleft i r Hr). lia.
    + rewrite list_lookup_alter_ne by done. apply Hleft.
  - intros j q. destruct (decide (j = i)) as [->|Hne].
    + rewrite list_lookup_alter_eq, Hr. intros [= <-] Hpc. unfold run_id. rewrite Hh. apply (Hlive i r Hr). auto.
    + rewrite list_lookup_alter_ne by done. apply Hlive.
Qed.

Lemma wp_upd_run i f a Q : (forall a', changed i f a a' -> Q tt a') -> wp (upd_run i f) a Q.
Proof. intros HQ. apply HQ. exists (fa_env a). by destruct a. Qed.

Lemma wp_fa_now i a Q : (forall now a', changed i id a a' -> Q now a') -> wp fa_now a Q.
Proof.
  intros HQ. apply (HQ _ (set_fa_env (env_tick (fa_env a)) a)). exists (env_tick (fa_env a)).
  unfold set_fa_env, set_fa_heap. cbn. by rewrite alter_id.
Qed.

(** What a send that finds room does to the run. *)
Definition sends (p : string * RawMessage) (r r' : fakeRun) : Prop :=
  exists s, signal_of s = p /\ r' = set_fr_chan (fr_queue r ++ [s]) false (fr_received r) r.

Lemma wp_emitSignal i r type p a Q : fa_heap a !! i = Some r -> fa_signals a !! run_id r = Some i ->
  fr_closed r = false -> (length (fr_sent r) < fake_cap)%nat ->
  (forall f a', changed i f a a' -> sends (type, RawJSON p) r (f r) -> Q tt a') -> wp (emitSignal (run_id r) type p) a Q.
Proof.
  intros Hr Hs Hc Hl HQ. unfold emitSignal. rewrite wp_bind, wp_get, Hs. cbn -[Nat.ltb]. rewrite Hr. cbn -[Nat.ltb]. rewrite wp_bind.
  apply (wp_fa_now i). intros now a1 H1. rewrite Hc. assert (Hq : (length (fr_queue r) < fake_cap)%nat).
  { unfold fr_sent in Hl. rewrite length_fmap, length_app in Hl. lia. }
  apply Nat.ltb_lt in Hq. rewrite Hq. apply wp_upd_run. intros a2 H2.
  set (s := mkAdapterSignal type "" now (RawJSON p)) in *.
  eapply HQ; [eapply changed_trans; [exact H1|exact H2]|]. exists s. split; [done|]. by destruct r.
Qed.

Lemma sends_sent p r r' : sends p r r' -> fr_sent r' = fr_sent r ++ [p].
Proof.
  intros (s & <- & ->). unfold fr_sent, set_fr_chan. cbn. by rewrite app_assoc, fmap_app.
Qed.

(** ** The goroutine keeps to the script *)

Section Steps.
Context (sc : FakeScenario) (Hshort : forall id, (length (fake_script sc id) < fake_cap)%nat).

(** A run that is on its way through the script at [pc]. *)
Definition playing (pc : fake_pc) (r : fakeRun) : Prop :=
  fr_closed r = false /\ plays sc pc /\ fake_script sc (run_id r) = fr_sent r ++ pending_script sc (run_id r) pc.

Lemma playing_ok pc r : playing pc r -> run_ok sc (set_fr_pc pc r).
Proof.
  intros (Hc & Hp & Hs). unfold run_ok. change (fr_pc (set_fr_pc pc r)) with pc. change (fr_closed (set_fr_pc pc r)) with (fr_closed r).
  rewrite Hc. split; [by destruct pc|]. split; [done|by intros ->].
Qed.

Lemma ok_playing r pc : run_ok sc r -> fr_pc r = pc -> match pc with FFinish | FDefer | FGone => False | _ => True end -> playing pc r.
Proof.
  intros [Hr Hc] Hpc Hno. rewrite Hpc in Hr, Hc. split; [|by destruct pc]. destruct (fr_closed r); [|done].
  destruct Hc as [Hc _]. by rewrite Hc in Hno.
Qed.

(** A step of run [i]: the decision is as it was, and with one (or none to ask
    for) there is less left to do. *)
Definition progresses (i : nat) (r : fakeRun) (a' : FakeAdapter) : Prop :=
  exists r', fa_heap a' !! i = Some r' /\ fr_approved r' = fr_approved r /\
    (is_Some (fr_approved r) \/ fs_RequestApproval sc = None -> (steps_left sc (fr_pc r') <= pred (steps_left sc (fr_pc r)))%nat).

(** The rest of a step after run [i] was changed by [f]: it goes to [pc]. *)
Lemma wp_goto a a' i r f pc : fake_ok sc a -> changed i f a a' -> fa_heap a !! i = Some r -> fr_handle (f r) = fr_handle r ->
  fr_pc r <> FGone -> run_ok sc (set_fr_pc pc (f r)) -> fr_approved (f r) = fr_approved r ->
  (steps_left sc pc < steps_left sc (fr_pc r))%nat -> wp (upd_run i (set_fr_pc pc)) a' (fun _ a' => fake_ok sc a' /\ progresses i r a').
Proof.
  intros Hok Hc Hr Hh Hpc Hrun Ha Hs. apply wp_upd_run. intros a2 H2.
  assert (H3 : changed i (set_fr_pc pc ∘ f) a a2) by by eapply changed_trans. split.
  - apply (changed_ok sc i (set_fr_pc pc ∘ f) a a2 r Hok); [done|done|done|done|]. cbn -[steps_left]. lia.
  - eexists. split; [by apply (changed_lookup _ _ _ _ r H3)|]. split; [done|]. intros _. cbn -[steps_left]. lia.
Qed.

(** A goroutine that sends the next signal of the script. *)
Lemma wp_send a i r pc pc' ty p Q (k : unit -> M FakeAdapter unit) : fake_ok sc a -> fa_heap a !! i = Some r -> fr_pc r = pc -> playing pc r ->
  pending_script sc (run_id r) pc = (ty, RawJSON p) :: pending_script sc (run_id r) pc' -> plays sc pc' ->
  (forall f a', changed i f a a' -> playing pc' (f r) -> fr_handle (f r) = fr_handle r -> fr_approved (f r) = fr_approved r ->
     wp (k tt) a' Q) -> wp (bind (emitSignal (run_id r) ty p) k) a Q.
Proof.
  intros Hok Hr Hpc (Hc & Hp & Hs) He Hp' HQ. rewrite wp_bind. eapply wp_emitSignal; [exact Hr| |done| |].
  - apply (fo_live sc a Hok i r Hr). rewrite Hpc. by destruct pc.
  - specialize (Hshort (run_id r)). rewrite Hs, length_app in Hshort. lia.
  - intros f a' H1 H2. pose proof (sends_sent _ _ _ H2) as Hse. destruct H2 as (s & _ & Ef).
    assert (Hid : run_id (f r) = run_id r) by by rewrite Ef.
    apply (HQ f a' H1); [split_and!; [by rewrite Ef|done|]|by rewrite Ef..]. rewrite Hid, Hse, Hs, He, <- app_assoc. done.
Qed.

Lemma next_line_script id n todo : pending_script sc id (next_line n todo) = lines_script sc id n todo /\ plays sc (next_line n todo).
Proof. by destruct todo. Qed.

(** It stops early. *)
Lemma stopped_ok pc r : playing pc r -> fr_cancelled r = true \/ head (pending_script sc (run_id r) pc) = Some resolved_signal ->
  run_ok sc (set_fr_pc FDefer r).
Proof. intros (Hc & _ & Hs) Hw. split; [right|cbn; by rewrite Hc]. eexists. split; [exact Hs|exact Hw]. Qed.

Lemma next_line_left n todo : (steps_left sc (next_line n todo) <= lines_left todo + 4)%nat.
Proof. destruct todo; cbn; lia. Qed.

#[local] Ltac left_over :=
  repeat case_match;
  repeat match goal with |- context [steps_left sc (next_line ?n ?t)] =>
    pose proof (next_line_left n t); generalize dependent (steps_left sc (next_line n t)); intros end;
  cbn [steps_left] in *; unfold lines_left in *; cbn [length] in *; lia.

Lemma wp_simulate_step i ctx a : fake_ok sc a -> forall r, fa_heap a !! i = Some r ->
  wp (simulate_step i ctx) a (fun _ a' => fake_ok sc a' /\ progresses i r a').
Proof.
  intros Hok r Hr. unfold simulate_step. rewrite wp_bind, wp_get, Hr.
  pose proof (fo_run sc a Hok i r Hr) as Hrun. rewrite (fo_scenario sc a Hok). fold (run_id r).
  assert (Hid : changed i id a a) by (exists (fa_env a); unfold set_fa_env, set_fa_heap; rewrite alter_id; by destruct a).
  destruct (fr_pc r) as [| |n todo|n line rest|n rest|n rest|n rest dl|n rest|n rest| | | |] eqn:Hpc; cbv zeta beta iota.
  - apply (ok_playing r FBegin Hrun) in Hpc as Hpl; [|done].
    eapply wp_goto; [exact Hok|exact Hid|exact Hr|done|by rewrite Hpc| |first [exact Hap|done]|rewrite Hpc; left_over]. destruct (ctx && fr_cancelled r) eqn:E.
    + apply (stopped_ok FBegin); [done|]. left. by apply andb_prop in E as [_ ?].
    + by apply playing_ok.
  - apply (ok_playing r FStarted Hrun) in Hpc as Hpl; [|done].
    destruct (next_line_script (run_id r) 0 (fs_OutputLines sc)) as [En Hn].
    eapply wp_send; [exact Hok|exact Hr|exact Hpc|done|by rewrite En|done|]. intros f a' H1 H2 Hh Hap.
    eapply wp_goto; [exact Hok|exact H1|exact Hr|done|by rewrite Hpc|by apply playing_ok|first [exact Hap|done]|rewrite Hpc; left_over].
  - apply (ok_playing r (FWait n todo) Hrun) in Hpc as Hpl; [|done].
    destruct (ctx && fr_cancelled r) eqn:E; [|destruct todo as [|line rest]];
      (eapply wp_goto; [exact Hok|exact Hid|exact Hr|done|by rewrite Hpc| |first [exact Hap|done]|rewrite Hpc; left_over]).
    + apply (stopped_ok (FWait n todo)); [done|]. left. by apply andb_prop in E as [_ ?].
    + apply playing_ok. by destruct Hpl as (? & _ & ?).
    + apply playing_ok. by destruct Hpl as (? & _ & ?).
  - apply (ok_playing r (FOutput n line rest) Hrun) in Hpc as Hpl; [|done].
    set (pc' := if asks sc (n + 1) then FAsk (n + 1) rest else next_line (n + 1) rest).
    assert (Hpc' : plays sc pc' /\ pending_script sc (run_id r) pc' = approval_script sc (run_id r) (n + 1) ++ lines_script sc (run_id r) (n + 1) rest).
    { unfold pc'. destruct (asks sc (n + 1)) eqn:Ea; [done|]. destruct (next_line_script (run_id r) (n + 1) rest) as [-> ?].
      split; [done|]. unfold approval_script. rewrite Ea. by destruct (fs_RequestApproval sc). }
    destruct Hpc' as [Hp' Hpe].
    eapply (wp_send a i r _ pc'); [exact Hok|exact Hr|exact Hpc|done|by rewrite Hpe|done|]. intros f a1 H1 H2 Hh Hap.
    rewrite wp_bind. apply wp_upd_run. intros a2 H3.
    eapply (wp_goto a a2 i r (set_fr_outputIdx (n + 1) ∘ f)); [exact Hok|by eapply changed_trans|exact Hr|exact Hh|by rewrite Hpc| |first [exact Hap|done]|rewrite Hpc; unfold pc'; left_over].
    apply (playing_ok pc'). exact H2.
  - apply (ok_playing r (FAsk n rest) Hrun) in Hpc as Hpl; [|done]. pose proof Hpl as (_ & Ha & _). cbn in Ha.
    destruct (fs_RequestApproval sc) as [req|] eqn:Er; [|unfold asks in Ha; by rewrite Er in Ha].
    eapply (wp_send a i r _ (FAskStatus n rest)); [exact Hok|exact Hr|exact Hpc|done| |cbn; congruence|].
    { cbn. unfold approval_script. by rewrite Er, Ha. }
    intros f a1 H1 H2 Hh Hap. eapply wp_goto; [exact Hok|exact H1|exact Hr|done|by rewrite Hpc|by apply playing_ok|first [exact Hap|done]|rewrite Hpc; left_over].
  - apply (ok_playing r (FAskStatus n rest) Hrun) in Hpc as Hpl; [|done].
    eapply (wp_send a i r _ (FPoll n rest 0)); [exact Hok|exact Hr|exact Hpc|done|done|apply Hpl|]. intros f a1 H1 H2 Hh Hap.
    rewrite wp_bind. apply (wp_fa_now i). intros now a2 H3.
    eapply (wp_goto a a2 i r (id ∘ f)); [exact Hok|by eapply changed_trans|exact Hr|exact Hh|by rewrite Hpc| |first [exact Hap|done]|rewrite Hpc; left_over].
    apply (playing_ok (FPoll n rest (now + 30 * Second))). exact H2.
  - apply (ok_playing r (FPoll n rest dl) Hrun) in Hpc as Hpl; [|done]. rewrite wp_bind. apply (wp_fa_now i). intros now a1 H1.
    assert (Hok1 : fake_ok sc a1) by (eapply (changed_ok sc i id a a1 r); done).
    destruct (decide (now < dl)); [destruct (ctx && fr_cancelled r); [|destruct (fr_approved r) as [ap|] eqn:Eap]|].
    3: { rewrite wp_ret. split; [done|]. exists r. split; [by apply (changed_lookup _ _ _ _ r H1)|]. split; [done|].
         rewrite Eap. intros [[? ?]|Hnone]; [done|]. by destruct Hpl as (_ & Hask & _). }
    all: (eapply wp_goto; [exact Hok|exact H1|exact Hr|done|by rewrite Hpc| |first [exact Hap|done]|rewrite Hpc; left_over]).
    + apply (stopped_ok (FPoll n rest dl)); [done|]. by right.
    + apply playing_ok. exact Hpl.
    + apply (stopped_ok (FPoll n rest dl)); [done|]. by right.
  - apply (ok_playing r (FResolved n rest) Hrun) in Hpc as Hpl; [|done].
    eapply (wp_send a i r _ (FPause n rest)); [exact Hok|exact Hr|exact Hpc|done|done|done|].
    intros f a1 H1 H2 Hh Hap. eapply wp_goto; [exact Hok|exact H1|exact Hr|done|by rewrite Hpc|by apply playing_ok|first [exact Hap|done]|rewrite Hpc; left_over].
  - apply (ok_playing r (FPause n rest) Hrun) in Hpc as Hpl; [|done].
    eapply wp_goto; [exact Hok|exact Hid|exact Hr|done|by rewrite Hpc| |first [exact Hap|done]|rewrite Hpc; left_over]. apply playing_ok. change (id r) with r.
    destruct (next_line_script (run_id r) n rest) as [En Hn]. destruct Hpl as (? & _ & Hs). split_and!; [done|done|]. by rewrite En.
  - apply (ok_playing r FComplete Hrun) in Hpc as Hpl; [|done]. destruct Hpl as (Hc & _ & Hs). cbn in Hs. rewrite app_nil_r in Hs.
    rewrite wp_bind. apply (wp_fa_now i). intros now a1 H1. pose proof (changed_lookup _ _ _ _ r H1 Hr) as Hr1. change (id r) with r in Hr1.
    assert (Hok1 : fake_ok sc a1) by (eapply (changed_ok sc i id a a1 r); done).
    rewrite wp_bind. eapply wp_emitSignal; [exact Hr1| |done| |].
    + apply (fo_live sc a1 Hok1 i r Hr1). by rewrite Hpc.
    + cbn. rewrite <- Hs. apply Hshort.
    + intros f a2 H2 H3. pose proof (sends_sent _ _ _ H3) as Hse. destruct H3 as (s & _ & Ef).
      eapply (wp_goto a1 a2 i r f); [exact Hok1|exact H2|exact Hr1|by rewrite Ef|by rewrite Hpc| |by rewrite Ef|rewrite Hpc; left_over].
      assert (Hid' : run_id (f r) = run_id r) by (unfold run_id; by rewrite Ef).
      split; [|cbn; by rewrite Ef]. change (exists ms, fr_sent (f r) = fake_script sc (run_id (f r)) ++ [completion_signal (fs_ExitCode sc) ms]).
      eexists. by rewrite Hse, Hid', <- Hs.
  - destruct Hrun as [Hrun Hc]. rewrite Hpc in Hrun. rewrite wp_bind. apply wp_upd_run. intros a1 H1.
    eapply (wp_goto a a1 i r (set_fr_state RunStateCompleted)); [exact Hok|exact H1|exact Hr|done|by rewrite Hpc| |first [exact Hap|done]|rewrite Hpc; left_over].
    split; [by left|]. cbn. rewrite Hc, Hpc. done.
  - destruct Hrun as [Hrun Hc]. rewrite Hpc in Hrun, Hc. assert (Hcl : fr_closed r = false) by (destruct (fr_closed r); [by destruct Hc as [Hc _]; specialize (Hc eq_refl)|done]).
    rewrite wp_bind. unfold closeSignals. rewrite wp_bind, wp_get, (fo_live sc a Hok i r Hr) by by rewrite Hpc. cbn. rewrite Hr. cbn.
    rewrite Hcl. apply wp_upd_run. intros a1 H1.
    eapply (wp_goto a a1 i r); [exact Hok|exact H1|exact Hr|done|by rewrite Hpc| |first [exact Hap|done]|rewrite Hpc; left_over]. split; [exact Hrun|done].
  - rewrite wp_ret. split; [done|]. exists r. rewrite Hpc. auto.
Qed.

(** What leaves the channel's history and the script of a run alone. *)
Lemma same_script_ok f r : run_ok sc r -> fr_handle (f r) = fr_handle r -> fr_pc (f r) = fr_pc r -> fr_sent (f r) = fr_sent r ->
  fr_closed (f r) = fr_closed r -> (fr_cancelled r = true -> fr_cancelled (f r) = true) -> run_ok sc (f r).
Proof.
  intros [H Hc] Eh Ep Es Ec Hca. unfold run_ok, run_id in *. rewrite Eh, Ep, Es, Ec. split; [|done].
  assert (Hpl : played sc (rh_ID (fr_handle r)) r -> played sc (rh_ID (fr_handle r)) (f r)).
  { intros [Hms|(rest & Hs & Hw)]; [left|right]; rewrite Es; [done|]. exists rest. split; [done|]. destruct Hw; auto. }
  destruct (fr_pc r); auto.
Qed.

Lemma wp_same_script i f a : fake_ok sc a -> (forall r, fr_handle (f r) = fr_handle r /\ fr_pc (f r) = fr_pc r /\
    fr_sent (f r) = fr_sent r /\ fr_closed (f r) = fr_closed r /\ (fr_cancelled r = true -> fr_cancelled (f r) = true)) ->
  wp (upd_run i f) a (fun _ a' => fake_ok sc a').
Proof.
  intros Hok Hf. apply wp_upd_run. intros a' H. destruct (fa_heap a !! i) as [r|] eqn:Hr.
  - destruct (Hf r) as (H1 & H2 & H3 & H4 & H5). eapply (changed_ok sc i f a a' r); [done|done|done| |done|rewrite H2; done].
    apply same_script_ok; [by apply (fo_run sc a Hok i)|done..].
  - destruct H as [e ->]. destruct Hok as [Ho1 Ho2 Ho3 Ho5 Ho4].
    assert (E : alter f i (fa_heap a) = fa_heap a) by by apply alter_none.
    constructor; cbn; rewrite ?E; done.
Qed.

Lemma receive_sent r : fr_sent (receive r) = fr_sent r.
Proof. unfold receive, fr_sent. destruct (fr_queue r) as [|s q] eqn:E; [by rewrite E|]. cbn. by rewrite <- app_assoc. Qed.

(** One run of a session at a time: a session is started when its last run is gone. *)
Definition one_at_a_time (o : fake_op) (a : FakeAdapter) : Prop :=
  match o with
  | FStart session _ => forall i r, fa_signals a !! ("run-" +:+ s_ID session) = Some i -> fa_heap a !! i = Some r -> fr_pc r = FGone
  | FScenario _ => False
  | _ => True
  end.

Lemma wp_fake_op_step o a : fake_ok sc a -> one_at_a_time o a -> wp (fake_op_step o) a (fun _ a' => fake_ok sc a').
Proof.
  intros Hok Ho. unfold fake_op_step. rewrite wp_bind, wp_get, (fo_panicked sc a Hok).
  destruct o as [session input|i ctx|i|i|run|run id ap rs|s|d]; cbn [fake_do one_at_a_time] in *.
  - rewrite wp_bind. unfold FakeAdapter_Start. rewrite wp_bind, wp_get. destruct (fs_FailOnStart _); [by rewrite !wp_ret|].
    rewrite wp_bind. unfold wp at 1, fa_now, zoom, time_Now. cbn [fst snd]. rewrite wp_bind, wp_modify, !wp_ret.
    set (now := env_clock _ _). set (h := mkRunHandle _ _ _ _). set (r := mkFakeRun _ _ _ _ _ _ _ _ _ _ _ _).
    destruct Hok as [Ho1 Ho2 Ho3 Ho5 Ho4]. constructor; cbn -[steps_left]; [done|done| | |].
    + intros i q [Hq|[Hi Hq]]%lookup_app_Some; [by apply (Ho3 i)|]. apply list_lookup_singleton_Some in Hq as [_ <-].
      split; [|done]. by split.
    + intros i q [Hq|[Hi Hq]]%lookup_app_Some; [by apply (Ho5 i)|]. by apply list_lookup_singleton_Some in Hq as [_ <-].
    + intros i q Hi Hpc. apply lookup_app_Some in Hi as [Hq|[Hi Hq]].
      * rewrite lookup_insert_ne; [by apply Ho4|]. intros Eid. pose proof (Ho4 i q Hq Hpc) as Hs. rewrite <- Eid in Hs. by apply Hpc, (Ho i q).
      * apply list_lookup_singleton_Some in Hq as [Hi0 <-]. change (run_id r) with ("run-" +:+ s_ID session).
        rewrite lookup_insert_eq. f_equal. lia.
  - destruct (fa_heap a !! i) as [r|] eqn:Hr.
    + eapply wp_mono; [by apply (wp_simulate_step i ctx a Hok r)|]. by intros [] a' [H _].
    + unfold simulate_step. by rewrite wp_bind, wp_get, Hr, wp_ret.
  - apply wp_same_script; [done|]. intros r. pose proof (receive_sent r) as Hs. unfold receive in *. destruct (fr_queue r); auto.
  - by apply wp_same_script.
  - rewrite wp_bind. unfold FakeAdapter_Interrupt. rewrite wp_bind, wp_gets. destruct (fake_run _ _) as [[i r]|]; [|by rewrite !wp_ret].
    destruct (fr_done r); [by rewrite !wp_ret|]. rewrite wp_bind. eapply wp_mono; [by apply wp_same_script|]. intros [] a' H. by rewrite !wp_ret.
  - rewrite wp_bind. unfold FakeAdapter_DecideApproval. rewrite wp_bind, wp_gets. destruct (fake_run _ _) as [[i r]|]; [|by rewrite !wp_ret].
    destruct (fr_approval r); [|by rewrite !wp_ret]. rewrite wp_bind. eapply wp_mono; [by apply wp_same_script|]. intros [] a' H. by rewrite !wp_ret.
  - done.
  - destruct Hok. by constructor.
Qed.
End Steps.

(** Every operation of a sequence starts a session only after its last run. *)
Fixpoint well_used (ops : list fake_op) (a : FakeAdapter) : Prop :=
  match ops with
  | [] => True
  | o :: ops' => one_at_a_time o a /\ well_used ops' (fake_op_step o a).2
  end.

Definition fake_with (sc : FakeScenario) (e : Env) : FakeAdapter := (FakeAdapter_WithScenario sc (NewFakeAdapter e)).2.

Lemma fake_ops_ok sc e ops : (forall id, (length (fake_script sc id) < fake_cap)%nat) -> well_used ops (fake_with sc e) ->
  fake_ok sc (fake_ops ops (fake_with sc e)).2.
Proof.
  intros Hshort. assert (Hok : fake_ok sc (fake_with sc e)) by by constructor. revert Hok. generalize (fake_with sc e).
  induction ops as [|o ops IH]; intros a Hok Hw; [done|]. destruct Hw as [Ho Hw].
  cbn. unfold bind. pose proof (wp_fake_op_step sc Hshort o a Hok Ho) as H. unfold wp in H.
  destruct (fake_op_step o a) as [[] a']. by apply IH.
Qed.

(** C31: With one run of a session at a time and a script that fits the channel, in
    every interleaving of goroutines, observers and calls nothing panics, and what
    the observer of a run gets is the script of the scenario in order: a part of
    it until the channel is closed, then all of it with its completion, unless the
    context was cancelled or the requested decision did not come. *)
Theorem fake_plays_script sc e ops : (forall id, (length (fake_script sc id) < fake_cap)%nat) ->
  well_used ops (fake_with sc e) ->
  let a := (fake_ops ops (fake_with sc e)).2 in
  fa_panicked a = false /\
  forall i r, fa_heap a !! i = Some r ->
    (exists rest ms, fr_sent r ++ rest = fake_script sc (run_id r) ++ [completion_signal (fs_ExitCode sc) ms]) /\
    (fr_closed r = true -> played sc (run_id r) r).
Proof.
  intros Hshort Hw. cbn zeta. pose proof (fake_ops_ok sc e ops Hshort Hw) as Hok.
  split; [apply Hok|]. intros i r Hr. destruct (fo_run sc _ Hok i r Hr) as [H Hc].
  assert (Hpl : played sc (run_id r) r -> exists rest ms, fr_sent r ++ rest = fake_script sc (run_id r) ++ [completion_signal (fs_ExitCode sc) ms]).
  { intros [[ms ->]|(rest & -> & _)]; [exists [], ms; by rewrite app_nil_r|]. exists (rest ++ [completion_signal (fs_ExitCode sc) 0]), 0.
    by rewrite app_assoc. }
  split.
  - destruct (fr_pc r); try (by apply Hpl); try (destruct H as [_ ->]; eexists _, 0; rewrite <- app_assoc; reflexivity).
    destruct H as [ms ->]. exists [], ms. by rewrite app_nil_r.
  - intros Hcl%Hc. by rewrite Hcl in H.
Qed.

(** The goroutine of a run that has its decision, or whose scenario asks for none,
    ends after at most seven steps of its own for each line and six more, whatever
    happened before. *)
Theorem fake_run_ends sc e ops i r : (forall id, (length (fake_script sc id) < fake_cap)%nat) ->
  well_used ops (fake_with sc e) -> fa_heap (fake_ops ops (fake_with sc e)).2 !! i = Some r ->
  is_Some (fr_approved r) \/ fs_RequestApproval sc = None ->
  exists r', fa_heap (fake_ops (replicate (7 * length (fs_OutputLines sc) + 6) (FStep i false)) (fake_ops ops (fake_with sc e)).2).2 !! i = Some r' /\
    fr_pc r' = FGone /\ fr_closed r' = true.
Proof.
  intros Hshort Hw Hr Hd. pose proof (fake_ops_ok sc e ops Hshort Hw) as Hok. revert Hok Hr. generalize (fake_ops ops (fake_with sc e)).2.
  intros a Hok Hr.
  assert (Hgen : forall n a r, fake_ok sc a -> fa_heap a !! i = Some r -> is_Some (fr_approved r) \/ fs_RequestApproval sc = None ->
    (steps_left sc (fr_pc r) <= n)%nat ->
    exists r', fa_heap (fake_ops (replicate n (FStep i false)) a).2 !! i = Some r' /\ fr_pc r' = FGone /\ fr_closed r' = true).
  { clear a r Hok Hr Hd. induction n as [|n IH]; intros a r Hok Hr Hd Hn.
    - exists r. split; [done|]. assert (Hpc : fr_pc r = FGone) by (destruct (fr_pc r); cbn in Hn; (done || lia)).
      split; [done|]. by apply (fo_run sc a Hok i r Hr).
    - cbn [replicate fake_ops for_each]. unfold bind at 1.
      pose proof (wp_simulate_step sc Hshort i false a Hok r Hr) as H. unfold wp in H.
      assert (E : fake_op_step (FStep i false) a = simulate_step i false a).
      { unfold fake_op_step. cbn [fake_do]. unfold bind, get. by rewrite (fo_panicked sc a Hok). }
      rewrite E. destruct (simulate_step i false a) as [[] a']. cbn in H. destruct H as [Hok' (r' & Hr' & Ha & Hs)].
      apply (IH a' r'); [done|done|by rewrite Ha|]. specialize (Hs Hd). lia. }
  apply (Hgen _ a r Hok Hr Hd), (fo_left sc a Hok i r Hr).
Qed.

(** ** What the fake agent does not listen to

    Interrupts and the answer of a decision play no part in what a run sends. *)

(** A run up to its state, its [done] channel and what was decided. *)
Definition heard (r : fakeRun) : fakeRun :=
  mkFakeRun (fr_handle r) "" (fr_startedAt r) (fr_outputIdx r) (fr_approval r) ((fun _ => true) <$> fr_approved r) false
    (fr_cancelled r) (fr_pc r) (fr_queue r) (fr_closed r) (fr_received r).
Definition same_heard (a b : FakeAdapter) : Prop :=
  set_fa_heap (heard <$> fa_heap a) a = set_fa_heap (heard <$> fa_heap b) b.

#[export] Instance same_heard_equiv : Equivalence same_heard.
Proof. unfold same_heard. split; [done|by intros ??|]. intros a b c. apply transitivity. Qed.

(** Two computations that cannot be told apart. *)
Definition agree {A} (m m' : M FakeAdapter A) (a b : FakeAdapter) : Prop := (m a).1 = (m' b).1 /\ same_heard (m a).2 (m' b).2.

Lemma agree_ret {A} (x : A) a b : same_heard a b -> agree (ret x) (ret x) a b.
Proof. done. Qed.
Lemma agree_bind {A B} (m m' : M FakeAdapter A) (k k' : A -> M FakeAdapter B) a b :
  agree m m' a b -> (forall x a' b', same_heard a' b' -> agree (k x) (k' x) a' b') -> agree (bind m k) (bind m' k') a b.
Proof. unfold agree, bind. destruct (m a) as [x a'], (m' b) as [x' b']. cbn. intros [-> Hs] Hk. by apply Hk. Qed.
Lemma agree_get {B} (k k' : FakeAdapter -> M FakeAdapter B) a b : agree (k a) (k' b) a b -> agree (bind get k) (bind get k') a b.
Proof. done. Qed.
Lemma agree_upd i (f g : fakeRun -> fakeRun) a b : same_heard a b -> (forall r r', heard r = heard r' -> heard (f r) = heard (g r')) ->
  agree (upd_run i f) (upd_run i g) a b.
Proof.
  intros Hs Hf. split; [done|]. unfold upd_run, modify, same_heard in *. cbn. destruct a, b. unfold set_fa_heap in *. cbn in *.
  injection Hs as <- <- <- <- Hh <- <-. f_equal. apply list_eq. intros j. apply (f_equal (.!! j)) in Hh.
  rewrite !list_lookup_fmap in *. destruct (decide (j = i)) as [->|Hne]; [|by rewrite !list_lookup_alter_ne].
  rewrite !list_lookup_alter_eq. destruct (fa_heap0 !! i), (fa_heap1 !! i); cbn in *; try done. injection Hh as Hh.
  f_equal. apply Hf. unfold heard. congruence.
Qed.
Lemma agree_upd_left i f a b : same_heard a b -> (forall r, heard (f r) = heard r) -> agree (upd_run i f) (ret tt) a b.
Proof.
  intros Hs Hf. split; [done|]. cbn. etransitivity; [|exact Hs]. unfold same_heard, set_fa_heap. cbn. f_equal.
  apply list_eq. intros j. rewrite !list_lookup_fmap. destruct (decide (j = i)) as [->|Hne]; [|by rewrite list_lookup_alter_ne].
  rewrite list_lookup_alter_eq. destruct (fa_heap a !! i); [cbn; by rewrite Hf|done].
Qed.
Lemma agree_now a b : same_heard a b -> agree fa_now fa_now a b.
Proof.
  intros Hs. unfold agree, fa_now, zoom, time_Now. cbn. unfold same_heard, set_fa_heap, set_fa_env in *. destruct a, b. cbn in *.
  injection Hs as <- <- <- <- Hh <- <-. by rewrite Hh.
Qed.
Lemma agree_panic a b : same_heard a b -> agree (modify fa_panic) (modify fa_panic) a b.
Proof.
  intros Hs. split; [done|]. unfold same_heard, set_fa_heap, fa_panic in *. destruct a, b. cbn in *.
  injection Hs as <- <- <- <- Hh <- <-. by rewrite Hh.
Qed.

Lemma same_heard_fields a b : same_heard a b ->
  fa_runs a = fa_runs b /\ fa_signals a = fa_signals b /\ fa_scenario a = fa_scenario b /\ fa_panicked a = fa_panicked b /\
  heard <$> fa_heap a = heard <$> fa_heap b.
Proof. unfold same_heard, set_fa_heap. intros [=]. auto. Qed.
Lemma same_heard_lookup a b i : same_heard a b ->
  match fa_heap a !! i, fa_heap b !! i with Some r, Some r' => heard r = heard r' | None, None => True | _, _ => False end.
Proof.
  intros (_ & _ & _ & _ & H)%same_heard_fields. apply (f_equal (.!! i)) in H. rewrite !list_lookup_fmap in H.
  destruct (fa_heap a !! i), (fa_heap b !! i); cbn in H; congruence || done.
Qed.

Create HintDb agree.
#[local] Hint Resolve agree_ret agree_now agree_panic agree_bind : agree.

Lemma agree_chan f a b id (k : nat -> fakeRun -> M FakeAdapter unit) : same_heard a b -> f = ret tt ->
  (forall c r r', heard r = heard r' -> agree (k c r) (k c r') a b) ->
  agree (let! a := get in match fa_signals a !! id ≫= fun c => (fun r => (c, r)) <$> fa_heap a !! c with None => f | Some (c, r) => k c r end)
        (let! a := get in match fa_signals a !! id ≫= fun c => (fun r => (c, r)) <$> fa_heap a !! c with None => f | Some (c, r) => k c r end) a b.
Proof.
  intros Hs -> Hk. apply agree_get. destruct (same_heard_fields a b Hs) as (_ & -> & _). destruct (fa_signals b !! id) as [c|]; [cbn|by auto with agree].
  pose proof (same_heard_lookup a b c Hs) as Hl. destruct (fa_heap a !! c), (fa_heap b !! c); try done; cbn; auto with agree.
Qed.

Lemma heard_chan r r' : heard r = heard r' -> fr_handle r = fr_handle r' /\ fr_startedAt r = fr_startedAt r' /\ fr_approval r = fr_approval r' /\
  (is_Some (fr_approved r) <-> is_Some (fr_approved r')) /\ fr_cancelled r = fr_cancelled r' /\ fr_pc r = fr_pc r' /\
  fr_queue r = fr_queue r' /\ fr_closed r = fr_closed r' /\ fr_received r = fr_received r'.
Proof.
  unfold heard. intros [=]. split_and!; try done.
  destruct (fr_approved r), (fr_approved r'); try done; split; intros _; by eexists.
Qed.

Lemma agree_emit a b id ty p : same_heard a b -> agree (emitSignal id ty p) (emitSignal id ty p) a b.
Proof.
  intros Hs. apply (agree_chan (ret tt) a b id (fun c r => let! now := fa_now in
    if fr_closed r then modify fa_panic
    else if (length (fr_queue r) <? fake_cap)%nat then
      upd_run c (set_fr_chan (fr_queue r ++ [mkAdapterSignal ty "" now (RawJSON p)]) false (fr_received r))
    else ret tt)); [done..|].
  intros c r r' Hr. apply agree_bind; [by apply agree_now|]. intros now a' b' Hs'.
  destruct (heard_chan r r' Hr) as (_ & _ & _ & _ & _ & _ & Eq & Ec & Er). rewrite Eq, Ec, Er.
  repeat case_match; [by apply agree_panic| |by apply agree_ret]. apply agree_upd; [done|]. intros q q' Hq.
  destruct q, q'; unfold heard in *; cbn in *. congruence.
Qed.
Lemma agree_close a b id : same_heard a b -> agree (closeSignals id) (closeSignals id) a b.
Proof.
  intros Hs. apply (agree_chan (ret tt) a b id (fun c r => if fr_closed r then modify fa_panic
    else upd_run c (set_fr_chan (fr_queue r) true (fr_received r)))); [done..|].
  intros c r r' Hr. destruct (heard_chan r r' Hr) as (_ & _ & _ & _ & _ & _ & Eq & Ec & Er). rewrite Eq, Ec, Er.
  case_match; [by apply agree_panic|]. apply agree_upd; [done|]. intros q q' Hq. destruct q, q'; unfold heard in *; cbn in *. congruence.
Qed.
Lemma agree_pc i pc a b : same_heard a b -> agree (upd_run i (set_fr_pc pc)) (upd_run i (set_fr_pc pc)) a b.
Proof. intros Hs. apply agree_upd; [done|]. intros q q' Hq. destruct q, q'; unfold heard in *; cbn in *. congruence. Qed.
Lemma agree_fields i f a b : same_heard a b -> (forall r r', heard r = heard r' -> heard (f r) = heard (f r')) ->
  agree (upd_run i f) (upd_run i f) a b.
Proof. apply agree_upd. Qed.
#[local] Hint Resolve agree_emit agree_close agree_pc agree_fields : agree.
#[local] Hint Extern 1 (heard (_ _) = heard (_ _)) =>
  match goal with H : heard ?q = heard ?q' |- _ => destruct q, q'; unfold heard in *; cbn in *; congruence end : agree.
#[local] Hint Extern 2 (agree (match ?x with _ => _ end) _ _ _) => destruct x : agree.
#[local] Hint Extern 2 (agree (bind (match ?x with _ => _ end) _) _ _ _) => destruct x : agree.

Lemma agree_simulate i ctx a b : same_heard a b -> agree (simulate_step i ctx) (simulate_step i ctx) a b.
Proof.
  intros Hs. unfold simulate_step. apply agree_get. pose proof (same_heard_lookup a b i Hs) as Hl.
  destruct (same_heard_fields a b Hs) as (_ & _ & Esc & _ & _). rewrite Esc.
  destruct (fa_heap a !! i) as [r|], (fa_heap b !! i) as [r'|]; [|done|done|by apply agree_ret].
  destruct (heard_chan r r' Hl) as (-> & -> & _ & Hap & -> & -> & _).
  assert (Hpoll : forall n rest a b, same_heard a b ->
    agree (match fr_approved r with Some _ => upd_run i (set_fr_pc (FResolved n rest)) | None => ret tt end)
          (match fr_approved r' with Some _ => upd_run i (set_fr_pc (FResolved n rest)) | None => ret tt end) a b).
  { intros n rest a' b' Hs'. destruct (fr_approved r), (fr_approved r'); [by apply agree_pc| | |by apply agree_ret].
    - by destruct Hap as [[? ?] _]; [eexists|].
    - by destruct Hap as [_ [? ?]]; [eexists|]. }
  destruct (fr_pc r'); cbv zeta; eauto 8 with agree.
Qed.

(** A sequence of operations without its interrupts, and with approvals for answers. *)
Definition unheard (o : fake_op) : option fake_op :=
  match o with
  | FInterrupt _ => None
  | FDecide run id _ reason => Some (FDecide run id true reason)
  | o => Some o
  end.

Lemma agree_run id a b : same_heard a b ->
  match fake_run id a, fake_run id b with
  | Some (i, r), Some (i', r') => i = i' /\ heard r = heard r'
  | None, None => True
  | _, _ => False
  end.
Proof.
  intros Hs. unfold fake_run. destruct (same_heard_fields a b Hs) as (-> & _). destruct (fa_runs b !! id) as [i|]; [cbn|done].
  pose proof (same_heard_lookup a b i Hs) as Hl. destruct (fa_heap a !! i), (fa_heap b !! i); cbn; done.
Qed.

Lemma agree_op o a b : same_heard a b ->
  agree (fake_op_step o) (match unheard o with Some o' => fake_op_step o' | None => ret tt end) a b.
Proof.
  intros Hs. destruct (same_heard_fields a b Hs) as (_ & _ & Esc & Ep & Eh).
  destruct o as [session input|i ctx|i|i|run|run id ap rs|s|d]; cbn [unheard]; unfold fake_op_step.
  5: { unfold agree, bind, get. cbn [fst snd]. destruct (fa_panicked a); [by split|].
       cbn [fake_do]. unfold FakeAdapter_Interrupt, bind, gets. destruct (fake_run (rh_ID run) a) as [[i r]|]; [|by split].
       destruct (fr_done r); [by split|]. apply (agree_upd_left i (fun r => set_fr_state RunStateInterrupted (set_fr_done r)) a b Hs). done. }
  all: apply agree_get; rewrite Ep; destruct (fa_panicked b); [by apply agree_ret|]; cbn [fake_do].
  - apply agree_bind; [|by intros; apply agree_ret]. unfold FakeAdapter_Start. apply agree_get. rewrite Esc.
    destruct (fs_FailOnStart _); [by apply agree_ret|]. apply agree_bind; [by apply agree_now|]. intros now a' b' Hs'.
    apply agree_bind; [|by intros; apply agree_ret]. split; [done|]. clear -Hs'. destruct a', b'. unfold same_heard, modify, add_run, set_fa_heap in *. cbn in *.
    injection Hs' as <- <- <- <- Hh <- <-. assert (El : length fa_heap0 = length fa_heap1).
    { apply (f_equal length) in Hh. by rewrite !length_fmap in Hh. }
    rewrite El, !fmap_app, Hh. done.
  - by apply agree_simulate.
  - apply agree_upd; [done|]. intros q q' Hq. destruct (heard_chan q q' Hq) as (_ & _ & _ & _ & _ & _ & Eq & Ec & Er).
    unfold receive. rewrite Eq. destruct (fr_queue q'); [done|]. rewrite Ec, Er. destruct q, q'; unfold heard in *; cbn in *; congruence.
  - eauto with agree.
  - apply agree_bind; [|by intros; apply agree_ret]. unfold FakeAdapter_DecideApproval, bind, gets, agree.
    pose proof (agree_run (rh_ID run) a b Hs) as Hr. destruct (fake_run _ a) as [[i r]|], (fake_run _ b) as [[i' r']|]; try done.
    destruct Hr as [<- Hr]. destruct (heard_chan r r' Hr) as (_ & _ & -> & _). destruct (fr_approval r'); [|done].
    refine (agree_bind (upd_run i (set_fr_approved ap)) (upd_run i (set_fr_approved true)) (fun _ => ret _) (fun _ => ret _) a b _
      (fun _ _ _ H => agree_ret _ _ _ H)). apply (agree_upd i (set_fr_approved ap) (set_fr_approved true) a b Hs). intros q q' Hq. destruct q, q'; unfold heard in *; cbn in *; congruence.
  - split; [done|]. clear -Hs. destruct a, b. unfold same_heard, set_fa_heap in *. cbn in *. injection Hs as <- <- <- <- Hh <- <-. by rewrite Hh.
  - split; [done|]. clear -Hs. destruct a, b. unfold same_heard, set_fa_heap in *. cbn in *. injection Hs as <- <- <- <- Hh <- <-. by rewrite Hh.
Qed.

(** Interrupts do not stop a fake agent, and a denial does not either: whatever is
    interrupted and however requests are decided, every run sends and completes
    exactly as it does without interrupts and with approvals. *)
Theorem fake_ignores_interrupts ops a : 
  let s := (fake_ops ops a).2 in let s' := (fake_ops (omap unheard ops) a).2 in
  fa_panicked s = fa_panicked s' /\ length (fa_heap s) = length (fa_heap s') /\
  forall i r r', fa_heap s !! i = Some r -> fa_heap s' !! i = Some r' ->
    fr_received r = fr_received r' /\ fr_queue r = fr_queue r' /\ fr_closed r = fr_closed r' /\ fr_pc r = fr_pc r'.
Proof.
  cbn zeta. assert (H : same_heard (fake_ops ops a).2 (fake_ops (omap unheard ops) a).2).
  { assert (Hg : forall a b, same_heard a b -> same_heard (fake_ops ops a).2 (fake_ops (omap unheard ops) b).2); [|by apply Hg].
    induction ops as [|o ops IH]; intros b c Hs; [done|]. pose proof (agree_op o b c Hs) as [_ Ho]. cbn. unfold bind.
    destruct (fake_op_step o b) as [[] b']. cbn [snd] in Ho. destruct (unheard o) as [o'|]; [|by apply IH].
    cbn. unfold bind. destruct (fake_op_step o' c) as [[] c']. by apply IH. }
  destruct (same_heard_fields _ _ H) as (_ & _ & _ & Ep & Eh). split; [done|]. split.
  - apply (f_equal length) in Eh. by rewrite !length_fmap in Eh.
  - intros i r r' Hr Hr'. pose proof (same_heard_lookup _ _ i H) as Hl. rewrite Hr, Hr' in Hl.
    destruct (heard_chan r r' Hl) as (_ & _ & _ & _ & _ & ? & ? & ? & ?). auto.
Qed.

(** ** Concrete runs *)

Definition demo_fake_session : Session := mkSession "s1" "ws-1" "fake-adapter" "created" "" 0 0 None 0 None None None.
Definition demo_fake_input : Input := mkInput "/srv/demo" "" [] [] [].
Definition demo_fake_scenario : FakeScenario := mkFakeScenario 0 ["one"; "two"] 0
  (Some (mkApprovalRequest "command" "run" "rm -r build" None 1)) 0 0 false "".

(** A run that is asked, denied, and goes on. *)
Definition demo_fake_ops : list fake_op :=
  [FStart demo_fake_session demo_fake_input] ++ replicate 8 (FStep 0 false) ++
  [FReceive 0; FDecide (mkRunHandle "run-s1" "s1" 12345 0) "approval-run-s1" false "no"] ++ replicate 20 (FStep 0 false).

Lemma demo_fake_short id : (length (fake_script demo_fake_scenario id) < fake_cap)%nat.
Proof. apply Nat.ltb_lt. vm_compute. reflexivity. Qed.
Lemma demo_fake_used : well_used demo_fake_ops (fake_with demo_fake_scenario steady_env).
Proof.
  split; [by intros i r H; vm_compute in H|]. unfold demo_fake_ops. cbn [app replicate well_used].
  repeat (split; [exact I|]). exact I.
Qed.

Lemma fake_plays_script_witness :
  let a := (fake_ops demo_fake_ops (fake_with demo_fake_scenario steady_env)).2 in
  fa_panicked a = false /\ exists r, fa_heap a !! 0%nat = Some r /\ fr_closed r = true /\ played demo_fake_scenario "run-s1" r.
Proof.
  destruct (fake_plays_script demo_fake_scenario steady_env demo_fake_ops demo_fake_short demo_fake_used) as [Hp Hr].
  split; [exact Hp|]. assert (H : (fun r => (fr_closed r, run_id r)) <$>
    fa_heap (fake_ops demo_fake_ops (fake_with demo_fake_scenario steady_env)).2 !! 0%nat = Some (true, "run-s1")) by (vm_compute; reflexivity).
  apply fmap_Some in H as (r & E & Er). pose proof (eq_sym (f_equal fst Er)) as Hcl. pose proof (f_equal snd Er) as Hid.
  exists r. split; [exact E|]. split; [exact Hcl|]. change ("run-s1" = run_id r) in Hid. rewrite Hid. exact (proj2 (Hr 0%nat r E) Hcl).
Defined.

Lemma fake_run_ends_witness :
  let a := (fake_ops (take 11 demo_fake_ops) (fake_with demo_fake_scenario steady_env)).2 in
  exists r', fa_heap (fake_ops (replicate 20 (FStep 0 false)) a).2 !! 0%nat = Some r' /\ fr_pc r' = FGone /\ fr_closed r' = true.
Proof.
  assert (H : (fun r => fr_approved r) <$> fa_heap (fake_ops (take 11 demo_fake_ops) (fake_with demo_fake_scenario steady_env)).2 !! 0%nat =
    Some (Some false)) by (vm_compute; reflexivity).
  apply fmap_Some in H as (r & E & Er).
  apply (fake_run_ends demo_fake_scenario steady_env (take 11 demo_fake_ops) 0 r demo_fake_short); [|exact E|].
  - split; [by intros i q H; vm_compute in H|]. cbn [take demo_fake_ops app replicate well_used]. repeat (split; [exact I|]). exact I.
  - left. exists false. exact (eq_sym Er).
Defined.

(** Two overlapping runs of one session share its run id: the second one's channel
    is closed twice, which ends the program. *)
Example overlapping_runs_panic :
  let sc := mkFakeScenario 0 [] 0 None 0 0 false "" in
  fa_panicked (fake_ops ([FStart demo_fake_session demo_fake_input; FStart demo_fake_session demo_fake_input] ++
    replicate 6 (FStep 0 false) ++ replicate 6 (FStep 1 false)) (fake_with sc steady_env)).2 = true.
Proof. vm_compute. reflexivity. Qed.

(** A run that is over can still be interrupted, and says so from then on. *)
Example interrupted_when_over :
  let a := (fake_ops ([FStart demo_fake_session demo_fake_input] ++ replicate 6 (FStep 0 false))
    (fake_with (mkFakeScenario 0 [] 0 None 0 0 false "") steady_env)).2 in
  (FakeAdapter_GetRunState "run-s1" a, (FakeAdapter_Interrupt (mkRunHandle "run-s1" "s1" 12345 0) a).1,
   FakeAdapter_GetRunState "run-s1" (FakeAdapter_Interrupt (mkRunHandle "run-s1" "s1" 12345 0) a).2) =
  (RunStateCompleted, mkAccepted true "interrupt accepted", RunStateInterrupted).
Proof. vm_compute. reflexivity. Qed.
