(* ===== verification/Plugin.v ===== *)
(** * The plugin registry (src/internal/plugin/registry.go)

    Plugins are pointers into a heap, since the registry, a shutdown and the
    callers share them; a pointer that points to nothing is nil.  [Shutdown] is
    its two locked sections with the drain goroutines between them, so shutdowns,
    drains and registrations interleave.  A drain function is any function: a
    step says when it returns.  [pr_calls] is the sequence of calls of drain
    functions. *)

From S2P Require Import Prelude Env.

(** ** Manifests and plugins *)

Record Manifest := mkManifest {
  mf_ID : string; mf_Name : string; mf_Version : string;
  mf_MinProtocol : Z; mf_MaxProtocol : Z;
  mf_Capabilities : list string; mf_RequiresSecret : bool }.

Definition StateActive : string := "active".
Definition StateDraining : string := "draining".
Definition StateStopped : string := "stopped".
Definition StateRejected : string := "rejected".

(** [pl_Drain] says whether the plugin has a drain function. *)
Record Plugin := mkPlugin {
  pl_Manifest : Manifest; pl_Activated : Z; pl_State : string; pl_Drain : bool }.

Definition set_pl_State (state : string) (p : Plugin) : Plugin :=
  mkPlugin (pl_Manifest p) (pl_Activated p) state (pl_Drain p).
Definition activate (now : Z) (p : Plugin) : Plugin :=
  mkPlugin (pl_Manifest p) now StateActive (pl_Drain p).

(** A drain goroutine of a shutdown: spawned, in the drain function, or gone. *)
Inductive drainer := Spawned | InDrain | Gone.
#[export] Instance drainer_eq_dec : EqDecision drainer.
Proof. solve_decision. Defined.

(** A shutdown between its locked sections: its plugins, each with its
    goroutine, and whether the second section has run. *)
Record shutdown := mkShutdown { sd_active : list (nat * drainer); sd_over : bool }.

Record PluginRegistry := mkPluginRegistry {
  pr_heap : list Plugin;
  pr_plugins : gmap string nat;
  pr_supported : Z;
  pr_drainTimeout : Z;
  pr_shutdowns : list shutdown;
  pr_calls : list nat;
  pr_env : Env }.

Definition set_pr_heap (h : list Plugin) (r : PluginRegistry) : PluginRegistry :=
  mkPluginRegistry h (pr_plugins r) (pr_supported r) (pr_drainTimeout r) (pr_shutdowns r) (pr_calls r) (pr_env r).
Definition set_pr_plugins (m : gmap string nat) (r : PluginRegistry) : PluginRegistry :=
  mkPluginRegistry (pr_heap r) m (pr_supported r) (pr_drainTimeout r) (pr_shutdowns r) (pr_calls r) (pr_env r).
Definition set_pr_shutdowns (l : list shutdown) (r : PluginRegistry) : PluginRegistry :=
  mkPluginRegistry (pr_heap r) (pr_plugins r) (pr_supported r) (pr_drainTimeout r) l (pr_calls r) (pr_env r).
Definition set_pr_env (e : Env) (r : PluginRegistry) : PluginRegistry :=
  mkPluginRegistry (pr_heap r) (pr_plugins r) (pr_supported r) (pr_drainTimeout r) (pr_shutdowns r) (pr_calls r) e.
Definition add_call (l : nat) (r : PluginRegistry) : PluginRegistry :=
  mkPluginRegistry (pr_heap r) (pr_plugins r) (pr_supported r) (pr_drainTimeout r) (pr_shutdowns r)
    (pr_calls r ++ [l]) (pr_env r).

Definition upd_plugin (l : nat) (f : Plugin -> Plugin) (r : PluginRegistry) : PluginRegistry :=
  set_pr_heap (alter f l (pr_heap r)) r.
Definition upd_plugins (ls : list nat) (f : Plugin -> Plugin) (r : PluginRegistry) : PluginRegistry :=
  foldr (fun l => upd_plugin l f) r ls.

(** ** The operations *)

Definition NewPluginRegistry (supported : Z) (e : Env) : PluginRegistry :=
  mkPluginRegistry [] ∅ supported (5 * Second) [] [] e.

Definition PluginRegistry_SetDrainTimeout (d : Z) : M PluginRegistry unit :=
  modify (fun r => mkPluginRegistry (pr_heap r) (pr_plugins r) (pr_supported r) d (pr_shutdowns r) (pr_calls r) (pr_env r)).

Definition PluginRegistry_Validate (supported : Z) (m : Manifest) : option error :=
  if decide (mf_ID m = "") then Some (ErrNew "manifest id is required")
  else if decide (mf_Name m = "") then Some (ErrNew "manifest name is required")
  else if decide (mf_Version m = "") then Some (ErrNew "manifest version is required")
  else if decide (mf_MinProtocol m <= 0)%Z then Some (ErrNew "manifest min_protocol must be positive")
  else if decide (mf_MaxProtocol m < mf_MinProtocol m)%Z then Some (ErrNew "manifest max_protocol < min_protocol")
  else if decide (supported < mf_MinProtocol m \/ mf_MaxProtocol m < supported)%Z then
    Some (ErrNew ("plugin " +:+ mf_ID m +:+ " supports protocol [" +:+ Itoa (mf_MinProtocol m) +:+ "," +:+
                  Itoa (mf_MaxProtocol m) +:+ "], server speaks " +:+ Itoa supported))
  else None.

Definition PluginRegistry_Register (l : nat) : M PluginRegistry (option error) :=
  let! r := get in
  match pr_heap r !! l with
  | None => ret (Some (ErrNew "plugin is nil"))
  | Some p =>
      let m := pl_Manifest p in
      match PluginRegistry_Validate (pr_supported r) m with
      | Some e =>
          let! now := zoom pr_env set_pr_env time_Now in
          modify (fun r => set_pr_plugins (<[mf_ID m := length (pr_heap r)]> (pr_plugins r))
            (set_pr_heap (pr_heap r ++ [mkPlugin m now StateRejected false]) r));;;
          ret (Some e)
      | None =>
          match pr_plugins r !! mf_ID m with
          | Some _ => ret (Some (ErrNew ("plugin " +:+ mf_ID m +:+ " already registered")))
          | None =>
              let! now := zoom pr_env set_pr_env time_Now in
              modify (fun r => set_pr_plugins (<[mf_ID m := l]> (pr_plugins r)) (upd_plugin l (activate now) r));;;
              ret None
          end
      end
  end.

Definition PluginRegistry_Get (id : string) (r : PluginRegistry) : option nat := pr_plugins r !! id.
Definition PluginRegistry_List (r : PluginRegistry) : list nat := (map_to_list (pr_plugins r)).*2.

Definition has_state (state : string) (r : PluginRegistry) (l : nat) : Prop :=
  pl_State <$> pr_heap r !! l = Some state.
#[export] Instance has_state_dec state r l : Decision (has_state state r l).
Proof. unfold has_state. apply _. Defined.

Definition PluginRegistry_ActivePlugins (r : PluginRegistry) : list nat :=
  filter (has_state StateActive r) (PluginRegistry_List r).

Record Diagnostic := mkDiagnostic {
  dg_ID : string; dg_Name : string; dg_Version : string; dg_State : string; dg_Capabilities : list string;
  dg_MinProtocol : Z; dg_MaxProtocol : Z; dg_ActivatedAt : Z }.
Definition diagnostic_of (p : Plugin) : Diagnostic :=
  let m := pl_Manifest p in
  mkDiagnostic (mf_ID m) (mf_Name m) (mf_Version m) (pl_State p) (mf_Capabilities m)
    (mf_MinProtocol m) (mf_MaxProtocol m) (pl_Activated p).
Definition PluginRegistry_Diagnostics (r : PluginRegistry) : list Diagnostic :=
  omap (fun l => diagnostic_of <$> pr_heap r !! l) (PluginRegistry_List r).

(** *** Shutdown *)

(** The first section; without active plugins [Shutdown] returns here. *)
Definition PluginRegistry_Shutdown_begin : M PluginRegistry unit := fun r =>
  let active := PluginRegistry_ActivePlugins r in
  let r := upd_plugins active (set_pl_State StateDraining) r in
  (tt, if decide (active = []) then r
       else set_pr_shutdowns (pr_shutdowns r ++ [mkShutdown ((fun l => (l, Spawned)) <$> active) false]) r).

Definition upd_shutdown (k : nat) (f : shutdown -> shutdown) (r : PluginRegistry) : PluginRegistry :=
  set_pr_shutdowns (alter f k (pr_shutdowns r)) r.
Definition set_drainer (i : nat) (g : drainer) (s : shutdown) : shutdown :=
  mkShutdown (alter (fun lg => (lg.1, g)) i (sd_active s)) (sd_over s).

(** One step of goroutine [i] of shutdown [k]: it calls the drain function, if
    there is one, and later that returns, with an error or not. *)
Definition drain_step (k i : nat) : M PluginRegistry unit := fun r =>
  (tt, match pr_shutdowns r !! k ≫= fun s => sd_active s !! i with
       | Some (l, Spawned) =>
           match pr_heap r !! l with
           | Some p => if pl_Drain p then upd_shutdown k (set_drainer i InDrain) (add_call l r)
                       else upd_shutdown k (set_drainer i Gone) r
           | None => r
           end
       | Some (l, InDrain) => upd_shutdown k (set_drainer i Gone) r
       | _ => r
       end).

(** The second section, after the wait: it ends when every goroutine is gone, or
    because of the timeout or the caller's context. *)
Definition PluginRegistry_Shutdown_end (k : nat) (timed_out : bool) : M PluginRegistry unit := fun r =>
  (tt, match pr_shutdowns r !! k with
       | Some s =>
           if negb (sd_over s) && (timed_out || bool_decide (Forall (fun lg => lg.2 = Gone) (sd_active s)))
           then upd_shutdown k (fun s => mkShutdown (sd_active s) true)
                  (upd_plugins (sd_active s).*1 (set_pl_State StateStopped) r)
           else r
       | None => r
       end).

(** ** Sequences *)

(** A caller makes a plugin, in whatever state, and any goroutine of the program
    takes its next step. *)
Inductive plugin_op :=
  | PNew (p : Plugin)
  | PRegister (l : nat)
  | PSetDrainTimeout (d : Z)
  | PShutdown
  | PDrain (k i : nat)
  | PEnd (k : nat) (timed_out : bool).

Definition run_plugin_op (o : plugin_op) : M PluginRegistry unit :=
  match o with
  | PNew p => modify (fun r => set_pr_heap (pr_heap r ++ [p]) r)
  | PRegister l => PluginRegistry_Register l;;; ret tt
  | PSetDrainTimeout d => PluginRegistry_SetDrainTimeout d
  | PShutdown => PluginRegistry_Shutdown_begin
  | PDrain k i => drain_step k i
  | PEnd k timed_out => PluginRegistry_Shutdown_end k timed_out
  end.
Definition run_plugins (ops : list plugin_op) : M PluginRegistry unit := for_each ops run_plugin_op.

(** ** What holds in every sequence *)

(** Goroutine [i] of shutdown [k], and whether that shutdown is over. *)
Definition slot (r : PluginRegistry) (k i : nat) : option (nat * drainer) :=
  pr_shutdowns r !! k ≫= fun s => sd_active s !! i.
Definition over (r : PluginRegistry) (k : nat) : bool :=
  match pr_shutdowns r !! k with Some s => sd_over s | None => false end.

Definition accepted (r : PluginRegistry) (p : Plugin) : Prop := PluginRegistry_Validate (pr_supported r) (pl_Manifest p) = None.

(** A registered plugin is under its id, and passes validation unless it was rejected. *)
Definition entry_ok (r : PluginRegistry) (id : string) (l : nat) : Prop :=
  exists p, pr_heap r !! l = Some p /\ mf_ID (pl_Manifest p) = id /\
    (pl_State p = StateRejected /\ ~ accepted r p \/ pl_State p <> StateRejected /\ accepted r p).

Record plugins_ok (r : PluginRegistry) : Prop := mk_plugins_ok {
  po_entry : forall id l, pr_plugins r !! id = Some l -> entry_ok r id l;
  po_slot : forall k i l g, slot r k i = Some (l, g) -> exists p, pr_heap r !! l = Some p /\ accepted r p /\
    is_Some (pr_plugins r !! mf_ID (pl_Manifest p)) /\ pl_State p = if over r k then StateStopped else StateDraining;
  po_unique : forall k i g k' i' g' l, slot r k i = Some (l, g) -> slot r k' i' = Some (l, g') -> k = k' /\ i = i';
  po_calls : NoDup (pr_calls r);
  po_called : forall l, l ∈ pr_calls r -> exists k i g, slot r k i = Some (l, g) /\ g <> Spawned;
  po_gone : forall k i l g p, slot r k i = Some (l, g) -> g <> Spawned -> pr_heap r !! l = Some p -> pl_Drain p = true -> l ∈ pr_calls r
}.

(** A plugin keeps its manifest and drain function, a goroutine its plugin; what is
    over stays so. *)
Definition keeps_plugin (p p' : Plugin) : Prop := pl_Manifest p' = pl_Manifest p /\ pl_Drain p' = pl_Drain p.
Record goes_on (r r' : PluginRegistry) : Prop := mk_goes_on {
  go_heap : forall l p, pr_heap r !! l = Some p -> exists p', pr_heap r' !! l = Some p' /\ keeps_plugin p p';
  go_slot : forall k i l g, slot r k i = Some (l, g) -> exists g', slot r' k i = Some (l, g');
  go_back : forall k i l g, (k < length (pr_shutdowns r))%nat -> slot r' k i = Some (l, g) -> exists g', slot r k i = Some (l, g');
  go_length : (length (pr_shutdowns r) <= length (pr_shutdowns r'))%nat;
  go_over : forall k, over r k = true -> over r' k = true;
  go_supported : pr_supported r' = pr_supported r
}.

#[export] Instance goes_on_preorder : PreOrder goes_on.
Proof.
  split.
  - intros r. constructor; eauto. intros l p Hp. by exists p.
  - intros r1 r2 r3 [H1 S1 B1 L1 O1 U1] [H2 S2 B2 L2 O2 U2]. constructor; [|..|congruence].
    + intros l p (p' & Hp & E1 & E1')%H1. apply H2 in Hp as (p2 & Hp & E2 & E2'). exists p2. split; [done|]. split; congruence.
    + intros k i l g [g' Hg]%S1. by apply S2 in Hg.
    + intros k i l g Hk [g' Hg]%B2; [|lia]. by apply B1 in Hg.
    + lia.
    + auto.
Qed.

(** *** What the steps do to heap and goroutines *)

Lemma lookup_upd_plugins ls state r l :
  pr_heap (upd_plugins ls (set_pl_State state) r) !! l =
    (if decide (l ∈ ls) then set_pl_State state else id) <$> pr_heap r !! l.
Proof.
  unfold upd_plugins. induction ls as [|l' ls IH]; cbn.
  - rewrite decide_False by apply not_elem_of_nil. by destruct (pr_heap r !! l).
  - destruct (decide (l = l')) as [->|Hne].
    + rewrite list_lookup_alter_eq, IH. destruct (pr_heap r !! l') as [p|]; [cbn|done].
      rewrite (decide_True (P:=l' ∈ l' :: ls)) by apply list_elem_of_here. by case_decide.
    + rewrite list_lookup_alter_ne by done. rewrite IH.
      destruct (decide (l ∈ ls)) as [H|H]; [rewrite decide_True by by apply list_elem_of_further|rewrite decide_False]; [done..|].
      by intros [?|?]%elem_of_cons.
Qed.
Lemma upd_plugins_rest ls f r :
  pr_plugins (upd_plugins ls f r) = pr_plugins r /\ pr_supported (upd_plugins ls f r) = pr_supported r /\
  pr_shutdowns (upd_plugins ls f r) = pr_shutdowns r /\ pr_calls (upd_plugins ls f r) = pr_calls r.
Proof. induction ls; cbn; auto. Qed.

Lemma slot_eq r r' k i : pr_shutdowns r' = pr_shutdowns r -> slot r' k i = slot r k i.
Proof. unfold slot. by intros ->. Qed.
Lemma over_eq r r' k : pr_shutdowns r' = pr_shutdowns r -> over r' k = over r k.
Proof. unfold over. by intros ->. Qed.

Lemma slot_set_drainer r k i g k' i' :
  slot (upd_shutdown k (set_drainer i g) r) k' i' =
    (fun lg => if decide (k' = k /\ i' = i) then (lg.1, g) else lg) <$> slot r k' i'.
Proof.
  unfold slot, upd_shutdown. cbn. destruct (decide (k' = k)) as [->|Hk].
  - rewrite list_lookup_alter_eq. destruct (pr_shutdowns r !! k) as [s|]; [|done]. cbn. destruct (decide (i' = i)) as [->|Hi].
    + rewrite list_lookup_alter_eq. destruct (sd_active s !! i); [cbn|done]. by rewrite decide_True.
    + rewrite list_lookup_alter_ne by done. destruct (sd_active s !! i') as [[]|]; [cbn|done]. by rewrite decide_False by tauto.
  - rewrite list_lookup_alter_ne by done. destruct (_ ≫= _) as [[]|]; [cbn|done]. by rewrite decide_False by tauto.
Qed.
Lemma over_set_drainer r k i g k' : over (upd_shutdown k (set_drainer i g) r) k' = over r k'.
Proof.
  unfold over, upd_shutdown. cbn. destruct (decide (k' = k)) as [->|Hk].
  - rewrite list_lookup_alter_eq. by destruct (_ !! k).
  - by rewrite list_lookup_alter_ne.
Qed.

Lemma slot_finish r k k' i : slot (upd_shutdown k (fun s => mkShutdown (sd_active s) true) r) k' i = slot r k' i.
Proof.
  unfold slot, upd_shutdown. cbn. destruct (decide (k' = k)) as [->|Hk].
  - rewrite list_lookup_alter_eq. by destruct (_ !! k).
  - by rewrite list_lookup_alter_ne.
Qed.
Lemma over_finish r k k' : is_Some (pr_shutdowns r !! k) ->
  over (upd_shutdown k (fun s => mkShutdown (sd_active s) true) r) k' = if decide (k' = k) then true else over r k'.
Proof.
  intros [s Hs]. unfold over, upd_shutdown. cbn. destruct (decide (k' = k)) as [->|Hk].
  - by rewrite list_lookup_alter_eq, Hs.
  - by rewrite list_lookup_alter_ne.
Qed.

Lemma slot_begin r ls k i :
  slot (set_pr_shutdowns (pr_shutdowns r ++ [mkShutdown ((fun l => (l, Spawned)) <$> ls) false]) r) k i =
    if decide (k = length (pr_shutdowns r)) then (fun l => (l, Spawned)) <$> ls !! i else slot r k i.
Proof.
  unfold slot. cbn. case_decide as Hk.
  - subst k. rewrite list_lookup_middle by done. cbn. by rewrite list_lookup_fmap.
  - destruct (decide (k < length (pr_shutdowns r))%nat); [by rewrite lookup_app_l|].
    rewrite lookup_ge_None_2 by (rewrite length_app; cbn; lia). by rewrite lookup_ge_None_2 by lia.
Qed.
Lemma over_begin r ls k :
  over (set_pr_shutdowns (pr_shutdowns r ++ [mkShutdown ls false]) r) k = over r k.
Proof.
  unfold over. cbn. destruct (decide (k = length (pr_shutdowns r))) as [->|Hk].
  - rewrite list_lookup_middle by done. by rewrite lookup_ge_None_2 by lia.
  - destruct (decide (k < length (pr_shutdowns r))%nat); [by rewrite lookup_app_l|].
    rewrite lookup_ge_None_2 by (rewrite length_app; cbn; lia). by rewrite lookup_ge_None_2 by lia.
Qed.

(** *** Every step keeps the invariant *)

Definition steps_ok (r r' : PluginRegistry) : Prop := plugins_ok r' /\ goes_on r r'.

(** A change of the heap that keeps plugins and the states the invariant speaks of,
    and leaves registrations and shutdowns alone. *)
Lemma new_plugin_ok r p e : plugins_ok r -> steps_ok r (set_pr_env e (set_pr_heap (pr_heap r ++ [p]) r)).
Proof.
  intros Hok. assert (Hl : forall l q, pr_heap r !! l = Some q -> (pr_heap r ++ [p]) !! l = Some q)
    by (intros; by apply lookup_app_l_Some).
  split; constructor.
  - intros id l (q & Hq & H)%(po_entry r Hok). exists q. split; [by apply Hl|done].
  - intros k i l g (q & Hq & H)%(po_slot r Hok). exists q. split; [by apply Hl|done].
  - apply (po_unique r Hok).
  - apply (po_calls r Hok).
  - apply (po_called r Hok).
  - intros k i l g q Hs Hg Hq. pose proof (po_slot r Hok k i l g Hs) as (q' & Hq' & _). cbn in Hq. rewrite (Hl _ _ Hq') in Hq.
    injection Hq as <-. by eapply (po_gone r Hok).
  - intros l q Hq. exists q. split; [by apply Hl|done].
  - intros k i l g Hs. by exists g.
  - intros k i l g _ Hs. by exists g.
  - done.
  - done.
  - done.
Qed.

(** A new registration of a plugin no shutdown knows. *)
Lemma register_ok r id l : plugins_ok r -> entry_ok r id l -> steps_ok r (set_pr_plugins (<[id := l]> (pr_plugins r)) r).
Proof.
  intros Hok He. split; constructor; cbn.
  - intros id' l'. destruct (decide (id' = id)) as [->|Hne].
    + rewrite lookup_insert_eq. by intros [= <-].
    + rewrite lookup_insert_ne by done. apply (po_entry r Hok).
  - intros k i l' g (q & Hq & Hv & Hm & Hs)%(po_slot r Hok). exists q. split_and!; [done|done| |done].
    destruct (decide (mf_ID (pl_Manifest q) = id)) as [->|Hne]; [by rewrite lookup_insert_eq|by rewrite lookup_insert_ne].
  - apply (po_unique r Hok).
  - apply (po_calls r Hok).
  - apply (po_called r Hok).
  - apply (po_gone r Hok).
  - intros l' q Hq. by exists q.
  - intros k i l' g Hs. by exists g.
  - intros k i l' g _ Hs. by exists g.
  - done.
  - done.
  - done.
Qed.

Lemma steps_ok_trans r1 r2 r3 : steps_ok r1 r2 -> steps_ok r2 r3 -> steps_ok r1 r3.
Proof. intros [_ H1] [H2 H3]. split; [done|by etransitivity]. Qed.

(** A plugin that no shutdown holds changes its state. *)
Lemma upd_plugin_ok r l f : plugins_ok r -> (forall p, keeps_plugin p (f p)) ->
  (forall k i g, slot r k i <> Some (l, g)) -> (forall id, pr_plugins r !! id <> Some l) ->
  steps_ok r (upd_plugin l f r).
Proof.
  intros Hok Hf Hslot Hmap.
  assert (Hne : forall l', l' <> l -> pr_heap (upd_plugin l f r) !! l' = pr_heap r !! l') by (intros; by apply list_lookup_alter_ne).
  split; constructor.
  - intros id l' Hl. pose proof (po_entry r Hok id l' Hl) as (q & Hq & H). exists q. rewrite Hne by (intros ->; by eapply Hmap). done.
  - intros k i l' g Hs. pose proof (po_slot r Hok _ _ _ _ Hs) as (q & Hq & H). exists q. rewrite Hne by (intros ->; by eapply Hslot). done.
  - apply (po_unique r Hok).
  - apply (po_calls r Hok).
  - apply (po_called r Hok).
  - intros k i l' g q Hs Hg Hq. rewrite Hne in Hq by (intros ->; by eapply Hslot). by eapply (po_gone r Hok).
  - intros l' q Hq. destruct (decide (l' = l)) as [->|Hl]; [|exists q; by rewrite Hne].
    exists (f q). split; [|done]. cbn. by rewrite list_lookup_alter_eq, Hq.
  - intros k i l' g Hs. by exists g.
  - intros k i l' g _ Hs. by exists g.
  - done.
  - done.
  - done.
Qed.

Lemma Register_steps l r : plugins_ok r -> wp (PluginRegistry_Register l) r (fun _ r' => steps_ok r r').
Proof.
  intros Hok. unfold PluginRegistry_Register. rewrite wp_bind, wp_get.
  destruct (pr_heap r !! l) as [p|] eqn:Ep; [|rewrite wp_ret; split; [done|reflexivity]].
  destruct (PluginRegistry_Validate _ _) as [e|] eqn:Ev; [|destruct (pr_plugins r !! _) as [l'|] eqn:El].
  - rewrite wp_bind, wp_zoom. unfold wp at 1, time_Now. cbn [fst snd]. rewrite wp_bind, wp_modify, wp_ret.
    set (now := env_clock _ _). set (q := mkPlugin (pl_Manifest p) now StateRejected false).
    eapply steps_ok_trans; [by apply (new_plugin_ok r q (env_tick (pr_env r)))|].
    apply (register_ok (set_pr_env (env_tick (pr_env r)) (set_pr_heap (pr_heap r ++ [q]) r))); [by apply new_plugin_ok|].
    exists q. cbn. rewrite list_lookup_middle by done. split_and!; [done|done|]. left. split; [done|]. unfold accepted. cbn. congruence.
  - rewrite wp_ret. split; [done|reflexivity].
  - rewrite wp_bind, wp_zoom. unfold wp at 1, time_Now. cbn [fst snd]. rewrite wp_bind, wp_modify, wp_ret.
    set (now := env_clock _ _). set (r1 := set_pr_env (env_tick (pr_env r)) r).
    assert (H1 : steps_ok r r1).
    { split; [by destruct Hok; constructor|]. constructor; [intros ? q Hq; by exists q|intros ??? g Hs; by exists g|intros ??? g _ Hs; by exists g|done..]. }
    assert (H2 : steps_ok r1 (upd_plugin l (activate now) r1)).
    { apply upd_plugin_ok; [apply H1|done| |].
      - intros k i g (q & Hq & _ & [x Hm] & _)%(po_slot r Hok). congruence.
      - intros id Hl. pose proof Hl as (q & Hq & <- & _)%(po_entry r Hok). cbn in Hl. congruence. }
    eapply steps_ok_trans; [exact H1|]. eapply steps_ok_trans; [exact H2|].
    apply (register_ok (upd_plugin l (activate now) r1)); [apply H2|].
    exists (activate now p). cbn. rewrite list_lookup_alter_eq, Ep. split_and!; [done|done|]. by right.
Qed.

(** A goroutine goes on: it calls the drain function only when it was just
    spawned, and skips it only where there is none. *)
Lemma set_drainer_ok r k i l g0 g (call : bool) : plugins_ok r -> slot r k i = Some (l, g0) -> g <> Spawned ->
  (if call then g0 = Spawned else g0 <> Spawned \/ forall p, pr_heap r !! l = Some p -> pl_Drain p = false) ->
  steps_ok r (upd_shutdown k (set_drainer i g) (if call then add_call l r else r)).
Proof.
  intros Hok Hs Hg Hcall. set (r0 := if call then add_call l r else r). set (r1 := upd_shutdown k (set_drainer i g) r0).
  assert (Hr0 : pr_heap r0 = pr_heap r /\ pr_plugins r0 = pr_plugins r /\ pr_supported r0 = pr_supported r /\
    pr_shutdowns r0 = pr_shutdowns r) by by destruct call. destruct Hr0 as (Eh & Ep & Eu & Esd).
  change (pr_heap r0) with (pr_heap r1) in Eh. change (pr_plugins r0) with (pr_plugins r1) in Ep.
  change (pr_supported r0) with (pr_supported r1) in Eu.
  assert (Hslot : forall k' i' l' g', slot r1 k' i' = Some (l', g') ->
    exists g1, slot r k' i' = Some (l', g1) /\ (k' = k /\ i' = i /\ g' = g /\ g1 = g0 \/ g' = g1 /\ ~ (k' = k /\ i' = i))).
  { intros k' i' l' g' H. unfold r1 in H. rewrite slot_set_drainer, (slot_eq r r0) in H by done.
    destruct (slot r k' i') as [[l1 g1]|] eqn:E; [|done]. cbn in H. case_decide as Hd; injection H as <- <-.
    - destruct Hd as [-> ->]. exists g1. split; [done|]. left. split_and!; congruence.
    - exists g1. auto. }
  assert (Hnew : call = true -> l ∉ pr_calls r).
  { intros -> (k' & i' & g' & Hs' & Hg')%(po_called r Hok). destruct (po_unique r Hok _ _ _ _ _ _ _ Hs Hs') as [-> ->]. congruence. }
  assert (Hin : forall l', l' ∈ pr_calls r -> l' ∈ pr_calls r1) by (intros l'; destruct call; cbn; [rewrite elem_of_app; by left|done]).
  assert (Hov : forall k', over r1 k' = over r k') by (intros; unfold r1; rewrite over_set_drainer; by apply over_eq).
  split; constructor.
  - unfold entry_ok, accepted. rewrite Eh, Ep, Eu. apply (po_entry r Hok).
  - intros k' i' l' g' (g1 & Hs' & _)%Hslot. unfold accepted. rewrite Hov, Eh, Ep, Eu. by apply (po_slot r Hok _ _ _ _ Hs').
  - intros k1 i1 g1 k2 i2 g2 l' (g1' & H1 & _)%Hslot (g2' & H2 & _)%Hslot. by eapply (po_unique r Hok).
  - unfold r1, r0. destruct call; cbn; [|apply (po_calls r Hok)]. apply NoDup_app.
    split_and!; [apply (po_calls r Hok)| |apply NoDup_singleton]. intros l' Hl' ->%list_elem_of_singleton. by apply Hnew.
  - intros l' Hl'. assert (Hd : l' = l \/ l' ∈ pr_calls r).
    { unfold r1, r0 in Hl'. destruct call; cbn in Hl'; [|by right]. apply elem_of_app in Hl' as [?|?%list_elem_of_singleton]; auto. }
    unfold r1. setoid_rewrite slot_set_drainer. setoid_rewrite (slot_eq r r0); [|done..].
    destruct (decide (l' = l)) as [->|Hne]; [exists k, i, g; rewrite Hs; cbn; by rewrite decide_True|].
    destruct Hd as [?|Hd]; [done|]. destruct (po_called r Hok l' Hd) as (k' & i' & g' & H' & Hg'). exists k', i', g'. rewrite H'. cbn.
    rewrite decide_False; [done|]. intros [-> ->]. congruence.
  - intros k' i' l' g' p (g1 & Hs' & Hc)%Hslot Hg' Hp Hd. rewrite Eh in Hp. destruct Hc as [(-> & -> & -> & ->)|[-> _]].
    + assert (l' = l) as -> by congruence. unfold r1, r0. destruct call; cbn; [apply elem_of_app; right; by apply list_elem_of_singleton|].
      destruct Hcall as [Hg0|Hno]; [by eapply (po_gone r Hok)|]. by rewrite (Hno p Hp) in Hd.
    + apply Hin. by eapply (po_gone r Hok).
  - intros l' q Hq. exists q. by rewrite Eh.
  - intros k' i' l' g' Hs'. unfold r1. rewrite slot_set_drainer, (slot_eq r r0), Hs' by done. cbn. case_decide; eauto.
  - intros k' i' l' g' _ (g1 & Hs' & _)%Hslot. by exists g1.
  - unfold r1, upd_shutdown. cbn. by rewrite length_alter, Esd.
  - intros k'. by rewrite Hov.
  - done.
Qed.

Lemma drain_steps k i r : plugins_ok r -> steps_ok r (drain_step k i r).2.
Proof.
  intros Hok. unfold drain_step. cbn. fold (slot r k i).
  destruct (slot r k i) as [[l [| |]]|] eqn:Es; try (split; [done|reflexivity]).
  - destruct (pr_heap r !! l) as [p|] eqn:Ep; [|split; [done|reflexivity]]. destruct (pl_Drain p) eqn:Ed.
    + by apply (set_drainer_ok r k i l Spawned InDrain true).
    + apply (set_drainer_ok r k i l Spawned Gone false); [done..|]. right. intros p' Hp'. congruence.
  - apply (set_drainer_ok r k i l InDrain Gone false); [done..|]. by left.
Qed.

(** Accepted plugins change their state, not to rejected. *)
Definition all_accepted (r : PluginRegistry) (ls : list nat) : Prop :=
  forall l, l ∈ ls -> exists p, pr_heap r !! l = Some p /\ accepted r p.

Lemma upd_plugins_entry r ls state id l : plugins_ok r -> all_accepted r ls -> state <> StateRejected ->
  pr_plugins r !! id = Some l -> entry_ok (upd_plugins ls (set_pl_State state) r) id l.
Proof.
  intros Hok Hls Hst (p & Hp & Hid & H)%(po_entry r Hok). unfold entry_ok, accepted.
  destruct (upd_plugins_rest ls (set_pl_State state) r) as (_ & -> & _). rewrite lookup_upd_plugins, Hp.
  eexists. split; [done|]. case_decide as Hl; cbn; [|auto]. split; [done|]. right. split; [done|].
  destruct (Hls l Hl) as (p' & Hp' & Hs). unfold accepted in Hs. congruence.
Qed.

Lemma upd_plugins_go r r' ls state : pr_heap r' = pr_heap (upd_plugins ls (set_pl_State state) r) ->
  pr_supported r' = pr_supported r -> (length (pr_shutdowns r) <= length (pr_shutdowns r'))%nat ->
  (forall k i, (k < length (pr_shutdowns r))%nat -> slot r' k i = slot r k i) ->
  (forall k, over r k = true -> over r' k = true) -> goes_on r r'.
Proof.
  intros Eh Eu Hl Hs Ho. constructor; [| |intros k i l g Hk; rewrite Hs by done; eauto|done..].
  2: { intros k i l g H. exists g. rewrite Hs; [done|]. unfold slot in H. destruct (pr_shutdowns r !! k) eqn:E; [|done].
       by apply lookup_lt_Some in E. } intros l p Hp. rewrite Eh, lookup_upd_plugins, Hp.
  eexists. split; [done|]. by case_decide.
Qed.

Lemma upd_plugins_drain r ls state l p : pr_heap (upd_plugins ls (set_pl_State state) r) !! l = Some p ->
  exists q, pr_heap r !! l = Some q /\ pl_Drain q = pl_Drain p.
Proof.
  rewrite lookup_upd_plugins. destruct (pr_heap r !! l) as [q|]; [|done]. intros [= <-]. exists q. split; [done|]. by case_decide.
Qed.

Lemma end_steps k timed_out r : plugins_ok r -> steps_ok r (PluginRegistry_Shutdown_end k timed_out r).2.
Proof.
  intros Hok. unfold PluginRegistry_Shutdown_end. cbn. destruct (pr_shutdowns r !! k) as [s|] eqn:Ek; [|split; [done|reflexivity]].
  destruct (negb (sd_over s) && _) eqn:Eg; [|split; [done|reflexivity]].
  set (ls := (sd_active s).*1). destruct (upd_plugins_rest ls (set_pl_State StateStopped) r) as (Em & Eu & Es & Ec).
  set (r1 := upd_plugins ls (set_pl_State StateStopped) r) in *.
  assert (Hin : forall i l g, slot r k i = Some (l, g) -> l ∈ ls).
  { intros i l g. unfold slot. rewrite Ek. cbn. intros H%list_elem_of_lookup_2. apply list_elem_of_fmap. by exists (l, g). }
  assert (Hls : all_accepted r ls).
  { intros l ([l' g] & -> & [i Hi]%list_elem_of_lookup_1)%list_elem_of_fmap.
    destruct (po_slot r Hok k i l' g) as (p & Hp & Hv & _); [unfold slot; by rewrite Ek|]. by exists p. }
  assert (Hsl : forall k' i, slot (upd_shutdown k (fun s => mkShutdown (sd_active s) true) r1) k' i = slot r k' i)
    by (intros; rewrite slot_finish; by apply slot_eq).
  assert (Hov : forall k', over (upd_shutdown k (fun s => mkShutdown (sd_active s) true) r1) k' =
    if decide (k' = k) then true else over r k').
  { intros k'. rewrite over_finish by (rewrite Es; by eexists). case_decide; [done|]. by apply over_eq. }
  split; [constructor|apply (upd_plugins_go r _ ls StateStopped)]; cbn [pr_heap pr_plugins pr_supported pr_calls upd_shutdown set_pr_shutdowns].
  - rewrite Em. intros id l Hl. unfold entry_ok, accepted. cbn. by apply upd_plugins_entry.
  - intros k' i l g. rewrite Hsl, Hov. intros Hs. pose proof (po_slot r Hok _ _ _ _ Hs) as (p & Hp & Hv & Hm & Hst).
    rewrite Em. unfold accepted. cbn. rewrite Eu. unfold r1. rewrite lookup_upd_plugins, Hp. eexists. split; [done|].
    case_decide as Hl; cbn; (split_and!; [done|done|]).
    + case_decide; [done|]. exfalso. apply list_elem_of_fmap in Hl as ([l' g'] & -> & [i' Hi']%list_elem_of_lookup_1).
      assert (Hs' : slot r k i' = Some (l', g')) by (unfold slot; by rewrite Ek).
      by destruct (po_unique r Hok _ _ _ _ _ _ _ Hs Hs').
    + case_decide as Hk; [subst k'; by apply Hin in Hs|done].
  - intros k1 i1 g1 k2 i2 g2 l. rewrite !Hsl. apply (po_unique r Hok).
  - rewrite Ec. apply (po_calls r Hok).
  - rewrite Ec. intros l Hl. setoid_rewrite Hsl. by apply (po_called r Hok).
  - intros k' i l g p. rewrite Hsl, Ec. intros Hs Hg (q & Hq & <-)%upd_plugins_drain. by eapply (po_gone r Hok).
  - done.
  - done.
  - unfold upd_shutdown. cbn. by rewrite length_alter, Es.
  - intros k' i _. by rewrite Hsl.
  - intros k'. rewrite Hov. by case_decide.
Qed.

Lemma active_entry r l : plugins_ok r -> l ∈ PluginRegistry_ActivePlugins r ->
  exists id p, pr_plugins r !! id = Some l /\ pr_heap r !! l = Some p /\ mf_ID (pl_Manifest p) = id /\
    pl_State p = StateActive /\ accepted r p.
Proof.
  intros Hok [Hst Hl]%list_elem_of_filter. unfold PluginRegistry_List in Hl.
  apply list_elem_of_fmap in Hl as ([id l'] & -> & Hm%elem_of_map_to_list). cbn in Hst |- *.
  pose proof (po_entry r Hok id l' Hm) as (p & Hp & Hid & Hv). unfold has_state in Hst. rewrite Hp in Hst.
  injection Hst as Hst. exists id, p. split_and!; [done|done|done|done|]. destruct Hv as [[Hr _]|[_ Hv]]; [|done]. by rewrite Hst in Hr.
Qed.

Lemma active_nodup r : plugins_ok r -> NoDup (PluginRegistry_ActivePlugins r).
Proof.
  intros Hok. apply NoDup_filter. unfold PluginRegistry_List. apply NoDup_fmap_2_strong; [|apply NoDup_map_to_list].
  intros [id l] [id' l'] H%elem_of_map_to_list H'%elem_of_map_to_list E. cbn in E. subst l'.
  pose proof (po_entry r Hok _ _ H) as (p & Hp & <- & _). pose proof (po_entry r Hok _ _ H') as (p' & Hp' & <- & _). congruence.
Qed.

Lemma begin_steps r : plugins_ok r -> steps_ok r (PluginRegistry_Shutdown_begin r).2.
Proof.
  intros Hok. unfold PluginRegistry_Shutdown_begin. cbn. set (ls := PluginRegistry_ActivePlugins r).
  destruct (decide (ls = [])) as [->|Hne]; [split; [done|reflexivity]|].
  destruct (upd_plugins_rest ls (set_pl_State StateDraining) r) as (Em & Eu & Es & Ec).
  set (r1 := upd_plugins ls (set_pl_State StateDraining) r) in *.
  assert (Hls : all_accepted r ls) by (intros l (id & p & _ & Hp & _ & _ & Hv)%active_entry; [by exists p|done]).
  assert (Hsl : forall k i, slot (set_pr_shutdowns (pr_shutdowns r1 ++ [mkShutdown ((fun l => (l, Spawned)) <$> ls) false]) r1) k i =
    if decide (k = length (pr_shutdowns r)) then (fun l => (l, Spawned)) <$> ls !! i else slot r k i).
  { intros. rewrite slot_begin, Es. case_decide; [done|]. by apply slot_eq. }
  assert (Hov : forall k, over (set_pr_shutdowns (pr_shutdowns r1 ++ [mkShutdown ((fun l => (l, Spawned)) <$> ls) false]) r1) k = over r k).
  { intros. rewrite over_begin. by apply over_eq. }
  assert (Hold : forall k i l g, slot r k i = Some (l, g) -> k <> length (pr_shutdowns r) /\ l ∉ ls).
  { intros k i l g H. split.
    - intros ->. unfold slot in H. by rewrite lookup_ge_None_2 in H by lia.
    - intros (id & p & _ & Hp & _ & Ha & _)%active_entry; [|done]. pose proof (po_slot r Hok _ _ _ _ H) as (p' & Hp' & _ & _ & Hst).
      assert (p' = p) as -> by congruence. rewrite Ha in Hst. by destruct (over r k). }
  assert (Hcase : forall k i l g, (if decide (k = length (pr_shutdowns r)) then (fun l => (l, Spawned)) <$> ls !! i else slot r k i) = Some (l, g) ->
    k = length (pr_shutdowns r) /\ g = Spawned /\ ls !! i = Some l \/ slot r k i = Some (l, g) /\ k <> length (pr_shutdowns r) /\ l ∉ ls).
  { intros k i l g. case_decide as Hk; intros H; [left|right; split; [done|by eapply Hold]].
    destruct (ls !! i) as [l'|]; [|done]. by injection H as <- <-. }
  split; [constructor|apply (upd_plugins_go r _ ls StateDraining)]; cbn [pr_heap pr_plugins pr_supported pr_calls set_pr_shutdowns].
  - rewrite Em. intros id l Hl. unfold entry_ok, accepted. cbn. by apply upd_plugins_entry.
  - intros k i l g. rewrite Hsl, Hov, Em. unfold accepted. cbn. rewrite Eu. unfold r1. rewrite lookup_upd_plugins.
    intros [(-> & -> & Hi)|(Hs & _ & Hl)]%Hcase.
    + apply list_elem_of_lookup_2 in Hi. pose proof (active_entry r l Hok Hi) as (id & p & Hm & Hp & <- & _ & Hv). rewrite Hp.
      eexists. split; [done|]. rewrite decide_True by done. cbn. split_and!; [done|by eexists|].
      unfold over. by rewrite lookup_ge_None_2 by lia.
    + pose proof (po_slot r Hok _ _ _ _ Hs) as (p & Hp & H). rewrite Hp, decide_False by done. by exists p.
  - intros k1 i1 g1 k2 i2 g2 l. rewrite !Hsl. intros [(-> & -> & H1)|(H1 & _ & Hl1)]%Hcase [(-> & -> & H2)|(H2 & _ & Hl2)]%Hcase.
    + split; [done|]. eapply NoDup_lookup; [by apply (active_nodup r Hok)|exact H1|exact H2].
    + by apply list_elem_of_lookup_2 in H1.
    + by apply list_elem_of_lookup_2 in H2.
    + by eapply (po_unique r Hok).
  - rewrite Ec. apply (po_calls r Hok).
  - rewrite Ec. intros l (k & i & g & Hs & Hg)%(po_called r Hok). exists k, i, g. rewrite Hsl, decide_False by by eapply Hold. done.
  - intros k i l g p. rewrite Hsl, Ec. intros [(_ & -> & _)|(Hs & _)]%Hcase Hg (q & Hq & <-)%upd_plugins_drain; [done|].
    by eapply (po_gone r Hok).
  - done.
  - done.
  - cbn. rewrite length_app, Es. lia.
  - intros k i Hk. by rewrite Hsl, decide_False by lia.
  - intros k. by rewrite Hov.
Qed.

Lemma plugin_op_steps o r : plugins_ok r -> steps_ok r (run_plugin_op o r).2.
Proof.
  intros Hok. destruct o as [p|l|d| |k i|k t]; cbn [run_plugin_op].
  - exact (new_plugin_ok r p (pr_env r) Hok).
  - pose proof (Register_steps l r Hok) as H. unfold wp, bind in *. by destruct (PluginRegistry_Register l r).
  - split; [by destruct Hok; constructor|]. constructor; [intros ? q Hq; by exists q|intros ??? g Hs; by exists g|intros ??? g _ Hs; by exists g|done..].
  - by apply begin_steps.
  - by apply drain_steps.
  - by apply end_steps.
Qed.

Lemma plugins_steps ops r : plugins_ok r -> steps_ok r (run_plugins ops r).2.
Proof.
  revert r. induction ops as [|o ops IH]; intros r Hok; [split; [done|reflexivity]|]. cbn. unfold bind.
  pose proof (plugin_op_steps o r Hok) as H. destruct (run_plugin_op o r) as [[] r1]. cbn in H.
  eapply steps_ok_trans; [exact H|]. apply IH, H.
Qed.

Lemma NewPluginRegistry_ok supported e : plugins_ok (NewPluginRegistry supported e).
Proof. constructor; [done|done|done|constructor| |done]. intros l H. by apply not_elem_of_nil in H. Qed.

(** ** Safety *)


(** ** A shutdown *)

(** The two steps of each of [n] goroutines of shutdown [k], in turn. *)
Definition drain_all (k n : nat) : list plugin_op := flat_map (fun i => [PDrain k i; PDrain k i]) (seq 0 n).

Lemma drain_twice r k i l g : plugins_ok r -> slot r k i = Some (l, g) ->
  let r' := (run_plugins [PDrain k i; PDrain k i] r).2 in
  slot r' k i = Some (l, Gone) /\ forall k' i', ~ (k' = k /\ i' = i) -> slot r' k' i' = slot r k' i'.
Proof.
  intros Hok Hs. cbn -[drain_step]. unfold bind, ret. rewrite (surjective_pairing (drain_step k i r)). cbn [fst snd].
  rewrite (surjective_pairing (drain_step k i _)). cbn [fst snd].
  assert (Hone : forall r g, slot r k i = Some (l, g) -> is_Some (pr_heap r !! l) ->
    (exists g', slot (drain_step k i r).2 k i = Some (l, g') /\ match g with Spawned => g' <> Spawned | _ => g' = Gone end) /\
    forall k' i', ~ (k' = k /\ i' = i) -> slot (drain_step k i r).2 k' i' = slot r k' i').
  { clear. intros r g Hs [p Hp]. unfold drain_step. cbn. fold (slot r k i). rewrite Hs, Hp.
    assert (Hset : forall g' r0, pr_shutdowns r0 = pr_shutdowns r ->
      slot (upd_shutdown k (set_drainer i g') r0) k i = Some (l, g') /\
      forall k' i', ~ (k' = k /\ i' = i) -> slot (upd_shutdown k (set_drainer i g') r0) k' i' = slot r k' i').
    { intros g' r0 E. split; [|intros k' i' Hne]; rewrite slot_set_drainer, (slot_eq r r0) by done.
      - rewrite Hs. cbn. by rewrite decide_True.
      - destruct (slot r k' i') as [[]|]; [cbn; by rewrite decide_False|done]. }
    destruct g; [destruct (pl_Drain p)| |]; [destruct (Hset InDrain (add_call l r) eq_refl)|
      destruct (Hset Gone r eq_refl)|destruct (Hset Gone r eq_refl)|]; eauto. }
  assert (Hh : is_Some (pr_heap r !! l)) by (destruct (po_slot r Hok _ _ _ _ Hs) as (p & Hp & _); by exists p).
  destruct (Hone r g Hs Hh) as [(g1 & H1 & Hg1) Ho1]. pose proof (drain_steps k i r Hok) as [Hok1 _].
  assert (Hh1 : is_Some (pr_heap (drain_step k i r).2 !! l)) by (destruct (po_slot _ Hok1 _ _ _ _ H1) as (p & Hp & _); by exists p).
  destruct (Hone _ g1 H1 Hh1) as [(g2 & H2 & Hg2) Ho2]. split.
  - rewrite H2. destruct g, g1; congruence.
  - intros k' i' Hne. rewrite Ho2, Ho1; done.
Qed.

Lemma run_plugins_app l1 l2 r : run_plugins (l1 ++ l2) r = run_plugins l2 (run_plugins l1 r).2.
Proof.
  revert r. induction l1 as [|o l1 IH]; intros r; [done|]. cbn. unfold bind. destruct (run_plugin_op o r) as [[] r']. apply IH.
Qed.

Lemma drain_all_gone r k n : plugins_ok r -> (forall i, (i < n)%nat -> is_Some (slot r k i)) ->
  let r' := (run_plugins (drain_all k n) r).2 in steps_ok r r' /\ forall i l g, (i < n)%nat -> slot r k i = Some (l, g) -> slot r' k i = Some (l, Gone).
Proof.
  intros Hok Hn. cbn zeta. split; [by apply plugins_steps|]. unfold drain_all.
  assert (Hm : forall m j r0, plugins_ok r0 -> (j + m <= n)%nat -> (forall i l g, slot r k i = Some (l, g) ->
      exists g', slot r0 k i = Some (l, g') /\ ((i < j)%nat -> g' = Gone)) ->
    forall i l g, (i < j + m)%nat -> slot r k i = Some (l, g) ->
      slot (run_plugins (flat_map (fun i => [PDrain k i; PDrain k i]) (seq j m)) r0).2 k i = Some (l, Gone)).
  { induction m as [|m IH]; intros j r0 Hok0 Hj H0 i l g Hi Hs.
    - cbn. destruct (H0 i l g Hs) as (g' & -> & Hg). by rewrite Hg by lia.
    - change (flat_map _ (seq j (S m))) with ([PDrain k j; PDrain k j] ++ flat_map (fun i => [PDrain k i; PDrain k i]) (seq (S j) m)).
      rewrite run_plugins_app.
      destruct (Hn j) as [[lj gj] Hsj]; [lia|]. destruct (H0 _ _ _ Hsj) as (gj' & Hsj' & _).
      destruct (drain_twice r0 k j lj gj' Hok0 Hsj') as [Ha Hb].
      apply (IH (S j) _ (proj1 (plugins_steps [PDrain k j; PDrain k j] r0 Hok0))) with (g := g); [lia| |lia|done].
      intros i1 l1 g1 H1. destruct (decide (i1 = j)) as [->|Hne].
      + assert (l1 = lj) as -> by congruence. by exists Gone.
      + destruct (H0 _ _ _ H1) as (g' & Hg' & Hlt). exists g'. rewrite Hb by tauto. split; [done|].
        intros Hi1. apply Hlt. lia. }
  intros i l g Hi Hs. apply (Hm n 0%nat r Hok) with (g := g); [lia| |lia|done]. intros i1 l1 g1 H1. exists g1. split; [done|lia].
Qed.

Lemma end_over k t r : plugins_ok r -> is_Some (pr_shutdowns r !! k) ->
  (t = true \/ forall i l g, slot r k i = Some (l, g) -> g = Gone) -> over (PluginRegistry_Shutdown_end k t r).2 k = true.
Proof.
  intros Hok [s Hs] Ht. unfold PluginRegistry_Shutdown_end. cbn. rewrite Hs.
  assert (E : t || bool_decide (Forall (fun lg => lg.2 = Gone) (sd_active s)) = true).
  { destruct Ht as [->|Hg]; [done|]. rewrite bool_decide_eq_true_2; [by destruct t|]. apply Forall_lookup. intros i [l g] Hi.
    apply (Hg i l g). unfold slot. by rewrite Hs. }
  rewrite E, andb_true_r. destruct (sd_over s) eqn:Eo; cbn.
  - unfold over. by rewrite Hs.
  - rewrite over_finish; [by rewrite decide_True|]. destruct (upd_plugins_rest (sd_active s).*1 (set_pl_State StateStopped) r) as (_ & _ & -> & _).
    by exists s.
Qed.

(** C33: A shutdown marks the active plugins draining, and its own plugins stopped when
    it ends, whatever else happens meanwhile; until then they stay draining, and
    stopped plugins stay stopped.  It ends at any point when its time is up, and
    without that after at most two steps of each drain goroutine; then every
    plugin that has a drain function was asked to drain. *)
Theorem shutdown_stops r ops : plugins_ok r -> PluginRegistry_ActivePlugins r <> [] ->
  let k := length (pr_shutdowns r) in
  let active := PluginRegistry_ActivePlugins r in
  let r1 := (run_plugins ops (PluginRegistry_Shutdown_begin r).2).2 in
  (forall l, l ∈ active -> has_state (if over r1 k then StateStopped else StateDraining) r1 l) /\
  over (PluginRegistry_Shutdown_end k true r1).2 k = true /\
  let r2 := (PluginRegistry_Shutdown_end k false (run_plugins (drain_all k (length active)) r1).2).2 in
  over r2 k = true /\
  forall l p, l ∈ active -> pr_heap r !! l = Some p -> pl_Drain p = true -> l ∈ pr_calls r2.
Proof.
  intros Hok Hne. cbn zeta. set (k := length (pr_shutdowns r)). set (ls := PluginRegistry_ActivePlugins r) in *.
  set (rb := (PluginRegistry_Shutdown_begin r).2). set (r1 := (run_plugins ops rb).2).
  destruct (begin_steps r Hok) as [Hokb Hgob]. fold rb in Hokb, Hgob. destruct (plugins_steps ops rb Hokb) as [Hok1 Hgo1]. fold r1 in Hok1, Hgo1.
  assert (Hb : forall i, slot rb k i = (fun l => (l, Spawned)) <$> ls !! i).
  { intros i. unfold rb, PluginRegistry_Shutdown_begin. cbn. fold ls. rewrite decide_False by done. rewrite slot_begin.
    destruct (upd_plugins_rest ls (set_pl_State StateDraining) r) as (_ & _ & -> & _). by rewrite decide_True. }
  assert (H1 : forall i l, ls !! i = Some l -> exists g, slot r1 k i = Some (l, g)).
  { intros i l Hi. apply (go_slot _ _ Hgo1 k i l Spawned). by rewrite Hb, Hi. }
  assert (Hk : is_Some (pr_shutdowns r1 !! k)).
  { destruct ls as [|l ls'] eqn:El; [done|]. destruct (H1 0%nat l eq_refl) as [g Hg]. unfold slot in Hg. by destruct (_ !! k). }
  split; [|split].
  - intros l [i Hi]%list_elem_of_lookup_1. destruct (H1 i l Hi) as [g Hg].
    pose proof (po_slot r1 Hok1 _ _ _ _ Hg) as (p & Hp & _ & _ & Hst). unfold has_state. rewrite Hp. cbn. by rewrite Hst.
  - apply end_over; auto.
  - set (rd := (run_plugins (drain_all k (length ls)) r1).2).
    destruct (drain_all_gone r1 k (length ls) Hok1) as [[Hokd Hgod] Hall].
    { intros i Hi%lookup_lt_is_Some_2. destruct Hi as [l Hl]. destruct (H1 i l Hl) as [g Hg]. by eexists. }
    fold rd in Hokd, Hgod, Hall.
    assert (Hkd : is_Some (pr_shutdowns rd !! k)).
    { destruct ls as [|l ls'] eqn:El; [done|]. destruct (H1 0%nat l eq_refl) as [g Hg]. destruct (go_slot _ _ Hgod _ _ _ _ Hg) as [g' Hg'].
      unfold slot in Hg'. by destruct (pr_shutdowns rd !! k). }
    assert (Hgone : forall i l g, slot rd k i = Some (l, g) -> g = Gone).
    { intros i l g Hi. destruct (decide (i < length ls)%nat) as [Hlt|Hge].
      - apply lookup_lt_is_Some_2 in Hlt as Hl. destruct Hl as [l' Hl']. destruct (H1 i l' Hl') as [g' Hg'].
        pose proof (Hall i l' g' Hlt Hg'). congruence.
      - destruct (go_back _ _ Hgod k i l g) as [g1 Hg1]; [by apply lookup_lt_is_Some_1|done|].
        destruct (go_back _ _ Hgo1 k i l g1) as [g2 Hg2]; [|done|].
        + apply lookup_lt_is_Some_1. destruct ls as [|l0 ls'] eqn:El; [done|]. specialize (Hb 0%nat). unfold slot in Hb.
          by destruct (pr_shutdowns rb !! k).
        + rewrite Hb, lookup_ge_None_2 in Hg2 by lia. done. }
    split; [by apply end_over; auto|]. intros l p [i Hi]%list_elem_of_lookup_1 Hp Hd.
    assert (Hld : (i < length ls)%nat) by by apply lookup_lt_Some in Hi.
    destruct (H1 i l Hi) as [g Hg]. pose proof (Hall i l g Hld Hg) as Hs.
    assert (Hc : l ∈ pr_calls rd).
    { assert (Hgo : goes_on r rd) by (do 2 (etransitivity; [eassumption|]); done).
      destruct (go_heap _ _ Hgo l p Hp) as (p' & Hp' & _ & Hd'). eapply (po_gone rd Hokd); [exact Hs|done|exact Hp'|congruence]. }
    unfold PluginRegistry_Shutdown_end. cbn. destruct (pr_shutdowns rd !! k); [|done]. case_match; [|done]. cbn.
    by destruct (upd_plugins_rest (sd_active s).*1 (set_pl_State StateStopped) rd) as (_ & _ & _ & ->).
Qed.

(** ** Concrete runs *)

Definition demo_manifest (name : string) : Manifest := mkManifest "acme" name "1.0" 1 1 ["streaming"] false.
Definition demo_plugin (name : string) : Plugin := mkPlugin (demo_manifest name) 0 "" true.

Definition demo_plugins : PluginRegistry :=
  (run_plugins [PNew (demo_plugin "Acme"); PRegister 0] (NewPluginRegistry 1 steady_env)).2.

Lemma shutdown_stops_witness :
  let r1 := (run_plugins [PNew (demo_plugin "Other"); PRegister 1] (PluginRegistry_Shutdown_begin demo_plugins).2).2 in
  PluginRegistry_ActivePlugins demo_plugins = [0%nat] /\
  (forall l, l ∈ [0%nat] -> has_state (if over r1 0 then StateStopped else StateDraining) r1 l) /\
  over (PluginRegistry_Shutdown_end 0 true r1).2 0 = true.
Proof.
  assert (Hok : plugins_ok demo_plugins) by apply (plugins_steps _ _ (NewPluginRegistry_ok 1 steady_env)).
  assert (E : PluginRegistry_ActivePlugins demo_plugins = [0%nat]) by (vm_compute; reflexivity).
  pose proof (shutdown_stops demo_plugins [PNew (demo_plugin "Other"); PRegister 1] Hok) as H. rewrite E in H.
  destruct (H ltac:(done)) as (H1 & H2 & _). split; [done|]. split; [exact H1|exact H2].
Defined.

(** A manifest that is refused takes the place of an active plugin with its id: the
    plugin is not found any more, and a shutdown neither drains nor stops it. *)
Example refused_manifest_evicts :
  let r := (run_plugins [PNew (demo_plugin ""); PRegister 1; PShutdown] demo_plugins).2 in
  (pl_State <$> pr_heap r !! 0%nat, PluginRegistry_Get "acme" r, PluginRegistry_ActivePlugins r, pr_shutdowns r) =
  (Some StateActive, Some 2%nat, [], []).
Proof. vm_compute. reflexivity. Qed.

(** After a manifest was refused its id is taken: the corrected plugin cannot be
    registered. *)
Example corrected_plugin_refused :
  (PluginRegistry_Register 1
     (run_plugins [PNew (demo_plugin ""); PNew (demo_plugin "Acme"); PRegister 0] (NewPluginRegistry 1 steady_env)).2).1 =
  Some (ErrNew "plugin acme already registered").
Proof. vm_compute. reflexivity. Qed.
