(* ===== verification/Sdk.v ===== *)
(** * The adapter SDK (src/sdk/sdk.go)

    The types of a plugin adapter, the validation of its manifest and the test of
    its compatibility.  For the one protocol version this build speaks, the
    registry of plugins accepts a manifest exactly if the SDK does. *)

From S2P Require Import Prelude Env Json Plugin.

Definition SDKVersion : string := "1.0.0".
Record SDKProtocolRange := mkSDKProtocolRange { rg_Min : Z; rg_Max : Z }.
Definition SupportedProtocolRange : SDKProtocolRange := mkSDKProtocolRange 1 1.

Record sdk_Manifest := mk_sdk_Manifest {
  sm_PluginID : string; sm_Name : string; sm_Version : string; sm_SDKRange : SDKProtocolRange;
  sm_AgentType : string; sm_Capabilities : list string; sm_RequiresSecret : bool }.

(** Maps are lists, in the order in which they are iterated. *)
Record StartConfig := mkStartConfig {
  stc_SessionID : string; stc_WorkspacePath : string; stc_InitialPrompt : string; stc_Args : list string;
  stc_Env : list (string * string); stc_Secrets : list (string * string) }.
Record sdk_RunHandle := mk_sdk_RunHandle { sh_ID : string; sh_SessionID : string; sh_PID : Z }.
Record sdk_Accepted := mk_sdk_Accepted { sa_Accepted : bool; sa_Message : string }.
Record sdk_Signal := mk_sdk_Signal { sg_Type : string; sg_Payload : json; sg_Timestamp : Z }.
Record sdk_ValidationResult := mk_sdk_ValidationResult {
  sv_Valid : bool; sv_Errors : list string; sv_Warnings : list string }.
Record sdk_RecoveryResult := mk_sdk_RecoveryResult { rcv_CanRecover : bool; rcv_State : string; rcv_Error : string }.

Definition IsCompatible (m : sdk_Manifest) (supported : SDKProtocolRange) : bool :=
  negb (bool_decide (rg_Max supported < rg_Min (sm_SDKRange m) \/ rg_Max (sm_SDKRange m) < rg_Min supported)%Z).

Definition ValidateManifest (m : sdk_Manifest) : string :=
  if decide (sm_PluginID m = "") then "plugin_id is required"
  else if decide (sm_Name m = "") then "name is required"
  else if decide (sm_Version m = "") then "version is required"
  else if decide (rg_Min (sm_SDKRange m) <= 0)%Z then "sdk min must be positive"
  else if decide (rg_Max (sm_SDKRange m) < rg_Min (sm_SDKRange m))%Z then "sdk max < min"
  else if decide (sm_AgentType m = "") then "agent_type is required"
  else "".

(** What the registry of plugins is told of an SDK manifest. *)
Definition registers (m : sdk_Manifest) (p : Manifest) : Prop :=
  mf_ID p = sm_PluginID m /\ mf_Name p = sm_Name m /\ mf_Version p = sm_Version m /\
  mf_MinProtocol p = rg_Min (sm_SDKRange m) /\ mf_MaxProtocol p = rg_Max (sm_SDKRange m).

(** For the protocol version this build speaks, a manifest with an agent type is
    accepted by the registry of plugins exactly if the SDK finds it valid and
    compatible. *)
Theorem registry_accepts_sdk m p : registers m p -> sm_AgentType m <> "" ->
  PluginRegistry_Validate (rg_Max SupportedProtocolRange) p = None <->
  ValidateManifest m = "" /\ IsCompatible m SupportedProtocolRange = true.
Proof.
  intros (E1 & E2 & E3 & E4 & E5) Ha. unfold PluginRegistry_Validate, ValidateManifest, IsCompatible.
  rewrite E1, E2, E3, E4, E5. cbn [rg_Max rg_Min SupportedProtocolRange]. rewrite negb_true_iff, bool_decide_eq_false.
  repeat case_decide; split; try done; try (intros [? ?]; done || lia); intros _; split; done || lia.
Qed.
