(* ===== verification/OutputParser.v ===== *)
(** * The output parser (src/internal/adapter/claude_parser.go)

    From the agent's output to events: stream-json lines first, then the
    patterns, then plain output.  Lines are parsed alone ([ParseLine]), from a
    whole stream ([ParseStream]) and from buffers that end in the middle of a
    line ([ParseBuffer]). *)

From S2P Require Import Prelude Env Json GoStrings JsonText Regex Domain Adapter.

(** ** Data *)

(** The payloads of events; [PJson] is what a JSON line carries, any value. *)
Inductive EventPayload : Type :=
  | POutput (p : OutputPayload)
  | PApproval (p : ApprovalRequestPayload)
  | PError (p : ErrorPayload)
  | PDiagnostic (p : DiagnosticPayload)
  | PCompletion (p : CompletionPayload)
  | PJson (v : json).

Record ParsedEvent := mkParsedEvent { pe_Type : string; pe_Payload : EventPayload }.

Record Pattern := mkPattern {
  pat_Name : string;
  pat_Regex : regex;
  pat_Handler : list bytes -> result ParsedEvent
}.

Record OutputParser := mkOutputParser {
  op_compatibilityDegraded : bool;
  op_knownPatterns : list Pattern
}.

Definition stdout_event (content : string) : ParsedEvent :=
  mkParsedEvent SignalOutput (POutput (mkOutputPayload content "stdout")).

(** ** The patterns *)

Definition insufficient : error := ErrNew "insufficient match groups".

(** [[:\s]+] *)
Definition separators : regex := RPlus (RSet (fun c => is_re_space c || (byte_of c =? 58)%Z)).

Definition approval_regex : regex :=
  RSeq [RWord "approval"; RPlus RSpace;
        RAny [RWord "required"; RWord "requested"; RWord "needed"]; separators;
        RGroup (RPlus RDot)].
Definition approval_handler (m : list bytes) : result ParsedEvent :=
  match m with
  | _ :: context :: _ =>
      Ok (mkParsedEvent SignalApprovalRequest
            (PApproval (mkApprovalRequestPayload "" "" "" (text context) None 0)))
  | _ => Err insufficient
  end.

Definition is_quote (c : Ascii.ascii) : bool := (byte_of c =? 34)%Z || (byte_of c =? 39)%Z.
Definition tool_regex : regex :=
  RSeq [RAny [RWord "executing"; RWord "running"]; RPlus RSpace;
        RAny [RWord "command"; RWord "tool"]; separators; ROpt (RSet is_quote);
        RGroup (RPlus (RSet (fun c => negb (is_quote c || (byte_of c =? 10)%Z))));
        ROpt (RSet is_quote)].
Definition tool_handler (m : list bytes) : result ParsedEvent :=
  match m with
  | _ :: command :: _ => Ok (stdout_event ("Executing: " +:+ text command))
  | _ => Err insufficient
  end.

Definition error_regex : regex :=
  RSeq [RBegin; RWord "error"; separators; RGroup (RPlus RDot); REnd].
Definition error_handler (m : list bytes) : result ParsedEvent :=
  match m with
  | _ :: message :: _ =>
      Ok (mkParsedEvent SignalError (PError (mkErrorPayload "" (text message) "")))
  | _ => Err insufficient
  end.

Definition json_regex : regex :=
  RSeq [RBegin; RStar RSpace; RGroup (RSeq [RByte 123; RStar RDot; RByte 125]); RStar RSpace; REnd].

(** [struct { Type string; Payload any }] *)
Definition decode_json_event : RawMessage -> result (string * json) :=
  unmarshal_struct "" (fun k v e =>
    if names k "type" then set_field (fun x => (x, e.2)) (assign_string "type" v e.1)
    else if names k "payload" then Ok (e.1, decode_any v)
    else Ok e) ("", JNull).

Definition json_handler (m : list bytes) : result ParsedEvent :=
  match m with
  | _ :: object :: _ =>
      match decode_json_event (json_raw (text object)) with
      | Err e => Err (wrap "parsing JSON event" e)
      | Ok (typ, payload) =>
          let signalType :=
            if decide (typ = "approval") then SignalApprovalRequest
            else if decide (typ = "error") then SignalError
            else if decide (typ = "completion") then SignalCompletion
            else SignalOutput in
          Ok (mkParsedEvent signalType (PJson payload))
      end
  | _ => Err insufficient
  end.

Definition registerDefaultPatterns : list Pattern :=
  [mkPattern "approval_request" approval_regex approval_handler;
   mkPattern "tool_execution" tool_regex tool_handler;
   mkPattern "error" error_regex error_handler;
   mkPattern "json_event" json_regex json_handler].

Definition NewOutputParser : OutputParser := mkOutputParser false registerDefaultPatterns.

Definition SetCompatibilityDegraded (degraded : bool) (p : OutputParser) : OutputParser :=
  mkOutputParser degraded (op_knownPatterns p).
Definition IsCompatibilityDegraded (p : OutputParser) : bool := op_compatibilityDegraded p.
Definition ShouldEmitRaw (p : OutputParser) : bool := negb (op_compatibilityDegraded p).

(** ** stream-json lines *)

Record StreamLine := mkStreamLine {
  sl_Type : string; sl_Subtype : string; sl_Result : string;
  sl_Message : RawMessage; sl_Event : RawMessage }.

Definition decode_StreamLine : RawMessage -> result StreamLine :=
  unmarshal_struct "" (fun k v l =>
    let '(mkStreamLine t s r m e) := l in
    if names k "type" then set_field (fun x => mkStreamLine x s r m e) (assign_string "type" v t)
    else if names k "subtype"
    then set_field (fun x => mkStreamLine t x r m e) (assign_string "subtype" v s)
    else if names k "result"
    then set_field (fun x => mkStreamLine t s x m e) (assign_string "result" v r)
    else if names k "message" then Ok (mkStreamLine t s r (RawJSON v) e)
    else if names k "event" then Ok (mkStreamLine t s r m (RawJSON v))
    else Ok l) (mkStreamLine "" "" "" RawEmpty RawEmpty).

(** A struct inside a struct: null leaves it as it was. *)
Definition assign_struct {A} (name : string) (assign : string -> json -> A -> result A)
    (v : json) (old : A) : result A :=
  match v with
  | JNull => Ok old
  | JObj p => unmarshal_members assign p old None
  | _ => Err (type_error v name "struct")
  end.

(** A slice of structs: element [i] is decoded over the old element [i]. *)
Fixpoint assign_elems {A} (name : string) (assign : string -> json -> A -> result A) (zero : A)
    (l : list json) (old : list A) : result (list A) :=
  match l with
  | [] => Ok []
  | v :: l' =>
      match assign_struct name assign v (default zero (head old)),
            assign_elems name assign zero l' (tail old) with
      | Ok a, Ok r => Ok (a :: r)
      | Err e, _ | Ok _, Err e => Err e
      end
  end.
Definition assign_slice {A} (name : string) (assign : string -> json -> A -> result A) (zero : A)
    (v : json) (old : list A) : result (list A) :=
  match v with
  | JNull => Ok []
  | JArr l => assign_elems name assign zero l old
  | _ => Err (type_error v name "[]struct")
  end.

Record ContentBlock := mkContentBlock { cb_Type : string; cb_Text : string; cb_Name : string }.

Definition assign_block (k : string) (v : json) (b : ContentBlock) : result ContentBlock :=
  let '(mkContentBlock t x n) := b in
  if names k "type" then set_field (fun y => mkContentBlock y x n) (assign_string "type" v t)
  else if names k "text" then set_field (fun y => mkContentBlock t y n) (assign_string "text" v x)
  else if names k "name" then set_field (mkContentBlock t x) (assign_string "name" v n)
  else Ok b.

Definition decode_message : RawMessage -> result (list ContentBlock) :=
  unmarshal_struct "" (fun k v l =>
    if names k "content" then assign_slice "content" assign_block (mkContentBlock "" "" "") v l
    else Ok l) [].

Record StreamEvent := mkStreamEvent { se_Type : string; se_DeltaType : string; se_DeltaText : string }.

Definition decode_StreamEvent : RawMessage -> result StreamEvent :=
  unmarshal_struct "" (fun k v e =>
    let '(mkStreamEvent t dt dx) := e in
    if names k "type" then set_field (fun x => mkStreamEvent x dt dx) (assign_string "type" v t)
    else if names k "delta" then
      set_field (fun d : string * string => mkStreamEvent t d.1 d.2)
        (assign_struct "delta" (fun k v (d : string * string) =>
           if names k "type" then set_field (fun x => (x, d.2)) (assign_string "type" v d.1)
           else if names k "text" then set_field (fun x => (d.1, x)) (assign_string "text" v d.2)
           else Ok d) v (dt, dx))
    else Ok e) (mkStreamEvent "" "" "").

(** The switch on the type of a decoded line: [None] is an unknown type,
    [Some None] an event that is recognized and suppressed. *)
Definition stream_event (raw : StreamLine) : option (option ParsedEvent) :=
  if decide (sl_Type raw = "system") then Some None
  else if decide (sl_Type raw = "user") then Some None
  else if decide (sl_Type raw = "result") then
    if decide (sl_Result raw <> "") then Some (Some (stdout_event (sl_Result raw)))
    else Some None
  else if decide (sl_Type raw = "assistant") then
    match decode_message (sl_Message raw) with
    | Err _ => Some None
    | Ok content =>
        let texts := map cb_Text (filter (fun b => cb_Type b = "text") content) in
        let joined := String.concat "" texts in
        if decide (joined <> "") then Some (Some (stdout_event joined))
        else
          match filter (fun b => cb_Type b = "tool_use") content with
          | b :: _ => Some (Some (mkParsedEvent SignalDiagnostic
              (PDiagnostic (mkDiagnosticPayload "info" ("tool_use: " +:+ cb_Name b)))))
          | [] => Some None
          end
    end
  else if decide (sl_Type raw = "stream_event") then
    match decode_StreamEvent (sl_Event raw) with
    | Err _ => Some None
    | Ok ev =>
        if decide (se_DeltaType ev = "text_delta" /\ se_DeltaText ev <> "")
        then Some (Some (stdout_event (se_DeltaText ev)))
        else Some None
    end
  else None.

Definition parseStreamJSONLine (line : string) : option (option ParsedEvent) :=
  let trimmed := strings_TrimSpace line in
  match chars trimmed with
  | [] => None
  | c :: _ =>
      if negb (byte_of c =? 123)%Z then None
      else match decode_StreamLine (json_raw trimmed) with
           | Err _ => None
           | Ok raw => stream_event raw
           end
  end.

(** ** Lines and streams *)

(** The first pattern that matches and whose handler accepts the match. *)
Fixpoint first_pattern (patterns : list Pattern) (line : bytes) : option ParsedEvent :=
  match patterns with
  | [] => None
  | p :: ps =>
      match FindStringSubmatch (pat_Regex p) line with
      | Some m => match pat_Handler p m with Ok ev => Some ev | Err _ => first_pattern ps line end
      | None => first_pattern ps line
      end
  end.

Definition ParseLine (p : OutputParser) (line : string) : option ParsedEvent :=
  let line := strings_TrimSpace line in
  if decide (line = "") then None
  else
    match parseStreamJSONLine line with
    | Some ev => ev
    | None =>
        match first_pattern (op_knownPatterns p) (chars line) with
        | Some ev => Some ev
        | None => Some (stdout_event line)
        end
    end.

Definition MaxScanTokenSize : Z := 65536.

Definition ParseStream (p : OutputParser) (data : bytes) : list ParsedEvent :=
  omap (fun l => ParseLine p (text l)) (scan_lines MaxScanTokenSize (split_byte newline data)).

(** All segments but the last are complete lines. *)
Fixpoint parse_lines (p : OutputParser) (lines : list bytes) : list ParsedEvent :=
  match lines with
  | [] => []
  | l :: ls =>
      let line := text (trim_space l) in
      (if decide (line <> "") then option_list (ParseLine p line) else []) ++ parse_lines p ls
  end.

Definition ParseBuffer (p : OutputParser) (buffer : bytes) (isComplete : bool)
    : list ParsedEvent * bytes :=
  let lines := split_byte newline buffer in
  let events := parse_lines p (take (length lines - 1) lines) in
  match last lines with
  | Some l =>
      if decide (isComplete = false /\ l <> []) then (events, l)
      else if decide (l <> []) then (events ++ option_list (ParseLine p (text l)), [])
      else (events, [])
  | None => (events, [])
  end.

(** ** Recognizers *)

Definition approval_phrases : list string :=
  ["do you want to"; "would you like to"; "should i"; "shall i"; "permission to";
   "approval to"; "may i"].

Definition RecognizeApproval (s : string) : option ApprovalRequestPayload :=
  let s := strings_TrimSpace s in
  (fun ip => mkApprovalRequestPayload "" "command_execution" "execute" s
     (Some [("trigger_phrase", JStr ip.2)]) (5 * Minute))
  <$> list_find (fun phrase => strings_Contains (strings_ToLower s) phrase = true) approval_phrases.

Definition RecognizeStatusChange (s : string) : option StatusChangePayload :=
  let s := strings_TrimSpace s in
  let has := strings_Contains (strings_ToLower s) in
  if has "starting" || has "beginning"
  then Some (mkStatusChangePayload "pending" RunStateStarting "")
  else if has "ready" || has "running"
  then Some (mkStatusChangePayload RunStateStarting RunStateActive "")
  else if has "finished" || has "completed" || has "done"
  then Some (mkStatusChangePayload RunStateActive RunStateCompleted "")
  else if has "failed" || has "error"
  then Some (mkStatusChangePayload RunStateActive RunStateFailed s)
  else None.

Definition IsSignalLine (p : OutputParser) (line : string) : bool :=
  let line := strings_TrimSpace line in
  existsb (fun pattern => MatchString (pat_Regex pattern) (chars line)) (op_knownPatterns p).

(** [fmt.Sscanf(raw, exit code %d, &code)] from 0: white space (no newline)
    for each space of the format, then a decimal int64; a mismatch leaves 0. *)
Fixpoint scanf_skip (fuel : nat) (s : bytes) : bytes :=
  match fuel, s, leading_space s with
  | S f, c :: _, S n => if decide (byte_of c = 10) then s else scanf_skip f (drop (S n) s)
  | _, _, _ => s
  end.
Definition scanf_space (s : bytes) : option bytes :=
  let s' := scanf_skip (length s) s in
  if (length s' <? length s)%nat then Some s' else None.
Definition Sscanf_exit_code (raw : string) : Z :=
  default 0 (
    s1 ← expect (chars "exit") (chars raw); s2 ← scanf_space s1;
    s3 ← expect (chars "code") s2; s4 ← scanf_space s3;
    let '(sign, s5) := match s4 with
                       | c :: s5 => if decide (byte_of c = 45) then (-1, s5)
                                    else if decide (byte_of c = 43) then (1, s5) else (1, s4)
                       | [] => (1, s4)
                       end in
    match scan_digits s5 with
    | ([], _) => None
    | (d, _) => let n := sign * digits_value d in
                if decide (min_int64 <= n <= max_int64) then Some n else None
    end).

Definition NormalizePayload (raw : string) (signalType : string) : result EventPayload :=
  if decide (signalType = SignalOutput) then Ok (POutput (mkOutputPayload raw "stdout"))
  else if decide (signalType = SignalError) then Ok (PError (mkErrorPayload "" raw ""))
  else if decide (signalType = SignalDiagnostic)
  then Ok (PDiagnostic (mkDiagnosticPayload "info" raw))
  else if decide (signalType = SignalCompletion) then
    if strings_Contains raw "exit code"
    then Ok (PCompletion (mkCompletionPayload (Sscanf_exit_code raw) "" 0))
    else Ok (PCompletion (mkCompletionPayload 0 "" 0))
  else Ok (PJson (JObj [("raw", JStr raw)])).

Definition changed_regex (words : list string) : regex :=
  RSeq [RAny (map RWord words); separators;
        RGroup (RPlus (RSet (fun c => negb (byte_of c =? 10)%Z)))].
Definition changed_files (words : list string) (operation : string) (output : string)
    : list ChangedFilePayload :=
  omap (fun m => match m with
                 | _ :: path :: _ =>
                     Some (mkChangedFilePayload (text (trim_space path)) operation "" 0)
                 | _ => None
                 end) (FindAllStringSubmatch (changed_regex words) (chars output)).

Definition ExtractChangedFiles (output : string) : list ChangedFilePayload :=
  changed_files ["modified"; "changed"; "updated"] "modify" output ++
  changed_files ["created"; "added"; "new"] "create" output ++
  changed_files ["deleted"; "removed"] "delete" output.

Definition OutputParser_RedactSecrets (output : string) (secrets : list string) : string :=
  fold_left (fun result secret =>
    if decide (secret <> "" /\ (4 <= String.length secret)%nat)
    then strings_ReplaceAll result secret "[REDACTED]" else result) secrets output.

(** ** The repository's test cases *)

Definition parse := ParseLine NewOutputParser.

Example parse_approval :
  pe_Payload <$> parse "Approval required: execute command 'rm -rf /tmp/test'" =
  Some (PApproval (mkApprovalRequestPayload "" "" "" "execute command 'rm -rf /tmp/test'" None 0)).
Proof. vm_compute. reflexivity. Qed.

Example parse_tool :
  parse "Executing command: 'ls -la' now" = Some (stdout_event "Executing: ls -la").
Proof. vm_compute. reflexivity. Qed.

Example parse_assistant :
  parse (dq "{'type':'assistant','message':{'content':[{'type':'text','text':'hello '},{'type':'text','text':'world'}]}}")
  = Some (stdout_event "hello world").
Proof. vm_compute. reflexivity. Qed.

Example extract_files :
  map (fun f => (cf_Path f, cf_Operation f))
    (ExtractChangedFiles ("Modified: a.go" +:+ text [newline] +:+ "Created: b.go")) =
  [("a.go", "modify"); ("b.go", "create")].
Proof. vm_compute. reflexivity. Qed.

Example exit_code_prefix :
  (Sscanf_exit_code "exit code 3", Sscanf_exit_code "process finished with exit code 3") = (3, 0).
Proof. vm_compute. reflexivity. Qed.

(** ** Buffers *)

Lemma parse_lines_app p l1 l2 : parse_lines p (l1 ++ l2) = parse_lines p l1 ++ parse_lines p l2.
Proof. induction l1 as [|l l1 IH]; cbn; [done|]. by rewrite IH, <- (assoc_L (++)). Qed.

(** What [ParseBuffer] does, from the last line break on. *)
Lemma ParseBuffer_split p b init l complete :
  split_byte newline b = init ++ [l] ->
  ParseBuffer p b complete =
  if complete then
    (parse_lines p init ++ (if decide (l = []) then [] else option_list (ParseLine p (text l))), [])
  else (parse_lines p init, l).
Proof.
  intros E. unfold ParseBuffer. rewrite E, last_snoc, length_app.
  rewrite take_app_length' by (cbn; lia). destruct complete.
  - rewrite decide_False by (by intros [? _]).
    destruct (decide (l = [])) as [->|Hl]; [by rewrite decide_False, app_nil_r by auto|].
    by rewrite decide_True.
  - destruct (decide (l = [])) as [->|Hl].
    + rewrite decide_False by (by intros [_ ?]). by rewrite decide_False by auto.
    + by rewrite decide_True.
Qed.

Lemma split_last b : exists init l, split_byte newline b = init ++ [l] /\ newline ∉ l.
Proof.
  destruct (split_byte newline b) as [|x ls _] eqn:E using rev_ind; [by destruct (split_byte_ne newline b)|].
  exists ls, x. split; [done|]. pose proof (split_byte_free newline b) as H. rewrite E in H.
  apply Forall_app in H as [_ H]. by inversion H.
Qed.

(** Feeding chunks, as a caller does that puts what remains of one before the next. *)
Fixpoint feed (p : OutputParser) (carry : bytes) (chunks : list bytes) : list ParsedEvent :=
  match chunks with
  | [] => (ParseBuffer p carry true).1
  | c :: cs =>
      let '(events, rest) := ParseBuffer p (carry ++ c) false in events ++ feed p rest cs
  end.

(** C35: [ParseBuffer] does not depend on where the output is cut.  However a
    stream of bytes is divided into chunks, a caller that puts what one call
    returns as remaining before the next chunk, and completes the last one,
    gets exactly the events of the whole stream parsed at once. *)
Theorem ParseBuffer_chunking p chunks :
  feed p [] chunks = (ParseBuffer p (concat chunks) true).1.
Proof.
  enough (H : forall carry, newline ∉ carry ->
    feed p carry chunks = (ParseBuffer p (carry ++ concat chunks) true).1)
    by apply H, not_elem_of_nil.
  induction chunks as [|c cs IH]; intros carry Hc; cbn [feed concat].
  { by rewrite app_nil_r. }
  destruct (split_last (carry ++ c)) as (init & l & E & Hl).
  rewrite (ParseBuffer_split p _ init l false E), (IH l Hl), (assoc_L (++)).
  destruct (split_byte_concat newline (carry ++ c) (concat cs))
    as (init' & l' & rest & ls & E1 & E2 & E3).
  rewrite E in E1. apply app_inj_tail in E1 as [<- <-].
  destruct (split_last (l ++ concat cs)) as (init2 & l2 & E4 & _).
  rewrite (ParseBuffer_split p _ _ _ true E4).
  rewrite (ParseBuffer_split p _ (init ++ init2) l2 true).
  - cbn. by rewrite parse_lines_app, <- (assoc_L (++)).
  - rewrite E3, <- (assoc_L (++)). f_equal.
    destruct (split_byte_concat newline l (concat cs)) as (i0 & l0 & r0 & ls0 & F1 & F2 & F3).
    rewrite split_byte_none in F1 by done. apply (app_inj_tail []) in F1 as [<- <-].
    rewrite E2 in F2. injection F2 as <- <-. rewrite E4 in F3. by rewrite F3.
Qed.

(** ** Lines *)

(** A text that is one object has only itself as the JSON submatch. *)
Lemma json_regex_match mid : newline ∉ mid ->
  let s := ascii_of 123 :: mid ++ [ascii_of 125] in
  FindStringSubmatch json_regex s = Some [s; s].
Proof.
  intros Hmid s.
  assert (Hdot : forall l, newline ∉ l ->
    Forall (fun c => negb (byte_of c =? 10)%Z = true) l).
  { intros l Hl. apply Forall_forall. intros c Hc. apply negb_true_iff, Z.eqb_neq. intros E.
    apply Hl. replace newline with c; [done|]. by rewrite <- (ascii_of_byte_of c), E. }
  assert (Hex : matches (length s) json_regex s None []
    (Some (take (length s - length (@nil Ascii.ascii)) s))).
  { unfold json_regex, RSeq. apply m_cat with (s1 := s) (cap1 := None); [by constructor|].
    apply m_cat with (s1 := s) (cap1 := None); [constructor|].
    eapply m_cat with (s1 := []); [|eapply m_cat with (s1 := []); constructor].
    apply (m_group_of _ _ _ _ _ None).
    apply m_cat with (s1 := mid ++ [ascii_of 125]) (cap1 := None); [by apply m_set|].
    apply m_cat with (s1 := [ascii_of 125]) (cap1 := None); [|by apply m_set].
    apply matches_star_set. exists mid. auto. }
  unfold FindStringSubmatch.
  destruct (re_find_complete (length s) json_regex [] s _ _ Hex) as [m E]. cbn [app] in E.
  rewrite E. cbn. apply re_find_sound in E as (l & s1 & Hs & Hm & Ht).
  apply matches_cat in Hm as (x1 & c1 & H1 & Hm). apply matches_begin in H1 as (Hl & -> & ->).
  assert (l = []) as ->.
  { apply (f_equal length) in Hs. rewrite length_app in Hs. destruct l; [done|cbn [length] in Hs; lia]. }
  cbn in Hs. subst s1.
  apply matches_cat in Hm as (x2 & c2 & H2 & Hm). apply matches_star_set in H2 as (ws & Hws & HF & ->).
  destruct ws as [|w ws]; [|injection Hws as <- _; inversion HF; done]. cbn in Hws. subst x2.
  apply matches_cat in Hm as (x3 & c3 & H3 & Hm). apply matches_group in H3 as (c3' & H3 & ->).
  apply matches_cat in Hm as (x4 & c4 & H4 & Hm). apply matches_star_set in H4 as (ws & -> & HF2 & ->).
  apply matches_end in Hm as (-> & Hr & Hg). rewrite app_nil_r in *.
  assert (ws = []) as ->.
  { destruct (matches_suffix _ _ _ _ _ _ H3) as [pre Hp].
    destruct ws as [|w ws _] using rev_ind; [done|]. exfalso.
    change s with ((ascii_of 123 :: mid) ++ [ascii_of 125]) in Hp.
    rewrite (assoc_L (++)) in Hp. apply app_inj_tail in Hp as [_ <-].
    apply Forall_app in HF2 as [_ HF2]. inversion HF2. done. }
  rewrite Ht, Hr, Hg. cbn [length default]. rewrite Nat.sub_0_r, firstn_all. done.
Qed.

Section Object_lines.
Context (p : payload) (Hok : json_ok (JObj p)) (Hd : json_depth (JObj p) <= maxNestingDepth).

Lemma object_trimmed : strings_TrimSpace (json_text (JObj p)) = json_text (JObj p).
Proof using Type.
  destruct (json_obj_shape p) as [mid E]. unfold strings_TrimSpace, json_text. rewrite chars_text.
  f_equal. eapply trim_space_id; [exact E|by rewrite E, app_comm_cons|by vm_compute..].
Qed.

Lemma object_raw : json_raw (json_text (JObj p)) = RawJSON (json_coerce (JObj p)).
Proof using Hd Hok.
  unfold json_raw. rewrite json_parse_text by done. unfold json_text. rewrite chars_text.
  by destruct (json_obj_shape p) as [mid ->].
Qed.

Lemma object_line q : ParseLine q (json_text (JObj p)) =
  match decode_StreamLine (RawJSON (json_coerce (JObj p))) with
  | Ok raw => match stream_event raw with
              | Some ev => ev
              | None => match first_pattern (op_knownPatterns q) (json_bytes (JObj p)) with
                        | Some ev => Some ev
                        | None => Some (stdout_event (json_text (JObj p)))
                        end
              end
  | Err _ => match first_pattern (op_knownPatterns q) (json_bytes (JObj p)) with
             | Some ev => Some ev
             | None => Some (stdout_event (json_text (JObj p)))
             end
  end.
Proof using Hd Hok.
  unfold ParseLine, parseStreamJSONLine. rewrite !object_trimmed, object_raw.
  destruct (json_obj_shape p) as [mid E]. rewrite decide_False.
  - unfold json_text at 1 2. rewrite chars_text, E. cbn [negb]. rewrite Z.eqb_refl. cbn [negb].
    destruct (decode_StreamLine _) as [raw|e]; [|done]. by destruct (stream_event raw).
  - unfold json_text. rewrite E. done.
Qed.

(** As a JSON event. *)
Lemma object_json_handler : FindStringSubmatch json_regex (json_bytes (JObj p)) =
  Some [json_bytes (JObj p); json_bytes (JObj p)].
Proof using Hok.
  destruct (json_obj_shape p) as [mid E]. pose proof (json_bytes_one_line _ Hok) as H.
  rewrite E in *. apply json_regex_match. intros Hm. apply H. rewrite elem_of_cons, elem_of_app. auto.
Qed.
End Object_lines.

(** ** What the agent says *)

Definition block_json (b : ContentBlock) : json :=
  JObj [("type", JStr (cb_Type b)); ("text", JStr (cb_Text b)); ("name", JStr (cb_Name b))].
Definition assistant_message (bs : list ContentBlock) : payload :=
  [("type", JStr "assistant");
   ("message", JObj [("role", JStr "assistant"); ("content", JArr (map block_json bs))])].
Definition block_utf8 (b : ContentBlock) : Prop :=
  utf8_ValidString (cb_Type b) = true /\ utf8_ValidString (cb_Text b) = true /\
  utf8_ValidString (cb_Name b) = true.

Lemma assign_elems_blocks bs :
  assign_elems "content" assign_block (mkContentBlock "" "" "") (map block_json bs) [] = Ok bs.
Proof. induction bs as [|[t x n] bs IH]; [done|]. cbn [map assign_elems tail]. by rewrite IH. Qed.

Lemma decode_assistant bs :
  decode_StreamLine (RawJSON (JObj (assistant_message bs))) =
    Ok (mkStreamLine "assistant" "" "" (RawJSON (JObj [("role", JStr "assistant");
          ("content", JArr (map block_json bs))])) RawEmpty) /\
  decode_message (RawJSON (JObj [("role", JStr "assistant");
          ("content", JArr (map block_json bs))])) = Ok bs.
Proof.
  split; [reflexivity|]. unfold decode_message, unmarshal_struct. cbn [unmarshal_members].
  change (names "role" "content") with false. change (names "content" "content") with true.
  cbn [assign_slice]. by rewrite assign_elems_blocks.
Qed.

Lemma assistant_ok bs : Forall block_utf8 bs ->
  json_ok (JObj (assistant_message bs)) /\ json_depth (JObj (assistant_message bs)) <= 4 /\
  json_utf8 (JObj (assistant_message bs)).
Proof.
  intros Hb.
  assert (H : foldr (fun v P => json_ok v /\ P) True (map block_json bs) /\
    foldr (fun v d => Z.max (json_depth v) d) 0 (map block_json bs) <= 1 /\
    foldr (fun v P => json_utf8 v /\ P) True (map block_json bs)).
  { induction Hb as [|[t x n] bs (H1 & H2 & H3) _ (IH1 & IH2 & IH3)]; [done|].
    cbn [map foldr]. split; [done|]. split; [|done].
    change (json_depth (block_json _)) with 1. lia. }
  destruct H as (H1 & H2 & H3). cbn. split; [done|]. split; [lia|done].
Qed.

(** An assistant message is reported as its text.  The line that a
    stream-json agent prints for an assistant message with any content blocks
    (strings of valid UTF-8, whatever they contain: quotes, line breaks, words
    that the terminal patterns look for) gives one output event with the
    concatenation of the text blocks; if that is empty, a diagnostic naming
    the first tool used; if there is none, nothing. *)
Theorem ParseLine_assistant p bs : Forall block_utf8 bs ->
  ParseLine p (json_text (JObj (assistant_message bs))) =
  let said := String.concat "" (cb_Text <$> filter (fun b => cb_Type b = "text") bs) in
  if decide (said <> "") then Some (stdout_event said)
  else match filter (fun b => cb_Type b = "tool_use") bs with
       | b :: _ => Some (mkParsedEvent SignalDiagnostic
                     (PDiagnostic (mkDiagnosticPayload "info" ("tool_use: " +:+ cb_Name b))))
       | [] => None
       end.
Proof.
  intros Hb. destruct (assistant_ok bs Hb) as (Hok & Hd & Hu).
  rewrite object_line, (json_coerce_utf8 _ Hu) by (done || unfold maxNestingDepth; lia).
  destruct (decode_assistant bs) as [-> Hm]. unfold stream_event. cbn [sl_Type sl_Message].
  rewrite !decide_False by done. rewrite decide_True by done. rewrite Hm.
  change (cb_Text <$> ?l) with (map cb_Text l). cbv zeta.
  case_decide; [done|].
  by destruct (filter (fun b => cb_Type b = "tool_use") bs).
Qed.

Definition demo_blocks : list ContentBlock :=
  [mkContentBlock "text" (dq "Approval required: say 'hi'") "";
   mkContentBlock "tool_use" "" "Bash"; mkContentBlock "text" (text [newline]) ""].

Lemma ParseLine_assistant_witness :
  Forall block_utf8 demo_blocks /\
  ParseLine NewOutputParser (json_text (JObj (assistant_message demo_blocks))) =
  Some (stdout_event (dq "Approval required: say 'hi'" +:+ text [newline])).
Proof.
  split; [repeat constructor|].
  apply (ParseLine_assistant NewOutputParser demo_blocks). repeat constructor.
Defined.

(** ** Where control signals come from *)

(** The line is a JSON event with this type. *)
Definition announces (line : string) (typ : string) (v : json) : Prop :=
  exists m, FindStringSubmatch json_regex (chars (strings_TrimSpace line)) = Some m /\
    decode_json_event (json_raw (text (nth 1 m []))) = Ok (typ, v).

Lemma stream_event_types raw ev : stream_event raw = Some (Some ev) ->
  pe_Type ev = SignalOutput \/ pe_Type ev = SignalDiagnostic.
Proof.
  unfold stream_event. intros H. repeat case_match; simplify_eq; auto.
Qed.

Lemma FindStringSubmatch_length r s m : FindStringSubmatch r s = Some m -> exists a b, m = [a; b].
Proof. unfold FindStringSubmatch. destruct (re_find _ r s); [intros [= <-]; eauto|done]. Qed.

(** Control signals have a cause.  An event that is not output or a
    diagnostic is an approval request or an error, from a line that contains
    the phrase of its pattern, or what a JSON event line names as its type; a
    completion only comes from a JSON line that announces one.  No line gives
    a status change or a changed file. *)
Theorem control_signals_have_cause line ev :
  ParseLine NewOutputParser line = Some ev ->
  let l := chars (strings_TrimSpace line) in
  (pe_Type ev = SignalOutput \/ pe_Type ev = SignalDiagnostic) \/
  (pe_Type ev = SignalApprovalRequest /\
     (occurs approval_regex l \/ exists v, announces line "approval" v)) \/
  (pe_Type ev = SignalError /\ (occurs error_regex l \/ exists v, announces line "error" v)) \/
  (pe_Type ev = SignalCompletion /\ exists v, announces line "completion" v).
Proof.
  intros H l. unfold ParseLine in H. case_decide; [done|].
  destruct (parseStreamJSONLine _) as [[ev'|]|] eqn:E; [|done|].
  { injection H as ->. left. unfold parseStreamJSONLine in E. repeat case_match; try done.
    by eapply stream_event_types. }
  cbn [op_knownPatterns NewOutputParser registerDefaultPatterns first_pattern pat_Regex
    pat_Handler] in H. fold l in H.
  destruct (FindStringSubmatch approval_regex l) as [m|] eqn:E1.
  { destruct (FindStringSubmatch_length _ _ _ E1) as (a & b & ->). injection H as <-.
    right; left. split; [done|]. left. rewrite <- FindStringSubmatch_occurs. eauto. }
  destruct (FindStringSubmatch tool_regex l) as [m|] eqn:E2.
  { destruct (FindStringSubmatch_length _ _ _ E2) as (a & b & ->). injection H as <-. auto. }
  destruct (FindStringSubmatch error_regex l) as [m|] eqn:E3.
  { destruct (FindStringSubmatch_length _ _ _ E3) as (a & b & ->). injection H as <-.
    right; right; left. split; [done|]. left. rewrite <- FindStringSubmatch_occurs. eauto. }
  destruct (FindStringSubmatch json_regex l) as [m|] eqn:E4; [|injection H as <-; auto].
  destruct (FindStringSubmatch_length _ _ _ E4) as (a & b & ->). cbn [json_handler] in H.
  destruct (decode_json_event _) as [[typ v]|e] eqn:Ev; [|injection H as <-; auto].
  injection H as <-. cbn [pe_Type].
  assert (Ha : announces line typ v) by (exists [a; b]; done).
  repeat case_decide; subst; eauto 8.
Qed.

Lemma control_signals_have_cause_witness :
  ParseLine NewOutputParser "error: disk full" =
    Some (mkParsedEvent SignalError (PError (mkErrorPayload "" "disk full" ""))) /\
  ((SignalError = SignalOutput \/ SignalError = SignalDiagnostic) \/
   (SignalError = SignalApprovalRequest /\
     (occurs approval_regex (chars (strings_TrimSpace "error: disk full")) \/
      exists v, announces "error: disk full" "approval" v)) \/
   (SignalError = SignalError /\
     (occurs error_regex (chars (strings_TrimSpace "error: disk full")) \/
      exists v, announces "error: disk full" "error" v)) \/
   (SignalError = SignalCompletion /\ exists v, announces "error: disk full" "completion" v)).
Proof.
  assert (H : ParseLine NewOutputParser "error: disk full" =
    Some (mkParsedEvent SignalError (PError (mkErrorPayload "" "disk full" "")))).
  { vm_compute. reflexivity. }
  split; [exact H|]. exact (control_signals_have_cause _ _ H).
Defined.

Lemma unmarshal_members_err {A} (assign : string -> json -> A -> result A) p a e :
  unmarshal_members assign p a (Some e) = Err e.
Proof.
  revert a. induction p as [|[k v] p IH]; intros a; cbn; [done|]. by destruct (assign k v a).
Qed.

(** Both decodings of a line see the same type. *)
Lemma decode_types_agree r raw typ v :
  decode_StreamLine r = Ok raw -> decode_json_event r = Ok (typ, v) -> sl_Type raw = typ.
Proof.
  unfold decode_StreamLine, decode_json_event, unmarshal_struct.
  destruct r as [|why|[|b|n|lit|s|l|p]]; try done; [by intros [= <-] [= <- _]|].
  set (A := fun k v l => _). set (B := fun k v e => _).
  enough (H : forall a b, sl_Type a = b.1 ->
    unmarshal_members A p a None = Ok raw -> unmarshal_members B p b None = Ok (typ, v) ->
    sl_Type raw = typ) by (by apply H).
  induction p as [|[k x] p IH]; intros a b Hab; cbn [unmarshal_members].
  { by intros [= <-] [= ->]. }
  destruct (A k x a) as [a'|e] eqn:EA; [|by rewrite unmarshal_members_err].
  destruct (B k x b) as [b'|e] eqn:EB; [|by rewrite unmarshal_members_err].
  apply IH. destruct a as [t s r m e], b as [t' y]. cbn in Hab. subst t'. unfold A, B in *.
  cbn [fst snd] in EB.
  destruct (names k "type").
  - destruct (assign_string "type" x t); [|done]. by injection EA as <-; injection EB as <-.
  - assert (Hb : b'.1 = t) by (destruct (names k "payload"); by injection EB as <-).
    rewrite Hb. clear EB Hb. repeat case_match; try done;
      unfold set_field in EA; repeat case_match; by simplify_eq.
Qed.

(** The output can raise control signals.  A JSON object printed on a line
    of its own, whose type is not one of the stream-json types and whose text
    contains none of the terminal phrases, becomes the signal its type names
    (approval request, error, completion, output otherwise), with the payload
    it carries: a tool that prints such a line completes the run. *)
Theorem json_line_signals p typ v :
  json_ok (JObj p) -> json_depth (JObj p) <= maxNestingDepth ->
  decode_json_event (RawJSON (json_coerce (JObj p))) = Ok (typ, v) ->
  typ ∉ ["system"; "user"; "result"; "assistant"; "stream_event"] ->
  Forall (fun r => ~ occurs r (json_bytes (JObj p))) [approval_regex; tool_regex; error_regex] ->
  ParseLine NewOutputParser (json_text (JObj p)) =
  Some (mkParsedEvent
    (if decide (typ = "approval") then SignalApprovalRequest
     else if decide (typ = "error") then SignalError
     else if decide (typ = "completion") then SignalCompletion
     else SignalOutput) (PJson v)).
Proof.
  intros Hok Hd Hv Htyp Hfree.
  assert (Hnone : forall r, r ∈ [approval_regex; tool_regex; error_regex] ->
    FindStringSubmatch r (json_bytes (JObj p)) = None).
  { intros r Hr. rewrite Forall_forall in Hfree. specialize (Hfree r Hr).
    rewrite <- FindStringSubmatch_occurs in Hfree. by apply eq_None_not_Some. }
  assert (Hfirst : first_pattern (op_knownPatterns NewOutputParser) (json_bytes (JObj p)) =
    Some (mkParsedEvent
      (if decide (typ = "approval") then SignalApprovalRequest
       else if decide (typ = "error") then SignalError
       else if decide (typ = "completion") then SignalCompletion
       else SignalOutput) (PJson v))).
  { cbn [op_knownPatterns NewOutputParser registerDefaultPatterns first_pattern pat_Regex pat_Handler].
    rewrite !Hnone by set_solver. rewrite object_json_handler by done.
    cbn [json_handler]. change (text (json_bytes ?x)) with (json_text x).
    by rewrite object_raw, Hv. }
  rewrite object_line by done.
  destruct (decode_StreamLine _) as [raw|e] eqn:E; [|by rewrite Hfirst].
  assert (Hty : sl_Type raw = typ).
  { by eapply decode_types_agree. }
  unfold stream_event. rewrite Hty. set_unfold.
  rewrite !decide_False by tauto. by rewrite Hfirst.
Qed.

Definition demo_completion : payload :=
  [("type", JStr "completion"); ("payload", JObj [("exit_code", JNum 0)])].

Lemma json_line_signals_witness :
  json_text (JObj demo_completion) = dq "{'type':'completion','payload':{'exit_code':0}}" /\
  ParseLine NewOutputParser (json_text (JObj demo_completion)) =
  Some (mkParsedEvent SignalCompletion (PJson (JObj [("exit_code", JNum 0)]))).
Proof.
  split; [reflexivity|].
  apply (json_line_signals demo_completion "completion" (JObj [("exit_code", JNum 0)])).
  - repeat constructor.
  - discriminate.
  - reflexivity.
  - rewrite !not_elem_of_cons. repeat split; try discriminate. apply not_elem_of_nil.
  - repeat constructor; rewrite <- MatchString_occurs; vm_compute; discriminate.
Defined.
