(* ===== verification/McpPerm.v ===== *)
(** * The permission server (src/internal/mcpperm, src/cmd/car-mcp-perm)

    Before it uses a tool the agent asks the helper process car-mcp-perm on a
    pipe (JSON-RPC, one message a line); the helper asks the adapter over a
    unix socket, one connection a request; the adapter's handler answers.
    Every failure on the way denies.

    A connection is one exchange: the bytes written and the line read back, or
    nothing when a socket call failed or timed out.  The accept loop and the
    goroutines of its connections are interleaved steps.  The handler acts on a
    world of its own and may panic. *)

From S2P Require Import Prelude Env Json GoStrings JsonText.

Record mcpperm_Decision := mkDecision { d_Allow : bool; d_Message : string; d_UpdatedInput : option json }.

(** ** The JSON-RPC server (server.go) *)

Record request := mkRequest {
  rq_JSONRPC : string; rq_ID : option json; rq_Method : string; rq_Params : RawMessage }.

Definition decode_request : RawMessage -> result request :=
  unmarshal_struct "mcpperm.request" (fun k v r =>
    let '(mkRequest j i m p) := r in
    if names k "jsonrpc" then set_field (fun x => mkRequest x i m p) (assign_string "jsonrpc" v j)
    else if names k "id" then Ok (mkRequest j (match v with JNull => None | _ => Some v end) m p)
    else if names k "method" then set_field (fun x => mkRequest j i x p) (assign_string "method" v m)
    else if names k "params" then Ok (mkRequest j i m (RawJSON v))
    else Ok r) (mkRequest "" None "" RawEmpty).

(** The parameters are decoded with their errors ignored. *)
Definition decode_protocolVersion : RawMessage -> string :=
  unmarshal_partial (fun k v s =>
    if names k "protocolVersion" then assign_string "protocolVersion" v s else Ok s) "".

Record Arguments_ := mkArguments {
  ag_ToolName : string; ag_Input : RawMessage; ag_ToolUseID : string }.

Definition assign_argument (k : string) (v : json) (a : Arguments_) : result Arguments_ :=
  let '(mkArguments n i u) := a in
  if names k "tool_name" then set_field (fun x => mkArguments x i u) (assign_string "tool_name" v n)
  else if names k "input" then Ok (mkArguments n (RawJSON v) u)
  else if names k "tool_use_id" then set_field (mkArguments n i) (assign_string "tool_use_id" v u)
  else Ok a.

Definition decode_arguments : RawMessage -> Arguments_ :=
  unmarshal_partial (fun k v a =>
    if names k "arguments" then
      match v with
      | JNull => Ok a
      | JObj p => Ok (partial_members assign_argument p a)
      | _ => Err (type_error v "arguments" "struct")
      end
    else Ok a) (mkArguments "" RawEmpty "").

(** A raw message as it is marshalled: no bytes give null. *)
Definition raw_value (r : RawMessage) : json := match r with RawJSON v => v | _ => JNull end.

Record Server (W : Type) := mkServer {
  srv_serverName : string;
  srv_toolName : string;
  srv_decide : string -> RawMessage -> string -> M W mcpperm_Decision
}.
Arguments mkServer {W} _ _ _.
Arguments srv_serverName {W} _.
Arguments srv_toolName {W} _.
Arguments srv_decide {W} _ _ _ _.

(** Maps are marshalled in key order. *)
Definition response (id : option json) (result_ : json) : json :=
  JObj [("id", default JNull id); ("jsonrpc", JStr "2.0"); ("result", result_)].

Definition initialize_result (name version : string) : json :=
  JObj [("capabilities", JObj [("tools", JObj [])]);
        ("protocolVersion", JStr version);
        ("serverInfo", JObj [("name", JStr name); ("version", JStr "0.1.0")])].

Definition tools_result (tool : string) : json :=
  JObj [("tools", JArr [JObj
    [("description", JStr "Approve or deny a tool use");
     ("inputSchema", JObj
        [("properties", JObj [("input", JObj [("type", JStr "object")]);
                              ("tool_name", JObj [("type", JStr "string")]);
                              ("tool_use_id", JObj [("type", JStr "string")])]);
         ("type", JStr "object")]);
     ("name", JStr tool)]])].

(** What the agent is told. *)
Definition decision_json (dec : mcpperm_Decision) (input : RawMessage) : json :=
  if d_Allow dec then
    JObj [("behavior", JStr "allow"); ("updatedInput", default (raw_value input) (d_UpdatedInput dec))]
  else
    JObj (("behavior", JStr "deny") ::
          (if decide (d_Message dec = "") then [] else [("message", JStr (d_Message dec))])).

Definition call_result (dec : mcpperm_Decision) (input : RawMessage) : json :=
  JObj [("content", JArr [JObj [("text", JStr (json_text (decision_json dec input)));
                                ("type", JStr "text")]])].

Section Server.
Context {W : Type}.

(** One message: the response line, if there is one. *)
Definition serve_line (s : Server W) (line : string) : M W (option json) :=
  if decide (line = "") then ret None
  else
    match decode_request (json_raw line) with
    | Err _ => ret None
    | Ok req =>
        if decide (rq_Method req = "initialize") then
          let protoVer := decode_protocolVersion (rq_Params req) in
          ret (Some (response (rq_ID req) (initialize_result (srv_serverName s)
            (if decide (protoVer = "") then "2025-11-25" else protoVer))))
        else if decide (rq_Method req = "notifications/initialized") then ret None
        else if decide (rq_Method req = "tools/list") then
          ret (Some (response (rq_ID req) (tools_result (srv_toolName s))))
        else if decide (rq_Method req = "tools/call") then
          let a := decode_arguments (rq_Params req) in
          let! dec := srv_decide s (ag_ToolName a) (ag_Input a) (ag_ToolUseID a) in
          ret (Some (response (rq_ID req) (call_result dec (ag_Input a))))
        else ret (Some (response (rq_ID req) (JObj [])))
    end.

(** The lines of the input until it ends or the context is cancelled (before
    the line with this index); the output is the bytes written. *)
Fixpoint serve_lines (s : Server W) (lines : list bytes) (cancelled : option nat) (out : bytes)
    : M W bytes :=
  match lines, cancelled with
  | [], _ | _, Some O => ret out
  | l :: ls, _ =>
      let! resp := serve_line s (text l) in
      serve_lines s ls (pred <$> cancelled)
        (out ++ match resp with Some r => json_bytes r ++ [newline] | None => [] end)
  end.

Definition serve_buffer : Z := 1024 * 1024.
Definition Server_Serve (s : Server W) (input : bytes) (cancelled : option nat) : M W bytes :=
  serve_lines s (scan_lines serve_buffer (split_byte newline input)) cancelled [].

End Server.

(** ** The socket (socket.go) *)

Record PermissionRequest := mkPermissionRequest {
  pr_Session : string; pr_ToolName : string; pr_ToolUseID : string; pr_Input : RawMessage }.

Definition encode_PermissionRequest (r : PermissionRequest) : json :=
  JObj [("session", JStr (pr_Session r)); ("tool_name", JStr (pr_ToolName r));
        ("tool_use_id", JStr (pr_ToolUseID r)); ("input", raw_value (pr_Input r))].

Definition decode_PermissionRequest : RawMessage -> result PermissionRequest :=
  unmarshal_struct "mcpperm.PermissionRequest" (fun k v r =>
    let '(mkPermissionRequest s n u i) := r in
    if names k "session"
    then set_field (fun x => mkPermissionRequest x n u i) (assign_string "session" v s)
    else if names k "tool_name"
    then set_field (fun x => mkPermissionRequest s x u i) (assign_string "tool_name" v n)
    else if names k "tool_use_id"
    then set_field (fun x => mkPermissionRequest s n x i) (assign_string "tool_use_id" v u)
    else if names k "input" then Ok (mkPermissionRequest s n u (RawJSON v))
    else Ok r) (mkPermissionRequest "" "" "" RawEmpty).

Record socketReply := mkSocketReply { sr_Allow : bool; sr_Message : string }.

Definition encode_socketReply (r : socketReply) : json :=
  JObj [("allow", JBool (sr_Allow r)); ("message", JStr (sr_Message r))].
Definition decode_socketReply : RawMessage -> result socketReply :=
  unmarshal_struct "mcpperm.socketReply" (fun k v r =>
    if names k "allow"
    then set_field (fun x => mkSocketReply x (sr_Message r)) (assign_bool "allow" v (sr_Allow r))
    else if names k "message"
    then set_field (mkSocketReply (sr_Allow r)) (assign_string "message" v (sr_Message r))
    else Ok r) (mkSocketReply false "").

Definition failClosedMessage : string := "CAR: approval unavailable (fail-closed)".
Definition failClosed : mcpperm_Decision := mkDecision false failClosedMessage None.

Section Socket.
Context {W : Type}.

(** A line with its line break. *)
Definition framed (v : json) : bytes := json_bytes v ++ [newline].

(** [exchange] connects, writes the bytes and reads up to a line break. *)
Definition DecideOverSocket (exchange : bytes -> M W (option bytes)) (req : PermissionRequest)
    : M W mcpperm_Decision :=
  match pr_Input req with
  | RawInvalid _ => ret failClosed
  | _ =>
      let! line := exchange (framed (encode_PermissionRequest req)) in
      match line with
      | None => ret failClosed
      | Some line =>
          match decode_socketReply (json_raw (text line)) with
          | Err _ => ret failClosed
          | Ok reply => ret (mkDecision (sr_Allow reply) (sr_Message reply) None)
          end
      end
  end.

(** One accepted connection: the bytes read and the bytes written back. *)
Definition SocketServer_handle (handler : PermissionRequest -> M W (option mcpperm_Decision))
    (read : bytes) : M W (option bytes) :=
  match split_byte newline read with
  | line :: _ :: _ =>
      match decode_PermissionRequest (json_raw (text (line ++ [newline]))) with
      | Err _ => ret None
      | Ok req =>
          let! dec := handler req in
          let dec := default failClosed dec in
          ret (Some (framed (encode_socketReply (mkSocketReply (d_Allow dec) (d_Message dec)))))
      end
  | _ => ret None
  end.

(** The helper (cmd/car-mcp-perm): with no socket it denies. *)
Definition helper_decide (socket : option (bytes -> M W (option bytes))) (session : string)
    (toolName : string) (input : RawMessage) (toolUseID : string) : M W mcpperm_Decision :=
  match socket with
  | None => ret (mkDecision false "CAR: no approval socket configured; denying fail-closed" None)
  | Some exchange =>
      DecideOverSocket exchange (mkPermissionRequest session toolName toolUseID input)
  end.

Definition helper (socket : option (bytes -> M W (option bytes))) (session : string) : Server W :=
  mkServer "car" "approve" (helper_decide socket session).

End Socket.

(** ** A message that is one line *)

Lemma json_raw_framed p : json_ok (JObj p) -> json_depth (JObj p) <= maxNestingDepth ->
  json_raw (text (framed (JObj p))) = RawJSON (json_coerce (JObj p)) /\
  json_raw (text (json_bytes (JObj p))) = RawJSON (json_coerce (JObj p)).
Proof.
  intros Hok Hd. unfold json_raw, json_parse, json_parse_bytes, framed. rewrite !chars_text.
  pose proof (json_bytes_length _ Hok) as Hl.
  assert (Hnl : stops [newline]) by (vm_compute; intuition discriminate).
  pose proof (reads_all (JObj p) 0 [newline] (2 * length (json_bytes (JObj p) ++ [newline]) + 2)%nat Hok) as E1.
  pose proof (reads_all (JObj p) 0 [] (2 * length (json_bytes (JObj p)) + 2)%nat Hok) as E2.
  rewrite app_nil_r in E2. rewrite E1, E2; [|lia|exact I|lia|lia|done|rewrite length_app; lia].
  destruct (json_bytes (JObj p)) as [|c s]; [cbn in Hl; lia|]. done.
Qed.

Lemma split_framed v : json_ok v -> split_byte newline (framed v) = [json_bytes v; []].
Proof. intros Hok. unfold framed. by rewrite split_byte_app by by apply json_bytes_one_line. Qed.

(** The values on the wire are valid UTF-8. *)
Definition request_utf8 (r : PermissionRequest) : Prop :=
  utf8_ValidString (pr_Session r) = true /\ utf8_ValidString (pr_ToolName r) = true /\
  utf8_ValidString (pr_ToolUseID r) = true /\
  exists v, pr_Input r = RawJSON v /\ json_ok v /\ json_utf8 v /\ json_depth v < maxNestingDepth.

Lemma encode_request_ok r : request_utf8 r ->
  exists p, encode_PermissionRequest r = JObj p /\ json_ok (JObj p) /\
    json_depth (JObj p) <= maxNestingDepth /\ json_coerce (JObj p) = JObj p /\
    decode_PermissionRequest (RawJSON (JObj p)) = Ok r.
Proof.
  destruct r as [s n u i]. intros (Hs & Hn & Hu & v & Hi & Hok & Hv & Hd). cbn in Hs, Hn, Hu, Hi.
  subst i. eexists. split; [reflexivity|]. cbn [raw_value pr_Session pr_ToolName pr_ToolUseID pr_Input].
  split; [by cbn|]. split; [cbn; unfold maxNestingDepth in *; lia|].
  split; [apply json_coerce_utf8; by repeat split|]. reflexivity.
Qed.

Lemma encode_reply_ok r : exists p, encode_socketReply r = JObj p /\ json_ok (JObj p) /\
  json_depth (JObj p) <= maxNestingDepth /\
  decode_socketReply (RawJSON (json_coerce (JObj p))) =
    Ok (mkSocketReply (sr_Allow r) (strings_coerce (sr_Message r))).
Proof.
  destruct r as [a m]. eexists. split; [reflexivity|]. split; [by cbn|]. split; [done|].
  reflexivity.
Qed.

(** ** The whole way of a request

    A link to the adapter's socket that may fail before the request arrives or
    before the reply is read. *)
Definition link {W} (sent received : bool) (handler : PermissionRequest -> M W (option mcpperm_Decision))
    (b : bytes) : M W (option bytes) :=
  if sent then
    let! r := SocketServer_handle handler b in ret (if received then r else None)
  else ret None.

(** What a failure must answer. *)
Definition denied : mcpperm_Decision :=
  mkDecision false "CAR: approval unavailable (fail-closed)" None.

(** What is left of a handler's answer on the wire; a panic denies. *)
Definition answered (d : option mcpperm_Decision) : mcpperm_Decision :=
  let d := default denied d in mkDecision (d_Allow d) (strings_coerce (d_Message d)) None.

Lemma DecideOverSocket_link {W} (handler : PermissionRequest -> M W (option mcpperm_Decision))
    sent received r w :
  request_utf8 r ->
  DecideOverSocket (link sent received handler) r w =
  if sent then let '(d, w') := handler r w in (if received then answered d else denied, w')
  else (denied, w).
Proof.
  intros Hr. destruct (encode_request_ok r Hr) as (p & Ep & Hok & Hd & Hc & Hdec).
  destruct Hr as (_ & _ & _ & v & Hi & _).
  unfold DecideOverSocket. rewrite Hi, Ep. unfold bind, link. destruct sent; [|done].
  unfold SocketServer_handle, bind. rewrite split_framed by done.
  destruct (json_raw_framed p Hok Hd) as [Hraw _]. unfold framed in Hraw. rewrite Hraw, Hc, Hdec.
  destruct (handler r w) as [d w']. cbn [ret]. destruct received; [|done].
  destruct (encode_reply_ok (mkSocketReply (d_Allow (default failClosed d))
    (d_Message (default failClosed d)))) as (q & Eq & Hokq & Hdq & Hdecq).
  unfold ret. rewrite Eq. destruct (json_raw_framed q Hokq Hdq) as [-> _]. by rewrite Hdecq.
Qed.

(** The agent's question, as a line of the pipe. *)
Definition call_message (id : json) (tool : string) (input : json) (use : string) : payload :=
  [("jsonrpc", JStr "2.0"); ("id", id); ("method", JStr "tools/call");
   ("params", JObj [("name", JStr "approve");
      ("arguments", JObj [("tool_name", JStr tool); ("input", input); ("tool_use_id", JStr use)])])].

(** C16: The agent gets the adapter's decision and nothing else.  A tools/call
    message read by the helper makes exactly one call of the adapter's handler
    with the session, tool, input and id of the message, if the connection is
    made; the agent gets exactly one line: allow with its own input if the
    handler allowed and its reply arrived, otherwise deny with the handler's
    reason or the fail-closed message (no connection, lost reply, panic). *)
Theorem tool_call_answer {W} (handler : PermissionRequest -> M W (option mcpperm_Decision))
    sent received session id tool input use w :
  let req := mkPermissionRequest session tool use (RawJSON input) in
  request_utf8 req -> json_depth input + 3 <= maxNestingDepth ->
  json_ok id -> json_utf8 id -> json_depth id < maxNestingDepth -> id <> JNull ->
  let line := framed (JObj (call_message id tool input use)) in
  Z.of_nat (length line) <= serve_buffer ->
  Server_Serve (helper (Some (link sent received handler)) session) line None w =
  let '(d, w') := if sent then let '(d, w') := handler req w in
                    (if received then answered d else denied, w')
                  else (denied, w) in
  (framed (response (Some id) (call_result d (RawJSON input))), w').
Proof.
  intros req Hreq Hdi Hid Hidu Hidd Hnull line Hlen.
  pose proof Hreq as (Hs & Hn & Hu & v & [= <-] & Hok & Hv & Hd).
  set (p := call_message id tool input use).
  assert (Hpok : json_ok (JObj p)) by (by cbn).
  assert (Hpd : json_depth (JObj p) <= maxNestingDepth)
    by (cbn; unfold maxNestingDepth in *; lia).
  assert (Hpc : json_coerce (JObj p) = JObj p) by (apply json_coerce_utf8; by repeat split).
  subst line. fold p in Hlen |- *. unfold Server_Serve. rewrite split_framed by done. cbn [scan_lines].
  rewrite decide_False by (unfold framed in Hlen; rewrite length_app in Hlen; cbn [length] in Hlen; lia).
  rewrite decide_True by auto.
  assert (HCR : dropCR (json_bytes (JObj p)) = json_bytes (JObj p)).
  { unfold dropCR, has_suffix. destruct (json_obj_shape p) as [mid ->].
    by rewrite app_comm_cons, rev_app_distr. }
  rewrite HCR. cbn [serve_lines]. unfold bind at 1. unfold serve_line.
  destruct (json_raw_framed p Hpok Hpd) as [_ ->]. rewrite Hpc.
  rewrite decide_False by (by destruct (json_obj_shape p) as [mid ->]).
  replace (decode_request (RawJSON (JObj p))) with
    (Ok (mkRequest "2.0" (Some id) "tools/call" (RawJSON (JObj [("name", JStr "approve");
      ("arguments", JObj [("tool_name", JStr tool); ("input", input); ("tool_use_id", JStr use)])]))))
    by (by destruct id).
  cbn [rq_Method rq_Params rq_ID]. rewrite !decide_False, decide_True by done.
  change (decode_arguments _) with (mkArguments tool (RawJSON input) use).
  cbn [ag_ToolName ag_Input ag_ToolUseID srv_decide helper helper_decide]. unfold bind at 1.
  rewrite DecideOverSocket_link by done.
  subst req. destruct sent; [destruct (handler _ w) as [d w']|]; done.
Qed.

Definition demo_handler (req : PermissionRequest) : M nat (option mcpperm_Decision) :=
  modify S;;; ret (Some (mkDecision (bool_decide (pr_ToolName req = "Read")) "not now" None)).

Lemma tool_call_answer_witness :
  (Server_Serve (helper (Some (link true true demo_handler)) "ses-1")
    (framed (JObj (call_message (JNum 2) "Bash" (JObj [("command", JStr "rm x")]) "tu1"))) None 0%nat)
  = (framed (response (Some (JNum 2)) (call_result (mkDecision false "not now" None)
       (RawJSON (JObj [("command", JStr "rm x")])))), 1%nat).
Proof.
  apply (tool_call_answer demo_handler true true "ses-1" (JNum 2) "Bash"
           (JObj [("command", JStr "rm x")]) "tu1" 0%nat).
  - split; [reflexivity|]. split; [reflexivity|]. split; [reflexivity|].
    exists (JObj [("command", JStr "rm x")]). by repeat split.
  - by cbn.
  - exact I.
  - exact I.
  - by cbn.
  - discriminate.
  - by vm_compute.
Defined.

(** ** The accept loop

    [NewSocketServer] listens; [Serve] accepts until that fails, each connection
    handled by a goroutine of its own, here in one step; another goroutine closes
    the listener when the context is done, and so may anybody.  A closed listener
    accepts nothing. *)

Section Listener.
Context {W : Type} (handler : PermissionRequest -> M W (option mcpperm_Decision)).

Record SocketServer := mkSocketServer {
  so_closed : bool;
  so_done : bool;                           (** the context *)
  so_conns : list bytes;                    (** accepted, what each sends *)
  so_handled : list (bytes * option bytes); (** and what was written back *)
  so_returned : option (option error)       (** what [Serve] returned *)
}.

Definition NewSocketServer : SocketServer := mkSocketServer false false [] [] None.

Definition SocketServer_Close (s : SocketServer) : SocketServer :=
  mkSocketServer true (so_done s) (so_conns s) (so_handled s) (so_returned s).

Inductive socket_op :=
  | SAccept (read : bytes)
  | SAcceptFails (e : error)
  | SHandle (i : nat)
  | SCancel
  | SCloser                  (** the goroutine that waits for the context *)
  | SClose.

Definition net_ErrClosed : error := ErrSentinel "use of closed network connection".

Definition socket_step (o : socket_op) (sw : SocketServer * W) : SocketServer * W :=
  let '(s, w) := sw in
  match o with
  | SAccept read =>
      if decide (so_returned s = None /\ so_closed s = false)
      then (mkSocketServer (so_closed s) (so_done s) (so_conns s ++ [read]) (so_handled s) (so_returned s), w)
      else sw
  | SAcceptFails e =>
      match so_returned s with
      | Some _ => sw
      | None =>
          let e := if so_closed s then net_ErrClosed else e in
          (mkSocketServer (so_closed s) (so_done s) (so_conns s) (so_handled s)
             (Some (if so_done s then None else Some e)), w)
      end
  | SHandle i =>
      match so_conns s !! i with
      | None => sw
      | Some read =>
          let '(reply, w) := SocketServer_handle handler read w in
          (mkSocketServer (so_closed s) (so_done s) (delete i (so_conns s)) (so_handled s ++ [(read, reply)])
             (so_returned s), w)
      end
  | SCancel => (mkSocketServer (so_closed s) true (so_conns s) (so_handled s) (so_returned s), w)
  | SCloser => if so_done s then (SocketServer_Close s, w) else sw
  | SClose => (SocketServer_Close s, w)
  end.

Definition socket_run (ops : list socket_op) (sw : SocketServer * W) : SocketServer * W :=
  fold_left (fun sw o => socket_step o sw) ops sw.

(** The handler's calls, one for each of these connections. *)
Definition handle_one (acc : list (bytes * option bytes)) (read : bytes) : M W (list (bytes * option bytes)) :=
  let! reply := SocketServer_handle handler read in ret (acc ++ [(read, reply)]).
Definition handle_all (reads : list bytes) : M W (list (bytes * option bytes)) := fold_each reads [] handle_one.

(** The connections accepted by these operations. *)
Definition offered (ops : list socket_op) : list bytes :=
  omap (fun o => match o with SAccept read => Some read | _ => None end) ops.

Record socket_ok (ops : list socket_op) (w0 : W) (sw : SocketServer * W) : Prop := mk_socket_ok {
  sk_calls : handle_all (so_handled sw.1).*1 w0 = (so_handled sw.1, sw.2);
  sk_conns : (so_handled sw.1).*1 ++ so_conns sw.1 ⊆+ offered ops;
  sk_nil : so_returned sw.1 = Some None -> so_done sw.1 = true
}.

Lemma handle_snoc reads read acc0 w acc w1 : fold_each reads acc0 handle_one w = (acc, w1) ->
  fold_each (reads ++ [read]) acc0 handle_one w =
    let '(reply, w2) := SocketServer_handle handler read w1 in (acc ++ [(read, reply)], w2).
Proof.
  revert acc0 w. induction reads as [|x reads IH]; intros acc0 w H; cbn in *.
  - injection H as -> ->. unfold bind, handle_one, bind. by destruct (SocketServer_handle handler read w1) as [r w2].
  - unfold bind in *. destruct (handle_one acc0 x w) as [r w2]. by apply IH.
Qed.

Lemma offered_snoc ops o : offered (ops ++ [o]) = offered ops ++ offered [o].
Proof. unfold offered. apply omap_app. Qed.

Lemma socket_step_ok ops o w0 sw : socket_ok ops w0 sw -> socket_ok (ops ++ [o]) w0 (socket_step o sw).
Proof.
  destruct sw as [s w]. intros [Hc Hs Hn]. cbn [fst snd] in *.
  assert (Hsub : (so_handled s).*1 ++ so_conns s ⊆+ offered (ops ++ [o])) by (rewrite offered_snoc; apply submseteq_inserts_r; exact Hs).
  assert (Hsame : socket_ok (ops ++ [o]) w0 (s, w)) by by split.
  destruct o as [read|e|i| | |]; cbn [socket_step].
  - case_decide; [|done]. split; [done| |done]. cbn. rewrite offered_snoc, (assoc_L (++)). by apply submseteq_app.
  - destruct (so_returned s) eqn:Er; [done|]. split; [done|done|]. cbn. by destruct (so_done s).
  - destruct (so_conns s !! i) as [read|] eqn:Ei; [|done].
    pose proof (handle_snoc _ read _ _ _ _ Hc) as Hc'. destruct (SocketServer_handle handler read w) as [r w2].
    split; cbn; [by rewrite fmap_app| |done]. rewrite fmap_app. cbn. rewrite <- (assoc_L (++)). cbn.
    by rewrite <- (delete_Permutation _ _ _ Ei).
  - split; [done|done|]. by cbn.
  - destruct (so_done s) eqn:Ed; [|done]. split; [done|done|]. cbn. by rewrite Ed.
  - by split.
Qed.

(** In every interleaving each accepted connection is handled at most once, and
    the handler was called once for each connection handled and for nothing else;
    [Serve] returns without an error only when the context is done, and once it is,
    the closing goroutine and the next turn of the loop end it. *)
Theorem socket_serves ops w0 :
  let '(s, w) := socket_run ops (NewSocketServer, w0) in
  handle_all (so_handled s).*1 w0 = (so_handled s, w) /\
  (so_handled s).*1 ++ so_conns s ⊆+ offered ops /\
  (so_returned s = Some None -> so_done s = true) /\
  (so_done s = true -> forall e, let s' := (socket_run [SCloser; SAcceptFails e] (s, w)).1 in
     so_closed s' = true /\ (so_returned s' = Some None \/ so_returned s' = so_returned s /\ so_returned s <> None)).
Proof.
  assert (Hok : socket_ok ops w0 (socket_run ops (NewSocketServer, w0))).
  { induction ops as [|o ops IH] using rev_ind; [by split|]. unfold socket_run in *. rewrite fold_left_app. by apply socket_step_ok. }
  destruct (socket_run ops _) as [s w]. destruct Hok as [Hc Hs Hn]. do 3 (split; [done|]).
  intros Hd e. cbn. rewrite Hd. cbn. destruct (so_returned s) eqn:Er; cbn; [by split; [done|right]|].
  split; [done|]. left. by rewrite Hd.
Qed.

End Listener.
