(* ===== verification/Wrapper.v ===== *)
(** * The process wrapper (src/internal/wrapper/wrapper.go)

    A child process with its pipes.  Two reader goroutines move what the
    process writes into bounded channels, a third one reaps the process when
    both readers have ended.  The goroutines, the consumers of the channels
    and the callers interleave: each locked region, each read of a pipe and
    each receive is one step.  What the operating system answers (pipes, the
    process id, reads, the exit status, signals) is an argument of the step. *)

From S2P Require Import Prelude Env Json GoStrings.

Definition StatePending : string := "pending".
Definition StateRunning : string := "running".
Definition StateExited : string := "exited".
Definition StateKilled : string := "killed".
Definition StateError : string := "error".

Record WrapperOptions := mkWrapperOptions {
  wo_Command : string; wo_Args : list string; wo_Dir : string; wo_Env : list string }.

Record ProcessInfo := mkProcessInfo {
  pi_PID : Z; pi_PGroup : Z; pi_Command : string; pi_Args : list string; pi_Dir : string;
  pi_StartedAt : Z; pi_ExitedAt : option Z; pi_ExitCode : option Z; pi_ExitError : option string;
  pi_State : string }.

(** The command, with the process id once it runs. *)
Record Cmd := mkCmd {
  cmd_Path : string; cmd_Args : list string; cmd_Dir : string; cmd_Env : list string;
  cmd_Process : option Z }.

(** A channel of byte chunks with its capacity of 100. *)
Record chunks := mkChunks { ch_queue : list bytes; ch_closed : bool }.
Definition chunk_cap : nat := 100.

Inductive stream := Stdout | Stderr.
#[export] Instance stream_eq_dec : EqDecision stream.
Proof. solve_decision. Defined.

(** What [cmd.Wait] returns when it is not nil. *)
Inductive WaitError :=
  | ExitError (code : Z) (text : string)
  | OtherError (text : string).

(** The reaping goroutine: waiting for the readers, holding the result of
    [cmd.Wait] with the channels closed, or gone. *)
Inductive Reaper :=
  | NoReaper
  | Draining
  | Reaped (e : option WaitError).

Record ProcessWrapper := mkProcessWrapper {
  pw_cmd : option Cmd;
  pw_stdin : bool;
  pw_input : bytes;          (** what the process was sent *)
  pw_startedAt : Z;
  pw_exitedAt : option Z;
  pw_exitCode : option Z;
  pw_exitError : option string;
  pw_state : string;
  pw_done : bool;            (** [done] is closed *)
  pw_chan : stream -> chunks;
  pw_reader : stream -> bool; (** its reader goroutine runs *)
  pw_readersWG : nat;
  pw_reaper : Reaper;
  pw_panicked : bool
}.

Definition NewProcessWrapper : ProcessWrapper :=
  mkProcessWrapper None false [] 0 None None None StatePending false
    (fun _ => mkChunks [] false) (fun _ => false) 0 NoReaper false.

Definition upd {A} (s : stream) (x : A) (f : stream -> A) : stream -> A :=
  fun t => if decide (t = s) then x else f t.

Definition set_pw_chan (f : stream -> chunks) (w : ProcessWrapper) : ProcessWrapper :=
  mkProcessWrapper (pw_cmd w) (pw_stdin w) (pw_input w) (pw_startedAt w) (pw_exitedAt w)
    (pw_exitCode w) (pw_exitError w) (pw_state w) (pw_done w) f (pw_reader w) (pw_readersWG w)
    (pw_reaper w) (pw_panicked w).
Definition set_pw_reader (f : stream -> bool) (n : nat) (w : ProcessWrapper) : ProcessWrapper :=
  mkProcessWrapper (pw_cmd w) (pw_stdin w) (pw_input w) (pw_startedAt w) (pw_exitedAt w)
    (pw_exitCode w) (pw_exitError w) (pw_state w) (pw_done w) (pw_chan w) f n
    (pw_reaper w) (pw_panicked w).
Definition set_pw_reaper (r : Reaper) (w : ProcessWrapper) : ProcessWrapper :=
  mkProcessWrapper (pw_cmd w) (pw_stdin w) (pw_input w) (pw_startedAt w) (pw_exitedAt w)
    (pw_exitCode w) (pw_exitError w) (pw_state w) (pw_done w) (pw_chan w) (pw_reader w)
    (pw_readersWG w) r (pw_panicked w).
Definition set_pw_state (state : string) (w : ProcessWrapper) : ProcessWrapper :=
  mkProcessWrapper (pw_cmd w) (pw_stdin w) (pw_input w) (pw_startedAt w) (pw_exitedAt w)
    (pw_exitCode w) (pw_exitError w) state (pw_done w) (pw_chan w) (pw_reader w)
    (pw_readersWG w) (pw_reaper w) (pw_panicked w).
Definition set_pw_exit (code : option Z) (err : option string) (w : ProcessWrapper)
    : ProcessWrapper :=
  mkProcessWrapper (pw_cmd w) (pw_stdin w) (pw_input w) (pw_startedAt w) (pw_exitedAt w)
    code err (pw_state w) (pw_done w) (pw_chan w) (pw_reader w)
    (pw_readersWG w) (pw_reaper w) (pw_panicked w).
Definition set_pw_done (now : Z) (w : ProcessWrapper) : ProcessWrapper :=
  mkProcessWrapper (pw_cmd w) (pw_stdin w) (pw_input w) (pw_startedAt w) (Some now)
    (pw_exitCode w) (pw_exitError w) (pw_state w) true (pw_chan w) (pw_reader w)
    (pw_readersWG w) (pw_reaper w) (pw_panicked w).
Definition set_pw_cmd (cmd : option Cmd) (stdin : bool) (w : ProcessWrapper) : ProcessWrapper :=
  mkProcessWrapper cmd stdin (pw_input w) (pw_startedAt w) (pw_exitedAt w)
    (pw_exitCode w) (pw_exitError w) (pw_state w) (pw_done w) (pw_chan w) (pw_reader w)
    (pw_readersWG w) (pw_reaper w) (pw_panicked w).
Definition set_pw_input (b : bytes) (w : ProcessWrapper) : ProcessWrapper :=
  mkProcessWrapper (pw_cmd w) (pw_stdin w) b (pw_startedAt w) (pw_exitedAt w)
    (pw_exitCode w) (pw_exitError w) (pw_state w) (pw_done w) (pw_chan w) (pw_reader w)
    (pw_readersWG w) (pw_reaper w) (pw_panicked w).
Definition set_pw_startedAt (now : Z) (w : ProcessWrapper) : ProcessWrapper :=
  mkProcessWrapper (pw_cmd w) (pw_stdin w) (pw_input w) now (pw_exitedAt w)
    (pw_exitCode w) (pw_exitError w) (pw_state w) (pw_done w) (pw_chan w) (pw_reader w)
    (pw_readersWG w) (pw_reaper w) (pw_panicked w).
Definition panic (w : ProcessWrapper) : ProcessWrapper :=
  mkProcessWrapper (pw_cmd w) (pw_stdin w) (pw_input w) (pw_startedAt w) (pw_exitedAt w)
    (pw_exitCode w) (pw_exitError w) (pw_state w) (pw_done w) (pw_chan w) (pw_reader w)
    (pw_readersWG w) (pw_reaper w) true.

(** ** Starting *)

(** The answers of the operating system: errors of the pipes, and the process
    id or the error of [cmd.Start]. *)
Record StartOutcome := mkStartOutcome {
  so_stdout : option string; so_stderr : option string; so_stdin : option string;
  so_start : Z + string }.

Definition ProcessWrapper_Start (environ : list string) (opts : WrapperOptions)
    (os : StartOutcome) (now : Z) : M ProcessWrapper (result ProcessInfo) := fun w =>
  if decide (pw_state w = StateRunning) then (Err (ErrNew "process already running"), w)
  else
    let env := match wo_Env opts with [] => environ | e => e end in
    let cmd pid := mkCmd (wo_Command opts) (wo_Args opts) (wo_Dir opts) env pid in
    match so_stdout os, so_stderr os with
    | Some e, _ => (Err (wrap "creating stdout pipe" (ErrNew e)), w)
    | None, Some e => (Err (wrap "creating stderr pipe" (ErrNew e)), w)
    | None, None =>
        let stdin := match so_stdin os with None => true | Some _ => false end in
        match so_start os with
        | inr e =>
            (Err (wrap "starting process" (ErrNew e)),
             set_pw_exit (pw_exitCode w) (Some e)
               (set_pw_state StateError (set_pw_cmd (Some (cmd None)) stdin w)))
        | inl pid =>
            (Ok (mkProcessInfo pid pid (wo_Command opts) (wo_Args opts) (wo_Dir opts) now
                   None None None StateRunning),
             set_pw_reaper Draining (set_pw_reader (fun _ => true) (pw_readersWG w + 2)
               (set_pw_state StateRunning (set_pw_startedAt now
                 (set_pw_cmd (Some (cmd (Some pid))) stdin w)))))
        end
    end.

(** ** The goroutines *)

(** One read of a pipe: [data] and whether it ended with an error (such as
    end of file).  The send does not block: a full channel drops the chunk. *)
Definition ProcessWrapper_readOutput (s : stream) (data : bytes) (err : bool)
    (w : ProcessWrapper) : ProcessWrapper :=
  let w1 :=
    if decide (data = []) then w
    else if ch_closed (pw_chan w s) then panic w
    else if (length (ch_queue (pw_chan w s)) <? chunk_cap)%nat
    then set_pw_chan (upd s (mkChunks (ch_queue (pw_chan w s) ++ [data]) false) (pw_chan w)) w
    else w in
  if err then set_pw_reader (upd s false (pw_reader w1)) (pred (pw_readersWG w1)) w1 else w1.

(** After the readers: [cmd.Wait], and both channels are closed. *)
Definition waitForExit_close (e : option WaitError) (w : ProcessWrapper) : ProcessWrapper :=
  if ch_closed (pw_chan w Stdout) || ch_closed (pw_chan w Stderr) then panic w
  else set_pw_reaper (Reaped e)
         (set_pw_chan (fun s => mkChunks (ch_queue (pw_chan w s)) true) w).

(** Then, under the lock, the exit is recorded. *)
Definition waitForExit_record (now : Z) (e : option WaitError) (w : ProcessWrapper)
    : ProcessWrapper :=
  let w := set_pw_reaper NoReaper (set_pw_done now w) in
  let err_text := match e with
                  | Some (ExitError _ t) | Some (OtherError t) => Some t
                  | None => pw_exitError w
                  end in
  if decide (pw_state w = StateKilled) then set_pw_exit (pw_exitCode w) err_text w
  else match e with
       | Some (ExitError code t) => set_pw_state StateError (set_pw_exit (Some code) (Some t) w)
       | Some (OtherError t) => set_pw_state StateError (set_pw_exit (pw_exitCode w) (Some t) w)
       | None => set_pw_state StateExited (set_pw_exit (Some 0) (pw_exitError w) w)
       end.

(** ** Calls *)

(** [write] is what the pipe answers. *)
Definition ProcessWrapper_WriteInput (data : bytes) (write : result Z)
    : M ProcessWrapper (result Z) := fun w =>
  if negb (pw_stdin w) then (Err (ErrNew "stdin not available"), w)
  else if decide (pw_state w <> StateRunning) then (Err (ErrNew "process not running"), w)
  else (write, match write with
               | Ok n => set_pw_input (pw_input w ++ take (Z.to_nat n) data) w
               | Err _ => w
               end).

Definition ProcessWrapper_WriteInputString (s : string) (write : result Z)
    : M ProcessWrapper (result Z) :=
  ProcessWrapper_WriteInput (chars s ++ [newline]) write.

(** [group] and [process] are what killing the group and the process answer. *)
Definition ProcessWrapper_Kill (group process : option string)
    : M ProcessWrapper (option error) := fun w =>
  match pw_cmd w ≫= cmd_Process with
  | None => (None, w)
  | Some _ =>
      match group, process with
      | Some _, Some e => (Some (wrap "killing process" (ErrNew e)), w)
      | _, _ => (None, set_pw_state StateKilled w)
      end
  end.

Definition ProcessWrapper_Signal (answer : option string) (w : ProcessWrapper) : option error :=
  match pw_cmd w ≫= cmd_Process with
  | None => Some (ErrNew "process not running")
  | Some _ => ErrNew <$> answer
  end.

(** [Wait] returns once [done] is closed. *)
Definition ProcessWrapper_Done (w : ProcessWrapper) : bool := pw_done w.
Definition ProcessWrapper_State (w : ProcessWrapper) : string := pw_state w.
Definition ProcessWrapper_IsRunning (w : ProcessWrapper) : bool :=
  bool_decide (pw_state w = StateRunning).
Definition ProcessWrapper_ExitCode (w : ProcessWrapper) : option Z * bool :=
  (pw_exitCode w, bool_decide (pw_state w = StateExited \/ pw_state w = StateError)).
Definition ProcessWrapper_ExitError (w : ProcessWrapper) : option string * bool :=
  (pw_exitError w, bool_decide (pw_state w = StateError)).

(** Before a start there is no command, and the code panics. *)
Definition ProcessWrapper_Info (w : ProcessWrapper) : option ProcessInfo :=
  (fun c => let pid := default 0 (cmd_Process c) in
            mkProcessInfo pid pid (cmd_Path c) (cmd_Args c) (cmd_Dir c) (pw_startedAt w)
              (pw_exitedAt w) (pw_exitCode w) (pw_exitError w) (pw_state w)) <$> pw_cmd w.

Definition ProcessWrapper_RedactSecrets (secrets args : list string) : list string :=
  map (fun arg => fold_left (fun r secret =>
    if decide (secret <> "" /\ contains (chars secret) (chars arg) = true)
    then "[REDACTED]" else r) secrets arg) args.

(** ** Interleavings *)

Inductive wrap_op :=
  | WStart (environ : list string) (opts : WrapperOptions) (os : StartOutcome) (now : Z)
  | WRead (s : stream) (data : bytes) (err : bool)
  | WClose (e : option WaitError)
  | WRecord (now : Z)
  | WTake (s : stream)                          (** a consumer receives a chunk *)
  | WKill (group process : option string)
  | WWrite (data : bytes) (write : result Z).

(** The step, if the program can take it now. *)
Definition wrap_step (o : wrap_op) (w : ProcessWrapper) : option ProcessWrapper :=
  if pw_panicked w then None
  else match o with
  | WStart environ opts os now => Some (ProcessWrapper_Start environ opts os now w).2
  | WRead s data err => if pw_reader w s then Some (ProcessWrapper_readOutput s data err w) else None
  | WClose e =>
      match pw_reaper w with
      | Draining => if (pw_readersWG w =? 0)%nat then Some (waitForExit_close e w) else None
      | _ => None
      end
  | WRecord now => match pw_reaper w with Reaped e => Some (waitForExit_record now e w) | _ => None end
  | WTake s =>
      match ch_queue (pw_chan w s) with
      | _ :: q => Some (set_pw_chan (upd s (mkChunks q (ch_closed (pw_chan w s))) (pw_chan w)) w)
      | [] => None
      end
  | WKill group process => Some (ProcessWrapper_Kill group process w).2
  | WWrite data write => Some (ProcessWrapper_WriteInput data write w).2
  end.

Fixpoint wrap_run (ops : list wrap_op) (w : ProcessWrapper) : option ProcessWrapper :=
  match ops with
  | [] => Some w
  | o :: ops' => w' ← wrap_step o w; wrap_run ops' w'
  end.

(** ** What is read, received and dropped along a run *)

Definition is_start (o : wrap_op) : bool := match o with WStart _ _ _ _ => true | _ => false end.

Definition read_step (s : stream) (o : wrap_op) : list bytes :=
  match o with
  | WRead t data _ => if decide (t = s /\ data <> []) then [data] else []
  | _ => []
  end.
Definition chunks_read (s : stream) (ops : list wrap_op) : list bytes := ops ≫= read_step s.

Definition take_step (s : stream) (o : wrap_op) (w : ProcessWrapper) : list bytes :=
  match o with
  | WTake t => if decide (t = s) then take 1 (ch_queue (pw_chan w s)) else []
  | _ => []
  end.
(** A chunk read while the channel holds its capacity is lost. *)
Definition drop_step (s : stream) (o : wrap_op) (w : ProcessWrapper) : list bytes :=
  match o with
  | WRead t data _ =>
      if decide (t = s /\ data <> [] /\ (chunk_cap <= length (ch_queue (pw_chan w s)))%nat)
      then [data] else []
  | _ => []
  end.

(** Collect what each step gives along the run. *)
Fixpoint along {A} (f : wrap_op -> ProcessWrapper -> list A) (ops : list wrap_op)
    (w : ProcessWrapper) : list A :=
  match ops with
  | [] => []
  | o :: ops' =>
      match wrap_step o w with Some w' => f o w ++ along f ops' w' | None => [] end
  end.
Definition chunks_taken (s : stream) := along (take_step s).
Definition chunks_dropped (s : stream) := along (drop_step s).

(** ** Invariant of a started wrapper *)

Definition busy (w : ProcessWrapper) (s : stream) : nat := if pw_reader w s then 1 else 0.

Record wrapper_ok (w : ProcessWrapper) : Prop := mk_wrapper_ok {
  wok_alive : pw_panicked w = false;
  wok_readers : pw_readersWG w = (busy w Stdout + busy w Stderr)%nat;
  wok_reaper : match pw_reaper w with
               | Draining => (forall s, ch_closed (pw_chan w s) = false) /\ pw_done w = false
               | Reaped _ => (forall s, ch_closed (pw_chan w s) = true) /\ pw_readersWG w = 0%nat /\
                             pw_done w = false
               | NoReaper => (forall s, ch_closed (pw_chan w s) = true) /\ pw_readersWG w = 0%nat /\
                             pw_done w = true
               end;
  wok_bounded : forall s, (length (ch_queue (pw_chan w s)) <= chunk_cap)%nat
}.

Lemma upd_same {A} s (x : A) f : upd s x f s = x.
Proof. unfold upd. by rewrite decide_True. Qed.
Lemma upd_other {A} s t (x : A) f : t <> s -> upd s x f t = f t.
Proof. intros. unfold upd. by rewrite decide_False. Qed.

Lemma busy_upd s f w n : (forall t, pw_reader w t = f t) -> f s = true ->
  pw_readersWG w = (busy w Stdout + busy w Stderr)%nat -> pred (pw_readersWG w) = n ->
  let w' := set_pw_reader (upd s false f) n w in
  pw_readersWG w' = (busy w' Stdout + busy w' Stderr)%nat.
Proof.
  intros Hf Hs Hr <-. cbn. rewrite Hr. unfold busy. cbn. rewrite !Hf. unfold upd.
  destruct s; cbn; rewrite Hs; [destruct (f Stderr)|destruct (f Stdout)]; reflexivity.
Qed.

Lemma wrapper_ok_running w : wrapper_ok w -> forall s, pw_reader w s = true ->
  pw_reaper w = Draining /\ (pw_readersWG w > 0)%nat.
Proof.
  intros [Ha Hr Hp Hb] s Hs.
  assert (Hn : (pw_readersWG w > 0)%nat)
    by (rewrite Hr; unfold busy; destruct s; rewrite Hs;
        [destruct (pw_reader w Stderr)|destruct (pw_reader w Stdout)]; lia).
  split; [|done]. destruct (pw_reaper w); [destruct Hp as (_ & Hz & _); lia|done|].
  destruct Hp as (_ & Hz & _); lia.
Qed.

(** Every step but a new start keeps the invariant. *)
Lemma wrap_step_ok o w w' : is_start o = false -> wrapper_ok w -> wrap_step o w = Some w' ->
  wrapper_ok w'.
Proof.
  intros Ho Hw. pose proof (wrapper_ok_running w Hw) as Hrun. destruct Hw as [Ha Hr Hp Hb].
  unfold wrap_step. rewrite Ha. destruct o as [| s data err |e|now|s|g p|data wr]; [done|..].
  - destruct (pw_reader w s) eqn:Es; [|done]. intros [= <-].
    destruct (Hrun s Es) as [Hd Hn]. rewrite Hd in Hp. destruct Hp as [Hopen Hdone].
    unfold ProcessWrapper_readOutput.
    set (w1 := if decide (data = []) then w else _).
    assert (H1 : wrapper_ok w1 /\ pw_reaper w1 = Draining /\ pw_reader w1 = pw_reader w /\
                 (pw_readersWG w1 = pw_readersWG w)).
    { subst w1. assert (Hok : wrapper_ok w) by (constructor; rewrite ?Hd; done).
      case_decide; [done|]. rewrite Hopen. destruct (_ <? _)%nat eqn:El; [|done].
      apply Nat.ltb_lt in El. split; [|done].
      constructor; cbn; [done|done| |]; rewrite ?Hd.
      - split; [|done]. intros t. unfold upd. by case_decide.
      - intros t. unfold upd. case_decide; [|done]. cbn. rewrite length_app. cbn. lia. }
    destruct H1 as ([Ha1 Hr1 Hp1 Hb1] & Hd1 & Hf1 & Hn1). destruct err; [|by constructor].
    constructor; [done| |by cbn; rewrite Hd1 in *|done].
    apply busy_upd; [done|by rewrite Hf1|done|done].
  - destruct (pw_reaper w) eqn:Ep; [done| |done]. destruct (_ =? _)%nat eqn:En; [|done].
    apply Nat.eqb_eq in En. intros [= <-]. destruct Hp as [Hopen Hdone].
    unfold waitForExit_close. rewrite !Hopen. cbn. by constructor.
  - destruct (pw_reaper w) eqn:Ep; [done|done|]. intros [= <-]. destruct Hp as (Hc & Hn & Hd).
    unfold waitForExit_record. cbn. case_decide; [|destruct e as [[]|]]; by constructor.
  - destruct (ch_queue (pw_chan w s)) as [|c q] eqn:Eq; [done|]. intros [= <-].
    constructor; cbn; [done|done| |].
    + assert (Hcl : forall t, ch_closed (upd s (mkChunks q (ch_closed (pw_chan w s))) (pw_chan w) t) =
        ch_closed (pw_chan w t)) by (intros t; unfold upd; case_decide; by subst).
      destruct (pw_reaper w); [destruct Hp as (H & ?)|destruct Hp as (H & ?)
        |destruct Hp as (H & ?)]; (split; [intros t; by rewrite Hcl, H|done]).
    + intros t. unfold upd. case_decide; [subst|done]. specialize (Hb s). rewrite Eq in Hb. cbn in *. lia.
  - intros [= <-]. unfold ProcessWrapper_Kill. destruct (_ ≫= _); [|by constructor].
    destruct g, p; by constructor.
  - intros [= <-]. unfold ProcessWrapper_WriteInput. destruct (negb _); [by constructor|].
    case_decide; [by constructor|]. destruct wr; by constructor.
Qed.

(** One step moves chunks from what is read to the queue to what is taken. *)
Lemma wrap_step_chunks s o w w' : is_start o = false -> wrapper_ok w -> wrap_step o w = Some w' ->
  take_step s o w ++ ch_queue (pw_chan w' s) =
  ch_queue (pw_chan w s) ++ (match drop_step s o w with [] => read_step s o | _ => [] end).
Proof.
  intros Ho Hw. pose proof (wrapper_ok_running w Hw) as Hrun. destruct Hw as [Ha Hr Hp Hb].
  unfold wrap_step. rewrite Ha. destruct o as [| t data err |e|now|t|g p|data wr]; [done|..].
  - destruct (pw_reader w t) eqn:Es; [|done]. intros [= <-].
    destruct (Hrun t Es) as [Hd Hn]. rewrite Hd in Hp. destruct Hp as [Hopen _].
    cbn [take_step drop_step read_step app]. unfold ProcessWrapper_readOutput.
    assert (Hch : forall f n v, pw_chan (set_pw_reader f n v) = pw_chan v) by done.
    assert (Hend : forall v, pw_chan (if err then set_pw_reader (upd t false (pw_reader v))
      (pred (pw_readersWG v)) v else v) = pw_chan v) by (intros; by destruct err).
    rewrite Hend. rewrite Hopen. destruct (decide (data = [])) as [->|Hdata].
    { rewrite !decide_False by naive_solver. by rewrite app_nil_r. }
    destruct (_ <? _)%nat eqn:El; [apply Nat.ltb_lt in El|apply Nat.ltb_ge in El].
    + cbn. destruct (decide (t = s)) as [->|Hts].
      * rewrite upd_same, !decide_False by (intros (_ & _ & ?); lia).
        by rewrite decide_True.
      * rewrite upd_other by done. rewrite !decide_False by naive_solver. by rewrite app_nil_r.
    + destruct (decide (t = s)) as [->|Hts].
      * rewrite decide_True by done. by rewrite app_nil_r.
      * rewrite !decide_False by naive_solver. by rewrite app_nil_r.
  - destruct (pw_reaper w) eqn:Ep; [done| |done]. destruct (_ =? _)%nat; [|done].
    intros [= <-]. destruct Hp as [Hopen _]. unfold waitForExit_close. rewrite !Hopen. cbn.
    by rewrite app_nil_r.
  - destruct (pw_reaper w) eqn:Ep; [done|done|]. intros [= <-].
    unfold waitForExit_record. cbn. rewrite app_nil_r. case_decide; [|destruct e as [[]|]]; done.
  - destruct (ch_queue (pw_chan w t)) as [|c q] eqn:Eq; [done|]. intros [= <-]. cbn.
    destruct (decide (t = s)) as [->|Hts].
    + by rewrite upd_same, Eq, app_nil_r.
    + by rewrite upd_other, app_nil_r.
  - intros [= <-]. unfold ProcessWrapper_Kill. cbn. rewrite app_nil_r.
    destruct (_ ≫= _); [|done]. by destruct g, p.
  - intros [= <-]. unfold ProcessWrapper_WriteInput. cbn. rewrite app_nil_r.
    destruct (negb _); [done|]. case_decide; [done|]. by destruct wr.
Qed.

Lemma wrap_run_ok ops w w' : Forall (fun o => is_start o = false) ops -> wrapper_ok w ->
  wrap_run ops w = Some w' -> wrapper_ok w'.
Proof.
  intros Hs. revert w. induction Hs as [|o ops Ho Hs IH]; intros w Hw; cbn [wrap_run].
  - by intros [= <-].
  - destruct (wrap_step o w) as [w1|] eqn:E; [|done]. cbn. apply IH. by eapply wrap_step_ok.
Qed.

Lemma wrap_run_chunks s ops w w' : Forall (fun o => is_start o = false) ops -> wrapper_ok w ->
  wrap_run ops w = Some w' ->
  (chunks_taken s ops w ++ ch_queue (pw_chan w' s)) `sublist_of`
    (ch_queue (pw_chan w s) ++ chunks_read s ops) /\
  (chunks_dropped s ops w = [] ->
    chunks_taken s ops w ++ ch_queue (pw_chan w' s) =
    ch_queue (pw_chan w s) ++ chunks_read s ops).
Proof.
  unfold chunks_taken, chunks_dropped, chunks_read.
  intros Hs. revert w. induction Hs as [|o ops Ho Hs IH]; intros w Hw; cbn [wrap_run along mbind list_bind].
  - intros [= <-]. by rewrite app_nil_r.
  - destruct (wrap_step o w) as [w1|] eqn:E; [|done]. cbn [mbind option_bind]. intros Hrun.
    pose proof (wrap_step_chunks s o w w1 Ho Hw E) as Hstep.
    destruct (IH w1 (wrap_step_ok _ _ _ Ho Hw E) Hrun) as [H1 H2].
    rewrite <- (assoc_L (++)). split.
    + etransitivity; [apply sublist_app; [reflexivity|exact H1]|]. rewrite (assoc_L (++)), Hstep.
      rewrite <- (assoc_L (++)). apply sublist_app; [reflexivity|].
      apply sublist_app; [|reflexivity]. destruct (drop_step s o w); [reflexivity|].
      apply sublist_nil_l.
    + intros [Hd1 Hd2]%app_eq_nil. rewrite (H2 Hd2), (assoc_L (++)), Hstep, Hd1.
      by rewrite <- (assoc_L (++)).
Qed.

(** A fresh wrapper that was started. *)
Definition fresh_start (w : ProcessWrapper) : Prop :=
  exists environ opts os now info,
    ProcessWrapper_Start environ opts os now NewProcessWrapper = (Ok info, w).

Lemma fresh_start_ok w : fresh_start w -> wrapper_ok w /\ forall s, ch_queue (pw_chan w s) = [].
Proof.
  intros (environ & opts & os & now & info & H). unfold ProcessWrapper_Start in H.
  rewrite decide_False in H by done. repeat case_match; try done; injection H as <- <-;
    (split; [|done]); (constructor; [done|done|by split|]); intros st; cbn; unfold chunk_cap; lia.
Qed.

(** C29: The wrapper loses no output that is consumed in time.  After a start,
    in every interleaving of the reading goroutines, the reaper, the
    consumers, writes and kills: nothing panics (no send on a closed channel);
    what was received and is queued is, in order, part of what was read, and
    all of it if no chunk arrived while 100 were waiting; and once the exit is
    announced, both pipes were read to their end and both channels closed. *)
Theorem wrapper_delivers w ops w' :
  fresh_start w -> Forall (fun o => is_start o = false) ops -> wrap_run ops w = Some w' ->
  pw_panicked w' = false /\
  (forall s, (chunks_taken s ops w ++ ch_queue (pw_chan w' s)) `sublist_of` chunks_read s ops) /\
  (forall s, chunks_dropped s ops w = [] ->
     chunks_taken s ops w ++ ch_queue (pw_chan w' s) = chunks_read s ops) /\
  (pw_done w' = true -> forall s, ch_closed (pw_chan w' s) = true /\ pw_reader w' s = false).
Proof.
  intros Hf Hops Hrun. destruct (fresh_start_ok w Hf) as [Hw Hq].
  pose proof (wrap_run_ok ops w w' Hops Hw Hrun) as [Ha Hr Hp _].
  split; [done|]. split; [|split].
  - intros s. destruct (wrap_run_chunks s ops w w' Hops Hw Hrun) as [H _]. by rewrite Hq in H.
  - intros s Hd. destruct (wrap_run_chunks s ops w w' Hops Hw Hrun) as [_ H]. rewrite Hq in H. auto.
  - intros Hdone s. destruct (pw_reaper w'); [|destruct Hp; congruence|destruct Hp as (_ & _ & ?); congruence].
    destruct Hp as (Hc & Hn & _). split; [done|]. rewrite Hr in Hn. unfold busy in Hn.
    destruct s; [destruct (pw_reader w' Stdout)|destruct (pw_reader w' Stderr)]; cbn in Hn; lia || done.
Qed.

Definition demo_options : WrapperOptions := mkWrapperOptions "/usr/bin/claude" ["-p"] "/srv/demo" [].
Definition demo_outcome : StartOutcome := mkStartOutcome None None None (inl 4242).
Definition demo_started : ProcessWrapper :=
  (ProcessWrapper_Start ["PATH=/bin"] demo_options demo_outcome 100 NewProcessWrapper).2.
Definition demo_ops : list wrap_op :=
  [WRead Stdout (chars "one") false; WRead Stderr (chars "warn") true; WTake Stdout;
   WRead Stdout (chars "two") false; WRead Stdout [] true; WClose None; WRecord 200; WTake Stdout].

Lemma wrapper_delivers_witness :
  exists w', wrap_run demo_ops demo_started = Some w' /\ pw_done w' = true /\
  chunks_taken Stdout demo_ops demo_started ++ ch_queue (pw_chan w' Stdout) =
    [chars "one"; chars "two"].
Proof.
  assert (Hd : pw_done <$> wrap_run demo_ops demo_started = Some true) by (vm_compute; reflexivity).
  destruct (wrap_run demo_ops demo_started) as [w'|] eqn:E in Hd; [|discriminate Hd].
  exists w'. split; [exact E|]. split; [by injection Hd|].
  assert (Hf : fresh_start demo_started) by (exists ["PATH=/bin"], demo_options, demo_outcome, 100; eexists; reflexivity).
  assert (Ho : Forall (fun o => is_start o = false) demo_ops) by (repeat constructor).
  destruct (wrapper_delivers demo_started demo_ops w' Hf Ho E) as (_ & _ & H & _).
  apply (H Stdout). vm_compute. reflexivity.
Defined.

(** A wrapper whose process has ended accepts another start, whose output
    then goes to closed channels: the next chunk, or the next reaping, panics. *)
Lemma restart_panics w environ opts os now info w' data err e :
  wrapper_ok w -> pw_done w = true -> data <> [] ->
  ProcessWrapper_Start environ opts os now w = (Ok info, w') ->
  (forall s, pw_panicked (ProcessWrapper_readOutput s data err w') = true) /\
  pw_panicked (waitForExit_close e w') = true.
Proof.
  intros [Ha Hr Hp Hb] Hd Hdata H.
  assert (Hc : forall s, ch_closed (pw_chan w s) = true).
  { destruct (pw_reaper w); [by destruct Hp|destruct Hp; congruence|by destruct Hp]. }
  unfold ProcessWrapper_Start in H. case_decide; [done|]. repeat case_match; try done;
    injection H as <- <-; (split; [intros st|]);
    unfold ProcessWrapper_readOutput, waitForExit_close; cbn; rewrite ?Hc, ?decide_False by done;
    by destruct err.
Qed.
