(* ===== verification/Codex.v ===== *)
(** * The Codex adapter (src/internal/adapter/codex/codex.go)

    Each run is a process under the wrapper and a pump goroutine that turns the
    chunks of its standard output into signals.  The steps of the pumps, of the
    wrappers' goroutines, of the observers and the calls of the core interleave.
    The channel of signals holds 256 and a full one blocks the pump.  The
    operating system's answers are arguments. *)

From S2P Require Import Prelude Env Json GoStrings Domain Adapter Wrapper Plugin Sdk.

(** ** State *)

(** Where a pump is; a signal it is about to send, and whether it returns then. *)
Inductive codex_pc :=
  | CSend (s : sdk_Signal) (last : bool)
  | CLoop
  | CExit                      (** the output channel was closed *)
  | CForget                    (** in the deferred functions *)
  | CClose
  | CGone.

Record codexRun := mkCodexRun {
  xr_id : string;
  xr_sessionID : string;
  xr_proc : ProcessWrapper;
  xr_cancelled : bool;
  xr_pc : codex_pc;
  xr_queue : list sdk_Signal;
  xr_closed : bool;
  xr_received : list sdk_Signal }.

Definition set_xr_proc (w : ProcessWrapper) (r : codexRun) : codexRun :=
  mkCodexRun (xr_id r) (xr_sessionID r) w (xr_cancelled r) (xr_pc r) (xr_queue r) (xr_closed r) (xr_received r).
Definition set_xr_cancelled (r : codexRun) : codexRun :=
  mkCodexRun (xr_id r) (xr_sessionID r) (xr_proc r) true (xr_pc r) (xr_queue r) (xr_closed r) (xr_received r).
Definition set_xr_pc (pc : codex_pc) (r : codexRun) : codexRun :=
  mkCodexRun (xr_id r) (xr_sessionID r) (xr_proc r) (xr_cancelled r) pc (xr_queue r) (xr_closed r) (xr_received r).
Definition set_xr_chan (q : list sdk_Signal) (c : bool) (o : list sdk_Signal) (r : codexRun) : codexRun :=
  mkCodexRun (xr_id r) (xr_sessionID r) (xr_proc r) (xr_cancelled r) (xr_pc r) q c o.

Record CodexAdapter := mkCodexAdapter {
  cx_execPath : string;
  cx_selfCheckResult : option error;
  cx_runs : gmap string nat;         (** pointers *)
  cx_heap : list codexRun;
  cx_env : Env }.

Definition set_cx_runs (m : gmap string nat) (a : CodexAdapter) : CodexAdapter :=
  mkCodexAdapter (cx_execPath a) (cx_selfCheckResult a) m (cx_heap a) (cx_env a).
Definition set_cx_heap (h : list codexRun) (a : CodexAdapter) : CodexAdapter :=
  mkCodexAdapter (cx_execPath a) (cx_selfCheckResult a) (cx_runs a) h (cx_env a).
Definition set_cx_env (e : Env) (a : CodexAdapter) : CodexAdapter :=
  mkCodexAdapter (cx_execPath a) (cx_selfCheckResult a) (cx_runs a) (cx_heap a) e.

Definition cx_now : M CodexAdapter Z := zoom cx_env set_cx_env time_Now.
Definition upd_codex (i : nat) (f : codexRun -> codexRun) : M CodexAdapter unit :=
  modify (fun a => set_cx_heap (alter f i (cx_heap a)) a).

(** ** The adapter without runs *)

Definition codex_manifest : sdk_Manifest :=
  mk_sdk_Manifest "codex" "Codex CLI adapter" "0.1.0" SupportedProtocolRange "codex" ["approvals"; "streaming"] true.
Definition codex_New (execPath : string) (e : Env) : CodexAdapter := mkCodexAdapter execPath None ∅ [] e.

Definition Codex_SetExecPath (p : string) : M CodexAdapter unit :=
  modify (fun a => mkCodexAdapter p (cx_selfCheckResult a) (cx_runs a) (cx_heap a) (cx_env a)).
Definition Codex_SetSelfCheckResult (e : option error) : M CodexAdapter unit :=
  modify (fun a => mkCodexAdapter (cx_execPath a) e (cx_runs a) (cx_heap a) (cx_env a)).

Definition Codex_SelfCheck (a : CodexAdapter) : option error :=
  if decide (cx_execPath a = "") then Some (ErrNew "codex executable not configured") else cx_selfCheckResult a.

Definition Codex_ValidateWorkspace (path : string) : sdk_ValidationResult :=
  if decide (path = "") then mk_sdk_ValidationResult false ["workspace path is empty"] []
  else mk_sdk_ValidationResult true [] [].

Definition Codex_Recover (sessionID : string) : sdk_RecoveryResult :=
  mk_sdk_RecoveryResult false "failed" "codex has no durable resume".
Definition Codex_Drain : option error := None.

(** ** Calls on runs *)

Definition env_pair (kv : string * string) : string := kv.1 +:+ "=" +:+ kv.2.

(** [time.Now().UnixMilli()]. *)
Definition unix_milli (now : Z) : Z := now / Millisecond.

Definition status_signal (now : Z) : sdk_Signal :=
  mk_sdk_Signal "status_change" (JObj [("new_state", JStr "active"); ("old_state", JStr "starting")]) (unix_milli now).
Definition output_signal (data : bytes) (now : Z) : sdk_Signal :=
  mk_sdk_Signal "output" (JObj [("content", JStr (text data)); ("stream", JStr "stdout")]) (unix_milli now).
Definition exit_signal (code now : Z) : sdk_Signal :=
  mk_sdk_Signal "completion" (JObj [("exit_code", JNum code)]) (unix_milli now).

(** [started] and [write] are the operating system's answers.  The pump makes its
    first signal when it runs. *)
Definition Codex_Start (environ : list string) (cfg : StartConfig) (started : StartOutcome) (write : result Z)
    : M CodexAdapter (result sdk_RunHandle) :=
  let! a := get in
  if decide (cx_execPath a = "") then ret (Err (ErrNew "codex executable not configured"))
  else
    let env := environ ++ (env_pair <$> stc_Env cfg) ++ (env_pair <$> stc_Secrets cfg) in
    let! now := cx_now in
    match ProcessWrapper_Start environ (mkWrapperOptions (cx_execPath a) (stc_Args cfg) (stc_WorkspacePath cfg) env)
            started now NewProcessWrapper with
    | (Err e, _) => ret (Err (wrap "starting codex" e))
    | (Ok info, proc) =>
        let id := "codex-run-" +:+ stc_SessionID cfg in
        let! now := cx_now in
        let proc := if decide (stc_InitialPrompt cfg = "") then proc
                    else (ProcessWrapper_WriteInputString (stc_InitialPrompt cfg) write proc).2 in
        let run := mkCodexRun id (stc_SessionID cfg) proc false (CSend (status_signal now) false) [] false [] in
        modify (fun a => set_cx_runs (<[id := length (cx_heap a)]> (cx_runs a)) (set_cx_heap (cx_heap a ++ [run]) a));;;
        ret (Ok (mk_sdk_RunHandle id (stc_SessionID cfg)
                   match ProcessWrapper_Info proc with Some i => pi_PID i | None => 0 end))
    end.

(** The run whose channel is returned; without one, a closed channel. *)
Definition Codex_Observe (run : sdk_RunHandle) (a : CodexAdapter) : option nat := cx_runs a !! sh_ID run.

Definition codex_run (id : string) (a : CodexAdapter) : option (nat * codexRun) :=
  i ← cx_runs a !! id; r ← cx_heap a !! i; Some (i, r).
Definition codex_not_found : sdk_Accepted := mk_sdk_Accepted false "run not found".

Definition Codex_SubmitInput (run : sdk_RunHandle) (prompt : string) (write : result Z) : M CodexAdapter sdk_Accepted :=
  let! found := gets (codex_run (sh_ID run)) in
  match found with
  | None => ret codex_not_found
  | Some (i, r) =>
      let '(res, proc) := ProcessWrapper_WriteInputString prompt write (xr_proc r) in
      upd_codex i (set_xr_proc proc);;;
      ret (match res with Ok _ => mk_sdk_Accepted true "" | Err e => mk_sdk_Accepted false (error_Error e) end)
  end.

Definition Codex_Interrupt (run : sdk_RunHandle) (group process : option string) : M CodexAdapter sdk_Accepted :=
  let! found := gets (codex_run (sh_ID run)) in
  match found with
  | None => ret codex_not_found
  | Some (i, r) =>
      upd_codex i (fun r => set_xr_proc (ProcessWrapper_Kill group process (xr_proc r)).2 (set_xr_cancelled r));;;
      ret (mk_sdk_Accepted true "")
  end.

Definition Codex_DecideApproval (run : sdk_RunHandle) (approvalID : string) (approved : bool) (reason : string) : sdk_Accepted :=
  mk_sdk_Accepted true "".

(** ** The pump *)

Definition codex_cap : nat := 256.

(** One step of the pump of run [i], if it is not blocked.  In the select it takes
    the context when [ctx] says so and the context is cancelled. *)
Definition pump_step (i : nat) (ctx : bool) : M CodexAdapter unit :=
  let! a := get in
  match cx_heap a !! i with
  | None => ret tt
  | Some r =>
      match xr_pc r with
      | CSend s last =>
          if (length (xr_queue r) <? codex_cap)%nat
          then upd_codex i (fun r => set_xr_pc (if last then CForget else CLoop)
                                       (set_xr_chan (xr_queue r ++ [s]) (xr_closed r) (xr_received r) r))
          else ret tt
      | CLoop =>
          if ctx && xr_cancelled r then upd_codex i (set_xr_pc CForget)
          else match wrap_step (WTake Stdout) (xr_proc r), ch_queue (pw_chan (xr_proc r) Stdout) with
               | Some w, data :: _ =>
                   let! now := cx_now in
                   upd_codex i (fun r => set_xr_pc (CSend (output_signal data now) false) (set_xr_proc w r))
               | _, _ => if ch_closed (pw_chan (xr_proc r) Stdout) then upd_codex i (set_xr_pc CExit) else ret tt
               end
      | CExit =>
          let code := match ProcessWrapper_ExitCode (xr_proc r) with (Some c, true) => c | _ => 0 end in
          let! now := cx_now in
          upd_codex i (set_xr_pc (CSend (exit_signal code now) true))
      | CForget =>
          modify (fun a => set_cx_runs (delete (xr_id r) (cx_runs a)) a);;;
          upd_codex i (set_xr_pc CClose)
      | CClose => upd_codex i (fun r => set_xr_pc CGone (set_xr_chan (xr_queue r) true (xr_received r) r))
      | CGone => ret tt
      end
  end.

(** ** Interleavings *)

Inductive codex_op :=
  | XStart (environ : list string) (cfg : StartConfig) (started : StartOutcome) (write : result Z)
  | XProc (i : nat) (o : wrap_op)      (** a goroutine of the wrapper of run [i] *)
  | XPump (i : nat) (ctx : bool)
  | XReceive (i : nat)                 (** the observer takes a signal *)
  | XSubmit (run : sdk_RunHandle) (prompt : string) (write : result Z)
  | XInterrupt (run : sdk_RunHandle) (group process : option string).

(** The goroutines of a wrapper read the pipes and wait for the process. *)
Definition is_goroutine (o : wrap_op) : bool :=
  match o with WRead _ _ _ | WClose _ | WRecord _ => true | _ => false end.

Definition codex_receive (r : codexRun) : codexRun :=
  match xr_queue r with
  | [] => r
  | s :: q => set_xr_chan q (xr_closed r) (xr_received r ++ [s]) r
  end.

Definition codex_do (o : codex_op) : M CodexAdapter unit :=
  match o with
  | XStart environ cfg started write => Codex_Start environ cfg started write;;; ret tt
  | XProc i o =>
      if is_goroutine o
      then upd_codex i (fun r => match wrap_step o (xr_proc r) with Some w => set_xr_proc w r | None => r end)
      else ret tt
  | XPump i ctx => pump_step i ctx
  | XReceive i => upd_codex i codex_receive
  | XSubmit run prompt write => Codex_SubmitInput run prompt write;;; ret tt
  | XInterrupt run group process => Codex_Interrupt run group process;;; ret tt
  end.
Definition codex_ops (l : list codex_op) : M CodexAdapter unit := for_each l codex_do.

(** ** What a run sends *)

Definition payload_of (s : sdk_Signal) : string * json := (sg_Type s, sg_Payload s).
Definition in_flight (pc : codex_pc) : list sdk_Signal := match pc with CSend s _ => [s] | _ => [] end.
(** Received by the observer, waiting for it, or about to be sent. *)
Definition xr_sent (r : codexRun) : list (string * json) := payload_of <$> xr_received r ++ xr_queue r ++ in_flight (xr_pc r).

Definition status_payload : string * json := payload_of (status_signal 0).
Definition output_payload (data : bytes) : string * json := payload_of (output_signal data 0).
Definition exit_payload (code : Z) : string * json := payload_of (exit_signal code 0).

Definition no_start (ops : list wrap_op) : Prop := Forall (fun o => is_start o = false) ops.

(** The readers are through with the pipes and the pump with their chunks. *)
Definition drained (w : ProcessWrapper) : Prop := pw_reaper w <> Draining /\ ch_queue (pw_chan w Stdout) = [].

(** What comes after the output. *)
Definition tail_ok (r : codexRun) (tail : list (string * json)) : Prop :=
  match xr_pc r with
  | CSend _ false | CLoop => tail = []
  | CExit => tail = [] /\ drained (xr_proc r)
  | CSend _ true => exists code, tail = [exit_payload code] /\ drained (xr_proc r)
  | CForget | CClose | CGone =>
      (exists code, tail = [exit_payload code] /\ drained (xr_proc r)) \/ tail = [] /\ xr_cancelled r = true
  end.

(** A run's process started as [w0] and went on by [ops]; its signals are the
    status, a signal for each chunk that was taken, and the tail. *)
Definition story (r : codexRun) (w0 : ProcessWrapper) (ops : list wrap_op) (tail : list (string * json)) : Prop :=
  fresh_start w0 /\ no_start ops /\ wrap_run ops w0 = Some (xr_proc r) /\
  xr_sent r = status_payload :: (output_payload <$> chunks_taken Stdout ops w0) ++ tail /\ tail_ok r tail.

Record codex_run_ok (r : codexRun) : Prop := mk_codex_run_ok {
  cr_story : exists w0 ops tail, story r w0 ops tail;
  cr_gone : xr_closed r = true <-> xr_pc r = CGone;
  cr_bound : (length (xr_queue r) <= codex_cap)%nat
}.
Definition codex_ok (a : CodexAdapter) : Prop := Forall codex_run_ok (cx_heap a).

(** *** The wrapper under the pump *)

Lemma along_app {A} (f : wrap_op -> ProcessWrapper -> list A) l1 l2 w w' :
  wrap_run l1 w = Some w' -> along f (l1 ++ l2) w = along f l1 w ++ along f l2 w'.
Proof.
  revert w. induction l1 as [|o l1 IH]; intros w; cbn [wrap_run along app]; [by intros [= ->]|].
  destruct (wrap_step o w) as [w1|]; [|done]. cbn [mbind option_bind]. intros H. by rewrite (IH _ H), (assoc_L (++)).
Qed.
Lemma wrap_run_snoc ops o w w1 w2 : wrap_run ops w = Some w1 -> wrap_step o w1 = Some w2 -> wrap_run (ops ++ [o]) w = Some w2.
Proof.
  revert w. induction ops as [|p ops IH]; intros w; cbn [wrap_run app].
  - intros [= ->] ->. done.
  - destruct (wrap_step p w) as [w'|]; [|done]. cbn [mbind option_bind]. apply IH.
Qed.

Lemma story_ok r w0 ops tail : story r w0 ops tail -> wrapper_ok (xr_proc r).
Proof. intros (Hf & Hn & Hr & _). eapply wrap_run_ok; [done| |exact Hr]. by apply fresh_start_ok. Qed.

Lemma drained_step o w w' : wrapper_ok w -> is_start o = false -> wrap_step o w = Some w' -> drained w -> drained w'.
Proof.
  intros Hw Ho Hs [Hr Hq]. pose proof (wrap_step_chunks Stdout o w w' Ho Hw Hs) as Hc. rewrite Hq in Hc.
  assert (Hread : forall s, pw_reader w s = false).
  { intros s. destruct (pw_reader w s) eqn:E; [|done]. by destruct (wrapper_ok_running w Hw s E). }
  assert (Hn : read_step Stdout o = [] /\ pw_reaper w' <> Draining).
  { unfold wrap_step in Hs. rewrite (wok_alive w Hw) in Hs. destruct o as [|s data err|e|now|s|g p|data wr]; [done|..].
    - by rewrite Hread in Hs.
    - by destruct (pw_reaper w).
    - destruct (pw_reaper w); try done. injection Hs as <-. split; [done|]. unfold waitForExit_record.
      cbn. by repeat case_match.
    - destruct (ch_queue (pw_chan w s)); [done|]. injection Hs as <-. done.
    - injection Hs as <-. split; [done|]. unfold ProcessWrapper_Kill. by repeat case_match.
    - injection Hs as <-. split; [done|]. unfold ProcessWrapper_WriteInput. by repeat case_match. }
  destruct Hn as [Hn Hr']. split; [done|]. rewrite Hn in Hc. destruct (drop_step Stdout o w); by apply app_eq_nil in Hc as [_ ?].
Qed.

(** A step of the process that is not a receive. *)
Lemma proc_step_ok o w' r : codex_run_ok r -> is_start o = false -> (forall w, take_step Stdout o w = []) ->
  wrap_step o (xr_proc r) = Some w' -> codex_run_ok (set_xr_proc w' r).
Proof.
  intros [(w0 & ops & tail & Hst) Hg Hb] Ho Ht Hs. constructor; [|done|done]. exists w0, (ops ++ [o]), tail.
  pose proof (story_ok _ _ _ _ Hst) as Hw. destruct Hst as (Hf & Hn & Hr & Hsent & Htail).
  split; [done|]. split; [by apply Forall_app; split; [|apply Forall_singleton]|]. split; [by eapply wrap_run_snoc|]. split.
  - change (xr_sent (set_xr_proc w' r)) with (xr_sent r). rewrite Hsent. unfold chunks_taken.
    rewrite (along_app _ _ _ _ _ Hr). cbn [along]. rewrite Hs. cbn. by rewrite Ht, !app_nil_r.
  - unfold tail_ok in *. cbn [xr_pc set_xr_proc xr_proc xr_cancelled]. pose proof (drained_step o _ w' Hw Ho Hs) as Hd.
    destruct (xr_pc r) as [s [] | | | | |]; naive_solver.
Qed.

Lemma alter_ok i f a : codex_ok a -> (forall r, codex_run_ok r -> codex_run_ok (f r)) -> wp (upd_codex i f) a (fun _ a' => codex_ok a').
Proof.
  intros Hok Hf. change (Forall codex_run_ok (alter f i (cx_heap a))). rewrite Forall_lookup. intros j r.
  destruct (decide (j = i)) as [->|Hne]; [rewrite list_lookup_alter_eq|rewrite list_lookup_alter_ne by done; by apply (Forall_lookup_1 _ _ _ _ Hok)].
  destruct (cx_heap a !! i) as [q|] eqn:Eq; [|done]. intros [= <-]. by apply Hf, (Forall_lookup_1 _ _ _ _ Hok Eq).
Qed.
(** The same, for what is known of the run in its place. *)
Lemma alter_at i f a r : codex_ok a -> cx_heap a !! i = Some r -> codex_run_ok (f r) -> wp (upd_codex i f) a (fun _ a' => codex_ok a').
Proof.
  intros Hok Hr Hf. change (Forall codex_run_ok (alter f i (cx_heap a))). rewrite Forall_lookup. intros j q.
  destruct (decide (j = i)) as [->|Hne]; [rewrite list_lookup_alter_eq, Hr; by intros [= <-]|].
  rewrite list_lookup_alter_ne by done. by apply (Forall_lookup_1 _ _ _ _ Hok).
Qed.

Lemma wp_cx_now a Q : (forall now e, Q now (set_cx_env e a)) -> wp cx_now a Q.
Proof. intros HQ. apply HQ. Qed.

(** Nothing to take: the pump stops once the channel is closed. *)
Lemma closed_out i a r : codex_ok a -> cx_heap a !! i = Some r -> xr_pc r = CLoop ->
  (wrap_step (WTake Stdout) (xr_proc r) = None \/ ch_queue (pw_chan (xr_proc r) Stdout) = []) ->
  wp (if ch_closed (pw_chan (xr_proc r) Stdout) then upd_codex i (set_xr_pc CExit) else ret tt) a (fun _ a' => codex_ok a').
Proof.
  intros Hok Hr Hpc Hno. destruct (Forall_lookup_1 _ _ _ _ Hok Hr) as [(w0 & ops & tail & Hst) Hg Hb].
  pose proof (story_ok _ _ _ _ Hst) as Hw. pose proof Hst as (Hf & Hn & Hrun & Hsent & Htail). unfold tail_ok in Htail. rewrite Hpc in Htail.
  destruct (ch_closed _) eqn:Ec; [|by rewrite wp_ret]. apply (alter_at i _ a r); [done|done|]. rewrite Hpc in Hg.
  constructor; [|cbn; rewrite Hg; done|done]. exists w0, ops, tail. split_and!; [done|done|done| |].
  - unfold xr_sent in *. by rewrite Hpc in Hsent.
  - split; [done|]. split.
    + cbn. intros Hd. pose proof (wok_reaper _ Hw) as H. rewrite Hd in H. destruct H as [H _]. by rewrite H in Ec.
    + destruct Hno as [Hno|Hno]; [|done]. unfold wrap_step in Hno. rewrite (wok_alive _ Hw) in Hno. cbn. by destruct (ch_queue _).
Qed.

Lemma wp_pump_step i ctx a : codex_ok a -> wp (pump_step i ctx) a (fun _ a' => codex_ok a').
Proof.
  intros Hok. unfold pump_step. rewrite wp_bind, wp_get. destruct (cx_heap a !! i) as [r|] eqn:Hr; [|by rewrite wp_ret].
  destruct (Forall_lookup_1 _ _ _ _ Hok Hr) as [(w0 & ops & tail & Hst) Hg Hb].
  pose proof (story_ok _ _ _ _ Hst) as Hw. pose proof Hst as (Hf & Hn & Hrun & Hsent & Htail). unfold tail_ok in Htail.
  unfold xr_sent in Hsent.
  destruct (xr_pc r) as [s last| | | | |] eqn:Hpc.
  - destruct (_ <? _)%nat eqn:El; [|by rewrite wp_ret]. apply Nat.ltb_lt in El. apply (alter_at i _ a r); [done|done|].
    constructor; [|cbn; rewrite Hg; by destruct last|cbn; rewrite length_app; cbn; lia].
    exists w0, ops, tail. split_and!; [done|done|done| |].
    + unfold xr_sent. cbn -[app fmap]. rewrite <- Hsent. f_equal. destruct last; cbn; by rewrite app_nil_r.
    + unfold tail_ok. cbn. destruct last; cbn; [by left|done].
  - destruct (ctx && xr_cancelled r) eqn:Ec.
    + apply (alter_at i _ a r); [done|done|]. constructor; [|cbn; rewrite Hg; done|done]. exists w0, ops, tail.
      split_and!; [done|done|done| |]; [exact Hsent|]. right. split; [done|]. by apply andb_prop in Ec as [_ ?].
    + destruct (wrap_step (WTake Stdout) (xr_proc r)) as [w|] eqn:Es, (ch_queue (pw_chan (xr_proc r) Stdout)) as [|data q] eqn:Eq;
        try (by apply (closed_out i a r); auto).
      rewrite wp_bind. apply wp_cx_now. intros now e. apply (alter_at i _ (set_cx_env e a) r); [exact Hok|exact Hr|].
      constructor; [|cbn; rewrite Hg; done|done]. exists w0, (ops ++ [WTake Stdout]), tail. subst tail.
      split; [done|]. split; [by apply Forall_app; split; [|apply Forall_singleton]|]. split; [by eapply wrap_run_snoc|]. split; [|done].
      unfold xr_sent. cbn -[app fmap]. unfold chunks_taken. rewrite (along_app _ _ _ _ _ Hrun). cbn [along]. rewrite Es.
      unfold take_step at 2. rewrite decide_True, Eq by done. rewrite app_assoc, fmap_app. cbn in Hsent. rewrite app_nil_r in Hsent.
      rewrite Hsent, fmap_app, !app_nil_r. reflexivity.
  - rewrite wp_bind. apply wp_cx_now. intros now e. apply (alter_at i _ (set_cx_env e a) r); [exact Hok|exact Hr|].
    destruct Htail as [-> Hd]. constructor; [|cbn; rewrite Hg; done|done].
    eexists w0, ops, [_]. split_and!; [done|done|done| |].
    + unfold xr_sent. cbn -[app fmap]. rewrite app_assoc, fmap_app. cbn in Hsent. rewrite app_nil_r in Hsent. rewrite Hsent.
      rewrite app_nil_r. reflexivity.
    + eexists. by split.
  - rewrite wp_bind, wp_modify. apply (alter_at i _ (set_cx_runs (delete (xr_id r) (cx_runs a)) a) r); [exact Hok|exact Hr|].
    constructor; [|cbn; rewrite Hg; done|done]. exists w0, ops, tail. by split_and!.
  - apply (alter_at i _ a r); [done|done|]. constructor; [|done|done]. exists w0, ops, tail. by split_and!.
  - by rewrite wp_ret.
Qed.

Lemma codex_start_ok environ cfg started write a : codex_ok a ->
  wp (Codex_Start environ cfg started write) a (fun _ a' => codex_ok a').
Proof.
  intros Hok. unfold Codex_Start. rewrite wp_bind, wp_get. case_decide; [by rewrite wp_ret|].
  rewrite wp_bind. apply wp_cx_now. intros now e.
  destruct (ProcessWrapper_Start _ _ _ _ _) as [[info|err] proc] eqn:Ep; [|by rewrite wp_ret].
  rewrite wp_bind. apply wp_cx_now. intros now2 e2. rewrite wp_bind, wp_modify, wp_ret.
  apply Forall_app. split; [exact Hok|]. apply Forall_singleton.
  assert (Hf : fresh_start proc) by by eexists _, _, _, _, _.
  set (r0 := mkCodexRun ("codex-run-" +:+ stc_SessionID cfg) (stc_SessionID cfg) proc false (CSend (status_signal now2) false) [] false []).
  assert (H0 : codex_run_ok r0).
  { constructor; [|done|cbn; unfold codex_cap; lia]. exists proc, [], []. split_and!; [done|by apply Forall_nil|done|done|done]. }
  case_decide; [exact H0|]. set (proc' := (ProcessWrapper_WriteInputString _ _ _).2).
  apply (proc_step_ok (WWrite (chars (stc_InitialPrompt cfg) ++ [newline]) write) proc' r0 H0); [done|done|].
  destruct (fresh_start_ok proc Hf) as [Hw _]. unfold wrap_step. cbn [xr_proc r0]. by rewrite (wok_alive _ Hw).
Qed.

Lemma alive_step o r : codex_run_ok r -> wrap_step o (xr_proc r) = match o with
  | WWrite data write => Some (ProcessWrapper_WriteInput data write (xr_proc r)).2
  | WKill group process => Some (ProcessWrapper_Kill group process (xr_proc r)).2
  | o => wrap_step o (xr_proc r) end.
Proof.
  intros [(w0 & ops & tail & Hst) _ _]. pose proof (story_ok _ _ _ _ Hst) as Hw. destruct o; try done; unfold wrap_step; by rewrite (wok_alive _ Hw).
Qed.

Lemma cancelled_ok r : codex_run_ok r -> codex_run_ok (set_xr_cancelled r).
Proof.
  intros [(w0 & ops & tail & Hf & Hn & Hr & Hs & Ht) Hg Hb]. constructor; [|done|done]. exists w0, ops, tail.
  split_and!; [done|done|done|done|]. unfold tail_ok in *. cbn. destruct (xr_pc r) as [? []| | | | |]; naive_solver.
Qed.
Lemma codex_receive_ok r : codex_run_ok r -> codex_run_ok (codex_receive r).
Proof.
  intros Hok. unfold codex_receive. destruct (xr_queue r) as [|s q] eqn:Eq; [done|]. destruct Hok as [(w0 & ops & tail & Hf & Hn & Hr & Hs & Ht) Hg Hb].
  constructor; [|done|cbn; rewrite Eq in Hb; cbn in Hb; lia]. exists w0, ops, tail. split_and!; [done|done|done| |exact Ht].
  rewrite <- Hs. unfold xr_sent. cbn [xr_received xr_queue xr_pc set_xr_chan]. by rewrite Eq, <- (assoc_L (++)).
Qed.

Lemma wp_codex_do o a : codex_ok a -> wp (codex_do o) a (fun _ a' => codex_ok a').
Proof.
  intros Hok. destruct o as [environ cfg started write|i o|i ctx|i|run prompt write|run group process]; cbn [codex_do].
  - rewrite wp_bind. eapply wp_mono; [by apply codex_start_ok|]. intros res a' H. by rewrite wp_ret.
  - destruct (is_goroutine o) eqn:Ho; [|by rewrite wp_ret]. apply alter_ok; [done|]. intros r Hr.
    destruct (wrap_step o (xr_proc r)) as [w|] eqn:Es; [|done]. eapply proc_step_ok; [done| | |exact Es]; by destruct o.
  - by apply wp_pump_step.
  - apply alter_ok; [done|]. apply codex_receive_ok.
  - rewrite wp_bind. unfold Codex_SubmitInput. rewrite wp_bind, wp_gets. unfold codex_run.
    destruct (cx_runs a !! sh_ID run) as [i|]; cbn; [|by rewrite !wp_ret].
    destruct (cx_heap a !! i) as [r|] eqn:Hr; cbn; [|by rewrite !wp_ret].
    destruct (ProcessWrapper_WriteInputString prompt write (xr_proc r)) as [res proc] eqn:Ew. rewrite wp_bind.
    pose proof (Forall_lookup_1 _ _ _ _ Hok Hr) as Hro.
    eapply wp_mono; [apply (alter_at i _ a r Hok Hr)|intros [] a' H; by rewrite !wp_ret].
    apply (proc_step_ok (WWrite (chars prompt ++ [newline]) write)); [done|done|done|]. rewrite alive_step by done.
    unfold ProcessWrapper_WriteInputString in Ew. by rewrite Ew.
  - rewrite wp_bind. unfold Codex_Interrupt. rewrite wp_bind, wp_gets. unfold codex_run.
    destruct (cx_runs a !! sh_ID run) as [i|]; cbn; [|by rewrite !wp_ret].
    destruct (cx_heap a !! i) as [r|] eqn:Hr; cbn; [|by rewrite !wp_ret]. rewrite wp_bind.
    eapply wp_mono; [apply (alter_ok i _ a Hok)|intros [] a' H; by rewrite !wp_ret].
    intros q Hq. apply (proc_step_ok (WKill group process) _ (set_xr_cancelled q)); [by apply cancelled_ok|done|done|].
    by rewrite alive_step by by apply cancelled_ok.
Qed.


(** ** Concrete runs *)

Definition demo_codex_config : StartConfig := mkStartConfig "s1" "/srv/demo" "hello" ["--json"] [] [("OPENAI_API_KEY", "secret")].
Definition demo_codex_start : codex_op := XStart ["PATH=/bin"] demo_codex_config (mkStartOutcome None None None (inl 4242)) (Ok 6).
(** The process prints, closes its pipes and exits with status 1. *)
Definition demo_codex_exit (i : nat) : list codex_op :=
  [XProc i (WRead Stdout (chars "out") false); XProc i (WRead Stdout [] true); XProc i (WRead Stderr [] true);
   XProc i (WClose (Some (ExitError 1 "exit status 1")))].
Definition demo_codex (ops : list codex_op) : CodexAdapter := (codex_ops ops (codex_New "/usr/bin/codex" steady_env)).2.

Definition demo_codex_run : list codex_op := demo_codex_start :: demo_codex_exit 0 ++ replicate 10 (XPump 0 false).


(** The pump does not wait for the exit to be recorded: between the closing of the
    channels and that, it reports exit code 0 for a process that failed. *)
Example failed_process_reported_as_zero :
  let a := demo_codex (demo_codex_start :: demo_codex_exit 0 ++ replicate 6 (XPump 0 false) ++
    [XProc 0 (WRecord 0); XPump 0 false; XPump 0 false]) in
  (fun r => (last (xr_sent r), pw_exitCode (xr_proc r))) <$> cx_heap a !! 0%nat = Some (Some (exit_payload 0), Some 1%Z).
Proof. vm_compute. reflexivity. Qed.

(** A run that ends before it is observed is forgotten with its signals: the
    observer gets a closed channel. *)
Example fast_run_unobserved :
  let a := demo_codex (demo_codex_start :: demo_codex_exit 0 ++ [XProc 0 (WRecord 0)] ++ replicate 10 (XPump 0 false)) in
  ((fun r => length (xr_queue r)) <$> cx_heap a !! 0%nat, Codex_Observe (mk_sdk_RunHandle "codex-run-s1" "s1" 4242) a) = (Some 3%nat, None).
Proof. vm_compute. reflexivity. Qed.

(** Two runs of one session share an id: the end of the first one takes the second
    one, whose process goes on, out of the adapter. *)
Example second_run_forgotten :
  let a := demo_codex ([demo_codex_start; demo_codex_start] ++ demo_codex_exit 0 ++ replicate 10 (XPump 0 false)) in
  (pw_state ∘ xr_proc <$> cx_heap a !! 1%nat, (Codex_Interrupt (mk_sdk_RunHandle "codex-run-s1" "s1" 4242) None None a).1) =
  (Some StateRunning, mk_sdk_Accepted false "run not found").
Proof. vm_compute. reflexivity. Qed.
