(* ===== verification/Claude.v ===== *)
(** * The Claude Code adapter (src/internal/adapter/claude/claude.go)

    A run is a process under the wrapper, a pump goroutine that turns what the
    process prints into signals, and a permission server whose handlers park
    until the operator decides.  Runs are pointers, since the pump and the
    handlers keep a run that the adapter no longer lists.

    The observer of a run is an oracle saying how many signals it has received
    before each send; the operating system's answers (starting the process,
    pipes, signals, the permission server's files) are another one. *)

From S2P Require Import Prelude Env Json GoStrings JsonText Paths Domain Adapter OutputParser.
From S2P Require Import McpPerm Wrapper.

(** ** The command line and the environment *)

Definition is_claude (execPath : string) : bool :=
  strings_Contains (filepath_Base execPath) "claude".

Definition names_output_format (a : string) : bool :=
  strings_HasPrefix a "--output-format" || bool_decide (a = "--print") || bool_decide (a = "-p").

Definition buildArgs (execPath : string) (input : Input) : list string :=
  let args := in_Args input in
  if is_claude execPath && negb (existsb names_output_format args)
  then args ++ ["-p"; "--output-format"; "stream-json"; "--input-format"; "stream-json"; "--verbose"]
  else args.

Definition env_entry (kv : string * string) : string := kv.1 +:+ "=" +:+ kv.2.
Definition buildEnv (environ : list string) (input : Input) : list string :=
  environ ++ map env_entry (in_Env input) ++ map env_entry (in_Secrets input).

(** ** What is written to the process *)

Definition user_message (prompt : string) : payload :=
  [("type", JStr "user");
   ("message", JObj [("role", JStr "user");
      ("content", JArr [JObj [("type", JStr "text"); ("text", JStr prompt)]])])].

Definition streamJSONUserMessage (prompt : string) : bytes :=
  json_bytes (JObj (user_message prompt)) ++ [newline].

Definition writePrompt (streamJSON : bool) (prompt : string) (write : result Z)
    : M ProcessWrapper (result Z) :=
  if streamJSON then ProcessWrapper_WriteInput (streamJSONUserMessage prompt) write
  else ProcessWrapper_WriteInputString prompt write.

Definition approvalDecisionLine (approved : bool) (reason : string) : bytes :=
  let decision := JStr (if approved then "approve" else "deny") in
  json_bytes (JObj (("decision", decision) ::
    (if decide (reason = "") then [] else [("reason", JStr reason)]))) ++ [newline].

(** ** A run *)

Definition signals_cap : nat := 256.

Record claudeRun := mkClaudeRun {
  cr_handle : RunHandle;
  cr_proc : ProcessWrapper;
  cr_signals : list AdapterSignal;    (** the channel *)
  cr_closed : bool;
  cr_observed : list AdapterSignal;   (** what its observer has received *)
  cr_takes : nat -> nat;              (** what it receives before each send *)
  cr_sends : nat;
  cr_startedAt : Z;
  cr_streamJSONInput : bool;
  cr_permTmpDir : option string;      (** the permission server, while it runs *)
  cr_chans : list (option mcpperm_Decision);  (** the channels of permission handlers *)
  cr_parked : gmap string nat
}.

Definition set_cr_proc (p : ProcessWrapper) (r : claudeRun) : claudeRun :=
  mkClaudeRun (cr_handle r) p (cr_signals r) (cr_closed r) (cr_observed r) (cr_takes r) (cr_sends r)
    (cr_startedAt r) (cr_streamJSONInput r) (cr_permTmpDir r) (cr_chans r) (cr_parked r).
Definition set_cr_signals (q : list AdapterSignal) (r : claudeRun) : claudeRun :=
  mkClaudeRun (cr_handle r) (cr_proc r) q (cr_closed r) (cr_observed r) (cr_takes r) (cr_sends r)
    (cr_startedAt r) (cr_streamJSONInput r) (cr_permTmpDir r) (cr_chans r) (cr_parked r).
Definition set_cr_closed (r : claudeRun) : claudeRun :=
  mkClaudeRun (cr_handle r) (cr_proc r) (cr_signals r) true (cr_observed r) (cr_takes r) (cr_sends r)
    (cr_startedAt r) (cr_streamJSONInput r) (cr_permTmpDir r) (cr_chans r) (cr_parked r).
Definition set_cr_permTmpDir (d : option string) (r : claudeRun) : claudeRun :=
  mkClaudeRun (cr_handle r) (cr_proc r) (cr_signals r) (cr_closed r) (cr_observed r) (cr_takes r)
    (cr_sends r) (cr_startedAt r) (cr_streamJSONInput r) d (cr_chans r) (cr_parked r).
Definition set_cr_chans (cs : list (option mcpperm_Decision)) (r : claudeRun) : claudeRun :=
  mkClaudeRun (cr_handle r) (cr_proc r) (cr_signals r) (cr_closed r) (cr_observed r) (cr_takes r)
    (cr_sends r) (cr_startedAt r) (cr_streamJSONInput r) (cr_permTmpDir r) cs (cr_parked r).
Definition set_cr_parked (p : gmap string nat) (r : claudeRun) : claudeRun :=
  mkClaudeRun (cr_handle r) (cr_proc r) (cr_signals r) (cr_closed r) (cr_observed r) (cr_takes r)
    (cr_sends r) (cr_startedAt r) (cr_streamJSONInput r) (cr_permTmpDir r) (cr_chans r) p.

(** The observer receives before the next send. *)
Definition observe (r : claudeRun) : claudeRun :=
  let n := cr_takes r (cr_sends r) in
  mkClaudeRun (cr_handle r) (cr_proc r) (drop n (cr_signals r)) (cr_closed r)
    (cr_observed r ++ take n (cr_signals r)) (cr_takes r) (S (cr_sends r))
    (cr_startedAt r) (cr_streamJSONInput r) (cr_permTmpDir r) (cr_chans r) (cr_parked r).

(** Non-blocking: a full channel drops the signal; the answer is false when
    the channel was closed, and the code panics.  The channel [done] of the
    select is never closed. *)
Definition send (sig : AdapterSignal) : M claudeRun bool := fun r =>
  let r := observe r in
  if cr_closed r then (false, r)
  else if (length (cr_signals r) <? signals_cap)%nat
  then (true, set_cr_signals (cr_signals r ++ [sig]) r)
  else (true, r).

(** ** Permission requests of a run *)

(** A raw message as text; a decoded request carries none that is invalid. *)
Definition raw_text (m : RawMessage) : string :=
  match m with RawJSON v => json_text v | _ => "" end.

Definition handlePermission_signal (now : Z) (req : PermissionRequest) : AdapterSignal :=
  mkAdapterSignal SignalApprovalRequest (pr_Session req) now
    (RawJSON (encode_ApprovalRequestPayload (mkApprovalRequestPayload (pr_ToolUseID req) "tool_use"
      (pr_ToolName req) (raw_text (pr_Input req))
      (Some [("tool_name", JStr (strings_coerce (pr_ToolName req)))]) (5 * Minute)))).

Definition new_decision_chan : M claudeRun nat := fun r =>
  (length (cr_chans r), set_cr_chans (cr_chans r ++ [None]) r).

Definition handlePermission_park (req : PermissionRequest) (ch : nat) : M claudeRun unit :=
  modify (fun r => set_cr_parked (<[pr_ToolUseID req := ch]> (cr_parked r)) r).

(** The deferred function of a handler. *)
Definition handlePermission_unpark (req : PermissionRequest) : M claudeRun unit :=
  modify (fun r => set_cr_parked (delete (pr_ToolUseID req) (cr_parked r)) r).

(** A send to a channel of capacity one that does not block. *)
Definition offer (d : mcpperm_Decision) (ch : nat) (cs : list (option mcpperm_Decision)) : list (option mcpperm_Decision) :=
  alter (fun c => Some (default d c)) ch cs.

Definition resolveParked (toolUseID : string) (d : mcpperm_Decision) : M claudeRun bool := fun r =>
  match cr_parked r !! toolUseID with
  | None => (false, r)
  | Some ch => (true, set_cr_parked (delete toolUseID (cr_parked r))
                        (set_cr_chans (offer d ch (cr_chans r)) r))
  end.

Definition run_ended : mcpperm_Decision := mkDecision false "CAR: run ended (fail-closed)" None.
Definition timed_out : mcpperm_Decision := mkDecision false "CAR: approval timed out (fail-closed)" None.
Definition run_not_found : mcpperm_Decision := mkDecision false "CAR: run not found (fail-closed)" None.

Definition cleanupPermission : M claudeRun unit :=
  modify (fun r =>
    set_cr_permTmpDir None (set_cr_parked ∅ (set_cr_chans
      (fold_left (fun cs ch => offer run_ended ch cs) (map_to_list (cr_parked r)).*2 (cr_chans r)) r))).

(** ** The pump *)

Record PumpState := mkPumpState {
  pm_env : Env;
  pm_parser : OutputParser;
  pm_degraded : bool;
  pm_run : claudeRun
}.

Definition pump_Now : M PumpState Z :=
  zoom pm_env (fun e s => mkPumpState e (pm_parser s) (pm_degraded s) (pm_run s)) time_Now.
Definition pump_run {A} (m : M claudeRun A) : M PumpState A :=
  zoom pm_run (fun r s => mkPumpState (pm_env s) (pm_parser s) (pm_degraded s) r) m.

(** A signal of the run; the pump is alive, so the channel is open. *)
Definition emit_signal (now : Z) (typ : string) (p : json) : M PumpState unit :=
  let! r := gets pm_run in
  let! _ := pump_run (send (mkAdapterSignal typ (rh_SessionID (cr_handle r)) now (RawJSON p))) in
  ret tt.

Definition degraded_payload : DiagnosticPayload :=
  mkDiagnosticPayload "warn"
    "adapter.compatibility_degraded: parsing confidence low; unsafe features disabled".

Definition markDegraded : M PumpState unit :=
  let! degraded := gets pm_degraded in
  if degraded then ret tt
  else
    modify (fun s => mkPumpState (pm_env s) (SetCompatibilityDegraded true (pm_parser s)) true (pm_run s));;;
    let! now := pump_Now in
    emit_signal now SignalDiagnostic (encode_DiagnosticPayload degraded_payload).

Definition encode_EventPayload (p : EventPayload) : json :=
  match p with
  | POutput p => encode_OutputPayload p
  | PApproval p => encode_ApprovalRequestPayload p
  | PError p => encode_ErrorPayload p
  | PDiagnostic p => encode_DiagnosticPayload p
  | PCompletion p => encode_CompletionPayload p
  | PJson v => v
  end.

Definition emitParsed (ev : ParsedEvent) : M PumpState unit :=
  let! now := pump_Now in
  (if decide (pe_Type ev = SignalError) then markDegraded else ret tt);;;
  emit_signal now (pe_Type ev) (encode_EventPayload (pe_Payload ev)).

Definition emitStderr (data : bytes) : M PumpState unit :=
  let! now := pump_Now in
  emit_signal now SignalOutput (encode_OutputPayload (mkOutputPayload (text data) "stderr")).

(** The chunks in the order in which they are received; the answer is what
    is pending. *)
Fixpoint pump_loop (items : list (stream * bytes)) (pending : bytes) : M PumpState bytes :=
  match items with
  | [] => ret pending
  | (Stdout, data) :: items =>
      let! p := gets pm_parser in
      let '(events, rest) := ParseBuffer p data false in
      for_each events emitParsed;;;
      pump_loop items (pending ++ rest)
  | (Stderr, data) :: items =>
      emitStderr data;;;
      pump_loop items pending
  end.

Definition flush (pending : bytes) : M PumpState unit :=
  if decide (pending = []) then ret tt
  else let! p := gets pm_parser in for_each (ParseBuffer p pending true).1 emitParsed.

(** After [Wait]: the wrapper has recorded the exit. *)
Definition emitCompletion : M PumpState unit :=
  let! r := gets pm_run in
  match ProcessWrapper_ExitCode (cr_proc r) with
  | (Some code, true) =>
      let! now := pump_Now in
      let! since := pump_Now in
      emit_signal now SignalCompletion (encode_CompletionPayload (mkCompletionPayload code ""
        (Z.quot (time_Sub since (cr_startedAt r)) Millisecond)));;;
      let! now := pump_Now in
      emit_signal now SignalStatusChange (encode_StatusChangePayload (mkStatusChangePayload RunStateActive
        (if decide (code = 0) then RunStateCompleted else RunStateFailed) ""))
  | _ => ret tt
  end.

(** Up to the deferred functions; a cancelled context stops it at once. *)
Definition pump_body (items : list (stream * bytes)) (cancelled : bool) : M PumpState unit :=
  let! pending := pump_loop items [] in
  if cancelled then ret tt else flush pending;;; emitCompletion.

(** ** The adapter *)

(** What the operating system answers during one call. *)
Record OSAnswer := mkOSAnswer {
  oa_environ : list string;
  oa_MkdirTemp : string + string;
  oa_WriteFile : option string;
  oa_Listen : option string;
  oa_Start : StartOutcome;
  oa_Write : result Z;
  oa_Signal : option string;
  oa_Kill : option string * option string;
  oa_observer : nat -> nat          (** the observer of a run that starts *)
}.

Record ClaudeAdapter := mkClaudeAdapter {
  ca_env : Env;
  ca_os : nat -> OSAnswer;
  ca_calls : nat;
  ca_parser : OutputParser;
  ca_degraded : bool;
  ca_execPath : string;
  ca_mcpPermPath : string;
  ca_runs : gmap string nat;        (** pointers *)
  ca_heap : list claudeRun
}.

Definition set_ca_env (e : Env) (a : ClaudeAdapter) : ClaudeAdapter :=
  mkClaudeAdapter e (ca_os a) (ca_calls a) (ca_parser a) (ca_degraded a) (ca_execPath a)
    (ca_mcpPermPath a) (ca_runs a) (ca_heap a).
Definition set_ca_runs (m : gmap string nat) (a : ClaudeAdapter) : ClaudeAdapter :=
  mkClaudeAdapter (ca_env a) (ca_os a) (ca_calls a) (ca_parser a) (ca_degraded a) (ca_execPath a)
    (ca_mcpPermPath a) m (ca_heap a).
Definition set_ca_heap (h : list claudeRun) (a : ClaudeAdapter) : ClaudeAdapter :=
  mkClaudeAdapter (ca_env a) (ca_os a) (ca_calls a) (ca_parser a) (ca_degraded a) (ca_execPath a)
    (ca_mcpPermPath a) (ca_runs a) h.

Definition claude_New (env : Env) (os : nat -> OSAnswer) (execPath : string) : ClaudeAdapter :=
  mkClaudeAdapter env os 0 NewOutputParser false execPath "" ∅ [].

Definition SetExecPath (p : string) : M ClaudeAdapter unit :=
  modify (fun a => mkClaudeAdapter (ca_env a) (ca_os a) (ca_calls a) (ca_parser a) (ca_degraded a) p
                     (ca_mcpPermPath a) (ca_runs a) (ca_heap a)).
Definition SetMCPPermPath (p : string) : M ClaudeAdapter unit :=
  modify (fun a => mkClaudeAdapter (ca_env a) (ca_os a) (ca_calls a) (ca_parser a) (ca_degraded a)
                     (ca_execPath a) p (ca_runs a) (ca_heap a)).

Definition claude_Now : M ClaudeAdapter Z := zoom ca_env set_ca_env time_Now.
Definition os_answer : M ClaudeAdapter OSAnswer := fun a =>
  (ca_os a (ca_calls a),
   mkClaudeAdapter (ca_env a) (ca_os a) (S (ca_calls a)) (ca_parser a) (ca_degraded a)
     (ca_execPath a) (ca_mcpPermPath a) (ca_runs a) (ca_heap a)).

(** Follow the pointer to a run; it is never nil. *)
Definition on_run {A} (i : nat) (nil : A) (m : M claudeRun A) : M ClaudeAdapter A := fun a =>
  match ca_heap a !! i with
  | None => (nil, a)
  | Some r => let '(x, r') := m r in (x, set_ca_heap (<[i := r']> (ca_heap a)) a)
  end.
Definition on_proc {A} (m : M ProcessWrapper A) : M claudeRun A := zoom cr_proc set_cr_proc m.

Definition runFor (id : string) : M ClaudeAdapter (option nat) := gets (fun a => ca_runs a !! id).

(** *** Starting *)

Record PermissionSetup := mkPermissionSetup {
  ps_Args : list string;
  ps_TmpDir : string;
  ps_Config : json                  (** the content of mcp.json *)
}.

Definition permission_config (mcpPermPath socketPath sessionID : string) : json :=
  JObj [("mcpServers", JObj [("car", JObj
    [("args", JArr [JStr "--socket"; JStr socketPath; JStr "--session"; JStr sessionID]);
     ("command", JStr mcpPermPath)])])].

Definition setupPermissionServer (mcpPermPath sessionID : string) (os : OSAnswer)
    : result (option PermissionSetup) :=
  if decide (mcpPermPath = "") then Ok None
  else match oa_MkdirTemp os with
       | inr e => Err (ErrNew e)
       | inl tmpDir =>
           let socketPath := filepath_Join tmpDir "perm.sock" in
           let cfgPath := filepath_Join tmpDir "mcp.json" in
           match oa_WriteFile os, oa_Listen os with
           | Some e, _ | None, Some e => Err (ErrNew e)
           | None, None =>
               Ok (Some (mkPermissionSetup
                 ["--permission-mode"; "default"; "--strict-mcp-config";
                  "--permission-prompt-tool"; "mcp__car__approve"; "--mcp-config"; cfgPath]
                 tmpDir (permission_config mcpPermPath socketPath sessionID)))
           end
       end.

Definition active_payload : json :=
  encode_StatusChangePayload (mkStatusChangePayload "starting" RunStateActive "").

(** Claude's [Start]; when the permission server cannot be set up the run
    goes on without it. *)
Definition ClaudeAdapter_Start (session : Session) (input : Input)
    : M ClaudeAdapter (result RunHandle) :=
  let! execPath := gets ca_execPath in
  if decide (execPath = "")
  then ret (Err (ErrNew "claude executable not configured (self-check failed)"))
  else if decide (in_WorkspacePath input = "")
  then ret (Err (ErrNew "workspace path is required"))
  else if negb (filepath_IsAbs (in_WorkspacePath input))
  then ret (Err (ErrNew "workspace path must be absolute"))
  else
    let! os := os_answer in
    let! mcpPermPath := gets ca_mcpPermPath in
    let perm := match setupPermissionServer mcpPermPath (s_ID session) os with
                | Ok p => p | Err _ => None end in
    let args := buildArgs execPath input ++ match perm with Some p => ps_Args p | None => [] end in
    let opts := mkWrapperOptions execPath args (in_WorkspacePath input)
                  (buildEnv (oa_environ os) input) in
    let! spawned := claude_Now in
    match ProcessWrapper_Start (oa_environ os) opts (oa_Start os) spawned NewProcessWrapper with
    | (Err e, _) => ret (Err (wrap "starting claude" e))
    | (Ok info, proc) =>
        let! now := claude_Now in
        let handle := mkRunHandle ("run-" +:+ s_ID session) (s_ID session) (pi_PID info) now in
        let run := mkClaudeRun handle proc [] false [] (oa_observer os) 0 now (is_claude execPath)
                     (ps_TmpDir <$> perm) [] ∅ in
        let! i := gets (fun a => length (ca_heap a)) in
        modify (fun a => set_ca_runs (<[rh_ID handle := i]> (ca_runs a))
                           (set_ca_heap (ca_heap a ++ [run]) a));;;
        (if decide (in_InitialPrompt input = "") then ret tt
         else on_run i (Ok 0) (on_proc (writePrompt (is_claude execPath) (in_InitialPrompt input)
                (oa_Write os)));;; ret tt);;;
        let! now := claude_Now in
        let active := mkAdapterSignal SignalStatusChange (s_ID session) now (RawJSON active_payload) in
        on_run i tt (modify (fun r => set_cr_signals (cr_signals r ++ [active]) r));;;
        ret (Ok handle)
    end.

(** *** Requests on a run *)

Definition not_found : Accepted := mkAccepted false "run not found".

Definition ClaudeAdapter_SubmitInput (run : RunHandle) (prompt : string) : M ClaudeAdapter Accepted :=
  let! found := runFor (rh_ID run) in
  match found with
  | None => ret not_found
  | Some i =>
      let! os := os_answer in
      let! res := on_run i (Ok 0) (let! r := get in
        on_proc (writePrompt (cr_streamJSONInput r) prompt (oa_Write os))) in
      ret (match res with
           | Ok _ => mkAccepted true ""
           | Err e => mkAccepted false (error_Error e)
           end)
  end.

Definition ClaudeAdapter_Interrupt (run : RunHandle) : M ClaudeAdapter Accepted :=
  let! found := runFor (rh_ID run) in
  match found with
  | None => ret not_found
  | Some i =>
      let! os := os_answer in
      on_run i not_found (let! r := get in
        match ProcessWrapper_Signal (oa_Signal os) (cr_proc r) with
        | None => ret (mkAccepted true "")
        | Some _ =>
            let! killed := on_proc (ProcessWrapper_Kill (oa_Kill os).1 (oa_Kill os).2) in
            ret (match killed with
                 | None => mkAccepted true ""
                 | Some e => mkAccepted false (error_Error e)
                 end)
        end)
  end.

Definition ClaudeAdapter_DecideApproval (run : RunHandle) (approvalID : string) (approved : bool)
    (reason : string) : M ClaudeAdapter Accepted :=
  let! found := runFor (rh_ID run) in
  match found with
  | None => ret not_found
  | Some i =>
      let! os := os_answer in
      let! resolved := on_run i false (resolveParked approvalID (mkDecision approved reason None)) in
      if resolved then ret (mkAccepted true "")
      else
        let! res := on_run i (Ok 0) (on_proc (ProcessWrapper_WriteInput
                      (approvalDecisionLine approved reason) (oa_Write os))) in
        ret (match res with
             | Ok _ => mkAccepted true ""
             | Err e => mkAccepted false ("failed to write decision to stdin: " +:+ error_Error e)
             end)
  end.

(** The run whose channel is returned; without one, a closed channel. *)
Definition ClaudeAdapter_Observe (run : RunHandle) : M ClaudeAdapter (option nat) :=
  runFor (rh_ID run).

Definition ClaudeAdapter_Recover (session : Session) : RecoveryResult :=
  mkRecoveryResult false SessionStateFailed
    [("adapter", "claude-code"); ("session_id", s_ID session)]
    "claude-code has no durable resume the adapter can verify".

Definition claude_capabilities : CapabilitySet :=
  mkCapabilitySet false true true true "1.0.0" "claude-code" "".

(** *** The pump of a run *)

Definition on_pump (i : nat) (m : M PumpState unit) : M ClaudeAdapter unit := fun a =>
  match ca_heap a !! i with
  | None => (tt, a)
  | Some r =>
      let '(_, s) := m (mkPumpState (ca_env a) (ca_parser a) (ca_degraded a) r) in
      (tt, mkClaudeAdapter (pm_env s) (ca_os a) (ca_calls a) (pm_parser s) (pm_degraded s)
             (ca_execPath a) (ca_mcpPermPath a) (ca_runs a) (<[i := pm_run s]> (ca_heap a)))
  end.

(** With its deferred functions, the last one first. *)
Definition ClaudeAdapter_pump (i : nat) (items : list (stream * bytes)) (cancelled : bool)
    : M ClaudeAdapter unit :=
  on_pump i (pump_body items cancelled);;;
  let! id := on_run i "" (gets (fun r => rh_ID (cr_handle r))) in
  modify (fun a => set_ca_runs (delete id (ca_runs a)) a);;;
  on_run i tt cleanupPermission;;;
  on_run i tt (modify set_cr_closed).

(** What the core sees of the adapter. *)
Definition claude_adapter : Adapter ClaudeAdapter :=
  mkAdapter "claude-code" (BaseAdapter_ValidateWorkspace "claude-code") ClaudeAdapter_Start
    ClaudeAdapter_SubmitInput ClaudeAdapter_Interrupt ClaudeAdapter_DecideApproval.
