(* ===== verification/ClaudePerm.v ===== *)
(** * Permission requests of a Claude run (src/internal/adapter/claude/claude.go)

    Each connection of the permission helper runs [handlePermission] in a
    goroutine of its own; the operator's decisions and the end of the run come
    from others.  The locked regions, the sends and the receives of all of them
    are the steps of one machine, interleaved in any order. *)

From S2P Require Import Prelude Env Json GoStrings JsonText Adapter OutputParser McpPerm Wrapper.
From S2P Require Import Claude.

(** Where a handler is; its channel has the handler's own index. *)
Inductive phase :=
  | Parking
  | Signalling
  | Waiting
  | Leaving (answer : option mcpperm_Decision)     (** the deferred function is left *)
  | Answered (answer : option mcpperm_Decision).   (** [None]: the handler panicked *)

Record Handler := mkHandler { hd_Req : PermissionRequest; hd_Phase : phase }.

Record PermState := mkPermState {
  ps_run : claudeRun;
  ps_listed : bool;          (** the adapter lists the run *)
  ps_handlers : list Handler;
  ps_ending : nat            (** deferred functions of the pump that have run *)
}.

Definition set_ps_run (r : claudeRun) (s : PermState) : PermState :=
  mkPermState r (ps_listed s) (ps_handlers s) (ps_ending s).
Definition set_ps_handlers (hs : list Handler) (s : PermState) : PermState :=
  mkPermState (ps_run s) (ps_listed s) hs (ps_ending s).
Definition move (i : nat) (h : Handler) (p : phase) (s : PermState) : PermState :=
  set_ps_handlers (<[i := mkHandler (hd_Req h) p]> (ps_handlers s)) s.

Inductive perm_op :=
  | PRequest (req : PermissionRequest)       (** a request: the run is looked up *)
  | PPark (i : nat)
  | PSignal (i : nat) (now : Z)
  | PTake (i : nat)                          (** a decision is received *)
  | PTimeout (i : nat)                       (** five minutes have passed *)
  | PLeave (i : nat)
  | PResolve (id : string) (d : mcpperm_Decision)    (** a decision of the operator *)
  | PEmit (sig : AdapterSignal)              (** the pump reports something *)
  | PEnd.                                    (** the pump's next deferred function *)

Definition end_run (s : PermState) : option PermState :=
  match ps_ending s with
  | 0%nat => Some (mkPermState (ps_run s) false (ps_handlers s) 1)
  | 1%nat => Some (mkPermState (cleanupPermission (ps_run s)).2 (ps_listed s) (ps_handlers s) 2)
  | 2%nat => Some (mkPermState (set_cr_closed (ps_run s)) (ps_listed s) (ps_handlers s) 3)
  | _ => None
  end.

(** A step of the handler with this index, in the phase it needs. *)
Definition handler_step (o : perm_op) (i : nat) (h : Handler) (s : PermState) : option PermState :=
  let r := ps_run s in
  match o, hd_Phase h with
  | PPark _, Parking =>
      Some (move i h Signalling (set_ps_run (handlePermission_park (hd_Req h) i r).2 s))
  | PSignal _ now, Signalling =>
      let '(ok, r') := send (handlePermission_signal now (hd_Req h)) r in
      Some (move i h (if ok then Waiting else Leaving None) (set_ps_run r' s))
  | PTake _, Waiting =>
      match cr_chans r !! i with
      | Some (Some d) => Some (move i h (Leaving (Some d))
                                 (set_ps_run (set_cr_chans (<[i := None]> (cr_chans r)) r) s))
      | _ => None
      end
  | PTimeout _, Waiting => Some (move i h (Leaving (Some timed_out)) s)
  | PLeave _, Leaving a =>
      Some (move i h (Answered a) (set_ps_run (handlePermission_unpark (hd_Req h) r).2 s))
  | _, _ => None
  end.

Definition perm_step (o : perm_op) (s : PermState) : option PermState :=
  match o with
  | PRequest req =>
      let r' := (new_decision_chan (ps_run s)).2 in
      let h := mkHandler req (if ps_listed s then Parking else Answered (Some run_not_found)) in
      Some (set_ps_handlers (ps_handlers s ++ [h]) (set_ps_run r' s))
  | PPark i | PSignal i _ | PTake i | PTimeout i | PLeave i =>
      h ← ps_handlers s !! i; handler_step o i h s
  | PResolve id d => Some (set_ps_run (resolveParked id d (ps_run s)).2 s)
  | PEmit sig =>
      if decide (ps_ending s = 0%nat) then Some (set_ps_run (send sig (ps_run s)).2 s) else None
  | PEnd => end_run s
  end.

Fixpoint perm_run (ops : list perm_op) (s : PermState) : option PermState :=
  match ops with
  | [] => Some s
  | o :: ops' => s' ← perm_step o s; perm_run ops' s'
  end.

(** A run that has just been listed. *)
Definition perm_start (r : claudeRun) : Prop := cr_chans r = [] /\ cr_parked r = ∅.
Definition listed (r : claudeRun) : PermState := mkPermState r true [] 0.

(** ** Runs of the machine *)

Lemma perm_run_app ops1 ops2 s :
  perm_run (ops1 ++ ops2) s = perm_run ops1 s ≫= perm_run ops2.
Proof.
  revert s. induction ops1 as [|o ops1 IH]; intros s; cbn; [done|].
  destruct (perm_step o s); cbn; auto.
Qed.

(** Induction from the left, with what has been done so far. *)
Lemma perm_run_ind (J : list perm_op -> PermState -> Prop) s0 :
  J [] s0 ->
  (forall h o s s', J h s -> perm_step o s = Some s' -> J (h ++ [o]) s') ->
  forall ops s, perm_run ops s0 = Some s -> J ops s.
Proof.
  intros H0 Hstep ops. induction ops as [|o ops IH] using rev_ind; intros s.
  - by intros [= <-].
  - rewrite perm_run_app. destruct (perm_run ops s0) as [s1|]; [|done]. cbn.
    destruct (perm_step o s1) as [s2|] eqn:E; [|done]. intros [= <-]. eauto.
Qed.

(** ** Offers *)

Lemma length_offer d ch cs : length (offer d ch cs) = length cs.
Proof. apply length_alter. Qed.

Lemma lookup_offer d ch cs i :
  (offer d ch cs) !! i = if decide (i = ch) then (fun c => Some (default d c)) <$> (cs !! i) else cs !! i.
Proof.
  unfold offer. rewrite list_lookup_alter. repeat case_decide; subst; congruence || done.
Qed.

Lemma lookup_offers d chs cs i c :
  (fold_left (fun cs0 ch => offer d ch cs0) chs cs) !! i = Some c ->
  ((i ∉ chs) /\ cs !! i = Some c) \/ ((i ∈ chs) /\ exists c0, cs !! i = Some c0 /\ c = Some (default d c0)).
Proof.
  revert cs. induction chs as [|ch chs IH]; intros cs; cbn [fold_left].
  { intros H. left. split; [apply not_elem_of_nil|done]. }
  intros [[Hi H]|[Hi (c0 & H & ->)]]%IH; rewrite lookup_offer in H; case_decide as Hc.
  - subst. right. split; [left|]. apply fmap_Some in H as (c0 & H & ->). eauto.
  - left. by rewrite not_elem_of_cons.
  - subst. right. split; [left|]. apply fmap_Some in H as (c1 & H & ->). eauto.
  - right. split; [by right|eauto].
Qed.

Lemma length_offers d chs cs : length (fold_left (fun cs ch => offer d ch cs) chs cs) = length cs.
Proof. revert cs. induction chs; intros cs; cbn; [done|]. by rewrite IHchs, length_offer. Qed.

(** Everything but the queue stays. *)
Lemma send_keeps sig r : cr_chans (send sig r).2 = cr_chans r /\ cr_parked (send sig r).2 = cr_parked r.
Proof. unfold send. repeat case_match; done. Qed.

(** ** What is known along a run *)

(** The operator decided_since_parked after this handler had parked. *)
Definition decided_since_parked (h : list perm_op) (i : nat) (id : string) (d : mcpperm_Decision) : Prop :=
  exists h1 h2 h3, h = h1 ++ PPark i :: h2 ++ PResolve id d :: h3.

Lemma decided_later h i id d o : decided_since_parked h i id d -> decided_since_parked (h ++ [o]) i id d.
Proof.
  intros (h1 & h2 & h3 & ->). exists h1, h2, (h3 ++ [o]).
  by rewrite <- !(assoc_L (++)), <- !app_comm_cons, <- (assoc_L (++)), <- !app_comm_cons.
Qed.

Lemma decided_now h i id d : PPark i ∈ h -> decided_since_parked (h ++ [PResolve id d]) i id d.
Proof.
  intros (h1 & h2 & ->)%list_elem_of_split. exists h1, h2, [].
  by rewrite <- (assoc_L (++)).
Qed.

Definition has_answer (p : phase) (d : mcpperm_Decision) : Prop :=
  p = Leaving (Some d) \/ p = Answered (Some d).

Definition may_be_parked (p : phase) : Prop :=
  match p with
  | Signalling | Waiting => True
  | Leaving a => a = Some timed_out \/ a = None
  | _ => False
  end.

Record perm_inv (h : list perm_op) (s : PermState) : Prop := mk_perm_inv {
  pi_len : length (cr_chans (ps_run s)) = length (ps_handlers s);
  pi_parking : forall i hd, ps_handlers s !! i = Some hd -> hd_Phase hd = Parking ->
    cr_chans (ps_run s) !! i = Some None;
  pi_parked : forall id i, cr_parked (ps_run s) !! id = Some i ->
    PPark i ∈ h /\ cr_chans (ps_run s) !! i = Some None /\
    exists hd, ps_handlers s !! i = Some hd /\ pr_ToolUseID (hd_Req hd) = id /\
      may_be_parked (hd_Phase hd);
  pi_allowed : forall i hd d, ps_handlers s !! i = Some hd ->
    cr_chans (ps_run s) !! i = Some (Some d) \/ has_answer (hd_Phase hd) d ->
    d_Allow d = true -> decided_since_parked h i (pr_ToolUseID (hd_Req hd)) d
}.

Lemma perm_inv_start r : perm_start r -> perm_inv [] (listed r).
Proof. intros [Hc Hp]. constructor; cbn; rewrite ?Hc, ?Hp; by try intros ??. Qed.

(** A step that changes neither channels nor parked entries nor handlers. *)
Lemma perm_inv_same h o s s' :
  perm_inv h s -> cr_chans (ps_run s') = cr_chans (ps_run s) ->
  cr_parked (ps_run s') = cr_parked (ps_run s) -> ps_handlers s' = ps_handlers s ->
  perm_inv (h ++ [o]) s'.
Proof.
  intros [H1 H2 H3 H4] Hc Hp Hh. constructor; rewrite ?Hc, ?Hp, ?Hh; [done|done| |].
  - intros id i Hi. destruct (H3 id i Hi) as (Ha & Hb & Hd). split; [|done].
    apply elem_of_app. by left.
  - intros i hd d Hi Hd Ha. apply decided_later. eauto.
Qed.

(** A handler that moves on: what its new phase must satisfy. *)
Lemma perm_inv_move h o s i hd p cs pk :
  perm_inv h s -> ps_handlers s !! i = Some hd -> p <> Parking ->
  (cs = cr_chans (ps_run s) \/ cs = <[i := None]> (cr_chans (ps_run s))) ->
  (forall id j, pk !! id = Some j -> cr_parked (ps_run s) !! id = Some j /\ (j = i -> may_be_parked p) \/
     (j = i /\ id = pr_ToolUseID (hd_Req hd) /\ cr_chans (ps_run s) !! i = Some None /\
      o = PPark i /\ may_be_parked p)) ->
  (forall d, has_answer p d -> d_Allow d = true -> decided_since_parked h i (pr_ToolUseID (hd_Req hd)) d) ->
  forall r, cr_chans r = cs -> cr_parked r = pk ->
  perm_inv (h ++ [o]) (move i hd p (set_ps_run r s)).
Proof.
  intros [H1 H2 H3 H4] Hi Hp Hcs Hpk Hans r Hrc Hrp.
  assert (Hlen : (i < length (ps_handlers s))%nat) by (by apply lookup_lt_Some in Hi).
  assert (Hnone : forall j, cr_chans (ps_run s) !! j = Some None -> cs !! j = Some None).
  { intros j Hj. destruct Hcs as [->| ->]; [done|]. rewrite list_lookup_insert.
    by case_decide. }
  assert (Hsome : forall j d, cs !! j = Some (Some d) -> cr_chans (ps_run s) !! j = Some (Some d)).
  { intros j d. destruct Hcs as [->| ->]; [done|]. rewrite list_lookup_insert. by case_decide. }
  constructor; cbn; rewrite ?Hrc, ?Hrp, ?length_insert.
  - destruct Hcs as [->| ->]; by rewrite ?length_insert.
  - intros j hd' [(<- & <- & _)|[Hne Hj]]%list_lookup_insert_Some Hph; [done|]. eauto.
  - intros id j Hj. destruct (Hpk id j Hj) as [[Hold Hph]|(-> & -> & Hc & -> & Hph)].
    + destruct (H3 id j Hold) as (Ha & Hb & hd' & Hd & He & Hf).
      split; [apply elem_of_app; by left|]. split; [by apply Hnone|].
      destruct (decide (j = i)) as [->|Hne].
      * assert (hd' = hd) as -> by congruence. exists (mkHandler (hd_Req hd) p).
        rewrite list_lookup_insert_eq by done. auto.
      * exists hd'. by rewrite list_lookup_insert_ne by done.
    + split; [apply elem_of_app; right; by left|]. split; [by apply Hnone|].
      eexists. by rewrite list_lookup_insert_eq by done.
  - intros j hd' d Hj Hd Ha. apply decided_later.
    apply list_lookup_insert_Some in Hj as [(<- & <- & _)|[Hne Hj]]; cbn in *.
    + destruct Hd as [Hd|Hd]; eauto.
    + destruct Hd as [Hd|Hd]; eauto.
Qed.

(** A new handler. *)
Lemma perm_inv_request h o s req p :
  perm_inv h s -> p = Parking \/ p = Answered (Some run_not_found) ->
  perm_inv (h ++ [o]) (set_ps_handlers (ps_handlers s ++ [mkHandler req p])
    (set_ps_run (new_decision_chan (ps_run s)).2 s)).
Proof.
  intros [H1 H2 H3 H4] Hp. constructor; cbn; rewrite ?length_app, ?H1; cbn; [done|..].
  - intros i hd [Hi|[Hi Hx]]%lookup_app_Some Hph; [by apply lookup_app_l_Some, (H2 i hd)|].
    apply list_lookup_singleton_Some in Hx as [Hx <-].
    by rewrite lookup_app_r, H1, Hx by lia.
  - intros id i Hi. destruct (H3 id i Hi) as (Ha & Hb & hd & Hd & He).
    split; [apply elem_of_app; by left|]. split; [by apply lookup_app_l_Some|].
    exists hd. split; [by apply lookup_app_l_Some|done].
  - intros i hd d [Hi|[Hi Hx]]%lookup_app_Some Hd Ha; apply decided_later.
    + apply (H4 i hd d Hi); [|done]. destruct Hd as [Hd|?]; [left|by right].
      by rewrite lookup_app_l in Hd by (rewrite H1; by apply lookup_lt_Some in Hi).
    + exfalso. apply list_lookup_singleton_Some in Hx as [Hx <-].
      destruct Hd as [Hd|[Hd|Hd]]; cbn in Hd.
      * by rewrite lookup_app_r, H1, Hx in Hd by lia.
      * destruct Hp; congruence.
      * destruct Hp as [->| ->]; [done|]. by injection Hd as <-.
Qed.

(** Decisions offered to parked handlers, whose entries then go. *)
Lemma perm_inv_offers h o s r d (gone : nat -> Prop) :
  perm_inv h s ->
  (forall id i, cr_parked r !! id = Some i -> cr_parked (ps_run s) !! id = Some i /\ ~ gone i) ->
  (forall i, gone i -> exists id, cr_parked (ps_run s) !! id = Some i /\
     (d_Allow d = true -> o = PResolve id d)) ->
  length (cr_chans r) = length (cr_chans (ps_run s)) ->
  (forall i c, cr_chans r !! i = Some c -> (~ gone i /\ cr_chans (ps_run s) !! i = Some c) \/
     (gone i /\ exists c0, cr_chans (ps_run s) !! i = Some c0 /\ c = Some (default d c0))) ->
  forall listed_ ending, perm_inv (h ++ [o]) (mkPermState r listed_ (ps_handlers s) ending).
Proof.
  intros [H1 H2 H3 H4] Hpk Hgone Hlen Hcs lst en.
  assert (Hsame : forall i c, cr_chans (ps_run s) !! i = Some c -> ~ gone i -> cr_chans r !! i = Some c).
  { intros i c Hi Hg. destruct (lookup_lt_is_Some_2 (cr_chans r) i) as [c' Hc'].
    - rewrite Hlen. by apply lookup_lt_Some in Hi.
    - destruct (Hcs i c' Hc') as [[_ ?]|[? _]]; [congruence|done]. }
  constructor; cbn; rewrite ?Hlen; [done|..].
  - intros i hd Hi Hph. apply Hsame; [by eapply H2|]. intros (id & Hid & _)%Hgone.
    destruct (H3 id i Hid) as (_ & _ & hd' & Hd & _ & Hf). simplify_eq. by rewrite Hph in Hf.
  - intros id i [Hi Hg]%Hpk. destruct (H3 id i Hi) as (Ha & Hb & Hd).
    split; [apply elem_of_app; by left|]. split; [by apply Hsame|done].
  - intros i hd d' Hi Hd Ha. destruct Hd as [Hd|Hd]; [|apply decided_later; eauto].
    destruct (Hcs i _ Hd) as [[_ Hc]|[Hg (c0 & Hc & [= ->])]]; [apply decided_later; eauto|].
    destruct c0 as [d0|]; [apply decided_later; eauto|]. cbn in *.
    destruct (Hgone i Hg) as (id & Hid & Ho). rewrite (Ho Ha).
    destruct (H3 id i Hid) as (Hin & _ & hd' & Hd' & <- & _). simplify_eq. by apply decided_now.
Qed.

Lemma resolveParked_some id d r ch : cr_parked r !! id = Some ch ->
  resolveParked id d r =
  (true, set_cr_parked (delete id (cr_parked r)) (set_cr_chans (offer d ch (cr_chans r)) r)).
Proof. intros H. unfold resolveParked. by rewrite H. Qed.

Lemma perm_inv_step h o s s' : perm_inv h s -> perm_step o s = Some s' -> perm_inv (h ++ [o]) s'.
Proof.
  intros Hs. pose proof Hs as [H1 H2 H3 H4].
  assert (Hown : forall i hd, ps_handlers s !! i = Some hd -> forall id, cr_parked (ps_run s) !! id = Some i ->
    may_be_parked (hd_Phase hd) /\ pr_ToolUseID (hd_Req hd) = id).
  { intros i hd Hi id Hid. destruct (H3 id i Hid) as (_ & _ & hd' & Hd & He & Hf). simplify_eq. auto. }
  destruct o as [req|i|i now|i|i|i|id d|sig|]; cbn [perm_step].
  - intros [= <-]. apply perm_inv_request; [done|]. destruct (ps_listed s); auto.
  - destruct (ps_handlers s !! i) as [hd|] eqn:Hi; [|done]. cbn. destruct (hd_Phase hd) eqn:Hph; try done.
    intros [= <-]. eapply perm_inv_move; [done..|by left| |by intros ? [?|?]|done|done].
    cbn. intros id j [(<- & <-)|[Hne Hj]]%lookup_insert_Some; [right; eauto 10|left].
    split; [done|]. done.
  - destruct (ps_handlers s !! i) as [hd|] eqn:Hi; [|done]. cbn. destruct (hd_Phase hd) eqn:Hph; try done.
    destruct (send_keeps (handlePermission_signal now (hd_Req hd)) (ps_run s)) as [Hc Hp].
    destruct (send _ _) as [ok r']. cbn in Hc, Hp. intros [= <-].
    eapply perm_inv_move; [done|done|by destruct ok|left; exact Hc| | |done|exact Hp].
    + intros id j Hj. left. split; [done|]. destruct ok; cbn; auto.
    + by destruct ok; intros d [?|?].
  - destruct (ps_handlers s !! i) as [hd|] eqn:Hi; [|done]. cbn. destruct (hd_Phase hd) eqn:Hph; try done.
    destruct (cr_chans (ps_run s) !! i) as [[d|]|] eqn:Hch; try done. intros [= <-].
    eapply perm_inv_move; [done|done|done|by right| |..|done|done].
    + cbn. intros id j Hj. left. split; [done|]. intros ->. destruct (H3 id i Hj) as (_ & ? & _). congruence.
    + intros d' [[= ->]|?] Ha; [|done]. eauto.
  - destruct (ps_handlers s !! i) as [hd|] eqn:Hi; [|done]. cbn. destruct (hd_Phase hd) eqn:Hph; try done.
    intros [= <-]. replace s with (set_ps_run (ps_run s) s) at 2 by (by destruct s).
    eapply perm_inv_move; [done|done|done|by left|intros; left; cbn; split; [eassumption|by left]|..|done|done].
    by intros d' [[= <-]|?] Ha.
  - destruct (ps_handlers s !! i) as [hd|] eqn:Hi; [|done]. cbn. destruct (hd_Phase hd) eqn:Hph; try done.
    intros [= <-]. eapply perm_inv_move; [done|done|done|by left| |..|done|done].
    + cbn. intros id j [Hne Hj]%lookup_delete_Some. left. split; [done|]. intros ->.
      destruct (Hown i hd Hi id Hj). congruence.
    + intros d' [?|[= ->]] Ha; [done|]. apply (H4 i hd d' Hi); [right; left; congruence|done].
  - intros [= <-]. destruct (cr_parked (ps_run s) !! id) as [ch|] eqn:Hid.
    + rewrite (resolveParked_some _ _ _ _ Hid).
      apply (perm_inv_offers h _ s _ d (fun i => i = ch)); [done|..]; cbn.
      * intros id' i [Hne Hi]%lookup_delete_Some. split; [done|]. intros ->.
        destruct (H3 id' ch Hi) as (_ & _ & a & Ha & <- & _), (H3 id ch Hid) as (_ & _ & b & Hb & <- & _).
        congruence.
      * intros i ->. exists id. auto.
      * apply length_offer.
      * intros i c. rewrite lookup_offer. case_decide; [|auto]. subst.
        intros (c0 & Hc & ->)%fmap_Some. right. eauto.
    + unfold resolveParked. rewrite Hid. by eapply perm_inv_same.
  - case_decide; [|done]. intros [= <-]. destruct (send_keeps sig (ps_run s)) as [Hc Hp].
    by eapply perm_inv_same.
  - unfold end_run. destruct (ps_ending s) as [|[|[|n]]]; [| | |done]; intros [= <-];
      [by eapply perm_inv_same| |by eapply perm_inv_same].
    apply (perm_inv_offers h _ s _ run_ended (fun i => i ∈ (map_to_list (cr_parked (ps_run s))).*2)); [done|..]; cbn.
    + intros id i Hi. by rewrite lookup_empty in Hi.
    + intros i ((id & j) & -> & Hin)%list_elem_of_fmap. apply elem_of_map_to_list in Hin. by exists id.
    + apply length_offers.
    + intros i c Hc. apply lookup_offers in Hc. tauto.
Qed.

Lemma perm_run_inv r ops s : perm_start r -> perm_run ops (listed r) = Some s -> perm_inv ops s.
Proof.
  intros Hr. apply (perm_run_ind perm_inv); [by apply perm_inv_start|].
  intros h o s1 s2. apply perm_inv_step.
Qed.

(** C10: A tool is allowed only by the operator.  In every interleaving of
    permission requests, decisions, timeouts and the end of the run, also with
    several requests under one tool-use id: a handler that answers allow was
    given that answer by a decision for its own tool-use id that came after it
    had parked.  Timeouts, a run that ended and a panic all deny. *)
Theorem permission_safety r ops s i hd d :
  perm_start r -> perm_run ops (listed r) = Some s ->
  ps_handlers s !! i = Some hd -> hd_Phase hd = Answered (Some d) -> d_Allow d = true ->
  exists h1 h2 h3, ops = h1 ++ PPark i :: h2 ++ PResolve (pr_ToolUseID (hd_Req hd)) d :: h3.
Proof.
  intros Hr Hrun Hi Hp Ha. apply (pi_allowed _ _ (perm_run_inv r ops s Hr Hrun) i hd d Hi); [|done].
  right. by right.
Qed.

(** ** Accepted decisions *)

(** The decision [d] for handler [i] is in its channel, or is no longer
    waited for. *)
Definition receives (d : mcpperm_Decision) (c : option (option mcpperm_Decision)) (p : phase) : Prop :=
  match p with
  | Parking => False
  | Signalling | Waiting => c = Some (Some d)
  | Leaving a | Answered a => a = Some d \/ a = Some timed_out \/ a = None
  end.

Definition settled_request (i : nat) (id : string) (d : mcpperm_Decision) (s : PermState) : Prop :=
  (forall id', cr_parked (ps_run s) !! id' <> Some i) /\
  exists hd, ps_handlers s !! i = Some hd /\ pr_ToolUseID (hd_Req hd) = id /\
    receives d (cr_chans (ps_run s) !! i) (hd_Phase hd).

Lemma settled_run i id d s r :
  settled_request i id d s -> (forall id', cr_parked r !! id' <> Some i) ->
  (forall c, cr_chans (ps_run s) !! i = Some c -> cr_chans r !! i = Some c) ->
  forall lst en, settled_request i id d (mkPermState r lst (ps_handlers s) en).
Proof.
  intros [_ (hd & H1 & H2 & H3)] Hp Hc lst en. split; [done|]. exists hd. split; [done|]. split; [done|].
  cbn. destruct (hd_Phase hd); try done; by apply Hc in H3.
Qed.

Lemma settled_move i j id d s hd p r :
  settled_request i id d s -> ps_handlers s !! j = Some hd -> (forall id', cr_parked r !! id' <> Some i) ->
  (j <> i -> forall c, cr_chans (ps_run s) !! i = Some c -> cr_chans r !! i = Some c) ->
  (j = i -> receives d (cr_chans r !! i) p) ->
  settled_request i id d (move j hd p (set_ps_run r s)).
Proof.
  intros [_ (hd' & H1 & H2 & H3)] Hj Hp Hc Hr. split; [done|]. cbn.
  assert ((j < length (ps_handlers s))%nat) by (by apply lookup_lt_Some in Hj).
  destruct (decide (j = i)) as [->|Hne].
  - simplify_eq. eexists. split; [by apply list_lookup_insert_eq|]. auto.
  - exists hd'. rewrite list_lookup_insert_ne by done. split; [done|]. split; [done|].
    specialize (Hc Hne). destruct (hd_Phase hd'); try done; by apply Hc in H3.
Qed.

Lemma settled_step i id d o s s' : settled_request i id d s -> perm_step o s = Some s' -> settled_request i id d s'.
Proof.
  intros Hs. pose proof Hs as [Hp (hd & H1 & H2 & H3)].
  destruct o as [req|j|j now|j|j|j|id' d'|sig|]; cbn [perm_step].
  - intros [= <-]. split; [done|]. exists hd. cbn. split; [by apply lookup_app_l_Some|]. split; [done|].
    destruct (hd_Phase hd); try done; cbn in *; by apply lookup_app_l_Some.
  - destruct (ps_handlers s !! j) as [hj|] eqn:Hj; [|done]. cbn. destruct (hd_Phase hj) eqn:Hph; try done.
    intros [= <-]. assert (j <> i) by (intros ->; simplify_eq; by rewrite Hph in H3).
    eapply settled_move; [done|done| |done|done]. cbn. intros id'.
    by intros [(_ & ?)|[_ ?%Hp]]%lookup_insert_Some.
  - destruct (ps_handlers s !! j) as [hj|] eqn:Hj; [|done]. cbn. destruct (hd_Phase hj) eqn:Hph; try done.
    destruct (send_keeps (handlePermission_signal now (hd_Req hj)) (ps_run s)) as [Hc Hk].
    destruct (send _ _) as [ok r']. cbn in Hc, Hk. intros [= <-].
    eapply settled_move; [done|done|by rewrite Hk|by rewrite Hc|].
    intros ->. simplify_eq. rewrite Hph in H3. cbn in H3. rewrite Hc. destruct ok; cbn; auto.
  - destruct (ps_handlers s !! j) as [hj|] eqn:Hj; [|done]. cbn. destruct (hd_Phase hj) eqn:Hph; try done.
    destruct (cr_chans (ps_run s) !! j) as [[dj|]|] eqn:Hch; try done. intros [= <-].
    eapply settled_move; [done|done|done|cbn; intros; by rewrite list_lookup_insert_ne|].
    intros ->. simplify_eq. rewrite Hph in H3. cbn in H3. left. congruence.
  - destruct (ps_handlers s !! j) as [hj|] eqn:Hj; [|done]. cbn. destruct (hd_Phase hj) eqn:Hph; try done.
    intros [= <-]. replace s with (set_ps_run (ps_run s) s) by (by destruct s).
    eapply settled_move; [by destruct s|by destruct s|done|done|]. cbn. auto.
  - destruct (ps_handlers s !! j) as [hj|] eqn:Hj; [|done]. cbn. destruct (hd_Phase hj) eqn:Hph; try done.
    intros [= <-]. eapply settled_move; [done|done| |done|].
    + cbn. by intros id' [_ ?%Hp]%lookup_delete_Some.
    + intros ->. simplify_eq. by rewrite Hph in H3.
  - intros [= <-]. apply settled_run; [done|..].
    + intros id2. destruct (cr_parked (ps_run s) !! id') as [ch|] eqn:E.
      * rewrite (resolveParked_some _ _ _ _ E). cbn. by intros [_ ?%Hp]%lookup_delete_Some.
      * unfold resolveParked. by rewrite E.
    + intros c Hc. destruct (cr_parked (ps_run s) !! id') as [ch|] eqn:E.
      * rewrite (resolveParked_some _ _ _ _ E). cbn. rewrite lookup_offer, decide_False; [done|].
        intros ->. by eapply Hp.
      * unfold resolveParked. by rewrite E.
  - case_decide; [|done]. intros [= <-]. destruct (send_keeps sig (ps_run s)) as [Hc Hk].
    apply settled_run; [done|by rewrite Hk|by rewrite Hc].
  - unfold end_run. destruct (ps_ending s) as [|[|[|n]]]; [| | |done]; intros [= <-];
      apply settled_run; try done; try by intros ? ?.
    cbn. intros c Hc. destruct (lookup_lt_is_Some_2 (fold_left (fun cs ch => offer run_ended ch cs)
        (map_to_list (cr_parked (ps_run s))).*2 (cr_chans (ps_run s))) i) as [c' Hc'].
    { rewrite length_offers. by apply lookup_lt_Some in Hc. }
      destruct (lookup_offers _ _ _ _ _ Hc') as [[_ ?]|[Hin _]]; [congruence|exfalso].
      apply list_elem_of_fmap in Hin as ((id' & k) & -> & Hin).
      apply elem_of_map_to_list in Hin. by eapply Hp.
Qed.

Lemma settled_run_ops i id d ops s s' : settled_request i id d s -> perm_run ops s = Some s' -> settled_request i id d s'.
Proof.
  revert s. induction ops as [|o ops IH]; intros s Hs; cbn; [by intros [= <-]|].
  destruct (perm_step o s) as [s1|] eqn:E; [|done]. cbn. apply IH. by eapply settled_step.
Qed.

(** An accepted decision reaches its request.  When [DecideApproval] finds
    a request parked under the tool-use id, then whatever happens afterwards
    that request waits with the decision in its channel, or its answer is that
    decision, unless its five minutes had also passed or the run's channel was
    closed before it could report itself; it never gets another decision. *)
Theorem permission_accepted r ops1 s1 id d ops2 s2 :
  perm_start r -> perm_run ops1 (listed r) = Some s1 ->
  (resolveParked id d (ps_run s1)).1 = true ->
  perm_run (PResolve id d :: ops2) s1 = Some s2 ->
  exists i hd, cr_parked (ps_run s1) !! id = Some i /\
    ps_handlers s2 !! i = Some hd /\ pr_ToolUseID (hd_Req hd) = id /\
    receives d (cr_chans (ps_run s2) !! i) (hd_Phase hd).
Proof.
  intros Hr Hrun Hacc Hrest. pose proof (perm_run_inv r ops1 s1 Hr Hrun) as [H1 H2 H3 H4].
  destruct (cr_parked (ps_run s1) !! id) as [i|] eqn:E;
    [|unfold resolveParked in Hacc; by rewrite E in Hacc].
  cbn in Hrest. rewrite (resolveParked_some _ _ _ _ E) in Hrest.
  destruct (H3 id i E) as (_ & Hc & hd & Hhd & Hid & Hph).
  eapply (settled_run_ops i id d) in Hrest as [_ (hd' & ? & ? & ?)]; [by exists i, hd'|].
  split; cbn.
  - intros id' [Hne Hi]%lookup_delete_Some. destruct (H3 id' i Hi) as (_ & _ & hd' & ? & <- & _). congruence.
  - exists hd. split; [done|]. split; [done|]. rewrite lookup_offer, decide_True, Hc by done. cbn.
    destruct (hd_Phase hd); try done. by right.
Qed.

(** ** Every request is answered *)

Definition step_of (i : nat) (o : perm_op) : Prop :=
  match o with
  | PPark j | PSignal j _ | PTake j | PTimeout j | PLeave j => j = i
  | _ => False
  end.

Definition answered_at (i : nat) (s : PermState) : Prop :=
  exists hd a, ps_handlers s !! i = Some hd /\ hd_Phase hd = Answered a.

(** How far a handler is from its answer. *)
Definition phase_left (p : phase) : nat :=
  match p with Parking => 4 | Signalling => 3 | Waiting => 2 | Leaving _ => 1 | Answered _ => 0 end.

Lemma handler_advances i hd s : ps_handlers s !! i = Some hd -> (phase_left (hd_Phase hd) <> 0)%nat ->
  exists o s' hd', step_of i o /\ perm_step o s = Some s' /\ ps_handlers s' !! i = Some hd' /\
    (phase_left (hd_Phase hd') < phase_left (hd_Phase hd))%nat.
Proof.
  intros Hi Hp. assert (Hl : (i < length (ps_handlers s))%nat) by (by apply lookup_lt_Some in Hi).
  assert (Hm : forall p r, ps_handlers (move i hd p (set_ps_run r s)) !! i = Some (mkHandler (hd_Req hd) p))
    by (intros; cbn; by apply list_lookup_insert_eq).
  destruct (hd_Phase hd) eqn:E; [| | | |done].
  - eexists (PPark i), _, _. cbn [perm_step]. rewrite Hi. cbn. rewrite E. split_and!; [done..|apply Hm|cbn; lia].
  - destruct (send (handlePermission_signal 0 (hd_Req hd)) (ps_run s)) as [ok r'] eqn:Es.
    eexists (PSignal i 0), _, _. cbn [perm_step]. rewrite Hi. cbn. rewrite E, Es.
    split_and!; [done..|apply Hm|destruct ok; cbn; lia].
  - eexists (PTimeout i), (move i hd (Leaving (Some timed_out)) s), _. cbn [perm_step]. rewrite Hi. cbn. rewrite E.
    split_and!; [done..|by apply list_lookup_insert_eq|cbn; lia].
  - eexists (PLeave i), _, _. cbn [perm_step]. rewrite Hi. cbn. rewrite E. split_and!; [done..|apply Hm|cbn; lia].
Qed.

(** C28: No permission request hangs.  From any state, whatever the other
    goroutines have done and without any help of them, a handler reaches its
    answer in at most four steps of its own, one of which may be its timeout. *)
Theorem permission_answers s i hd :
  ps_handlers s !! i = Some hd ->
  exists ops s', (length ops <= 4)%nat /\ Forall (step_of i) ops /\
    perm_run ops s = Some s' /\ answered_at i s'.
Proof.
  intros Hi. enough (H : exists ops s', (length ops <= phase_left (hd_Phase hd))%nat /\ Forall (step_of i) ops /\
    perm_run ops s = Some s' /\ answered_at i s').
  { destruct H as (ops & s' & Hl & H). exists ops, s'. split; [|done].
    destruct (hd_Phase hd); cbn in Hl; lia. }
  remember (phase_left (hd_Phase hd)) as n eqn:En. revert s hd Hi En.
  induction n as [n IH] using lt_wf_ind. intros s hd Hi ->.
  destruct (decide (phase_left (hd_Phase hd) = 0%nat)) as [E|E].
  - exists [], s. split; [cbn; lia|]. split; [constructor|]. split; [done|].
    destruct (hd_Phase hd) eqn:Ep; try done. by exists hd, answer.
  - destruct (handler_advances i hd s Hi E) as (o & s1 & hd1 & Ho & Hs & Hi1 & Hlt).
    destruct (IH _ Hlt s1 hd1 Hi1 eq_refl) as (ops & s' & Hl & Hf & Hr & Ha).
    exists (o :: ops), s'. split; [cbn; lia|]. split; [by constructor|]. cbn. by rewrite Hs.
Qed.

(** ** Examples *)

Definition demo_run : claudeRun :=
  mkClaudeRun (mkRunHandle "run-ses-1" "ses-1" 4242 100) NewProcessWrapper [] false []
    (fun _ => 256%nat) 0 100 true (Some "/tmp/car-perm-1") [] ∅.
Definition demo_request (id : string) : PermissionRequest :=
  mkPermissionRequest "ses-1" "Bash" id (RawJSON (JObj [("command", JStr "ls")])).
Definition allow : mcpperm_Decision := mkDecision true "fine" None.
Definition demo_perm_ops : list perm_op :=
  [PRequest (demo_request "tu1"); PPark 0; PSignal 0 200; PResolve "tu1" allow; PTake 0; PLeave 0].

Lemma permission_safety_witness :
  exists h1 h2 h3, demo_perm_ops = h1 ++ PPark 0 :: h2 ++ PResolve "tu1" allow :: h3.
Proof.
  destruct (perm_run demo_perm_ops (listed demo_run)) as [s|] eqn:E; [|vm_compute in E; discriminate E].
  assert (Hh : ps_handlers s !! 0%nat = Some (mkHandler (demo_request "tu1") (Answered (Some allow)))).
  { assert (H : (fun s => ps_handlers s !! 0%nat) <$> perm_run demo_perm_ops (listed demo_run) =
      Some (Some (mkHandler (demo_request "tu1") (Answered (Some allow))))) by (vm_compute; reflexivity).
    rewrite E in H. injection H as H. exact H. }
  exact (permission_safety demo_run demo_perm_ops s 0 _ allow (conj eq_refl eq_refl) E Hh eq_refl eq_refl).
Defined.

Lemma permission_accepted_witness :
  exists s1 s2, perm_run (take 3 demo_perm_ops) (listed demo_run) = Some s1 /\
    perm_run [PResolve "tu1" allow; PTake 0] s1 = Some s2 /\
    exists i hd, cr_parked (ps_run s1) !! "tu1" = Some i /\
      ps_handlers s2 !! i = Some hd /\ pr_ToolUseID (hd_Req hd) = "tu1" /\
      receives allow (cr_chans (ps_run s2) !! i) (hd_Phase hd).
Proof.
  destruct (perm_run (take 3 demo_perm_ops) (listed demo_run)) as [s1|] eqn:E1;
    [|vm_compute in E1; discriminate E1].
  assert (Ha : (fun s => (resolveParked "tu1" allow (ps_run s)).1) <$>
    perm_run (take 3 demo_perm_ops) (listed demo_run) = Some true) by (vm_compute; reflexivity).
  assert (Hn : (fun s => bool_decide (is_Some (perm_run [PResolve "tu1" allow; PTake 0] s))) <$>
    perm_run (take 3 demo_perm_ops) (listed demo_run) = Some true) by (vm_compute; reflexivity).
  rewrite E1 in Ha, Hn. injection Ha as Ha. injection Hn as Hn.
  apply bool_decide_eq_true in Hn as [s2 Hs2].
  assert (E2 : perm_run [PResolve "tu1" allow; PTake 0] s1 = Some s2) by exact Hs2.
  exists s1, s2. split; [reflexivity|]. split; [exact E2|].
  exact (permission_accepted demo_run (take 3 demo_perm_ops) s1 "tu1" allow [PTake 0] s2
           (conj eq_refl eq_refl) E1 Ha E2).
Defined.

Lemma permission_answers_witness :
  exists ops s', (length ops <= 4)%nat /\ Forall (step_of 0) ops /\
    perm_run ops (mkPermState demo_run true [mkHandler (demo_request "tu1") Parking] 0) = Some s' /\
    answered_at 0 s'.
Proof.
  apply (permission_answers (mkPermState demo_run true [mkHandler (demo_request "tu1") Parking] 0) 0
           (mkHandler (demo_request "tu1") Parking)).
  reflexivity.
Defined.

(** An approval that the adapter accepts can still be a denial: the timeout
    and the decision are both ready. *)
Example accepted_but_timed_out :
  (fun s => hd_Phase <$> ps_handlers s) <$>
    perm_run [PRequest (demo_request "tu1"); PPark 0; PSignal 0 200; PResolve "tu1" allow;
              PTimeout 0; PLeave 0] (listed demo_run) =
  Some [Answered (Some timed_out)].
Proof. vm_compute. reflexivity. Qed.

(** Two requests under one id: the end of the first removes the entry of the
    second, whose decision is then not accepted. *)
Example entry_of_another :
  (fun s => (resolveParked "tu1" allow (ps_run s)).1) <$>
    perm_run [PRequest (demo_request "tu1"); PPark 0; PSignal 0 200;
              PRequest (demo_request "tu1"); PPark 1; PSignal 1 210; PTimeout 0; PLeave 0]
      (listed demo_run) = Some false.
Proof. vm_compute. reflexivity. Qed.
