(* ===== verification/ClaudeRun.v ===== *)
(** * What a Claude run reports (src/internal/adapter/claude/claude.go)

    The theorems about the definitions of [Claude]: the prompt as one message,
    a start, and the pump composed with the process wrapper and the output
    parser. *)

From S2P Require Import Prelude Env Json GoStrings JsonText Paths Domain Adapter OutputParser.
From S2P Require Import McpPerm Wrapper Claude.

(** ** Prompts *)

Lemma user_message_ok prompt :
  json_ok (JObj (user_message prompt)) /\ json_depth (JObj (user_message prompt)) <= maxNestingDepth /\
  json_coerce (JObj (user_message prompt)) = JObj (user_message (strings_coerce prompt)).
Proof. split; [by cbn|]. split; [done|reflexivity]. Qed.

Lemma streamJSONUserMessage_line prompt : exists line,
  streamJSONUserMessage prompt = line ++ [newline] /\ (newline ∉ line) /\
  json_parse (text line) = Some (JObj (user_message (strings_coerce prompt))).
Proof.
  destruct (user_message_ok prompt) as (Hok & Hd & Hc).
  exists (json_bytes (JObj (user_message prompt))). split; [done|].
  split; [by apply json_bytes_one_line|]. rewrite <- Hc. by apply json_parse_text.
Qed.

(** A write that takes everything. *)
Lemma WriteInput_all data w :
  pw_stdin w = true -> pw_state w = StateRunning ->
  ProcessWrapper_WriteInput data (Ok (Z.of_nat (length data))) w =
  (Ok (Z.of_nat (length data)), set_pw_input (pw_input w ++ data) w).
Proof.
  intros Hi Hr. unfold ProcessWrapper_WriteInput. rewrite Hi. cbn [negb].
  rewrite decide_False by auto. by rewrite Nat2Z.id, firstn_all.
Qed.

(** C11: A prompt is one message and nothing else.  Whatever bytes a submitted
    prompt holds (line breaks, quotes, JSON), the agent's input grows by exactly
    one line, whose JSON is a user message with that text, invalid UTF-8
    replaced: a prompt cannot forge a second message, a role or a decision. *)
Theorem prompt_is_one_message a h prompt i r :
  ca_runs a !! rh_ID h = Some i -> ca_heap a !! i = Some r ->
  cr_streamJSONInput r = true -> pw_stdin (cr_proc r) = true ->
  pw_state (cr_proc r) = StateRunning ->
  oa_Write (ca_os a (ca_calls a)) = Ok (Z.of_nat (length (streamJSONUserMessage prompt))) ->
  let '(acc, a') := ClaudeAdapter_SubmitInput h prompt a in
  acc = mkAccepted true "" /\
  exists r' line, ca_heap a' !! i = Some r' /\
    pw_input (cr_proc r') = pw_input (cr_proc r) ++ line ++ [newline] /\
    (newline ∉ line) /\
    json_parse (text line) = Some (JObj (user_message (strings_coerce prompt))).
Proof.
  intros Hi Hr Hs Hin Hrun Hw.
  destruct (streamJSONUserMessage_line prompt) as (line & El & Hnl & Hp).
  assert (Hlt : (i < length (ca_heap a))%nat) by (by apply lookup_lt_Some in Hr).
  unfold ClaudeAdapter_SubmitInput, bind, runFor, gets. rewrite Hi. unfold os_answer.
  unfold on_run. cbn [ca_heap]. rewrite Hr. unfold get, on_proc, zoom, writePrompt.
  rewrite Hs, Hw, WriteInput_all by done. split; [done|].
  eexists _, line. split; [by apply list_lookup_insert_eq|]. by rewrite <- El.
Qed.

(** ** Starting *)

(** What a signal says, without its time. *)
Definition content (s : AdapterSignal) : string * string * RawMessage :=
  (sig_Type s, sig_SessionID s, sig_Payload s).

(** Received or still queued. *)
Definition delivered (r : claudeRun) : list AdapterSignal := cr_observed r ++ cr_signals r.

(** Rules for the adapter's steps. *)
Lemma wp_os_answer a Q :
  wp os_answer a Q <-> Q (ca_os a (ca_calls a)) (os_answer a).2.
Proof. done. Qed.
Lemma wp_claude_Now a Q :
  wp claude_Now a Q <->
  Q (env_clock (ca_env a) (env_ticks (ca_env a))) (set_ca_env (env_tick (ca_env a)) a).
Proof. done. Qed.
Lemma wp_on_run {A} i nil (m : M claudeRun A) a r Q : ca_heap a !! i = Some r ->
  wp (on_run i nil m) a Q <-> wp m r (fun x r' => Q x (set_ca_heap (<[i := r']> (ca_heap a)) a)).
Proof. intros H. unfold wp, on_run. rewrite H. by destruct (m r). Qed.

Lemma Start_fresh environ opts os now info w :
  ProcessWrapper_Start environ opts os now NewProcessWrapper = (Ok info, w) ->
  pw_state w = StateRunning /\ exists pid, pi_PID info = pid /\
  pw_cmd w = Some (mkCmd (wo_Command opts) (wo_Args opts) (wo_Dir opts)
    (match wo_Env opts with [] => environ | e => e end) (Some pid)).
Proof.
  unfold ProcessWrapper_Start. rewrite decide_False by done. repeat case_match; try done;
    intros [= <- <-]; cbn; eauto.
Qed.

Lemma WriteInput_keeps data write w :
  wp (ProcessWrapper_WriteInput data write) w (fun _ w' =>
    pw_state w' = pw_state w /\ pw_cmd w' = pw_cmd w).
Proof.
  unfold ProcessWrapper_WriteInput, wp. destruct (negb (pw_stdin w)); [done|].
  case_decide; [done|]. by destruct write.
Qed.
Lemma writePrompt_keeps streamJSON prompt write w :
  wp (writePrompt streamJSON prompt write) w (fun _ w' =>
    pw_state w' = pw_state w /\ pw_cmd w' = pw_cmd w).
Proof. destruct streamJSON; apply WriteInput_keeps. Qed.

(** A start leaves a run that reports itself, or nothing.  An error (no
    executable, a workspace path that is empty or relative, pipes or the
    process that fail) lists no run.  Otherwise the new run is listed under
    its session's id, its only signal is the change to active, its process
    runs in the workspace with arguments that depend on the operator's
    arguments alone (never on the prompt or a secret), and its environment is
    the server's, then the adapter's entries, then the secrets. *)
Theorem start_reports_active a session input res a' :
  ClaudeAdapter_Start session input a = (res, a') ->
  match res with
  | Err _ => ca_runs a' = ca_runs a /\ ca_heap a' = ca_heap a
  | Ok h =>
      exists r cmd perm_args, rh_ID h = "run-" +:+ s_ID session /\
        ca_runs a' = <[rh_ID h := length (ca_heap a)]> (ca_runs a) /\
        ca_heap a' = ca_heap a ++ [r] /\
        content <$> delivered r = [(SignalStatusChange, s_ID session, RawJSON active_payload)] /\
        cr_closed r = false /\ cr_chans r = [] /\ cr_parked r = ∅ /\
        pw_state (cr_proc r) = StateRunning /\ pw_cmd (cr_proc r) = Some cmd /\
        filepath_IsAbs (cmd_Dir cmd) = true /\ cmd_Dir cmd = in_WorkspacePath input /\
        cmd_Args cmd = buildArgs (ca_execPath a) (mkInput "" "" (in_Args input) [] []) ++ perm_args /\
        cmd_Env cmd = match buildEnv (oa_environ (ca_os a (ca_calls a))) input with
                      | [] => oa_environ (ca_os a (ca_calls a)) | e => e end
  end.
Proof.
  intros E. wp_start E. unfold ClaudeAdapter_Start. wp_simp.
  destruct (decide (ca_execPath a = "")); [by intros <-|].
  destruct (decide (in_WorkspacePath input = "")); [by intros <-|].
  destruct (filepath_IsAbs (in_WorkspacePath input)) eqn:Habs; [cbn [negb]|by intros <-].
  wp_simp.
  apply wp_os_answer. wp_simp. set (os := ca_os a (ca_calls a)).
  apply wp_claude_Now. cbn [ca_execPath ca_mcpPermPath os_answer snd].
  destruct (ProcessWrapper_Start _ _ _ _ _) as [[info|e] proc] eqn:Ep; wp_simp; [|by intros <-].
  apply Start_fresh in Ep as (Hrun & pid & Hpid & Hcmd). apply wp_claude_Now. wp_simp.
  set (h := mkRunHandle _ _ _ _). set (run := mkClaudeRun _ _ _ _ _ _ _ _ _ _ _ _).
  apply wp_mono with (Q := fun _ c => ca_runs c = <[rh_ID h := length (ca_heap a)]> (ca_runs a) /\
    exists w, ca_heap c = ca_heap a ++ [set_cr_proc w run] /\ pw_state w = pw_state proc /\
      pw_cmd w = pw_cmd proc).
  { destruct (decide (in_InitialPrompt input = "")); wp_simp; [split; [done|by exists proc]|].
    rewrite (wp_on_run _ _ _ _ run) by (cbn; apply list_lookup_middle; done). unfold on_proc. wp_simp.
    eapply wp_mono; [apply writePrompt_keeps|]. intros x w [H1 H2]. split; [done|]. exists w.
    split; [|done]. cbn. by rewrite insert_app_r_alt, Nat.sub_diag by done. }
  intros _ c [Hruns (w & Hheap & Hst & Hc)]. wp_simp. apply wp_claude_Now.
  rewrite wp_bind, (wp_on_run _ _ _ _ (set_cr_proc w run))
    by (cbn; rewrite Hheap; by apply list_lookup_middle).
  wp_simp. intros <-. eexists _, _, _. split; [done|]. split; [exact Hruns|]. cbn [ca_heap set_ca_heap set_ca_env].
  split; [by rewrite Hheap, insert_app_r_alt, Nat.sub_diag by done|].
  split; [done|]. split; [done|]. split; [done|]. split; [done|]. split; [cbn; congruence|].
  split; [cbn; rewrite Hc; exact Hcmd|]. done.
Qed.

(** ** Sending *)

Definition sent_content : Type := string * string * RawMessage.

(** The observer empties the channel before each send. *)
Definition prompt_observer (r : claudeRun) : Prop := forall n, (signals_cap <= cr_takes r n)%nat.

(** From [r] to [r'] these signals were sent: in order, some of them may have
    been dropped, none if the observer is prompt. *)
Record sent (l : list sent_content) (r r' : claudeRun) : Prop := mk_sent {
  sent_got : exists got, got `sublist_of` l /\ (prompt_observer r -> got = l) /\
    content <$> delivered r' = (content <$> delivered r) ++ got;
  sent_bound : (length (cr_signals r) <= signals_cap)%nat -> (length (cr_signals r') <= signals_cap)%nat;
  sent_handle : cr_handle r' = cr_handle r;
  sent_proc : cr_proc r' = cr_proc r;
  sent_open : cr_closed r' = cr_closed r;
  sent_takes : cr_takes r' = cr_takes r
}.

Lemma sent_nil r : sent [] r r.
Proof. constructor; try done. exists []. by rewrite app_nil_r. Qed.

Lemma sent_app l1 l2 r1 r2 r3 : sent l1 r1 r2 -> sent l2 r2 r3 -> sent (l1 ++ l2) r1 r3.
Proof.
  intros [(g1 & S1 & P1 & E1) B1 H1 A1 O1 T1] [(g2 & S2 & P2 & E2) B2 H2 A2 O2 T2].
  constructor; try congruence; auto. exists (g1 ++ g2). split; [by apply sublist_app|]. split.
  - intros Hp. rewrite P1, P2; [done| |done]. intros n. rewrite T1. apply Hp.
  - by rewrite E2, E1, (assoc_L (++)).
Qed.

Lemma sent_send sig r : cr_closed r = false -> (length (cr_signals r) <= signals_cap)%nat ->
  sent [content sig] r (send sig r).2.
Proof.
  intros Ho Hb. unfold send. cbn [cr_closed observe]. rewrite Ho.
  set (n := cr_takes r (cr_sends r)). cbn [observe cr_signals]. fold n.
  assert (Hd : cr_observed (observe r) ++ cr_signals (observe r) = delivered r).
  { unfold delivered. cbn. by rewrite <- (assoc_L (++)), take_drop. }
  destruct (Nat.ltb_spec (length (drop n (cr_signals r))) signals_cap) as [Hl|Hl].
  - constructor; try done.
    + exists [content sig]. split; [done|]. split; [done|]. rewrite <- Hd. unfold delivered. cbn.
      by rewrite (assoc_L (++)), fmap_app.
    + cbn. rewrite length_app, length_drop in *. cbn. lia.
  - constructor; try done.
    + exists []. split; [apply sublist_nil_l|]. split.
      * intros Hp. exfalso. specialize (Hp (cr_sends r)). fold n in Hp. rewrite length_drop in Hl.
        unfold signals_cap in *. lia.
      * by rewrite app_nil_r, <- Hd.
    + cbn. rewrite length_drop. lia.
Qed.

(** ** The pump *)

(** A pump step: what it sends, and whether the adapter is degraded after it. *)
Record pumped (l : list sent_content) (degraded : bool) (s s' : PumpState) : Prop := mk_pumped {
  pd_sent : sent l (pm_run s) (pm_run s');
  pd_degraded : pm_degraded s' = degraded;
  pd_patterns : op_knownPatterns (pm_parser s') = op_knownPatterns (pm_parser s)
}.

(** The run's channel is open and within its capacity. *)
Definition pump_ok (s : PumpState) : Prop :=
  cr_closed (pm_run s) = false /\ (length (cr_signals (pm_run s)) <= signals_cap)%nat.

Lemma pumped_ok l d s s' : pump_ok s -> pumped l d s s' -> pump_ok s'.
Proof. intros [Ho Hb] [[_ B _ _ O _] _ _]. split; [congruence|auto]. Qed.

Lemma pumped_nil s : pumped [] (pm_degraded s) s s.
Proof. constructor; try done. apply sent_nil. Qed.

Lemma pumped_app l1 l2 d1 d2 s1 s2 s3 :
  pumped l1 d1 s1 s2 -> pumped l2 d2 s2 s3 -> pumped (l1 ++ l2) d2 s1 s3.
Proof. intros [A1 B1 C1] [A2 B2 C2]. constructor; [by eapply sent_app|done|congruence]. Qed.

Definition session_of_pump (s : PumpState) : string := rh_SessionID (cr_handle (pm_run s)).

Lemma pumped_session l d s s' : pumped l d s s' -> session_of_pump s' = session_of_pump s.
Proof. intros [[_ _ H _ _ _] _ _]. unfold session_of_pump. by rewrite H. Qed.

Lemma wp_emit now typ p s : pump_ok s ->
  wp (emit_signal now typ p) s (fun _ s' =>
    pumped [(typ, session_of_pump s, RawJSON p)] (pm_degraded s) s s' /\ pm_env s' = pm_env s).
Proof.
  intros [Ho Hb]. unfold emit_signal, pump_run. wp_simp.
  set (sig := mkAdapterSignal typ _ now (RawJSON p)). unfold wp. cbn.
  split; [|done]. constructor; [apply (sent_send sig); done|done|done].
Qed.

Lemma wp_pump_Now s Q :
  wp pump_Now s Q <-> Q (env_clock (pm_env s) (env_ticks (pm_env s)))
    (mkPumpState (env_tick (pm_env s)) (pm_parser s) (pm_degraded s) (pm_run s)).
Proof. done. Qed.

(** ** What the pump reports

    The signals of parsed events: the first error of an adapter that is not
    degraded yet is preceded by the diagnostic. *)

Definition degraded_content (sid : string) : sent_content :=
  (SignalDiagnostic, sid, RawJSON (encode_DiagnosticPayload degraded_payload)).
Definition event_content (sid : string) (ev : ParsedEvent) : sent_content :=
  (pe_Type ev, sid, RawJSON (encode_EventPayload (pe_Payload ev))).
Definition stderr_content (sid : string) (data : bytes) : sent_content :=
  (SignalOutput, sid, RawJSON (encode_OutputPayload (mkOutputPayload (text data) "stderr"))).

Definition is_error_event (ev : ParsedEvent) : bool := bool_decide (pe_Type ev = SignalError).

Fixpoint reported (sid : string) (degraded : bool) (events : list ParsedEvent) : list sent_content :=
  match events with
  | [] => []
  | ev :: evs =>
      (if is_error_event ev && negb degraded then [degraded_content sid] else []) ++
      event_content sid ev :: reported sid (degraded || is_error_event ev) evs
  end.
Definition degraded_by (degraded : bool) (events : list ParsedEvent) : bool :=
  degraded || existsb is_error_event events.

Lemma reported_app sid d l1 l2 :
  reported sid d (l1 ++ l2) = reported sid d l1 ++ reported sid (degraded_by d l1) l2.
Proof.
  revert d. induction l1 as [|ev l1 IH]; intros d; cbn.
  - unfold degraded_by. cbn. by rewrite orb_false_r.
  - rewrite IH, <- (assoc_L (++)). unfold degraded_by. cbn. by rewrite orb_assoc.
Qed.

Lemma degraded_by_app d l1 l2 : degraded_by d (l1 ++ l2) = degraded_by (degraded_by d l1) l2.
Proof. unfold degraded_by. by rewrite existsb_app, orb_assoc. Qed.

Lemma wp_emitParsed ev s : pump_ok s ->
  wp (emitParsed ev) s (fun _ s' =>
    pumped (reported (session_of_pump s) (pm_degraded s) [ev]) (degraded_by (pm_degraded s) [ev]) s s').
Proof.
  intros Hok. unfold emitParsed. rewrite wp_bind. apply wp_pump_Now.
  set (s0 := mkPumpState _ _ _ _). set (now := env_clock _ _).
  assert (H0 : pumped [] (pm_degraded s) s s0) by (constructor; try done; apply sent_nil).
  unfold reported, degraded_by, existsb, is_error_event. rewrite orb_false_r, wp_bind.
  destruct (decide (pe_Type ev = SignalError)) as [E|E];
    [rewrite bool_decide_true by done|rewrite bool_decide_false by done].
  - unfold markDegraded. wp_simp. change (pm_degraded s0) with (pm_degraded s).
    destruct (pm_degraded s) eqn:Ed; wp_simp.
    + eapply wp_mono; [by apply wp_emit|]. intros _ s1 [H _].
      exact (pumped_app [] _ _ _ _ _ _ H0 H).
    + apply wp_pump_Now. set (s1 := mkPumpState _ _ _ _).
      eapply wp_mono; [by apply wp_emit|]. intros _ s2 [H1 _].
      assert (Hs2 : pumped [degraded_content (session_of_pump s)] true s s2).
      { destruct H1 as [A B C]. constructor; [exact A|exact B|exact C]. }
      eapply wp_mono; [apply wp_emit; by eapply pumped_ok|]. intros _ s3 [H2 _].
      rewrite (pumped_session _ _ _ _ Hs2), (pd_degraded _ _ _ _ Hs2) in H2.
      exact (pumped_app _ _ _ _ _ _ _ Hs2 H2).
  - wp_simp. eapply wp_mono; [by apply wp_emit|]. intros _ s1 [H _].
    rewrite orb_false_r. exact (pumped_app [] _ _ _ _ _ _ H0 H).
Qed.

Lemma wp_emit_events events s : pump_ok s ->
  wp (for_each events emitParsed) s (fun _ s' =>
    pumped (reported (session_of_pump s) (pm_degraded s) events) (degraded_by (pm_degraded s) events) s s').
Proof.
  revert s. induction events as [|ev events IH]; intros s Hok; cbn [for_each].
  { unfold degraded_by. cbn. rewrite orb_false_r. apply pumped_nil. }
  wp_simp. eapply wp_mono; [by apply wp_emitParsed|]. intros u s1 H1. cbn beta in H1. clear u.
  eapply wp_mono; [apply IH; by eapply pumped_ok|]. intros u s2 H2. cbn beta in H2. clear u.
  rewrite (pumped_session _ _ _ _ H1), (pd_degraded _ _ _ _ H1) in H2.
  change (ev :: events) with ([ev] ++ events). rewrite reported_app, degraded_by_app.
  by eapply pumped_app.
Qed.

(** Parsing depends on the patterns only. *)
Lemma ParseBuffer_patterns p q b complete : op_knownPatterns p = op_knownPatterns q ->
  ParseBuffer p b complete = ParseBuffer q b complete.
Proof.
  intros H. assert (HL : forall l, ParseLine p l = ParseLine q l) by (intros; unfold ParseLine; by rewrite H).
  assert (HS : forall ls, parse_lines p ls = parse_lines q ls)
    by (induction ls as [|l ls IH]; cbn; [done|by rewrite HL, IH]).
  unfold ParseBuffer. rewrite HS. case_match; [|done]. by rewrite HL.
Qed.

(** *** Two streams *)

Inductive merge {A} : list A -> list A -> list A -> Prop :=
  | merge_nil : merge [] [] []
  | merge_left x xs ys zs : merge xs ys zs -> merge (x :: xs) ys (x :: zs)
  | merge_right y xs ys zs : merge xs ys zs -> merge xs (y :: ys) (y :: zs).

Lemma merge_right_app {A} (l xs ys zs : list A) : merge xs ys zs -> merge xs (l ++ ys) (l ++ zs).
Proof. intros H. induction l; cbn; [done|by constructor]. Qed.
Lemma merge_right_snoc {A} (xs ys zs l : list A) : merge xs ys zs -> merge xs (ys ++ l) (zs ++ l).
Proof.
  induction 1; cbn; [|by constructor..]. induction l; by constructor.
Qed.

Definition received (s : stream) (items : list (stream * bytes)) : list bytes :=
  (filter (fun it => it.1 = s) items).*2.

Definition chunk_events (p : OutputParser) (chunks : list bytes) : list ParsedEvent :=
  chunks ≫= fun c => (ParseBuffer p c false).1.
Definition chunk_rests (p : OutputParser) (chunks : list bytes) : bytes :=
  concat (map (fun c => (ParseBuffer p c false).2) chunks).

Lemma chunk_patterns p q cs : op_knownPatterns p = op_knownPatterns q ->
  chunk_events p cs = chunk_events q cs /\ chunk_rests p cs = chunk_rests q cs.
Proof.
  intros H. unfold chunk_events, chunk_rests.
  induction cs as [|c cs [IH1 IH2]]; cbn; [done|]. by rewrite IH1, IH2, (ParseBuffer_patterns p q c false H).
Qed.

Lemma wp_pump_loop items pending s : pump_ok s ->
  wp (pump_loop items pending) s (fun pending' s' =>
    let events := chunk_events (pm_parser s) (received Stdout items) in
    pending' = pending ++ chunk_rests (pm_parser s) (received Stdout items) /\
    exists l, merge (stderr_content (session_of_pump s) <$> received Stderr items)
      (reported (session_of_pump s) (pm_degraded s) events) l /\
    pumped l (degraded_by (pm_degraded s) events) s s').
Proof.
  revert s pending. induction items as [|[[|] data] items IH]; intros s pending Hok; cbn [pump_loop].
  - split; [by rewrite app_nil_r|]. exists []. split; [constructor|]. unfold degraded_by. cbn.
    rewrite orb_false_r. apply pumped_nil.
  - rewrite wp_bind. apply wp_gets. destruct (ParseBuffer (pm_parser s) data false) as [evs rest] eqn:E.
    rewrite wp_bind. eapply wp_mono; [by apply wp_emit_events|]. intros u s1 H1. cbn beta in H1. clear u.
    eapply wp_mono; [apply IH; by eapply pumped_ok|]. intros pending' s2 [-> (l & Hm & Hp)].
    rewrite (pumped_session _ _ _ _ H1), (pd_degraded _ _ _ _ H1) in Hm.
    rewrite (pd_degraded _ _ _ _ H1) in Hp.
    destruct (chunk_patterns (pm_parser s1) (pm_parser s) (received Stdout items)
      (pd_patterns _ _ _ _ H1)) as [HE HR].
    rewrite HE in Hm, Hp. rewrite HR.
    change (received Stdout ((Stdout, data) :: items)) with (data :: received Stdout items).
    change (received Stderr ((Stdout, data) :: items)) with (received Stderr items).
    unfold chunk_rests, chunk_events in *. cbn [map concat mbind list_bind]. rewrite E. cbn [fst snd].
    split; [by rewrite <- (assoc_L (++))|]. eexists (_ ++ l).
    rewrite reported_app, degraded_by_app. split; [by apply merge_right_app|by eapply pumped_app].
  - rewrite wp_bind. unfold emitStderr. rewrite wp_bind. apply wp_pump_Now.
    set (s0 := mkPumpState _ _ _ _).
    assert (H0 : pumped [] (pm_degraded s) s s0) by (constructor; try done; apply sent_nil).
    eapply wp_mono; [by apply (wp_emit _ _ _ s0)|]. intros _ s1 [H1 _].
    pose proof (pumped_app _ _ _ _ _ _ _ H0 H1) as H2. cbn [app] in H2.
    eapply wp_mono; [apply IH; by eapply pumped_ok|]. intros pending' s2 [-> (l & Hm & Hp)].
    rewrite (pumped_session _ _ _ _ H2) in Hm. change (pm_degraded s0) with (pm_degraded s) in H2.
    rewrite (pd_degraded _ _ _ _ H2) in Hm, Hp.
    destruct (chunk_patterns (pm_parser s1) (pm_parser s) (received Stdout items)
      (pd_patterns _ _ _ _ H2)) as [HE HR].
    rewrite HE in Hm, Hp. rewrite HR. split; [done|].
    change (received Stdout ((Stderr, data) :: items)) with (received Stdout items).
    change (received Stderr ((Stderr, data) :: items)) with (data :: received Stderr items).
    eexists (_ :: l). split; [cbn [fmap list_fmap]; by apply merge_left|].
    exact (pumped_app _ _ _ _ _ _ _ H2 Hp).
Qed.

(** *** The end of a run *)

(** [ms] is how long the run took. *)
Definition exit_contents (sid : string) (exit_ : option Z * bool) (ms : Z) : list sent_content :=
  match exit_ with
  | (Some code, true) =>
      [(SignalCompletion, sid, RawJSON (encode_CompletionPayload (mkCompletionPayload code "" ms)));
       (SignalStatusChange, sid, RawJSON (encode_StatusChangePayload (mkStatusChangePayload
          RunStateActive (if decide (code = 0) then RunStateCompleted else RunStateFailed) "")))]
  | _ => []
  end.

Lemma wp_pump_flush pending s : pump_ok s ->
  let events := if decide (pending = []) then [] else (ParseBuffer (pm_parser s) pending true).1 in
  wp (flush pending) s (fun _ s' =>
    pumped (reported (session_of_pump s) (pm_degraded s) events) (degraded_by (pm_degraded s) events) s s').
Proof.
  intros Hok events. unfold flush, events. case_decide.
  - unfold degraded_by. cbn. rewrite orb_false_r. apply pumped_nil.
  - wp_simp. by apply wp_emit_events.
Qed.

Lemma wp_emitCompletion s : pump_ok s ->
  wp emitCompletion s (fun _ s' => exists ms,
    pumped (exit_contents (session_of_pump s) (ProcessWrapper_ExitCode (cr_proc (pm_run s))) ms)
      (pm_degraded s) s s').
Proof.
  intros Hok. unfold emitCompletion. wp_simp.
  destruct (ProcessWrapper_ExitCode _) as [[code|] [|]]; try (exists 0; apply pumped_nil).
  wp_simp. apply wp_pump_Now. wp_simp. apply wp_pump_Now. wp_simp.
  match goal with |- wp _ ?st _ => set (s0 := st) end.
  assert (H0 : pumped [] (pm_degraded s) s s0) by (constructor; try done; apply sent_nil).
  eapply wp_mono; [by apply (wp_emit _ _ _ s0)|]. intros u s1 [H1 _]. clear u.
  pose proof (pumped_app _ _ _ _ _ _ _ H0 H1) as H2. wp_simp. apply wp_pump_Now.
  match goal with |- wp _ ?st _ => set (s2 := st) end.
  assert (H3 : pumped [] (pm_degraded s1) s1 s2) by (constructor; try done; apply sent_nil).
  eapply wp_mono; [apply (wp_emit _ _ _ s2); by eapply pumped_ok, H3; eapply pumped_ok|]. intros u s3 [H4 _]. clear u.
  eexists. pose proof (pumped_app _ _ _ _ _ _ _ H2 (pumped_app _ _ _ _ _ _ _ H3 H4)) as H5.
  change (pm_degraded s2) with (pm_degraded s1) in H5. rewrite (pd_degraded _ _ _ _ H2) in H5.
  change (session_of_pump s2) with (session_of_pump s1) in H5.
  rewrite (pumped_session _ _ _ _ H2) in H5. exact H5.
Qed.

(** ** Whole lines *)

(** Every chunk but the last one ends where a line ends. *)
Definition ends_line (c : bytes) : Prop := exists l, c = l ++ [newline].
Definition whole_lines (chunks : list bytes) : Prop := Forall ends_line (removelast chunks).

Lemma split_ends_line l : exists init, split_byte newline (l ++ [newline]) = init ++ [[]].
Proof.
  destruct (split_byte_concat newline l [newline]) as (init & x & rest & ls & E1 & E2 & E3).
  assert (E4 : split_byte newline [newline] = [[]; []]) by (vm_compute; reflexivity).
  rewrite E4 in E2. injection E2 as <- <-. exists (init ++ [x]).
  by rewrite E3, app_nil_r, <- (assoc_L (++)).
Qed.

Lemma ends_line_parse p c b complete : ends_line c ->
  (ParseBuffer p c false).2 = [] /\
  (ParseBuffer p (c ++ b) complete).1 = (ParseBuffer p c false).1 ++ (ParseBuffer p b complete).1.
Proof.
  intros [l ->]. destruct (split_ends_line l) as [init E].
  destruct (split_byte_concat newline (l ++ [newline]) b) as (i0 & x & rest & ls & E1 & E2 & E3).
  rewrite E in E1. apply app_inj_tail in E1 as [<- <-]. cbn [app] in E3.
  rewrite (ParseBuffer_split p (l ++ [newline]) _ _ _ E). split; [done|].
  destruct (split_last b) as (ib & lb & Eb & _). rewrite Eb in E2. rewrite <- E2 in E3.
  rewrite (ParseBuffer_split p _ (init ++ ib) lb complete) by (by rewrite E3, (assoc_L (++))).
  rewrite (ParseBuffer_split p b ib lb complete) by done.
  destruct complete; cbn; by rewrite parse_lines_app, ?(assoc_L (++)).
Qed.

(** With whole lines nothing is put together wrongly. *)
Lemma chunks_parse p chunks : whole_lines chunks ->
  let rests := chunk_rests p chunks in
  chunk_events p chunks ++ (if decide (rests = []) then [] else (ParseBuffer p rests true).1) =
  (ParseBuffer p (concat chunks) true).1.
Proof.
  unfold whole_lines. induction chunks as [|c chunks IH]; intros Hw; [done|].
  destruct chunks as [|c' chunks].
  - clear IH Hw. unfold chunk_rests, chunk_events. cbn [map concat mbind list_bind]. rewrite !app_nil_r.
    destruct (split_last c) as (init & l & E & Hl).
    rewrite !(ParseBuffer_split p c init l _ E). cbn [fst snd]. destruct (decide (l = [])) as [->|Hl0].
    + done.
    + assert (El : split_byte newline l = [] ++ [l]) by (by apply split_byte_none).
      rewrite (ParseBuffer_split p l _ _ true El). cbn [fst parse_lines app].
      by rewrite decide_False.
  - change (removelast (c :: c' :: chunks)) with (c :: removelast (c' :: chunks)) in Hw.
    inversion Hw as [|? ? Hc Hw']; subst. specialize (IH Hw').
    change (concat (c :: c' :: chunks)) with (c ++ concat (c' :: chunks)).
    destruct (ends_line_parse p c (concat (c' :: chunks)) true Hc) as [Hr ->].
    change (chunk_events p (c :: c' :: chunks))
      with ((ParseBuffer p c false).1 ++ chunk_events p (c' :: chunks)).
    change (chunk_rests p (c :: c' :: chunks))
      with ((ParseBuffer p c false).2 ++ chunk_rests p (c' :: chunks)).
    rewrite Hr. cbn [app]. by rewrite <- IH, <- (assoc_L (++)).
Qed.

(** ** From the process to the client *)

(** What the pump receives along a run of the wrapper. *)
Definition receive_step (o : wrap_op) (w : ProcessWrapper) : list (stream * bytes) :=
  match o with
  | WTake s => (fun c => (s, c)) <$> take 1 (ch_queue (pw_chan w s))
  | _ => []
  end.
Definition receipts : list wrap_op -> ProcessWrapper -> list (stream * bytes) := along receive_step.

Lemma received_receipts s ops w : received s (receipts ops w) = chunks_taken s ops w.
Proof.
  unfold received, receipts, chunks_taken. revert w.
  induction ops as [|o ops IH]; intros w; cbn [along]; [done|].
  destruct (wrap_step o w) as [w1|]; [|done]. rewrite filter_app, fmap_app, IH. f_equal.
  destruct o as [| | | |t| |]; try done. unfold receive_step, take_step.
  destruct (decide (t = s)) as [->|Hne]; destruct (ch_queue _) as [|c q]; try done;
    cbn [take fmap list_fmap].
  - by rewrite filter_cons_True.
  - by rewrite filter_cons_False.
Qed.

(** C9: What the process prints is what its client is told.  A started
    process runs to its end in any interleaving of the wrapper's goroutines
    and the pump, no chunk arriving while the wrapper's channels are full, and
    each chunk of its standard output but the last ending with a line: then
    the signals are its standard error chunk by chunk, interleaved with the
    events of its whole standard output parsed at once (the first error
    preceded by the diagnostic), then the exit code with the final status.  A
    client that keeps up gets all of them, any other a subsequence. *)
Theorem process_output_reported w ops w' s s' :
  fresh_start w -> Forall (fun o => is_start o = false) ops -> wrap_run ops w = Some w' ->
  (forall st, ch_queue (pw_chan w' st) = [] /\ chunks_dropped st ops w = []) ->
  whole_lines (chunks_read Stdout ops) ->
  pump_ok s -> cr_proc (pm_run s) = w' ->
  pump_body (receipts ops w) false s = (tt, s') ->
  let sid := session_of_pump s in
  exists printed ms got,
    merge (stderr_content sid <$> chunks_read Stderr ops)
      (reported sid (pm_degraded s)
         (ParseBuffer (pm_parser s) (concat (chunks_read Stdout ops)) true).1) printed /\
    content <$> delivered (pm_run s') = (content <$> delivered (pm_run s)) ++ got /\
    got `sublist_of` printed ++ exit_contents sid (ProcessWrapper_ExitCode w') ms /\
    (prompt_observer (pm_run s) -> got = printed ++ exit_contents sid (ProcessWrapper_ExitCode w') ms).
Proof.
  intros Hf Hops Hrun Hall Hwhole Hok Hproc E sid.
  destruct (fresh_start_ok w Hf) as [Hw Hq].
  assert (Hread : forall st, received st (receipts ops w) = chunks_read st ops).
  { intros st. rewrite received_receipts. destruct (Hall st) as [He Hd].
    destruct (wrap_run_chunks st ops w w' Hops Hw Hrun) as [_ H].
    specialize (H Hd). by rewrite He, Hq, app_nil_r in H. }
  wp_start E. unfold pump_body. wp_simp.
  eapply wp_mono; [by apply wp_pump_loop|]. cbn beta zeta.
  intros pending s1 (-> & l & Hm & H1). rewrite !Hread in *. cbn [app]. wp_simp.
  eapply wp_mono; [apply wp_pump_flush; by eapply pumped_ok|]. intros u s2 H2. cbn beta in H2. clear u.
  pose proof (pumped_app _ _ _ _ _ _ _ H1 H2) as H12.
  eapply wp_mono; [apply wp_emitCompletion; by eapply pumped_ok|].
  intros u s3 [ms H3] _. clear u. pose proof (pumped_app _ _ _ _ _ _ _ H12 H3) as H4.
  rewrite (pumped_session _ _ _ _ H12), (sent_proc _ _ _ (pd_sent _ _ _ _ H12)), Hproc in H4.
  rewrite (pumped_session _ _ _ _ H1), (pd_degraded _ _ _ _ H1) in H4.
  rewrite (ParseBuffer_patterns _ _ _ _ (pd_patterns _ _ _ _ H1)) in H4.
  destruct (pd_sent _ _ _ _ H4) as [(got & Hsub & Hprompt & Hgot) _ _ _ _ _].
  eexists _, ms, got. split; [|done].
  rewrite <- chunks_parse, reported_app by done. by apply merge_right_snoc.
Qed.

(** How a run ends for its client: nothing is reported for a process that was
    killed or could not be waited for. *)
Lemma exit_reported sid now e w ms :
  exit_contents sid (ProcessWrapper_ExitCode (waitForExit_record now e w)) ms =
  if decide (pw_state w = StateKilled) then []
  else match e with
       | None => exit_contents sid (Some 0, true) ms
       | Some (ExitError code _) => exit_contents sid (Some code, true) ms
       | Some (OtherError _) => exit_contents sid (pw_exitCode w, true) ms
       end.
Proof.
  unfold waitForExit_record. cbn [pw_state set_pw_reaper set_pw_done].
  destruct (decide (pw_state w = StateKilled)) as [Hk|Hk];
    unfold ProcessWrapper_ExitCode; destruct e as [[]|]; cbn; rewrite ?Hk;
    try done; by destruct (pw_exitCode w).
Qed.

(** ** Examples *)

Definition demo_os (n : nat) : OSAnswer :=
  mkOSAnswer ["PATH=/bin"] (inl "/tmp/car-perm-1") None None (mkStartOutcome None None None (inl 4242))
    (Ok (if (n =? 0)%nat then 77 else 105)) None (None, None) (fun _ => 256%nat).
Definition demo_session : Session :=
  mkSession "ses-1" "ws-1" "claude-code" "created" "" 0 0 None 0 None None None.
Definition demo_input : Input :=
  mkInput "/srv/demo" "hello" [] [("ANTHROPIC_BASE_URL", "http://localhost")] [("TOKEN", "secret")].
Definition demo_adapter : ClaudeAdapter :=
  (ClaudeAdapter_Start demo_session demo_input (claude_New steady_env demo_os "/usr/bin/claude")).2.
Definition demo_handle : RunHandle := mkRunHandle "run-ses-1" "ses-1" 4242 0.
Definition demo_prompt : string := "hi" +:+ text [newline] +:+ dq "{'role':'system'}".

Lemma prompt_is_one_message_witness :
  exists r, ca_heap demo_adapter !! 0%nat = Some r /\
  exists r' line, ca_heap (ClaudeAdapter_SubmitInput demo_handle demo_prompt demo_adapter).2 !! 0%nat = Some r' /\
    pw_input (cr_proc r') = pw_input (cr_proc r) ++ line ++ [newline] /\ (newline ∉ line) /\
    json_parse (text line) = Some (JObj (user_message (strings_coerce demo_prompt))).
Proof.
  destruct (ca_heap demo_adapter !! 0%nat) as [r|] eqn:Er; [|vm_compute in Er; discriminate Er].
  assert (Hr : (fun r => (cr_streamJSONInput r, pw_stdin (cr_proc r), pw_state (cr_proc r))) <$>
    (ca_heap demo_adapter !! 0%nat) = Some (true, true, StateRunning)) by (vm_compute; reflexivity).
  rewrite Er in Hr. injection Hr as H1 H2 H3.
  exists r. split; [reflexivity|].
  assert (Hi : ca_runs demo_adapter !! rh_ID demo_handle = Some 0%nat) by (vm_compute; reflexivity).
  assert (Hw : oa_Write (ca_os demo_adapter (ca_calls demo_adapter)) =
    Ok (Z.of_nat (length (streamJSONUserMessage demo_prompt)))) by (vm_compute; reflexivity).
  pose proof (prompt_is_one_message demo_adapter demo_handle demo_prompt 0 r Hi Er H1 H2 H3 Hw) as H.
  destruct (ClaudeAdapter_SubmitInput demo_handle demo_prompt demo_adapter) as [acc a'].
  exact (proj2 H).
Defined.

Lemma start_reports_active_witness :
  exists r cmd perm_args, ca_heap demo_adapter = [r] /\
    content <$> delivered r = [(SignalStatusChange, "ses-1", RawJSON active_payload)] /\
    pw_cmd (cr_proc r) = Some cmd /\
    cmd_Args cmd = ["-p"; "--output-format"; "stream-json"; "--input-format"; "stream-json"; "--verbose"]
                   ++ perm_args.
Proof.
  destruct (ClaudeAdapter_Start demo_session demo_input (claude_New steady_env demo_os "/usr/bin/claude"))
    as [res a'] eqn:E.
  pose proof (start_reports_active _ _ _ _ _ E) as H.
  assert (Hres : is_ok (ClaudeAdapter_Start demo_session demo_input
    (claude_New steady_env demo_os "/usr/bin/claude")).1 = true) by (vm_compute; reflexivity).
  rewrite E in Hres. destruct res as [h|e]; [|discriminate Hres].
  destruct H as (r & cmd & pa & _ & _ & H1 & H2 & _ & _ & _ & _ & H3 & _ & _ & H4 & _).
  exists r, cmd, pa. unfold demo_adapter. rewrite E. split; [exact H1|]. split; [exact H2|].
  split; [exact H3|]. exact H4.
Defined.

Definition demo_proc_ops : list wrap_op :=
  [WRead Stdout (chars "error: disk full" ++ [newline]) false; WTake Stdout;
   WRead Stderr (chars "warn") true; WRead Stdout (chars "done") true;
   WTake Stdout; WTake Stderr; WClose None; WRecord 200].
Definition demo_pump (w : ProcessWrapper) : PumpState :=
  mkPumpState steady_env NewOutputParser false
    (mkClaudeRun demo_handle w [] false [] (fun _ => 256%nat) 0 100 true None [] ∅).

Lemma process_output_reported_witness :
  exists w', wrap_run demo_proc_ops demo_started = Some w' /\
  exists printed ms got,
    merge (stderr_content "ses-1" <$> [chars "warn"])
      (reported "ses-1" false (ParseBuffer NewOutputParser
        (concat (chunks_read Stdout demo_proc_ops)) true).1) printed /\
    content <$> delivered (pm_run (pump_body (receipts demo_proc_ops demo_started) false (demo_pump w')).2) = got /\
    got = printed ++ exit_contents "ses-1" (ProcessWrapper_ExitCode w') ms.
Proof.
  destruct (wrap_run demo_proc_ops demo_started) as [w'|] eqn:E; [|vm_compute in E; discriminate E].
  exists w'. split; [reflexivity|].
  assert (Hf : fresh_start demo_started)
    by (exists ["PATH=/bin"], demo_options, demo_outcome, 100; eexists; reflexivity).
  assert (Ho : Forall (fun o => is_start o = false) demo_proc_ops) by (repeat constructor).
  assert (Hq : (fun w => (ch_queue (pw_chan w Stdout), ch_queue (pw_chan w Stderr))) <$>
    wrap_run demo_proc_ops demo_started = Some ([], [])) by (vm_compute; reflexivity).
  rewrite E in Hq. injection Hq as Hq1 Hq2.
  assert (Hall : forall st, ch_queue (pw_chan w' st) = [] /\
    chunks_dropped st demo_proc_ops demo_started = [])
    by (intros [|]; (split; [assumption|vm_compute; reflexivity])).
  assert (Hw : whole_lines (chunks_read Stdout demo_proc_ops)).
  { constructor; [|constructor]. exists (chars "error: disk full"). reflexivity. }
  assert (Hp : pump_ok (demo_pump w')) by (split; [reflexivity|cbn; lia]).
  destruct (process_output_reported demo_started demo_proc_ops w' (demo_pump w')
    (pump_body (receipts demo_proc_ops demo_started) false (demo_pump w')).2 Hf Ho E Hall Hw Hp eq_refl)
    as (printed & ms & got & H1 & H2 & _ & H3).
  { destruct (pump_body _ _ _) as [[] s']. reflexivity. }
  exists printed, ms, got. split; [exact H1|]. split; [exact H2|].
  apply H3. intros n. apply Nat.le_refl.
Defined.

(** A line cut by a chunk boundary is not put together: its head waits for
    the end of the run, its tail is parsed as a line of its own. *)
Definition cut_line : list (stream * bytes) :=
  [(Stdout, chars "error: disk"); (Stdout, chars " full" ++ [newline]); (Stdout, chars "ok" ++ [newline])].

Example cut_line_reported :
  content <$> delivered (pm_run (pump_body cut_line false (demo_pump NewProcessWrapper)).2) =
    reported "ses-1" false [stdout_event "full"; stdout_event "ok";
      mkParsedEvent SignalError (PError (mkErrorPayload "" "disk" ""))] /\
  feed NewOutputParser [] (received Stdout cut_line) =
    [mkParsedEvent SignalError (PError (mkErrorPayload "" "disk full" "")); stdout_event "ok"].
Proof. split; vm_compute; reflexivity. Qed.
