(* ===== verification/App.v ===== *)
(** * The application core (src/internal/app/app.go,
      src/internal/app/session_service.go)

    The composed services over one database and one environment, which the
    approval bridge's world holds; the lifecycle manager's own store field is a
    placeholder.  A request handler and the handling of one adapter signal are
    each one computation; their interleavings are sequences of operations.
    [runCtx], the wait group and logging are left out.  Payload maps are
    written in the key order they are marshalled in. *)

From S2P Require Import Prelude Env Json Domain StateMachine Schema SessionRepo Journal.
From S2P Require Import ApprovalStore Approval Lifecycle AuditLog Registry Adapter.

Definition ErrNotFound : error := ErrSentinel "not found".
Definition ErrConflict : error := ErrSentinel "conflict".
Definition ErrInvalid : error := ErrSentinel "invalid".

(** [fmt.Errorf("%w: <text>", sentinel)]. *)
Definition failing (sentinel : error) (what : string) : error := ErrWrap "" sentinel (": " +:+ what).

Record CreateSessionRequest := mkCreateSessionRequest {
  csr_WorkspaceID : string; csr_AdapterID : string; csr_Title : string }.

Record App (W : Type) := mkApp {
  app_workspaces : Registry;
  app_approvals : ApprovalBridge DB;
  app_audit : Writer;
  app_lifecycle : Manager;
  app_adapters : gmap string (Adapter W);
  app_adapterEnv : gmap string (list (string * string));
  app_agents : W;                        (** the adapters' own state *)
  app_publisher : option (list Event);   (** the events given to the publisher, if there is one *)
  app_retention : Z
}.
Arguments mkApp {W} _ _ _ _ _ _ _ _ _.
Arguments app_workspaces {W} _.
Arguments app_approvals {W} _.
Arguments app_audit {W} _.
Arguments app_lifecycle {W} _.
Arguments app_adapters {W} _.
Arguments app_adapterEnv {W} _.
Arguments app_agents {W} _.
Arguments app_publisher {W} _.
Arguments app_retention {W} _.

(** What [observeAdapter] holds: the session as [StartRun] read it, the run and
    its handle. *)
Record observer := mkObserver { ob_s : Session; ob_run : Run; ob_handle : RunHandle }.

Section App.
Context {W : Type}.
Abbreviation AppM := (M (App W)).

Definition set_app_approvals (b : ApprovalBridge DB) (a : App W) : App W :=
  mkApp (app_workspaces a) b (app_audit a) (app_lifecycle a) (app_adapters a) (app_adapterEnv a)
    (app_agents a) (app_publisher a) (app_retention a).
Definition set_app_lifecycle (m : Manager) (a : App W) : App W :=
  mkApp (app_workspaces a) (app_approvals a) (app_audit a) m (app_adapters a) (app_adapterEnv a)
    (app_agents a) (app_publisher a) (app_retention a).
Definition set_app_agents (w : W) (a : App W) : App W :=
  mkApp (app_workspaces a) (app_approvals a) (app_audit a) (app_lifecycle a) (app_adapters a)
    (app_adapterEnv a) w (app_publisher a) (app_retention a).
Definition set_app_publisher (p : option (list Event)) (a : App W) : App W :=
  mkApp (app_workspaces a) (app_approvals a) (app_audit a) (app_lifecycle a) (app_adapters a)
    (app_adapterEnv a) (app_agents a) p (app_retention a).

Definition app_store (a : App W) : Store :=
  let w := ab_world (app_approvals a) in mkStore (w_store w) (w_env w).
Definition set_app_store (s : Store) (a : App W) : App W :=
  let b := app_approvals a in
  set_app_approvals (set_ab_world (mkWorld (w_heap (ab_world b)) (st_db s) (st_env s)) b) a.
Definition app_db (a : App W) : DB := st_db (app_store a).

(** Calls of the services. *)
Definition db {A} (m : M Store A) : AppM A := zoom app_store set_app_store m.
Definition bridge {A} (m : M (ApprovalBridge DB) A) : AppM A :=
  zoom app_approvals set_app_approvals m.
Definition lifecycle {A} (m : M Manager A) : AppM A :=
  zoom (fun a => set_lm_store (app_store a) (app_lifecycle a))
    (fun l a => set_app_lifecycle l (set_app_store (lm_store l) a)) m.
Definition agents {A} (m : M W A) : AppM A := zoom app_agents set_app_agents m.
Definition record (e : Entry) : AppM unit :=
  let! w := gets app_audit in let! _ := db (Writer_Record w e) in ret tt.

(** ** app.go *)

Definition app_newID (prefix : string) : M Env string :=
  let! b := rand_Read 12 in
  match b with
  | None => let! t := time_Now in ret (prefix +:+ "_" +:+ Itoa t)
  | Some b => ret (prefix +:+ "_" +:+ hex_EncodeToString b)
  end.

Definition RegisterAdapter (ad : Adapter W) : AppM unit :=
  modify (fun a => mkApp (app_workspaces a) (app_approvals a) (app_audit a) (app_lifecycle a)
    (<[ad_ID ad := ad]> (app_adapters a)) (app_adapterEnv a) (app_agents a) (app_publisher a)
    (app_retention a)).

Definition publish (ev : Event) : AppM unit :=
  modify (fun a => set_app_publisher ((fun l => l ++ [ev]) <$> app_publisher a) a).

Definition emitEvent (sessionID eventType : string) (p : payload) : AppM (result unit) :=
  let! mid := db (on_env (app_newID "msg")) in
  let! now := db (on_env time_Now) in
  let ev := mkEvent 0 sessionID 0 eventType mid 1 p now in
  let! r := db (CursorRepository_AppendWithoutTx ev) in
  match r with
  | Err e => ret (Err e)
  | Ok seq => publish (set_e_Sequence seq ev);;; ret (Ok tt)
  end.

(** The error is dropped. *)
Definition emit (sessionID eventType : string) (p : payload) : AppM unit :=
  let! _ := emitEvent sessionID eventType p in ret tt.

Definition ListSessions : AppM (result (list Session)) := db SessionRepository_GetAll.

Definition GetSession (id : string) : AppM (result Session) :=
  let! r := db (SessionRepository_GetByID id) in
  match r with
  | Err _ => ret (Err (failing ErrNotFound ("session " +:+ id)))
  | Ok s => ret (Ok s)
  end.

Definition GetApproval (id : string) : AppM (result loc) :=
  let! r := bridge (ApprovalBridge_GetByID id) in
  match r with
  | Err _ => ret (Err (failing ErrNotFound ("approval " +:+ id)))
  | Ok l => ret (Ok l)
  end.

Definition GetEvents (sessionID : string) (after limit : Z) : AppM (result CursorResult) :=
  let? _ := GetSession sessionID in
  let! a := get in
  db (CursorRepository_Replay (app_retention a) sessionID after limit).

(** [Shutdown] of the lifecycle; closing the database ends the program. *)
Definition App_Start : AppM (option error) := lifecycle (Manager_Start None).
Definition App_Shutdown (how : string -> drain) : AppM outcome := lifecycle (Manager_Shutdown how).

(** ** session_service.go *)

Definition entry_for (actorID action targetType targetID : string) (ctx : list (string * any))
    : Entry :=
  mkEntry actorID ActorTypeUser action targetType targetID OutcomeSuccess (Some ctx).

(** [fmt]'s %v of a slice of strings. *)
Fixpoint join_spaces (l : list string) : string :=
  match l with
  | [] => ""
  | [x] => x
  | x :: l' => x +:+ " " +:+ join_spaces l'
  end.

Definition CreateSession (actorID : string) (req : CreateSessionRequest) : AppM (result Session) :=
  if decide (csr_WorkspaceID req = "") then ret (Err (failing ErrInvalid "workspace_id is required"))
  else if decide (csr_AdapterID req = "") then ret (Err (failing ErrInvalid "adapter_id is required"))
  else
  let! a := get in
  let! ws := db (Registry_GetByID (app_workspaces a) (csr_WorkspaceID req)) in
  match ws with
  | Err _ => ret (Err (failing ErrNotFound ("workspace " +:+ csr_WorkspaceID req)))
  | Ok ws =>
  match app_adapters a !! csr_AdapterID req with
  | None => ret (Err (failing ErrInvalid ("adapter " +:+ csr_AdapterID req +:+ " not available")))
  | Some ad =>
  let v := ad_ValidateWorkspace ad ws in
  if negb (vr_Valid v)
  then ret (Err (failing ErrInvalid ("adapter rejected workspace: [" +:+
                                     join_spaces (vr_Errors v) +:+ "]")))
  else
  let! id := db (on_env (app_newID "ses")) in
  let s := mkSession id (csr_WorkspaceID req) (csr_AdapterID req) SessionStateCreated
             (csr_Title req) 0 0 None 0 None None None in
  let? s := db (SessionRepository_CreateSession s) orelse wrap "creating session" in
  let? _ := emitEvent (s_ID s) "session.created"
              [("adapter_id", JStr (s_AdapterID s)); ("title", JStr (s_Title s));
               ("workspace_id", JStr (s_WorkspaceID s))] orelse wrap "emitting session.created" in
  record (entry_for actorID ActionSessionCreate "session" (s_ID s)
            [("adapter_id", AString (s_AdapterID s)); ("workspace_id", AString (s_WorkspaceID s))]);;;
  let! refreshed := db (SessionRepository_GetByID (s_ID s)) in
  ret (match refreshed with Ok s' => Ok s' | Err _ => Ok s end)
  end
  end.

Definition wsPath (ws : result Workspace) : string :=
  match ws with Ok ws => w_Path ws | Err _ => "" end.

(** The guards of [StartRun], up to the workspace lookup. *)
Definition StartRun_guard (sessionID : string)
    : AppM (result (Session * Adapter W * string)) :=
  let! r := db (SessionRepository_GetByID sessionID) in
  match r with
  | Err _ => ret (Err (failing ErrNotFound ("session " +:+ sessionID)))
  | Ok s =>
      let! a := get in
      if negb (Manager_IsAcceptingRuns (app_lifecycle a))
      then ret (Err (failing ErrConflict "server is shutting down"))
      else if negb (StateMachine_CanTransition (s_State s) SessionStateStarting)
      then ret (Err (failing ErrConflict ("cannot start run from state " +:+ s_State s)))
      else
        match app_adapters a !! s_AdapterID s with
        | None => ret (Err (failing ErrInvalid ("adapter " +:+ s_AdapterID s +:+ " not available")))
        | Some ad =>
            let! ws := db (Registry_GetByID (app_workspaces a) (s_WorkspaceID s)) in
            ret (Ok (s, ad, wsPath ws))
        end
  end.

(** The rest: the state changes, the process and the events.  Whether the first
    state change wrote is not looked at. *)
Definition StartRun_launch (actorID : string) (s : Session) (ad : Adapter W) (path : string)
    : AppM (result observer) :=
  let sessionID := s_ID s in
  let? _ := db (SessionRepository_UpdateState sessionID SessionStateStarting (Some (s_State s)))
    orelse wrap "updating state" in
  let! a := get in
  let! r := agents (ad_Start ad s (mkInput path "" [] (default [] (app_adapterEnv a !! s_AdapterID s)) [])) in
  match r with
  | Err e =>
      let! _ := db (SessionRepository_UpdateState sessionID SessionStateFailed
                      (Some SessionStateStarting)) in
      emit sessionID "run.start_failed" [("error", JStr (error_Error e))];;;
      ret (Err (wrap "starting adapter" e))
  | Ok handle =>
      let run := mkRun (rh_ID handle) sessionID RunStateActive None None None None None None 0 in
      let? run := db (SessionRepository_CreateRun run) orelse wrap "creating run" in
      let! _ := lifecycle (Manager_RegisterRun sessionID (r_ID run)) in
      let! _ := db (SessionRepository_UpdateState sessionID SessionStateActive
                      (Some SessionStateStarting)) in
      let? _ := emitEvent sessionID "run.started"
                  [("pid", JNum (rh_PID handle)); ("run_id", JStr (r_ID run))] in
      record (entry_for actorID ActionSessionStart "session" sessionID
                [("run_id", AString (r_ID run))]);;;
      ret (Ok (mkObserver s run handle))
  end.

(** Answers the observer it starts, which holds the run. *)
Definition StartRun (actorID sessionID : string) : AppM (result observer) :=
  let? g := StartRun_guard sessionID in
  let '(s, ad, path) := g in
  StartRun_launch actorID s ad path.

(** The common guards of [SubmitPrompt] and [Interrupt]. *)
Definition live_run (sessionID what : string) : AppM (result (Session * Adapter W * Run)) :=
  let! r := db (SessionRepository_GetByID sessionID) in
  match r with
  | Err _ => ret (Err (failing ErrNotFound ("session " +:+ sessionID)))
  | Ok s =>
      if decide (s_State s <> SessionStateActive /\ s_State s <> SessionStateWaitingApprov)
      then ret (Err (failing ErrConflict ("cannot " +:+ what +:+ " in state " +:+ s_State s)))
      else
        let! a := get in
        match app_adapters a !! s_AdapterID s with
        | None => ret (Err (failing ErrInvalid "adapter not available"))
        | Some ad =>
            let! r := db (SessionRepository_GetActiveRun sessionID) in
            match r with
            | Err _ => ret (Err (failing ErrConflict "no active run"))
            | Ok run => ret (Ok (s, ad, run))
            end
        end
  end.

Definition run_handle (run : Run) (sessionID : string) : RunHandle :=
  mkRunHandle (r_ID run) sessionID 0 0.

Definition SubmitPrompt (actorID sessionID txt : string) : AppM (result unit) :=
  if decide (txt = "") then ret (Err (failing ErrInvalid "text is required"))
  else
    let? g := live_run sessionID "submit prompt" in
    let '(s, ad, run) := g in
    let! accepted := agents (ad_SubmitInput ad (run_handle run sessionID) txt) in
    if negb (acc_Accepted accepted)
    then ret (Err (failing ErrConflict ("adapter rejected prompt: " +:+ acc_Message accepted)))
    else
      let n := JNum (Z.of_nat (String.length txt)) in
      let? _ := emitEvent sessionID "run.prompt" [("run_id", JStr (r_ID run)); ("text_length", n)] in
      record (entry_for actorID ActionPromptSubmit "session" sessionID
                [("run_id", AString (r_ID run)); ("text_length", AOther n)]);;;
      ret (Ok tt).

Definition Interrupt (actorID sessionID : string) : AppM (result unit) :=
  let? g := live_run sessionID "interrupt" in
  let '(s, ad, run) := g in
  let! accepted := agents (ad_Interrupt ad (run_handle run sessionID)) in
  if negb (acc_Accepted accepted)
  then ret (Err (failing ErrConflict ("adapter rejected interrupt: " +:+ acc_Message accepted)))
  else
    let! _ := db (SessionRepository_UpdateState sessionID SessionStateInterrupted
                    (Some (s_State s))) in
    let? _ := emitEvent sessionID "run.interrupted" [("run_id", JStr (r_ID run))] in
    record (entry_for actorID ActionInterrupt "session" sessionID [("run_id", AString (r_ID run))]);;;
    ret (Ok tt).

(** The pointer the bridge finds, or nil. *)
Definition approval_or_nil (id : string) : AppM (option loc) :=
  let! r := bridge (ApprovalBridge_GetByID id) in
  ret (match r with Ok l => Some l | Err _ => None end).

(** Tell the session's adapter, if the session, the adapter and a run exist. *)
Definition notify_adapter (sessionID approvalID : string) (approved : bool) (reason : string)
    : AppM unit :=
  let! r := db (SessionRepository_GetByID sessionID) in
  match r with
  | Err _ => ret tt
  | Ok session =>
      let! a := get in
      match app_adapters a !! s_AdapterID session with
      | None => ret tt
      | Some ad =>
          let! run := db (SessionRepository_GetActiveRun sessionID) in
          match run with
          | Err _ => ret tt
          | Ok run =>
              let! _ := agents (ad_DecideApproval ad (run_handle run sessionID) approvalID
                                  approved reason) in
              ret tt
          end
      end
  end.

Definition ResolveApproval (actorID approvalID decision reason : string)
    : AppM (result (option loc)) :=
  if decide (decision <> "approve" /\ decision <> "deny")
  then ret (Err (failing ErrInvalid "decision must be approve or deny"))
  else
    let approved := bool_decide (decision = "approve") in
    let! result := bridge (ApprovalBridge_Decide approvalID (mkDecision approved reason actorID)) in
    match dres_Error result with
    | Some e =>
        if decide (error_Error e = "approval not found")
        then ret (Err (failing ErrNotFound ("approval " +:+ approvalID)))
        else ret (Err (failing ErrConflict (error_Error e)))
    | None =>
        if dres_AlreadyFinal result then
          let! ap := approval_or_nil approvalID in ret (Ok ap)
        else
          emit (dres_SessionID result) "approval.resolved"
            [("approval_id", JStr approvalID); ("decision", JStr decision)];;;
          record (entry_for actorID ActionApprovalDecision "approval" approvalID
                    [("decision", AString decision); ("reason", AString reason)]);;;
          let! _ := db (SessionRepository_SetPendingApproval (dres_SessionID result) None) in
          notify_adapter (dres_SessionID result) approvalID approved reason;;;
          let! ap := approval_or_nil approvalID in
          ret (Ok ap)
    end.

(** ** The observer of a run *)

(** Each handler answers the session as it leaves the observer's copy. *)
Definition handleApprovalRequest (s : Session) (run : Run) (sig : AdapterSignal) : AppM Session :=
  match decode_ApprovalRequestPayload (sig_Payload sig) with
  | Err _ => ret s
  | Ok p =>
      let! id := if decide (arp_ApprovalID p = "") then db (on_env (app_newID "apr"))
                 else ret (arp_ApprovalID p) in
      let! r := bridge (ApprovalBridge_Request
                  (mkRequest id (s_ID s) (arp_Category p) (arp_ActionKind p)
                     (arp_HumanReadableContext p) (arp_StructuredPayload p))) in
      match r with
      | Err _ => ret s
      | Ok l =>
          let! ap := gets (fun a => ab_deref l (app_approvals a)) in
          let! _ := db (SessionRepository_SetPendingApproval (s_ID s) (Some (a_ID ap))) in
          (if StateMachine_CanTransition (s_State s) SessionStateWaitingApprov then
             let! _ := db (SessionRepository_UpdateState (s_ID s) SessionStateWaitingApprov
                             (Some (s_State s))) in ret tt
           else ret tt);;;
          let! refreshed := db (SessionRepository_GetByID (s_ID s)) in
          let s := match refreshed with Ok s' => set_s_State (s_State s') s | Err _ => s end in
          let! ap := gets (fun a => ab_deref l (app_approvals a)) in
          emit (s_ID s) "approval.requested"
            [("approval_id", JStr (a_ID ap)); ("category", JStr (a_Category ap));
             ("run_id", JStr (r_ID run))];;;
          ret s
      end
  end.

Definition handleStatusChange (s : Session) (run : Run) (sig : AdapterSignal) : AppM Session :=
  match decode_StatusChangePayload (sig_Payload sig) with
  | Err _ => ret s
  | Ok p =>
      emit (s_ID s) "run.status_change"
        [("new_state", JStr (sc_NewState p)); ("old_state", JStr (sc_OldState p));
         ("reason", JStr (sc_Reason p)); ("run_id", JStr (r_ID run))];;;
      ret s
  end.

(** One turn of the loop that cancels the pending approvals. *)
Definition cancel_one (s : Session) (l : loc) : AppM unit :=
  let! ap := gets (fun a => ab_deref l (app_approvals a)) in
  let! r := bridge (ApprovalBridge_Cancel (a_ID ap)) in
  match r with
  | Err _ => ret tt
  | Ok _ =>
      emit (s_ID s) "approval.resolved"
        [("approval_id", JStr (a_ID ap)); ("decision", JStr "cancelled")]
  end.

Definition strPtrOrNil (s : string) : option string := if decide (s = "") then None else Some s.

Definition handleCompletion (s : Session) (run : Run) (sig : AdapterSignal) : AppM Session :=
  match decode_CompletionPayload (sig_Payload sig) with
  | Err _ => ret s
  | Ok p =>
      let exitCode := cp_ExitCode p in
      let newState := if decide (exitCode = 0) then SessionStateCompleted
                      else SessionStateFailed in
      let! _ := db (SessionRepository_UpdateRunState (r_ID run) newState (Some exitCode)
                      (strPtrOrNil (cp_ExitError p))) in
      (if StateMachine_CanTransition (s_State s) newState then
         let! _ := db (SessionRepository_UpdateState (s_ID s) newState (Some (s_State s))) in ret tt
       else ret tt);;;
      emit (s_ID s) "run.completed"
        [("exit_code", JNum exitCode); ("exit_error", JStr (cp_ExitError p));
         ("run_id", JStr (r_ID run))];;;
      let! pending := bridge (ApprovalBridge_GetPendingBySession (s_ID s)) in
      for_each pending (cancel_one s);;;
      ret s
  end.

Definition parseContent (sig : AdapterSignal) : string :=
  match decode_OutputPayload (sig_Payload sig) with Ok p => op_Content p | Err _ => "" end.

Definition parseErrMessage (sig : AdapterSignal) : string :=
  match decode_ErrorPayload (sig_Payload sig) with Ok p => ep_Message p | Err _ => "" end.

(** One turn of the observer's loop. *)
Definition observe_signal (run : Run) (s : Session) (sig : AdapterSignal) : AppM Session :=
  if decide (sig_Type sig = SignalOutput) then
    emit (s_ID s) "run.output" [("content", JStr (parseContent sig)); ("run_id", JStr (r_ID run))];;;
    ret s
  else if decide (sig_Type sig = SignalApprovalRequest) then handleApprovalRequest s run sig
  else if decide (sig_Type sig = SignalStatusChange) then handleStatusChange s run sig
  else if decide (sig_Type sig = SignalCompletion) then handleCompletion s run sig
  else if decide (sig_Type sig = SignalError) then
    emit (s_ID s) "run.error" [("message", JStr (parseErrMessage sig)); ("run_id", JStr (r_ID run))];;;
    ret s
  else ret s.

Definition observeAdapter (o : observer) (signals : list AdapterSignal) : AppM unit :=
  let! _ := fold_each signals (ob_s o) (observe_signal (ob_run o)) in
  lifecycle (Manager_CompleteRun (r_ID (ob_run o))).
End App.

(** ** What leaves the journal alone *)

Definition same_events (d d' : DB) : Prop := events d' = events d.
#[export] Instance same_events_preorder : PreOrder same_events.
Proof. split; [done|]. unfold same_events. intros ???; congruence. Qed.

Lemma ev_update_key {R} t cols tbl set (f : R -> R) cond key d :
  (forall m d, events (set m d) = events d) ->
  same_events d (update_key t cols tbl set f cond key d).2.
Proof.
  intros Hset. unfold same_events, update_key, prepared. destruct (missing_column t cols); [done|].
  destruct (tbl d !! key) as [r|]; [|done]. destruct (cond r); [|done]. apply Hset.
Qed.

Lemma ev_UpdateState id st ex : db_rel same_events (SessionRepository_UpdateState id st ex).
Proof.
  unfold SessionRepository_UpdateState, RowsAffected.
  assert (H : forall f c, db_rel same_events (exec (update_key t_sessions
    ["state"; "updated_at"; "last_activity_at"] sessions set_sessions f c id)))
    by (intros; apply db_rel_exec; [apply _|intros; by apply ev_update_key]).
  auto 20 with db_rel typeclass_instances.
Qed.
Lemma ev_SetPendingApproval id ap : db_rel same_events (SessionRepository_SetPendingApproval id ap).
Proof.
  unfold SessionRepository_SetPendingApproval.
  assert (H : forall f c, db_rel same_events (exec (update_key t_sessions
    ["pending_approval_id"; "updated_at"] sessions set_sessions f c id)))
    by (intros; apply db_rel_exec; [apply _|intros; by apply ev_update_key]).
  auto 20 with db_rel typeclass_instances.
Qed.
Lemma ev_UpdateRunState id st c e : db_rel same_events (SessionRepository_UpdateRunState id st c e).
Proof.
  unfold SessionRepository_UpdateRunState.
  assert (H : forall f p, db_rel same_events (exec (update_key t_runs
    ["state"; "ended_at"; "exit_code"; "exit_error"; "updated_at"] runs set_runs f p id)))
    by (intros; apply db_rel_exec; [apply _|intros; by apply ev_update_key]).
  auto 20 with db_rel typeclass_instances.
Qed.

(** Close a statement that writes other tables. *)
Ltac ev_exec :=
  apply db_rel_exec; [apply _|]; intros; unfold same_events; cbn; repeat (split_match; cbn); done.

Lemma ev_CreateSession s : db_rel same_events (SessionRepository_CreateSession s).
Proof.
  unfold SessionRepository_CreateSession.
  assert (H : forall i r, db_rel same_events (exec (insert_session i r)))
    by (intros; unfold insert_session; ev_exec).
  auto 20 with db_rel typeclass_instances.
Qed.
Lemma ev_CreateRun r : db_rel same_events (SessionRepository_CreateRun r).
Proof.
  unfold SessionRepository_CreateRun.
  assert (H : forall i r, db_rel same_events (exec (insert_run i r)))
    by (intros; unfold insert_run; ev_exec).
  auto 20 with db_rel typeclass_instances.
Qed.
Lemma ev_Record w e : db_rel same_events (Writer_Record w e).
Proof.
  unfold Writer_Record.
  assert (H : forall c n, db_rel same_events (exec (insert_audit (with_outcome e) c n)))
    by (intros; unfold insert_audit; ev_exec).
  auto 20 with db_rel typeclass_instances.
Qed.
Lemma ev_GetByID id : db_rel same_events (SessionRepository_GetByID id).
Proof. unfold SessionRepository_GetByID. auto 20 with db_rel typeclass_instances. Qed.
Lemma ev_GetActiveRun id : db_rel same_events (SessionRepository_GetActiveRun id).
Proof. unfold SessionRepository_GetActiveRun. auto 20 with db_rel typeclass_instances. Qed.
Lemma ev_GetAll : db_rel same_events SessionRepository_GetAll.
Proof.
  unfold SessionRepository_GetAll, scanSessions. auto 20 with db_rel typeclass_instances.
Qed.
Lemma ev_Registry_GetByID r id : db_rel same_events (Registry_GetByID r id).
Proof.
  unfold Registry_GetByID, WorkspaceRepository_GetByID. auto 20 with db_rel typeclass_instances.
Qed.
Lemma ev_Replay ret sid a l : db_rel same_events (CursorRepository_Replay ret sid a l).
Proof.
  unfold CursorRepository_Replay, CursorRepository_isCursorExpired, EventRepository_GetBySequence,
    scanEvents.
  auto 30 with db_rel typeclass_instances.
Qed.
Lemma ev_on_env {A} (m : M Env A) : db_rel same_events (on_env m).
Proof. auto with db_rel typeclass_instances. Qed.
Create HintDb events.
#[export] Hint Resolve ev_UpdateState ev_SetPendingApproval ev_UpdateRunState ev_CreateSession
  ev_CreateRun ev_Record ev_GetByID ev_GetActiveRun ev_GetAll ev_Registry_GetByID ev_Replay
  ev_on_env : events.

(** ** Every published event is the next row of the journal *)

(** The event of a row, as it is published: the row's number is not known. *)
Definition live_event (r : EventRow) : Event :=
  let e := row_event r in
  mkEvent 0 (e_SessionID e) (e_Sequence e) (e_Type e) (e_MessageID e) (e_SchemaVersion e)
    (e_Payload e) (e_OccurredAt e).

(** Since the tables were [d0], the publisher was given the appended rows. *)
Definition fed {W} (d0 : DB) (a : App W) : Prop :=
  exists rows, events (app_db a) = events d0 ++ rows /\ app_publisher a = Some (live_event <$> rows).

(** The bridge's database stays within a relation that allows every change of
    the approvals table. *)
Section BridgeRel.
Context (R : relation DB) `{!PreOrder R} (d0 : DB).
Hypothesis R_approvals : forall m d, R d (set_approvals m d).

Definition keeps (b : ApprovalBridge DB) : Prop := R d0 (w_store (ab_world b)).

Lemma keeps_on_world {A} (m : M (World DB) A) :
  (forall w, R (w_store w) (w_store (m w).2)) -> preserves keeps (on_world m).
Proof.
  intros Hm b Hb. unfold on_world, zoom. specialize (Hm (ab_world b)).
  destruct (m (ab_world b)) as [x w]. unfold keeps in *. cbn in *. by etransitivity.
Qed.
Lemma keeps_store {A} (m : M Store A) w : db_rel R m ->
  R (w_store w) (w_store (on_store m w).2).
Proof.
  intros Hm. unfold on_store, zoom. specialize (Hm (mkStore (w_store w) (w_env w))).
  by destruct (m _).
Qed.

Lemma keeps_Create p : preserves keeps (on_world (as_Create p)).
Proof.
  apply keeps_on_world. intros w. apply keeps_store. unfold DBStore_Create, insert_approval.
  apply db_rel_exec; [apply _|]. intros d. repeat (split_match; cbn); done || apply R_approvals.
Qed.
Lemma keeps_Update p : preserves keeps (on_world (as_Update p)).
Proof.
  apply keeps_on_world. intros w. apply keeps_store. unfold DBStore_Update.
  assert (H : forall f p k, db_rel R (exec (update_key t_approvals
    ["state"; "decided_at"; "decision_reason"] approvals set_approvals f p k))).
  { intros. apply db_rel_exec; [apply _|]. intros d. unfold update_key, prepared.
    repeat (split_match; cbn); done || apply R_approvals. }
  apply db_rel_try_bind; [apply _|apply H|auto with db_rel typeclass_instances].
Qed.
Lemma keeps_GetByID id : preserves keeps (on_world (as_GetByID id)).
Proof.
  apply keeps_on_world. intros w. cbn. unfold try_bind, bind.
  assert (H : db_rel R (DBStore_GetByID id)).
  { unfold DBStore_GetByID. apply db_rel_bind; [apply _|by apply db_rel_query|].
    intros x. by apply db_rel_ret. }
  pose proof (keeps_store _ w H) as Hs.
  by destruct (on_store (DBStore_GetByID id) w) as [[a|e] w'].
Qed.
Lemma keeps_assign p a : preserves keeps (on_world (assign p a)).
Proof. by apply keeps_on_world. Qed.
Lemma keeps_new a : preserves keeps (on_world (new_approval a)).
Proof. by apply keeps_on_world. Qed.
Lemma keeps_Now : preserves keeps (on_world world_Now).
Proof. by apply keeps_on_world. Qed.
Lemma keeps_modify f : (forall b, ab_world (f b) = ab_world b) -> preserves keeps (modify f).
Proof. intros Hf b Hb. unfold keeps in *. cbn. by rewrite Hf. Qed.
Lemma keeps_try {A B} w (m : M (ApprovalBridge DB) (result A)) (k : A -> M _ (result B)) :
  preserves keeps m -> (forall a, preserves keeps (k a)) -> preserves keeps (try_bind w m k).
Proof. intros Hm Hk. apply preserves_bind; [done|]. intros [a|e]; [apply Hk|apply preserves_ret]. Qed.
#[local] Hint Resolve keeps_Create keeps_Update keeps_GetByID keeps_assign keeps_new keeps_Now
  keeps_try : preserves.
#[local] Hint Extern 1 (preserves _ (modify _)) =>
  apply keeps_modify; intros; repeat split_match; done : preserves.

Lemma keeps_Request req : preserves keeps (ApprovalBridge_Request req).
Proof.
  unfold ApprovalBridge_Request, ApprovalBridge_notifySubscribers. auto 20 with preserves.
Qed.
Lemma keeps_Decide id d : preserves keeps (ApprovalBridge_Decide id d).
Proof.
  unfold ApprovalBridge_Decide, Decide_lookup, Decide_load, Decide_apply, Decide_finish.
  auto 30 with preserves.
Qed.
Lemma keeps_Cancel id : preserves keeps (ApprovalBridge_Cancel id).
Proof. unfold ApprovalBridge_Cancel, change_pending. auto 20 with preserves. Qed.
Lemma keeps_BridgeGet id : preserves keeps (ApprovalBridge_GetByID id).
Proof. unfold ApprovalBridge_GetByID. auto 20 with preserves. Qed.
Lemma keeps_Pending sid : preserves keeps (ApprovalBridge_GetPendingBySession sid).
Proof. unfold ApprovalBridge_GetPendingBySession. auto 20 with preserves. Qed.
Lemma keeps_checkExpiry : preserves keeps ApprovalBridge_checkExpiry.
Proof. unfold ApprovalBridge_checkExpiry, expire_one. auto 20 with preserves. Qed.
End BridgeRel.

(** The bridge's operations keep any such relation. *)
Ltac solve_keeps :=
  first [ apply keeps_Request | apply keeps_Decide | apply keeps_Cancel | apply keeps_BridgeGet
        | apply keeps_Pending | apply keeps_checkExpiry ];
  intros; solve [ apply _ | exact eq_refl | by split ].

Section Feed.
Context {W : Type} (d0 : DB).
Abbreviation AppM := (M (App W)).

Lemma fed_db {A} (m : M Store A) : db_rel same_events m -> preserves (fed (W:=W) d0) (db m).
Proof.
  intros Hm a (rows & Hev & Hp). unfold db, zoom. specialize (Hm (app_store a)).
  destruct (m (app_store a)) as [x s]. exists rows. split; [|done]. cbn.
  unfold same_events in Hm. cbn in Hm. by rewrite Hm.
Qed.
Lemma fed_bridge {A} (m : M (ApprovalBridge DB) A) :
  (forall d, preserves (keeps same_events d) m) -> preserves (fed (W:=W) d0) (bridge m).
Proof.
  intros Hm a (rows & Hev & Hp). unfold bridge, zoom.
  pose proof (Hm (app_db a) (app_approvals a) eq_refl) as H.
  destruct (m (app_approvals a)) as [x b]. exists rows. split; [|done].
  unfold keeps, same_events in H. cbn in *. by rewrite H.
Qed.
Lemma fed_agents {A} (m : M W A) : preserves (fed d0) (agents m).
Proof. intros a Ha. unfold agents, zoom. by destruct (m (app_agents a)). Qed.
Lemma fed_lifecycle {A} (m : M Manager A) :
  (forall l, preserves (fun x => events (st_db (lm_store x)) = l) m) ->
  preserves (fed (W:=W) d0) (lifecycle m).
Proof.
  intros Hm a (rows & Hev & Hp). unfold lifecycle, zoom.
  pose proof (Hm (events (app_db a)) (set_lm_store (app_store a) (app_lifecycle a)) eq_refl) as H.
  destruct (m _) as [x l]. exists rows. split; [|done]. cbn in *. by rewrite H.
Qed.
Lemma fed_RegisterAdapter ad : preserves (fed d0) (RegisterAdapter (W:=W) ad).
Proof. by intros a. Qed.
Lemma fed_try {A B} w (m : AppM (result A)) (k : A -> AppM (result B)) :
  preserves (fed d0) m -> (forall a, preserves (fed d0) (k a)) ->
  preserves (fed d0) (try_bind w m k).
Proof. intros Hm Hk. apply preserves_bind; [done|]. intros [a|e]; [apply Hk|apply preserves_ret]. Qed.

(** The one place that appends, and publishes what it appended. *)
Lemma fed_emitEvent sid typ p : preserves (fed d0) (emitEvent (W:=W) sid typ p).
Proof.
  unfold emitEvent. apply preserves_bind; [apply fed_db, ev_on_env|]. intros mid.
  apply preserves_bind; [apply fed_db, ev_on_env|]. intros now a (rows & Hev & Hp).
  set (ev := mkEvent 0 sid 0 typ mid 1 p now).
  change (wp (let! r := db (CursorRepository_AppendWithoutTx ev) in
    match r with
    | Ok seq => publish (set_e_Sequence seq ev);;; ret (Ok tt)
    | Err e => ret (Err e)
    end) a (fun _ => fed d0)).
  unfold db, publish. wp_simp. apply wp_AppendWithoutTx.
  - intros e env' _ _. wp_simp. by exists rows.
  - intros t env' _ _. wp_simp. cbn.
    set (n := next_sequence sid (st_db (app_store a))).
    exists (rows ++ [event_row (next_event_id (app_db a)) ev n]). split.
    + unfold appended. cbn. destruct (sessions _ !! sid); cbn; by rewrite (assoc_L (++)), <- Hev.
    + cbn. by rewrite Hp, fmap_app.
Qed.

Lemma fed_emit sid typ p : preserves (fed d0) (emit (W:=W) sid typ p).
Proof.
  unfold emit. apply preserves_bind; [apply fed_emitEvent|]. intros ?. apply preserves_ret.
Qed.
#[local] Hint Resolve fed_try fed_emitEvent fed_emit fed_agents fed_RegisterAdapter : preserves.
#[local] Hint Extern 2 (preserves _ (db _)) => apply fed_db; solve [auto 2 with events] : preserves.
#[local] Hint Extern 2 (preserves _ (bridge _)) => apply fed_bridge; intros; solve_keeps : preserves.

Lemma fed_record e : preserves (fed d0) (record (W:=W) e).
Proof. unfold record. auto 10 with preserves. Qed.

(** *** The lifecycle calls *)
Lemma lm_on_db {A} l (m : M Store A) : db_rel same_events m ->
  preserves (fun x => events (st_db (lm_store x)) = l) (on_db m).
Proof.
  intros Hm x Hx. unfold on_db, zoom. specialize (Hm (lm_store x)). unfold same_events in Hm.
  destruct (m (lm_store x)) as [r s]. cbn in *. congruence.
Qed.
Lemma lm_modify l f : (forall x, lm_store (f x) = lm_store x) ->
  preserves (fun x => events (st_db (lm_store x)) = l) (modify f).
Proof. intros Hf x Hx. cbn. by rewrite Hf. Qed.
#[local] Hint Extern 2 (preserves _ (on_db _)) => apply lm_on_db : preserves.
#[local] Hint Extern 2 (preserves _ (modify _)) =>
  apply lm_modify; intros; repeat split_match; done : preserves.

Lemma fed_RegisterRun sid rid : preserves (fed d0) (lifecycle (W:=W) (Manager_RegisterRun sid rid)).
Proof.
  apply fed_lifecycle. intros l. unfold Manager_RegisterRun.
  auto 20 using ev_on_env with preserves.
Qed.
Lemma fed_CompleteRun rid : preserves (fed d0) (lifecycle (W:=W) (Manager_CompleteRun rid)).
Proof. apply fed_lifecycle. intros l. unfold Manager_CompleteRun. auto 20 with preserves. Qed.

Lemma ev_loop {A B} (body : B -> A -> M Store B) l acc :
  (forall acc x, db_rel same_events (body acc x)) -> db_rel same_events (fold_each l acc body).
Proof.
  intros Hb. revert acc. induction l as [|x l IH]; intros acc; cbn.
  - auto with db_rel typeclass_instances.
  - apply db_rel_bind; [apply _|apply Hb|apply IH].
Qed.
Lemma fed_Start : preserves (fed d0) (App_Start (W:=W)).
Proof.
  apply fed_lifecycle. intros l. unfold Manager_Start, Start_check, Start_finish.
  assert (db_rel same_events (reconcileOnStartup None)).
  { unfold reconcileOnStartup. apply db_rel_try_bind; [apply _|apply ev_GetAll|]. intros ss.
    apply db_rel_bind; [apply _| |auto with db_rel typeclass_instances].
    apply ev_loop. intros [? ?] x. unfold reconcile_one, markFailed.
    auto 20 using ev_UpdateState with db_rel typeclass_instances. }
  auto 20 with preserves.
Qed.
Lemma fed_Shutdown how : preserves (fed d0) (App_Shutdown (W:=W) how).
Proof.
  apply fed_lifecycle. intros l.
  unfold Manager_Shutdown, Shutdown_begin, Shutdown_end, drainRun, markSessionForRecovery.
  assert (db_rel same_events markUnresolvedForRecovery).
  { unfold markUnresolvedForRecovery. apply db_rel_try_bind; [apply _|apply ev_GetAll|]. intros ss.
    apply db_rel_bind; [apply _| |auto with db_rel typeclass_instances].
    apply ev_loop. intros ? x. unfold mark_one.
    auto 20 using ev_UpdateState with db_rel typeclass_instances. }
  assert (forall id, db_rel same_events (let! _ := SessionRepository_UpdateState id
    SessionStateRecovering None in ret tt)).
  { intros id. auto 20 using ev_UpdateState with db_rel typeclass_instances. }
  auto 20 with preserves.
Qed.
#[local] Hint Resolve fed_record fed_RegisterRun fed_CompleteRun fed_Start fed_Shutdown : preserves.

Lemma fed_CreateSession actor req : preserves (fed d0) (CreateSession (W:=W) actor req).
Proof. unfold CreateSession. auto 40 with preserves. Qed.
Lemma fed_launch actor s ad path : preserves (fed d0) (StartRun_launch (W:=W) actor s ad path).
Proof. unfold StartRun_launch. auto 40 with preserves. Qed.
Lemma fed_StartRun actor sid : preserves (fed d0) (StartRun (W:=W) actor sid).
Proof.
  unfold StartRun, StartRun_guard. apply fed_try; [auto 40 with preserves|].
  intros [[s ad] path]. apply fed_launch.
Qed.
Lemma fed_live_run sid what : preserves (fed d0) (live_run (W:=W) sid what).
Proof. unfold live_run. auto 40 with preserves. Qed.
#[local] Hint Resolve fed_live_run : preserves.
Lemma fed_SubmitPrompt actor sid txt : preserves (fed d0) (SubmitPrompt (W:=W) actor sid txt).
Proof. unfold SubmitPrompt. auto 40 with preserves. Qed.
Lemma fed_Interrupt actor sid : preserves (fed d0) (Interrupt (W:=W) actor sid).
Proof. unfold Interrupt. auto 40 with preserves. Qed.
Lemma fed_ResolveApproval actor id dec reason :
  preserves (fed d0) (ResolveApproval (W:=W) actor id dec reason).
Proof. unfold ResolveApproval, notify_adapter, approval_or_nil. auto 40 with preserves. Qed.
Lemma fed_observe run s sig : preserves (fed d0) (observe_signal (W:=W) run s sig).
Proof.
  unfold observe_signal, handleApprovalRequest, handleStatusChange, handleCompletion, cancel_one.
  auto 40 with preserves.
Qed.
End Feed.

(** The operations of the core: the handlers, the signals observers handle in
    any interleaving, the expiry sweep, startup and shutdown. *)
Inductive app_op {W : Type} :=
  | ORegister (ad : Adapter W)
  | OStart
  | OShutdown (how : string -> drain)
  | OCreate (actor : string) (req : CreateSessionRequest)
  | ORun (actor sid : string)
  | OPrompt (actor sid txt : string)
  | OInterrupt (actor sid : string)
  | OResolve (actor id decision reason : string)
  | OSignal (run : Run) (s : Session) (sig : AdapterSignal)
  | OComplete (rid : string)
  | OSweep
  | OEvents (sid : string) (after limit : Z).
Arguments app_op : clear implicits.

Definition ignore {S A} (m : M S A) : M S unit := let! _ := m in ret tt.

Definition run_app_op {W} (op : app_op W) : M (App W) unit :=
  match op with
  | ORegister ad => RegisterAdapter ad
  | OStart => ignore App_Start
  | OShutdown how => ignore (App_Shutdown how)
  | OCreate actor req => ignore (CreateSession actor req)
  | ORun actor sid => ignore (StartRun actor sid)
  | OPrompt actor sid txt => ignore (SubmitPrompt actor sid txt)
  | OInterrupt actor sid => ignore (Interrupt actor sid)
  | OResolve actor id dec reason => ignore (ResolveApproval actor id dec reason)
  | OSignal run s sig => ignore (observe_signal run s sig)
  | OComplete rid => lifecycle (Manager_CompleteRun rid)
  | OSweep => bridge ApprovalBridge_checkExpiry
  | OEvents sid after limit => ignore (GetEvents sid after limit)
  end.

Lemma fed_op {W} d0 (op : app_op W) : preserves (fed d0) (run_app_op op).
Proof.
  assert (Hig : forall A (m : M (App W) A), preserves (fed d0) m -> preserves (fed d0) (ignore m))
    by (intros; unfold ignore; auto with preserves).
  destruct op; cbn; try apply Hig; auto using fed_RegisterAdapter, fed_Start, fed_Shutdown,
    fed_CreateSession, fed_StartRun, fed_SubmitPrompt, fed_Interrupt, fed_ResolveApproval,
    fed_observe, fed_CompleteRun.
  - apply fed_bridge. intros. solve_keeps.
  - unfold GetEvents, GetSession. apply fed_try.
    + apply preserves_bind; [apply fed_db, ev_GetByID|]. intros []; apply preserves_ret.
    + intros ?. apply preserves_bind; [apply preserves_get|]. intros x. apply fed_db, ev_Replay.
Qed.

(** ** A run's completion does not reach its session *)

(** The same runs, and the same state in every session. *)
Definition same_states (d d' : DB) : Prop :=
  runs d' = runs d /\ forall sid, sr_state <$> sessions d' !! sid = sr_state <$> sessions d !! sid.
#[export] Instance same_states_preorder : PreOrder same_states.
Proof.
  split; [by split|]. intros d1 d2 d3 [H1 H2] [H3 H4]. split; [congruence|]. intros sid.
  by rewrite H4, H2.
Qed.

Lemma same_states_insert d sid r r' : sessions d !! sid = Some r -> sr_state r' = sr_state r ->
  same_states d (set_sessions (<[sid := r']> (sessions d)) d).
Proof.
  intros Hr Hs. split; [done|]. intros sid'. cbn. destruct (decide (sid = sid')) as [<-|].
  - rewrite lookup_insert_eq, Hr. cbn. by rewrite Hs.
  - by rewrite lookup_insert_ne.
Qed.

Lemma appended_same_states ev n now d : same_states d (appended ev n now d).
Proof.
  unfold appended. destruct (sessions d !! e_SessionID ev) as [r|] eqn:E; [|by split].
  split; [done|]. intros sid. cbn. destruct (decide (e_SessionID ev = sid)) as [<-|].
  - by rewrite lookup_insert_eq, E.
  - by rewrite lookup_insert_ne.
Qed.

Section Completion.
Context {W : Type} (d0 : DB).
Abbreviation AppM := (M (App W)).

Definition states_kept (a : App W) : Prop := same_states d0 (app_db a).

Lemma kept_db {A} (m : M Store A) a (Q : A -> App W -> Prop) : states_kept a ->
  wp m (app_store a) (fun _ s' => same_states (app_db a) (st_db s')) ->
  (forall x a', states_kept a' -> Q x a') -> wp (db m) a Q.
Proof.
  intros Ha Hm HQ. unfold db. rewrite wp_zoom. unfold wp in *. apply HQ.
  unfold states_kept in *. by etransitivity.
Qed.
Lemma kept_db_rel {A} (m : M Store A) : db_rel same_states m -> preserves states_kept (db m).
Proof.
  intros Hm a Ha. change (wp (db m) a (fun _ => states_kept)). apply kept_db; [done|apply Hm|done].
Qed.
Lemma kept_bridge {A} (m : M (ApprovalBridge DB) A) :
  (forall d, preserves (keeps same_states d) m) -> preserves states_kept (bridge m).
Proof.
  intros Hm a Ha. unfold bridge, zoom.
  pose proof (Hm (app_db a) (app_approvals a) (reflexivity _)) as H.
  destruct (m (app_approvals a)) as [x b]. unfold states_kept, keeps in *. cbn in *.
  by etransitivity.
Qed.

Lemma kept_emit sid typ p : preserves states_kept (emit sid typ p).
Proof.
  unfold emit, emitEvent. apply preserves_bind; [|intros; apply preserves_ret].
  apply preserves_bind; [apply kept_db_rel, db_rel_on_env; apply _|]. intros mid.
  apply preserves_bind; [apply kept_db_rel, db_rel_on_env; apply _|]. intros now.
  apply preserves_bind.
  - intros a Ha. change (wp (db (CursorRepository_AppendWithoutTx (mkEvent 0 sid 0 typ mid 1 p now))) a
      (fun _ => states_kept)).
    apply kept_db; [done| |done]. apply wp_AppendWithoutTx.
    + intros. apply (reflexivity (R := same_states)).
    + intros. apply appended_same_states.
  - intros [n|e]; [|apply preserves_ret]. apply preserves_bind; [by intros a Ha|].
    intros. apply preserves_ret.
Qed.

(** [UpdateRunState] never writes: its statement names a missing column. *)
Lemma kept_UpdateRunState rid st c e :
  preserves states_kept (db (W:=W) (SessionRepository_UpdateRunState rid st c e)).
Proof.
  apply kept_db_rel. unfold SessionRepository_UpdateRunState.
  assert (H : forall f p, db_rel same_states (exec (update_key t_runs
    ["state"; "ended_at"; "exit_code"; "exit_error"; "updated_at"] runs set_runs f p rid))).
  { intros. apply db_rel_exec; [apply _|]. intros d. by apply (reflexivity (R := same_states)). }
  auto 20 with db_rel typeclass_instances.
Qed.

(** A compare-and-set from a state the session is not in writes nothing. *)
Lemma kept_UpdateState sid st ex row : sessions d0 !! sid = Some row -> sr_state row <> ex ->
  preserves states_kept (db (W:=W) (SessionRepository_UpdateState sid st (Some ex))).
Proof.
  intros Hrow Hne a Ha.
  change (wp (db (SessionRepository_UpdateState sid st (Some ex))) a (fun _ => states_kept)).
  assert (Hcur : sr_state <$> sessions (app_db a) !! sid = Some (sr_state row))
    by (rewrite (proj2 Ha); by rewrite Hrow).
  apply kept_db; [done| |done]. apply wp_UpdateState; cbn; try (intros; reflexivity).
  - intros e now r env' _ _ Hr Hm%bool_decide_eq_true. change (sessions (app_db a) !! sid = Some r) in Hr.
    rewrite Hr in Hcur. cbn in Hcur. congruence.
  - intros now r env' _ Hr Hm%bool_decide_eq_true. change (sessions (app_db a) !! sid = Some r) in Hr.
    rewrite Hr in Hcur. cbn in Hcur. congruence.
Qed.
#[local] Hint Resolve kept_emit kept_UpdateRunState kept_UpdateState : preserves.
#[local] Hint Extern 2 (preserves _ (bridge _)) => apply kept_bridge; intros; solve_keeps : preserves.

Lemma kept_observe run s sig row : sig_Type sig <> SignalApprovalRequest ->
  sessions d0 !! s_ID s = Some row -> sr_state row <> s_State s ->
  preserves states_kept (observe_signal (W:=W) run s sig).
Proof.
  intros Hsig Hrow Hne. unfold observe_signal, handleStatusChange, handleCompletion, cancel_one.
  rewrite (decide_False (P := sig_Type sig = SignalApprovalRequest)) by done.
  assert (H : forall st, preserves states_kept (db (W:=W)
    (SessionRepository_UpdateState (s_ID s) st (Some (s_State s)))))
    by (intros; by eapply kept_UpdateState).
  auto 40 with preserves.
Qed.
End Completion.

(** A property of a handler's answer, whatever the state. *)
Definition answers {S A} (P : A -> Prop) (m : M S A) : Prop := forall s, P (m s).1.
Lemma answers_ret {S A} (P : A -> Prop) (x : A) : P x -> answers (S:=S) P (ret x).
Proof. by intros HP s. Qed.
Lemma answers_bind {S A B} (P : B -> Prop) (m : M S A) (k : A -> M S B) :
  (forall a, answers P (k a)) -> answers P (bind m k).
Proof. intros Hk s. unfold bind. destruct (m s) as [a s']. apply Hk. Qed.
Ltac solve_answers :=
  repeat first [ apply answers_bind; intros | apply answers_ret | split_match ]; try done.

Lemma observe_answers {W} run s sig : sig_Type sig <> SignalApprovalRequest ->
  answers (fun s' => s' = s) (observe_signal (W:=W) run s sig).
Proof.
  intros Hsig. unfold observe_signal, handleStatusChange, handleCompletion.
  rewrite (decide_False (P := sig_Type sig = SignalApprovalRequest)) by done.
  solve_answers.
Qed.

(** A whole observer that sees no approval request. *)
Lemma kept_observeAdapter {W} d0 o sigs row (a : App W) :
  Forall (fun sig => sig_Type sig <> SignalApprovalRequest) sigs ->
  sessions d0 !! s_ID (ob_s o) = Some row -> sr_state row <> s_State (ob_s o) ->
  states_kept d0 a -> states_kept d0 (observeAdapter o sigs a).2.
Proof.
  intros Hsigs Hrow Hne Ha.
  change (wp (observeAdapter o sigs) a (fun _ => states_kept d0)).
  unfold observeAdapter. rewrite wp_bind.
  apply (wp_fold_each _ _ _ (fun rest s a => Forall (fun sig => sig_Type sig <> SignalApprovalRequest)
    rest /\ s = ob_s o /\ states_kept d0 a)); [done| |].
  - intros sig rest s a1 ([Hsig Hrest]%Forall_cons & -> & Ha1). unfold wp.
    split; [done|]. split; [by apply observe_answers|]. by apply (kept_observe d0 _ _ _ row).
  - intros s a1 (_ & _ & Ha1). unfold lifecycle, Manager_CompleteRun. rewrite wp_zoom, wp_modify.
    cbn. by destruct (lm_activeRuns _ !! _).
Qed.

(** ** Starting a run *)

Definition app_env {W} (a : App W) : Env := st_env (app_store a).

Lemma wp_any {S A} (m : M S A) s (Q : A -> S -> Prop) : (forall a s', Q a s') -> wp m s Q.
Proof. intros H. apply H. Qed.

(** Only the environment moved. *)
Record only_env {W} (a a' : App W) : Prop := mk_only_env {
  oe_db : app_db a' = app_db a;
  oe_agents : app_agents a' = app_agents a;
  oe_adapterEnv : app_adapterEnv a' = app_adapterEnv a;
  oe_env : env_after (app_env a) (app_env a')
}.

Section Start.
Context {W : Type}.
Implicit Types a : App W.

Lemma wp_app_db {A} (m : M Store A) a (Q : A -> App W -> Prop) :
  wp (db m) a Q <-> wp m (app_store a) (fun x s' => Q x (set_app_store s' a)).
Proof. unfold db. apply wp_zoom. Qed.

Lemma wp_Registry_GetByID r id s (Q : result Workspace -> Store -> Prop) :
  (forall x env', env_after (st_env s) env' -> Q x (mkStore (st_db s) env')) ->
  wp (Registry_GetByID r id) s Q.
Proof.
  intros HQ. unfold Registry_GetByID. destruct (rg_workspaces r !! id).
  - wp_simp. destruct s. by apply HQ.
  - unfold WorkspaceRepository_GetByID. wp_simp. apply wp_exec_query; intros; wp_simp; by apply HQ.
Qed.

Lemma guard_spec sid a s ad path a' : StartRun_guard sid a = (Ok (s, ad, path), a') ->
  only_env a a' /\ s_ID s = sid /\ is_Some (sessions (app_db a) !! sid) /\
  StateMachine_CanTransition (s_State s) SessionStateStarting = true.
Proof.
  intros E. wp_start E. unfold StartRun_guard. wp_simp. apply wp_app_db.
  unfold SessionRepository_GetByID. wp_simp. apply wp_exec_query; [done|]. intros env1 He1. wp_simp.
  cbn [scanSession]. unfold select_session.
  destruct (sessions (st_db (app_store a)) !! sid) as [row|] eqn:Hrow; cbn; [|done].
  destruct (sr_title row); cbn; [|done]. wp_simp.
  unfold Manager_IsAcceptingRuns. case_bool_decide; cbn; [|done].
  destruct (StateMachine_CanTransition _ _) eqn:Hc; cbn; [|done].
  destruct (app_adapters a !! _) as [ad'|]; cbn; [|done]. wp_simp.
  apply wp_app_db, wp_Registry_GetByID. intros ws env2 He2. wp_simp. intros [= <- <- <-].
  split; [|split; [done|split; [by eexists|done]]].
  split; [done..|]. cbn in *. by etransitivity.
Qed.

(** The observer a launch answers holds the session it was given. *)
Lemma launch_observer actor s ad path :
  answers (fun r => forall o, r = Ok o -> ob_s o = s) (StartRun_launch (W:=W) actor s ad path).
Proof.
  unfold StartRun_launch, try_bind. solve_answers. by intros o [= <-].
Qed.

(** The runs and the presence of sessions are kept. *)
Definition same_runs (d d' : DB) : Prop :=
  runs d' = runs d /\ forall sid, is_Some (sessions d !! sid) -> is_Some (sessions d' !! sid).

Lemma same_runs_insert d sid r : same_runs d (set_sessions (<[sid := r]> (sessions d)) d).
Proof. split; [done|]. intros sid'. cbn. rewrite lookup_insert_is_Some'. tauto. Qed.

(** Where a launch is between its steps. *)
Record ready (w : W) (ae : gmap string (list (string * string))) (sid : string)
    (R : gmap string RunRow) (a : App W) : Prop := mk_ready {
  rd_agents : app_agents a = w;
  rd_env : app_adapterEnv a = ae;
  rd_quiet : quiet (app_env a);
  rd_session : is_Some (sessions (app_db a) !! sid);
  rd_runs : runs (app_db a) = R
}.

Lemma ready_store w ae sid R a s' : ready w ae sid R a ->
  env_after (app_env a) (st_env s') -> same_runs (app_db a) (st_db s') ->
  ready w ae sid R (set_app_store s' a).
Proof.
  intros [] He [Hr Hs]. split; try done; cbn.
  - by eapply quiet_after.
  - by apply Hs.
  - unfold app_db. cbn. congruence.
Qed.

Lemma ready_db {A} w ae sid R (m : M Store A) :
  (forall s, quiet (st_env s) -> wp m s (fun _ s' => env_after (st_env s) (st_env s') /\
    same_runs (st_db s) (st_db s'))) -> preserves (ready w ae sid R) (db m).
Proof.
  intros Hm a Ha. change (wp (db m) a (fun _ => ready w ae sid R)). apply wp_app_db.
  eapply wp_mono; [apply Hm, (rd_quiet _ _ _ _ _ Ha)|]. intros x s' [He Hs]. by apply ready_store.
Qed.

Lemma same_runs_refl d : same_runs d d.
Proof. by split. Qed.

Lemma ready_UpdateState w ae sid R id st ex :
  preserves (ready w ae sid R) (db (SessionRepository_UpdateState id st ex)).
Proof.
  apply ready_db. intros s Hq.
  apply wp_UpdateState; intros; (split; [done|]);
    first [ apply same_runs_refl | apply same_runs_insert ].
Qed.

Lemma ready_on_env {A} w ae sid R (m : M Env A) : reads m ->
  preserves (ready w ae sid R) (db (on_env m)).
Proof.
  intros Hm. apply ready_db. intros s _. apply wp_on_env; [done|]. intros x env' He.
  split; [done|apply same_runs_refl].
Qed.

Lemma ready_emitEvent w ae sid R id typ p : preserves (ready w ae sid R) (emitEvent (W:=W) id typ p).
Proof.
  unfold emitEvent. apply preserves_bind.
  { apply ready_on_env. unfold app_newID. apply reads_bind; [auto with env|].
    intros [b|]; [auto with env|]. apply reads_bind; auto with env. }
  intros mid. apply preserves_bind; [apply ready_on_env; auto with env|]. intros now.
  apply preserves_bind.
  - apply ready_db. intros s _. apply wp_AppendWithoutTx; [intros; split; auto using same_runs_refl|].
    intros t env' He _. split; [done|]. unfold appended.
    destruct (sessions (st_db s) !! _); cbn; [|by split]. split; [done|]. intros sid'. cbn.
    rewrite lookup_insert_is_Some'. tauto.
  - intros [n|e]; [|apply preserves_ret]. apply preserves_bind; [|intros; apply preserves_ret].
    by intros a [].
Qed.

Lemma ready_record w ae sid R e : preserves (ready w ae sid R) (record (W:=W) e).
Proof.
  unfold record. apply preserves_bind; [apply preserves_gets|]. intros wr.
  apply preserves_bind; [|intros; apply preserves_ret]. apply ready_db. intros s _.
  unfold Writer_Record. repeat case_decide; wp_simp; try (split; [reflexivity|apply same_runs_refl]).
  apply wp_on_env; [auto with env|]. intros now env1 He1. wp_simp.
  apply wp_exec; [intros e1 env2 He2 _|intros r d env2 He2 [= <- <-]]; wp_simp; cbn in *;
    (split; [by etransitivity|by split]).
Qed.

Lemma ready_RegisterRun w ae sid R id rid :
  preserves (ready w ae sid R) (lifecycle (W:=W) (Manager_RegisterRun id rid)).
Proof.
  intros a Ha. change (wp (lifecycle (Manager_RegisterRun id rid)) a (fun _ => ready w ae sid R)).
  assert (Hid : forall l, ready w ae sid R
    (set_app_lifecycle l (set_app_store (app_store a) a))) by (by intros l; destruct Ha).
  unfold lifecycle, Manager_RegisterRun, on_db. rewrite wp_zoom. wp_simp. case_decide; wp_simp; [apply Hid|].
  apply wp_on_env; [auto with env|]. intros now env1 He1. wp_simp.
  destruct Ha. split; try done; cbn. by eapply quiet_after.
Qed.

(** Creating a run that is new succeeds. *)
Lemma wp_CreateRun_fresh run s (Q : result Run -> Store -> Prop) :
  quiet (st_env s) -> runs (st_db s) !! r_ID run = None ->
  is_Some (sessions (st_db s) !! r_SessionID run) ->
  (forall now env', env_after (st_env s) env' ->
     Q (Ok (set_r_CreatedAt now run))
       (mkStore (set_runs (<[r_ID run := run_row (set_r_CreatedAt now run)]> (runs (st_db s)))
                   (st_db s)) env')) ->
  wp (SessionRepository_CreateRun run) s Q.
Proof.
  intros Hq Hr [row Hs] HQ. unfold SessionRepository_CreateRun. wp_simp.
  apply wp_on_env; [auto with env|]. intros now env1 He1. wp_simp.
  apply wp_exec.
  { intros e env2 _ Hf. exfalso. eapply quiet_not_faulty; [|exact Hf]. cbn. by eapply quiet_after. }
  intros r d env2 He2. unfold insert_run. cbn.
  rewrite Hr, Hs, decide_False by (by intros []). rewrite (bool_decide_false (Some row = None)) by done.
  rewrite andb_false_r. intros [= <- <-]. wp_simp. apply HQ. solve_env.
Qed.

(** What a launch does to the adapters and the runs when the process starts. *)
Lemma launch_spec actor s ad path a h w R :
  ready (app_agents a) (app_adapterEnv a) (s_ID s) R a ->
  ad_Start ad s (mkInput path "" [] (default [] (app_adapterEnv a !! s_AdapterID s)) []) (app_agents a)
    = (Ok h, w) ->
  R !! rh_ID h = None ->
  wp (StartRun_launch actor s ad path) a (fun _ a' => exists r,
    ready w (app_adapterEnv a) (s_ID s) (<[rh_ID h := r]> R) a' /\
    rr_session_id r = s_ID s /\ run_is_active r = true).
Proof.
  intros Ha Hstart Hfresh. unfold StartRun_launch. wp_simp.
  pose proof (ready_UpdateState _ _ _ _ (s_ID s) SessionStateStarting (Some (s_State s)) a Ha) as H1.
  assert (Hok : wp (db (SessionRepository_UpdateState (s_ID s) SessionStateStarting
    (Some (s_State s)))) a (fun r _ => is_ok r = true)).
  { apply wp_app_db. apply wp_UpdateState; try done; intros; by destruct (quiet_not_faulty _ (rd_quiet _ _ _ _ _ Ha)). }
  unfold wp in Hok |- * at 1. destruct (db _ a) as [[x|e] a1]; [|done]. cbn in H1 |- *. clear Hok.
  wp_simp. unfold agents. rewrite wp_zoom. unfold wp at 1.
  rewrite (rd_agents _ _ _ _ _ H1), (rd_env _ _ _ _ _ H1), Hstart. cbn [fst snd].
  assert (H2 : ready w (app_adapterEnv a) (s_ID s) R (set_app_agents w a1)) by (by destruct H1).
  clear H1. wp_simp. apply wp_app_db, wp_CreateRun_fresh; cbn.
  - apply (rd_quiet _ _ _ _ _ H2).
  - change (runs (app_db (set_app_agents w a1)) !! rh_ID h = None). by rewrite (rd_runs _ _ _ _ _ H2).
  - apply (rd_session _ _ _ _ _ H2).
  - intros now env' He. set (r := run_row _).
    match goal with |- wp _ ?a3 _ => assert (H3 : ready w (app_adapterEnv a) (s_ID s) (<[rh_ID h := r]> R) a3) end.
    { destruct H2. split; try done; cbn.
      - by eapply quiet_after.
      - unfold app_db in *. cbn in *. congruence. }
    match goal with |- wp ?m ?a3 _ => assert (H4 : preserves (ready w (app_adapterEnv a) (s_ID s) (<[rh_ID h := r]> R)) m) end.
    + apply preserves_bind; [apply ready_RegisterRun|]. intros _.
      apply preserves_bind; [apply ready_UpdateState|]. intros _.
      apply preserves_bind; [apply ready_emitEvent|]. intros [[]|e]; [|apply preserves_ret].
      apply preserves_bind; [apply ready_record|]. intros _. apply preserves_ret.
    + exists r. split; [by apply H4|]. by split.
Qed.
End Start.

(** ** Properties *)


(** An adapter that counts the processes it started and accepts everything. *)
Definition demo_agent : Adapter nat :=
  mkAdapter "fake-adapter" (BaseAdapter_ValidateWorkspace "fake-adapter")
    (fun s _ n => (Ok (mkRunHandle ("run_" +:+ Itoa (Z.of_nat n)) (s_ID s) (Z.of_nat n) 0), S n))
    (fun _ _ => ret (mkAccepted true "")) (fun _ => ret (mkAccepted true ""))
    (fun _ _ _ _ => ret (mkAccepted true "")).

(** A running server whose database has a workspace and a running session. *)
Definition demo_app : App nat :=
  mkApp (NewRegistry "") (NewApprovalBridge (mkWorld [] demo_db steady_env)) demo_writer
    (set_lm_phase PhaseRunning (NewManager demo_store)) {["fake-adapter" := demo_agent]} ∅ 100%nat
    (Some []) 0.
Definition demo_ops : list (app_op nat) :=
  [OCreate "dev-1" (mkCreateSessionRequest "ws-1" "fake-adapter" "t"); OPrompt "dev-1" "ses-1" "hi";
   OInterrupt "dev-1" "ses-1"].


(** A late decision is silent.  Deciding an approval that is no longer
    pending answers that approval and leaves everything as it was: no event,
    no audit entry, no write, and the adapter is not told again. *)
Theorem late_decision_is_silent {W} actor id decision reason (a : App W) l :
  decision = "approve" \/ decision = "deny" ->
  ab_approvals (app_approvals a) !! id = Some l ->
  a_State (ab_deref l (app_approvals a)) <> ApprovalStatePending ->
  ResolveApproval actor id decision reason a = (Ok (Some l), a).
Proof.
  intros Hd Hl Hst.
  assert (Hsame : forall A (m : M (ApprovalBridge DB) A) x,
    m (app_approvals a) = (x, app_approvals a) -> bridge m a = (x, a)).
  { intros A m x Hm. unfold bridge, zoom. rewrite Hm. by destruct a. }
  unfold ResolveApproval, approval_or_nil. rewrite decide_False by naive_solver. unfold bind.
  erewrite (Hsame _ (ApprovalBridge_Decide _ _)).
  2: { unfold ApprovalBridge_Decide, Decide_lookup, bind, gets. rewrite Hl. cbn.
       unfold Decide_apply, bind, gets. rewrite decide_True by done. reflexivity. }
  cbn. rewrite (Hsame _ (ApprovalBridge_GetByID id) (Ok l)); [done|].
  unfold ApprovalBridge_GetByID, bind, get. by rewrite Hl.
Qed.

(** The demo with an approval that was asked for and approved. *)
Definition demo_observer : Session := mkSession "ses-1" "ws-1" "fake-adapter" SessionStateCreated
  "demo" 0 0 None 0 None None None.
Definition demo_request : AdapterSignal :=
  mkAdapterSignal SignalApprovalRequest "ses-1" 0
    (RawJSON (JObj [("approval_id", JStr "apr-1"); ("category", JStr "exec")])).
Definition demo_approved : App nat :=
  (for_each [OSignal (mkRun "run-1" "ses-1" "active" None None None None None None 0) demo_observer
               demo_request;
             OResolve "dev-1" "apr-1" "approve" "fine"] run_app_op demo_app).2.

Lemma late_decision_is_silent_witness :
  ResolveApproval "dev-2" "apr-1" "deny" "late" demo_approved = (Ok (Some 0%nat), demo_approved).
Proof.
  apply late_decision_is_silent; [by right|vm_compute; reflexivity|vm_compute; discriminate].
Defined.

(** A finished run leaves its session running.  [StartRun] gives the
    observer the session as it was before the run started, so the transition
    the observer asks for on completion is checked, and compared in the
    database, against a state the session has left.  Unless an approval was
    requested in between, whatever the exit code, the session stays active
    and every run row stays as it was. *)
Theorem completion_never_recorded {W} actor sid (a : App W) o a1 row signals :
  StartRun actor sid a = (Ok o, a1) ->
  sessions (app_db a1) !! sid = Some row -> sr_state row = SessionStateActive ->
  Forall (fun sig => sig_Type sig <> SignalApprovalRequest) signals ->
  let a2 := (observeAdapter o signals a1).2 in
  sr_state <$> sessions (app_db a2) !! sid = Some SessionStateActive /\
  runs (app_db a2) = runs (app_db a1).
Proof.
  intros E Hrow Hst Hsig a2.
  assert (Ho : s_ID (ob_s o) = sid /\ s_State (ob_s o) <> SessionStateActive).
  { unfold StartRun, try_bind, bind in E.
    destruct (StartRun_guard sid a) as [[[[s ad] path]|e] a0] eqn:Eg; [|done].
    apply guard_spec in Eg as (_ & Hid & _ & Hc).
    assert (Hs : ob_s o = s).
    { pose proof (launch_observer actor s ad path a0 o) as H. rewrite E in H. by apply H. }
    rewrite Hs. split; [done|]. intros Hactive. rewrite Hactive in Hc. done. }
  destruct Ho as [Hid Hne].
  assert (H : states_kept (app_db a1) a2).
  { apply (kept_observeAdapter _ _ _ row); [done|by rewrite Hid|congruence|].
    apply (reflexivity (R := same_states)). }
  destruct H as [Hr Hs]. split; [by rewrite Hs, Hrow; cbn; rewrite Hst|done].
Qed.

(** The demo with a new session, and a run started in it. *)
Definition demo_req : CreateSessionRequest := mkCreateSessionRequest "ws-1" "fake-adapter" "t".
Definition demo_created : App nat := (CreateSession "dev-1" demo_req demo_app).2.
Definition demo_new : string :=
  match (CreateSession "dev-1" demo_req demo_app).1 with Ok s => s_ID s | Err _ => "" end.
Abbreviation demo_running := ((StartRun "dev-1" demo_new demo_created).2) (only parsing).
Definition demo_run_observer : observer :=
  match (StartRun "dev-1" demo_new demo_created).1 with
  | Ok o => o
  | Err _ => mkObserver demo_observer (mkRun "" "" "" None None None None None None 0)
               (mkRunHandle "" "" 0 0)
  end.
Definition demo_exit : AdapterSignal :=
  mkAdapterSignal SignalCompletion demo_new 0 (RawJSON (JObj [("exit_code", JNum 0)])).

Lemma completion_never_recorded_witness :
  let a2 := (observeAdapter demo_run_observer [demo_exit] demo_running).2 in
  sr_state <$> sessions (app_db a2) !! demo_new = Some SessionStateActive /\
  runs (app_db a2) = runs (app_db demo_running).
Proof.
  apply (completion_never_recorded "dev-1" demo_new demo_created demo_run_observer demo_running
    (match sessions (app_db demo_running) !! demo_new with
     | Some row => row | None => demo_session_row end)).
  - apply run_answer. vm_compute. reflexivity.
  - vm_compute. reflexivity.
  - vm_compute. reflexivity.
  - repeat constructor. discriminate.
Defined.

(** Two requests can start two agents in one session.  The guards of
    [StartRun] and its compare-and-set are separate steps, and the outcome of
    the compare-and-set is not looked at: when two requests pass the guards
    before either goes on, both start a process, and both runs are stored as
    active runs of the session. *)
Theorem StartRun_race {W} actor1 actor2 sid (a : App W) s ad path a' a0 h1 w1 h2 w2 :
  quiet (app_env a) ->
  StartRun_guard sid a = (Ok (s, ad, path), a') ->
  StartRun_guard sid a' = (Ok (s, ad, path), a0) ->
  let input := mkInput path "" [] (default [] (app_adapterEnv a !! s_AdapterID s)) [] in
  ad_Start ad s input (app_agents a) = (Ok h1, w1) ->
  ad_Start ad s input w1 = (Ok h2, w2) ->
  rh_ID h1 <> rh_ID h2 ->
  runs (app_db a) !! rh_ID h1 = None -> runs (app_db a) !! rh_ID h2 = None ->
  let a1 := (StartRun_launch actor1 s ad path a0).2 in
  let a2 := (StartRun_launch actor2 s ad path a1).2 in
  app_agents a2 = w2 /\
  exists r1 r2, runs (app_db a2) !! rh_ID h1 = Some r1 /\ runs (app_db a2) !! rh_ID h2 = Some r2 /\
    rr_session_id r1 = sid /\ run_is_active r1 = true /\
    rr_session_id r2 = sid /\ run_is_active r2 = true.
Proof.
  intros Hq G1 G2 input S1 S2 Hne F1 F2 a1 a2.
  apply guard_spec in G1 as ([D1 A1 E1 V1] & _ & Hs & _).
  apply guard_spec in G2 as ([D2 A2 E2 V2] & Hid & _ & _).
  assert (H0 : ready (app_agents a0) (app_adapterEnv a0) (s_ID s) (runs (app_db a)) a0).
  { split; try done.
    - eapply quiet_after; [exact V2|]. by eapply quiet_after.
    - rewrite D2, D1, Hid. done.
    - by rewrite D2, D1. }
  destruct (launch_spec actor1 s ad path a0 h1 w1 _ H0) as (r1 & H1 & Hr1 & Ha1);
    [by rewrite E2, E1, A2, A1|done|].
  fold a1 in H1.
  assert (H1' : ready (app_agents a1) (app_adapterEnv a1) (s_ID s) (<[rh_ID h1 := r1]> (runs (app_db a))) a1)
    by (destruct H1; by split).
  destruct (launch_spec actor2 s ad path a1 h2 w2 _ H1') as (r2 & H2 & Hr2 & Ha2).
  - by rewrite (rd_env _ _ _ _ _ H1), E2, E1, (rd_agents _ _ _ _ _ H1).
  - by rewrite lookup_insert_ne.
  - fold a2 in H2. split; [apply H2|]. exists r1, r2. rewrite (rd_runs _ _ _ _ _ H2).
    rewrite lookup_insert_ne, !lookup_insert_eq by done. rewrite Hr1, Hr2, Hid. done.
Qed.

(** Two requests for the demo's new session. *)
Definition demo_guarded : Session :=
  match (StartRun_guard demo_new demo_created).1 with
  | Ok (s, _, _) => s
  | Err _ => demo_observer
  end.
Abbreviation demo_guard1 := ((StartRun_guard demo_new demo_created).2) (only parsing).
Abbreviation demo_guard2 := ((StartRun_guard demo_new demo_guard1).2) (only parsing).
Definition demo_handle (n : Z) : RunHandle := mkRunHandle ("run_" +:+ Itoa n) demo_new n 0.

Lemma StartRun_race_witness :
  let a1 := (StartRun_launch "dev-1" demo_guarded demo_agent "/srv/demo" demo_guard2).2 in
  let a2 := (StartRun_launch "dev-2" demo_guarded demo_agent "/srv/demo" a1).2 in
  app_agents a2 = 102%nat /\
  exists r1 r2, runs (app_db a2) !! rh_ID (demo_handle 100) = Some r1 /\
    runs (app_db a2) !! rh_ID (demo_handle 101) = Some r2 /\
    rr_session_id r1 = demo_new /\ run_is_active r1 = true /\
    rr_session_id r2 = demo_new /\ run_is_active r2 = true.
Proof.
  apply (StartRun_race "dev-1" "dev-2" demo_new demo_created demo_guarded demo_agent "/srv/demo"
    demo_guard1 demo_guard2 (demo_handle 100) 101%nat (demo_handle 101) 102%nat).
  - intros n. vm_compute. reflexivity.
  - apply run_answer. vm_compute. reflexivity.
  - apply run_answer. vm_compute. reflexivity.
  - vm_compute. reflexivity.
  - vm_compute. reflexivity.
  - vm_compute. discriminate.
  - vm_compute. reflexivity.
  - vm_compute. reflexivity.
Defined.
