(* ===== verification/AppEnv.v ===== *)
(** * The application core only reads on in its environment

    Whatever an operation of the core does, it leaves the oracles of the
    environment (clock, random source, driver faults) as they were and its
    readings where they are or further.  A client that reasons over sequences
    of operations needs this of every one of them. *)

From S2P Require Import Prelude Env Json Domain StateMachine Schema SessionRepo Journal.
From S2P Require Import ApprovalStore Approval Lifecycle AuditLog Registry Adapter App.

(** ** Repositories *)

Lemma reads_app_newID p : reads (app_newID p).
Proof.
  apply reads_bind; [auto with env|]. intros [b|]; [auto with env|]. apply reads_bind; auto with env.
Qed.
#[export] Hint Resolve reads_app_newID : env.

Lemma later_UpdateState id st ex : later (SessionRepository_UpdateState id st ex).
Proof. unfold SessionRepository_UpdateState, RowsAffected. auto 20 with later. Qed.
Lemma later_SetPendingApproval id ap : later (SessionRepository_SetPendingApproval id ap).
Proof. unfold SessionRepository_SetPendingApproval. auto 20 with later. Qed.
Lemma later_UpdateRunState id st c e : later (SessionRepository_UpdateRunState id st c e).
Proof. unfold SessionRepository_UpdateRunState. auto 20 with later. Qed.
Lemma later_CreateSession s : later (SessionRepository_CreateSession s).
Proof. unfold SessionRepository_CreateSession. auto 20 with later. Qed.
Lemma later_CreateRun r : later (SessionRepository_CreateRun r).
Proof. unfold SessionRepository_CreateRun. auto 20 with later. Qed.
Lemma later_SessionGetByID id : later (SessionRepository_GetByID id).
Proof. unfold SessionRepository_GetByID. auto 20 with later. Qed.
Lemma later_GetActiveRun id : later (SessionRepository_GetActiveRun id).
Proof. unfold SessionRepository_GetActiveRun. auto 20 with later. Qed.
Lemma later_GetAll : later SessionRepository_GetAll.
Proof. unfold SessionRepository_GetAll, scanSessions. auto 20 with later. Qed.
Lemma later_Record w e : later (Writer_Record w e).
Proof. unfold Writer_Record, insert_audit. auto 20 with later. Qed.
Lemma later_scanEvents rows : later (scanEvents rows).
Proof. unfold scanEvents. auto 20 with later. Qed.
#[export] Hint Resolve later_scanEvents : later.
Lemma later_GetBySequence sid a l : later (EventRepository_GetBySequence sid a l).
Proof. unfold EventRepository_GetBySequence. auto 20 with later. Qed.
Lemma later_GetLastSequence sid : later (EventRepository_GetLastSequence sid).
Proof. unfold EventRepository_GetLastSequence. auto 20 with later. Qed.
#[export] Hint Resolve later_GetBySequence later_GetLastSequence : later.
Lemma later_isCursorExpired r sid a : later (CursorRepository_isCursorExpired r sid a).
Proof. unfold CursorRepository_isCursorExpired. auto 30 with later. Qed.
#[export] Hint Resolve later_isCursorExpired : later.
Lemma later_Replay r sid a l : later (CursorRepository_Replay r sid a l).
Proof. unfold CursorRepository_Replay. auto 30 with later. Qed.
Lemma later_AppendWithTx ev : later (EventRepository_AppendWithTx ev).
Proof. unfold EventRepository_AppendWithTx. auto 20 with later. Qed.
#[export] Hint Resolve later_AppendWithTx : later.
Lemma later_Append ev : later (CursorRepository_Append ev).
Proof. unfold CursorRepository_Append. auto 30 with later. Qed.
#[export] Hint Resolve later_Append : later.
Lemma later_AppendWithoutTx ev : later (CursorRepository_AppendWithoutTx ev).
Proof. unfold CursorRepository_AppendWithoutTx. auto 30 with later. Qed.
#[export] Hint Resolve later_UpdateState later_SetPendingApproval later_UpdateRunState
  later_CreateSession later_CreateRun later_SessionGetByID later_GetActiveRun later_GetAll
  later_Record later_Replay later_AppendWithoutTx : later.

(** ** The approval bridge *)

Section Bridge.
Context (e0 : Env).

Definition onward_bridge (b : ApprovalBridge DB) : Prop := env_after e0 (w_env (ab_world b)).

Lemma onward_on_world {A} (m : M (World DB) A) :
  (forall w, env_after (w_env w) (w_env (m w).2)) -> preserves onward_bridge (on_world m).
Proof.
  intros Hm b Hb. unfold on_world, zoom. specialize (Hm (ab_world b)).
  destruct (m (ab_world b)) as [x w]. unfold onward_bridge in *. cbn in *. by etransitivity.
Qed.
Lemma onward_store {A} (m : M Store A) : later m ->
  forall w, env_after (w_env w) (w_env (on_store m w).2).
Proof.
  intros Hm w. unfold on_store, zoom. specialize (Hm (mkStore (w_store w) (w_env w))).
  by destruct (m _).
Qed.

Lemma onward_Create p : preserves onward_bridge (on_world (as_Create p)).
Proof. apply onward_on_world. intros w. apply onward_store, later_DBStore_Create. Qed.
Lemma onward_Update p : preserves onward_bridge (on_world (as_Update p)).
Proof. apply onward_on_world. intros w. apply onward_store, later_DBStore_Update. Qed.
Lemma onward_BridgeLoad id : preserves onward_bridge (on_world (as_GetByID id)).
Proof.
  apply onward_on_world. intros w. cbn. unfold try_bind, bind.
  pose proof (onward_store _ (later_DBStore_GetByID id) w) as Hs.
  by destruct (on_store (DBStore_GetByID id) w) as [[a|e] w'].
Qed.
Lemma onward_assign p a : preserves onward_bridge (on_world (assign p a)).
Proof. apply onward_on_world. intros w. reflexivity. Qed.
Lemma onward_new a : preserves onward_bridge (on_world (new_approval a)).
Proof. apply onward_on_world. intros w. reflexivity. Qed.
Lemma onward_Now : preserves onward_bridge (on_world world_Now).
Proof. apply onward_on_world. intros w. apply env_after_tick. Qed.
Lemma onward_modify f : (forall b, ab_world (f b) = ab_world b) -> preserves onward_bridge (modify f).
Proof. intros Hf b Hb. unfold onward_bridge in *. cbn. by rewrite Hf. Qed.
#[local] Hint Resolve onward_Create onward_Update onward_BridgeLoad onward_assign onward_new
  onward_Now : preserves.
#[local] Hint Extern 1 (preserves _ (modify _)) =>
  apply onward_modify; intros; repeat split_match; done : preserves.
#[local] Hint Extern 1 (preserves _ (try_bind _ _ _)) =>
  apply preserves_bind; [|intros []] : preserves.

Lemma onward_Request req : preserves onward_bridge (ApprovalBridge_Request req).
Proof. unfold ApprovalBridge_Request, ApprovalBridge_notifySubscribers. auto 20 with preserves. Qed.
Lemma onward_Decide id d : preserves onward_bridge (ApprovalBridge_Decide id d).
Proof.
  unfold ApprovalBridge_Decide, Decide_lookup, Decide_load, Decide_apply, Decide_finish.
  auto 30 with preserves.
Qed.
Lemma onward_Cancel id : preserves onward_bridge (ApprovalBridge_Cancel id).
Proof. unfold ApprovalBridge_Cancel, change_pending. auto 20 with preserves. Qed.
Lemma onward_BridgeGet id : preserves onward_bridge (ApprovalBridge_GetByID id).
Proof. unfold ApprovalBridge_GetByID. auto 20 with preserves. Qed.
Lemma onward_Pending sid : preserves onward_bridge (ApprovalBridge_GetPendingBySession sid).
Proof. unfold ApprovalBridge_GetPendingBySession. auto 20 with preserves. Qed.
Lemma onward_checkExpiry : preserves onward_bridge ApprovalBridge_checkExpiry.
Proof. unfold ApprovalBridge_checkExpiry, expire_one. auto 20 with preserves. Qed.
End Bridge.
#[export] Hint Resolve onward_Request onward_Decide onward_Cancel onward_BridgeGet onward_Pending
  onward_checkExpiry : preserves.

(** ** The lifecycle manager *)

Section LifecycleEnv.
Context (e0 : Env).

Definition onward_manager (m : Manager) : Prop := env_after e0 (st_env (lm_store m)).

Lemma onward_on_db {A} (m : M Store A) : later m -> preserves onward_manager (on_db m).
Proof.
  intros Hm l Hl. unfold on_db, zoom. specialize (Hm (lm_store l)).
  destruct (m (lm_store l)) as [x s]. unfold onward_manager in *. cbn in *. by etransitivity.
Qed.
Lemma onward_lm_modify f : (forall m, lm_store (f m) = lm_store m) -> preserves onward_manager (modify f).
Proof. intros Hf m Hm. unfold onward_manager in *. cbn. by rewrite Hf. Qed.
Lemma later_fold_each {A B} (l : list A) (acc : B) (body : B -> A -> M Store B) :
  (forall acc x, later (body acc x)) -> later (fold_each l acc body).
Proof.
  intros Hb. revert acc. induction l as [|x l IH]; intros acc; cbn; [apply later_ret|].
  apply later_bind; auto.
Qed.
#[local] Hint Resolve onward_on_db later_fold_each : preserves.
#[local] Hint Extern 1 (preserves _ (modify _)) =>
  apply onward_lm_modify; intros; repeat split_match; done : preserves.

Lemma later_reconcileOnStartup r : later (reconcileOnStartup r).
Proof.
  unfold reconcileOnStartup. apply later_try_bind; [auto with later|]. intros ss.
  apply later_bind; [|auto with later]. apply later_fold_each. intros [a b] s.
  unfold reconcile_one, markFailed. auto 20 with later.
Qed.
Lemma later_markUnresolved : later markUnresolvedForRecovery.
Proof.
  unfold markUnresolvedForRecovery. apply later_try_bind; [auto with later|]. intros ss.
  apply later_bind; [|auto with later]. apply later_fold_each. intros a s.
  unfold mark_one. auto 20 with later.
Qed.
#[local] Hint Resolve later_reconcileOnStartup later_markUnresolved : later.
#[local] Hint Extern 1 (later _) => solve [auto 20 with later] : preserves.

Lemma onward_Manager_Start r : preserves onward_manager (Manager_Start r).
Proof. unfold Manager_Start, Start_check, Start_finish. auto 20 with preserves later. Qed.
Lemma onward_RegisterRun sid rid : preserves onward_manager (Manager_RegisterRun sid rid).
Proof. unfold Manager_RegisterRun. auto 20 with preserves later. Qed.
Lemma onward_CompleteRun rid : preserves onward_manager (Manager_CompleteRun rid).
Proof. unfold Manager_CompleteRun. auto 20 with preserves. Qed.
Lemma onward_Manager_Shutdown how : preserves onward_manager (Manager_Shutdown how).
Proof.
  unfold Manager_Shutdown, Shutdown_begin, Shutdown_end, drainRun, markSessionForRecovery.
  auto 30 with preserves later.
Qed.
End LifecycleEnv.
#[export] Hint Resolve onward_Manager_Start onward_RegisterRun onward_CompleteRun
  onward_Manager_Shutdown : preserves.

(** ** The core *)

Section AppEnv.
Context {W : Type} (e0 : Env).
Abbreviation AppM := (M (App W)).

Definition onward (a : App W) : Prop := env_after e0 (app_env a).

Lemma onward_db {A} (m : M Store A) : later m -> preserves onward (db m).
Proof.
  intros Hm a Ha. unfold db, zoom. specialize (Hm (app_store a)).
  destruct (m (app_store a)) as [x s]. unfold onward, app_env in *. cbn in *. by etransitivity.
Qed.
Lemma onward_bridged {A} (m : M (ApprovalBridge DB) A) :
  preserves (onward_bridge e0) m -> preserves onward (bridge m).
Proof.
  intros Hm a Ha. unfold bridge, zoom. specialize (Hm (app_approvals a) Ha).
  by destruct (m (app_approvals a)).
Qed.
Lemma onward_lifecycle {A} (m : M Manager A) :
  preserves (onward_manager e0) m -> preserves onward (lifecycle m).
Proof.
  intros Hm a Ha. unfold lifecycle, zoom. specialize (Hm (set_lm_store (app_store a) (app_lifecycle a)) Ha).
  by destruct (m _).
Qed.
Lemma onward_agents {A} (m : M W A) : preserves onward (agents m).
Proof. intros a Ha. unfold agents, zoom. by destruct (m (app_agents a)). Qed.
Lemma onward_app_modify f : (forall a, app_env (f a) = app_env a) -> preserves onward (modify f).
Proof. intros Hf a Ha. unfold onward in *. change (modify f a).2 with (f a). by rewrite Hf. Qed.
Lemma onward_try {A B} w (m : AppM (result A)) (k : A -> AppM (result B)) :
  preserves onward m -> (forall a, preserves onward (k a)) -> preserves onward (try_bind w m k).
Proof. intros Hm Hk. apply preserves_bind; [done|]. intros [a|e]; [apply Hk|apply preserves_ret]. Qed.

#[local] Hint Resolve onward_db onward_bridged onward_lifecycle onward_agents onward_try : preserves.
#[local] Hint Extern 1 (preserves _ (modify _)) => apply onward_app_modify; intros; done : preserves.
#[local] Hint Extern 1 (later _) => solve [auto 20 with later env] : preserves.

Lemma onward_emitEvent sid typ p : preserves onward (emitEvent (W:=W) sid typ p).
Proof. unfold emitEvent, publish. auto 20 with preserves. Qed.
#[local] Hint Resolve onward_emitEvent : preserves.
Lemma onward_emit sid typ p : preserves onward (emit (W:=W) sid typ p).
Proof. unfold emit. auto 20 with preserves. Qed.
Lemma onward_record e : preserves onward (record (W:=W) e).
Proof. unfold record. auto 20 with preserves. Qed.
#[local] Hint Resolve onward_emit onward_record : preserves.

Lemma onward_ListSessions : preserves onward (ListSessions (W:=W)).
Proof. unfold ListSessions. auto with preserves. Qed.
Lemma onward_GetSession id : preserves onward (GetSession (W:=W) id).
Proof. unfold GetSession. auto 20 with preserves. Qed.
Lemma onward_GetApproval id : preserves onward (GetApproval (W:=W) id).
Proof. unfold GetApproval. auto 20 with preserves. Qed.
#[local] Hint Resolve onward_GetSession : preserves.
Lemma onward_GetEvents sid after limit : preserves onward (GetEvents (W:=W) sid after limit).
Proof. unfold GetEvents. auto 20 with preserves. Qed.
Lemma onward_CreateSession actor req : preserves onward (CreateSession (W:=W) actor req).
Proof. unfold CreateSession. auto 30 with preserves. Qed.
Lemma onward_StartRun actor sid : preserves onward (StartRun (W:=W) actor sid).
Proof. unfold StartRun, StartRun_guard, StartRun_launch. auto 30 with preserves. Qed.
Lemma onward_live_run sid what : preserves onward (live_run (W:=W) sid what).
Proof. unfold live_run. auto 30 with preserves. Qed.
#[local] Hint Resolve onward_live_run : preserves.
Lemma onward_SubmitPrompt actor sid txt : preserves onward (SubmitPrompt (W:=W) actor sid txt).
Proof. unfold SubmitPrompt. auto 30 with preserves. Qed.
Lemma onward_Interrupt actor sid : preserves onward (Interrupt (W:=W) actor sid).
Proof. unfold Interrupt. auto 30 with preserves. Qed.
Lemma onward_ResolveApproval actor id dec reason :
  preserves onward (ResolveApproval (W:=W) actor id dec reason).
Proof. unfold ResolveApproval, notify_adapter, approval_or_nil. auto 40 with preserves. Qed.
Lemma onward_observe run s sig : preserves onward (observe_signal (W:=W) run s sig).
Proof.
  unfold observe_signal, handleApprovalRequest, handleStatusChange, handleCompletion, cancel_one.
  auto 40 with preserves.
Qed.
Lemma onward_op (op : app_op W) : preserves onward (run_app_op op).
Proof.
  destruct op; cbn; unfold ignore, RegisterAdapter, App_Start, App_Shutdown; auto 20 using
    onward_GetEvents, onward_CreateSession, onward_StartRun, onward_SubmitPrompt, onward_Interrupt,
    onward_ResolveApproval, onward_observe with preserves.
Qed.
End AppEnv.
#[export] Hint Resolve onward_ListSessions onward_GetSession onward_GetApproval onward_GetEvents
  onward_CreateSession onward_StartRun onward_SubmitPrompt onward_Interrupt onward_ResolveApproval
  onward_observe onward_op : preserves.
