(* ===== verification/Recorded.v ===== *)
(** * From an agent to the journal (src/internal/app/session_service.go)

    What the observer of a run writes down, over any adapter, and over the fake
    one: the signals of a run become the events of its session's journal, one for
    one and in order. *)

From S2P Require Import Prelude Env Json GoStrings Domain StateMachine Schema SessionRepo Journal.
From S2P Require Import ApprovalStore Approval Lifecycle Adapter FakeAdapter App.

(** ** Computations that draw no random block *)

Definition drawless {A} (m : M Store A) : Prop :=
  forall s, env_draws (st_env (m s).2) = env_draws (st_env s).

Lemma drawless_ret {A} (a : A) : drawless (ret a).
Proof. done. Qed.
Lemma drawless_gets {A} (f : Store -> A) : drawless (gets f).
Proof. done. Qed.
Lemma drawless_set_db d : drawless (modify (set_st_db d)).
Proof. done. Qed.
Lemma drawless_driver_call : drawless driver_call.
Proof. done. Qed.
Lemma drawless_now : drawless (on_env time_Now).
Proof. done. Qed.
Lemma drawless_bind {A B} (m : M Store A) (k : A -> M Store B) :
  drawless m -> (forall a, drawless (k a)) -> drawless (bind m k).
Proof.
  intros Hm Hk s. unfold bind. specialize (Hm s). destruct (m s) as [a s']. cbn in Hm. rewrite <- Hm. apply Hk.
Qed.
Lemma drawless_try_bind {A B} w (m : M Store (result A)) (k : A -> M Store (result B)) :
  drawless m -> (forall a, drawless (k a)) -> drawless (try_bind w m k).
Proof. intros Hm Hk. apply drawless_bind; [done|]. intros []; [apply Hk|apply drawless_ret]. Qed.
Lemma drawless_exec {A} (st : stmt A) : drawless (exec st).
Proof.
  apply drawless_bind; [apply drawless_driver_call|]. intros [e|]; [apply drawless_ret|].
  intros s. by destruct (st (st_db s)).
Qed.
Lemma drawless_WithTransaction {A} (fn : M Store (result A)) : drawless fn -> drawless (DB_WithTransaction fn).
Proof.
  intros Hfn. unfold DB_WithTransaction, DB_BeginTx.
  repeat first [ apply drawless_bind; [apply drawless_gets || apply drawless_driver_call || apply Hfn || apply drawless_set_db|intros ?]
               | apply drawless_ret | split_match ].
Qed.

Create HintDb drawless.
#[export] Hint Resolve drawless_ret drawless_gets drawless_driver_call drawless_now drawless_bind drawless_try_bind
  drawless_exec drawless_WithTransaction : drawless.
#[export] Hint Extern 2 (drawless (match ?x with _ => _ end)) => destruct x : drawless.

Lemma drawless_Append ev : drawless (CursorRepository_AppendWithoutTx ev).
Proof.
  unfold CursorRepository_AppendWithoutTx, CursorRepository_Append, EventRepository_AppendWithTx.
  auto 20 with drawless.
Qed.
Lemma drawless_UpdateState id st ex : drawless (SessionRepository_UpdateState id st ex).
Proof. unfold SessionRepository_UpdateState, RowsAffected. auto 20 with drawless. Qed.
Lemma drawless_UpdateRunState id st code err : drawless (SessionRepository_UpdateRunState id st code err).
Proof. unfold SessionRepository_UpdateRunState. auto 20 with drawless. Qed.

(** ** Message identifiers *)

(** The identifier that the [i]th next block of random bytes gives. *)
Definition next_id (e : Env) (i : nat) : option string :=
  (fun b => "msg" +:+ "_" +:+ hex_EncodeToString (resize 12 Ascii.zero b)) <$> env_rand e (env_draws e + i).

(** The next [k] identifiers are there, different, and not yet used. *)
Definition fresh (k : nat) (e : Env) (d : DB) : Prop :=
  (forall i, (i < k)%nat -> exists id, next_id e i = Some id /\ Forall (fun r => er_message_id r <> id) (events d)) /\
  forall i j id, (i < k)%nat -> (j < k)%nat -> next_id e i = Some id -> next_id e j = Some id -> i = j.

Lemma fresh_le k k' e d : (k' <= k)%nat -> fresh k e d -> fresh k' e d.
Proof. intros Hk [H1 H2]. split; [intros; apply H1; lia|intros; eapply H2; eauto; lia]. Qed.

(** The state of the environment after one identifier was used. *)
Lemma fresh_next k e e' d d' id r : fresh (S k) e d -> next_id e 0 = Some id -> er_message_id r = id ->
  env_rand e' = env_rand e -> env_draws e' = S (env_draws e) -> events d' = events d ++ [r] -> fresh k e' d'.
Proof.
  intros [H1 H2] Hid Hr Er Ed Ev. assert (Hn : forall i, next_id e' i = next_id e (S i)).
  { intros i. unfold next_id. rewrite Er, Ed. do 2 f_equal. lia. }
  split.
  - intros i Hi. destruct (H1 (S i)) as (x & Hx & Hf); [lia|]. exists x. rewrite Hn. split; [done|].
    rewrite Ev. apply Forall_app. split; [done|]. constructor; [|done]. rewrite Hr. intros ->.
    by specialize (H2 0%nat (S i) x ltac:(lia) ltac:(lia) Hid Hx).
  - intros i j x Hi Hj. rewrite !Hn. intros Ha Hb. specialize (H2 (S i) (S j) x ltac:(lia) ltac:(lia) Ha Hb). lia.
Qed.

Lemma fresh_same k e e' d d' : fresh k e d -> env_rand e' = env_rand e -> env_draws e' = env_draws e -> events d' = events d ->
  fresh k e' d'.
Proof. intros [H1 H2] Er Ed Ev. unfold fresh, next_id in *. by rewrite Er, Ed, Ev. Qed.

(** ** The journal while a run is observed *)

(** What an event says: its type and payload. *)
Definition said (r : EventRow) : string * json := (er_type r, er_payload r).

Section Watch.
Context {W : Type} (sid : string) (a0 : App W).

(** No approval of the session waits. *)
Definition idle (a : App W) : Prop :=
  Forall (fun l => ~ (a_SessionID (ab_deref l (app_approvals a)) = sid /\ a_State (ab_deref l (app_approvals a)) = ApprovalStatePending))
    (map_to_list (ab_approvals (app_approvals a))).*2.

(** [told] was recorded since [a0], and [k] more events can be. *)
Record watched (k : nat) (told : list (string * json)) (a : App W) : Prop := mk_watched {
  wt_env : env_after (st_env (app_store a0)) (st_env (app_store a));
  wt_fresh : fresh k (st_env (app_store a)) (app_db a);
  wt_ok : journal_ok (app_db a);
  wt_live : is_Some (sessions (app_db a) !! sid);
  wt_room : Z.of_nat (length (journal (app_db a) sid)) + Z.of_nat k < max_int64;
  wt_idle : idle a;
  wt_journal : forall s, said <$> journal (app_db a) s =
    (said <$> journal (app_db a0) s) ++ if decide (s = sid) then told else []
}.

Lemma watched_skip k told a : watched (S k) told a -> watched k told a.
Proof.
  intros [H1 H2 H3 H4 H5 H6 H7]. split; [done| |done|done|lia|done|done]. eapply fresh_le; [|exact H2]. lia.
Qed.

(** Computations on the database that keep the events and the sequences. *)
Lemma watched_store k told a s : watched k told a -> env_after (st_env (app_store a)) (st_env s) ->
  env_draws (st_env s) = env_draws (st_env (app_store a)) ->
  (st_db s = app_db a \/ exists id row row', sessions (app_db a) !! id = Some row /\ sr_last_sequence row' = sr_last_sequence row /\
     st_db s = set_sessions (<[id := row']> (sessions (app_db a))) (app_db a)) ->
  watched k told (set_app_store s a).
Proof.
  intros [H1 H2 H3 H4 H5 H6 H7] He Hdr Hd.
  assert (Hev : events (st_db s) = events (app_db a)) by (destruct Hd as [->|(? & ? & ? & _ & _ & ->)]; done).
  assert (Hj : forall x, journal (st_db s) x = journal (app_db a) x) by (intros x; unfold journal; by rewrite Hev).
  assert (Hfk : foreign_keys (st_db s) = foreign_keys (app_db a)) by (destruct Hd as [->|(? & ? & ? & _ & _ & ->)]; done).
  assert (Hse : forall x row', sessions (st_db s) !! x = Some row' -> exists row, sessions (app_db a) !! x = Some row /\
    sr_last_sequence row' = sr_last_sequence row).
  { destruct Hd as [->|(id & row & row' & Hr & Hl & ->)]; [by eauto|]. cbn. intros x row2.
    rewrite lookup_insert_Some. intros [[<- <-]|[_ Hx]]; eauto. }
  assert (Hin : forall x, is_Some (sessions (app_db a) !! x) -> is_Some (sessions (st_db s) !! x)).
  { destruct Hd as [->|(id & row & row' & Hr & Hl & ->)]; [done|]. cbn. intros x Hx.
    destruct (decide (id = x)) as [<-|Hne]; [by rewrite lookup_insert_eq|by rewrite lookup_insert_ne]. }
  destruct s as [d e]. cbn in *. split; cbn; try done.
  - by etransitivity.
  - eapply fresh_same; [exact H2|by rewrite (after_rand _ _ He)|done|done].
  - destruct H3 as [J1 J2 J3 J4]. split.
    + intros x. by rewrite Hj.
    + intros x row' Hr. destruct (Hse _ _ Hr) as (row & Hr0 & ->). rewrite Hj. by apply J2.
    + by rewrite Hev.
    + rewrite Hfk, Hev. intros Hf. eapply Forall_impl; [by apply J4|]. cbn. intros r. apply Hin.
  - by apply Hin.
  - by rewrite Hj.
  - intros x. rewrite Hj. apply H7.
Qed.

Lemma watched_quiet k told a : quiet (st_env (app_store a0)) -> watched k told a -> quiet (st_env (app_store a)).
Proof. intros Hq Hw. eapply quiet_after; [apply Hw|done]. Qed.

Lemma wp_drawless {A} (m : M Store A) s (Q : A -> Store -> Prop) : drawless m ->
  wp m s (fun x s' => env_draws (st_env s') = env_draws (st_env s) -> Q x s') -> wp m s Q.
Proof. unfold wp. intros Hd H. apply H, Hd. Qed.

Lemma wp_db {A} (m : M Store A) (a : App W) (Q : A -> App W -> Prop) :
  wp (db m) a Q <-> wp m (app_store a) (fun x s => Q x (set_app_store s a)).
Proof. unfold db. by rewrite wp_zoom. Qed.

(** No row has the next sequence. *)
Lemma no_next_sequence d s : journal_ok d ->
  ~ Exists (fun r => er_session_id r = s /\ er_sequence r = Z.of_nat (length (journal d s)) + 1) (events d).
Proof.
  intros Hok [r (Hr & Hs & Hq)]%Exists_exists.
  assert (Hin : er_sequence r ∈ er_sequence <$> journal d s) by (apply list_elem_of_fmap_2; by apply list_elem_of_filter).
  rewrite (jo_seq _ Hok) in Hin. apply elem_of_seqZ in Hin. lia.
Qed.

Lemma newID_next e id : next_id e 0 = Some id -> app_newID "msg" e = (id, env_draw e).
Proof.
  unfold next_id, app_newID, bind, rand_Read. rewrite Nat.add_0_r. destruct (env_rand e (env_draws e)) as [b|]; [|done].
  cbn. by intros [= <-].
Qed.

(** One event more. *)
Lemma watched_appended k told a ev n now e1 : watched (S k) told a -> next_id (st_env (app_store a)) 0 = Some (e_MessageID ev) ->
  e_SessionID ev = sid -> n = next_sequence sid (app_db a) -> env_after (st_env (app_store a)) e1 ->
  env_draws e1 = S (env_draws (st_env (app_store a))) ->
  watched k (told ++ [(e_Type ev, JObj (e_Payload ev))]) (set_app_store (mkStore (appended ev n now (app_db a)) e1) a).
Proof.
  intros [H1 H2 H3 [row Hrow] H5 H6 H7] Hid Hs -> He Hd.
  assert (Hrow' : sessions (app_db a) !! e_SessionID ev = Some row) by by rewrite Hs.
  replace (next_sequence sid (app_db a)) with (next_sequence (e_SessionID ev) (app_db a)) by by rewrite Hs.
  set (d' := appended ev _ now (app_db a)).
  assert (Hev : events d' = events (app_db a) ++ [event_row (next_event_id (app_db a)) ev (next_sequence (e_SessionID ev) (app_db a))])
    by (unfold d', appended; by rewrite Hrow').
  split; cbn -[d']; try done.
  - by etransitivity.
  - eapply fresh_next; [exact H2|exact Hid| |by apply after_rand|done|exact Hev]. done.
  - apply journal_ok_appended; [done|rewrite Hs; lia|by rewrite Hrow'].
  - change (is_Some (sessions d' !! sid)). unfold d', appended. rewrite Hrow', Hs. cbn. by rewrite lookup_insert_eq.
  - change (Z.of_nat (length (journal d' sid)) + Z.of_nat k < max_int64). unfold d'.
    rewrite journal_appended, decide_True, length_app by done. cbn [length]. lia.
  - intros s. change (said <$> journal d' s = (said <$> journal (app_db a0) s) ++
      (if decide (s = sid) then told ++ [(e_Type ev, JObj (e_Payload ev))] else [])).
    unfold d'. rewrite journal_appended, fmap_app, H7, <- (assoc_L (++)), Hs. f_equal.
    destruct (decide (s = sid)) as [->|Hne]; [by rewrite decide_True|by rewrite decide_False].
Qed.

Lemma watched_publisher k told a f : watched k told a -> watched k told (set_app_publisher f a).
Proof. intros [H1 H2 H3 H4 H5 H6 H7]. by split. Qed.

Lemma wp_emit_told k told typ p a : quiet (st_env (app_store a0)) -> watched (S k) told a ->
  wp (emit sid typ p) a (fun _ a' => watched k (told ++ [(typ, JObj p)]) a').
Proof.
  intros Hq Hw. pose proof Hw as [_ [Hids _] Hok Hlive Hroom _ _]. unfold emit, emitEvent. wp_simp.
  destruct (Hids 0%nat ltac:(lia)) as (id & Hid & Hnew). pose proof (watched_quiet _ _ _ Hq Hw) as Hqa.
  rewrite wp_db. unfold on_env. rewrite wp_zoom. unfold wp at 1. rewrite (newID_next _ _ Hid). cbn [fst snd]. wp_simp.
  rewrite wp_db. unfold on_env. rewrite wp_zoom. unfold wp at 1. cbn [fst snd time_Now]. wp_simp. rewrite wp_db.
  set (ev := mkEvent _ _ _ _ _ _ _ _). set (e1 := env_tick (env_draw (st_env (app_store a)))).
  change (app_store (set_app_store _ (set_app_store _ a))) with (mkStore (app_db a) e1).
  assert (He : env_after (st_env (app_store a)) e1) by (etransitivity; [apply env_after_draw|apply env_after_tick]).
  apply wp_drawless; [apply drawless_Append|]. apply wp_AppendWithoutTx; cbn [st_db st_env].
  - intros e env He2 [Hf|Hr] _; exfalso.
    + eapply quiet_not_faulty; [|exact Hf]. by eapply quiet_after.
    + change (e_SessionID ev) with sid in Hr. rewrite next_sequence_ok in Hr by (done || lia). destruct Hr as [Hr|[Hr|[_ Hr]]].
      * apply Exists_exists in Hr as (r & Hin & Hr). by apply (proj1 (Forall_forall _ _) Hnew r Hin).
      * by apply (no_next_sequence _ _ Hok) in Hr.
      * change (e_SessionID ev) with sid in Hr. rewrite Hr in Hlive. by destruct Hlive.
  - intros now env He2 _ Hd. wp_simp. unfold publish. wp_simp. apply watched_publisher.
    apply (watched_appended k told a ev (next_sequence sid (app_db a)) now env Hw Hid eq_refl eq_refl); [by etransitivity|exact Hd].
Qed.

(** ** The observer *)

(** The event of a signal. *)
Definition event_of (run : string) (sig : AdapterSignal) : option (string * json) :=
  if decide (sig_Type sig = SignalOutput) then
    Some ("run.output", JObj [("content", JStr (parseContent sig)); ("run_id", JStr run)])
  else if decide (sig_Type sig = SignalStatusChange) then
    match decode_StatusChangePayload (sig_Payload sig) with
    | Ok p => Some ("run.status_change", JObj [("new_state", JStr (sc_NewState p)); ("old_state", JStr (sc_OldState p));
                     ("reason", JStr (sc_Reason p)); ("run_id", JStr run)])
    | Err _ => None
    end
  else if decide (sig_Type sig = SignalCompletion) then
    match decode_CompletionPayload (sig_Payload sig) with
    | Ok p => Some ("run.completed", JObj [("exit_code", JNum (cp_ExitCode p)); ("exit_error", JStr (cp_ExitError p)); ("run_id", JStr run)])
    | Err _ => None
    end
  else if decide (sig_Type sig = SignalError) then
    Some ("run.error", JObj [("message", JStr (parseErrMessage sig)); ("run_id", JStr run)])
  else None.

Lemma wp_watched_store {A} (m : M Store A) k told a : drawless m -> watched k told a ->
  wp m (app_store a) (fun _ s => env_after (st_env (app_store a)) (st_env s) /\
    (st_db s = app_db a \/ exists id row row', sessions (app_db a) !! id = Some row /\ sr_last_sequence row' = sr_last_sequence row /\
     st_db s = set_sessions (<[id := row']> (sessions (app_db a))) (app_db a))) ->
  wp (db m) a (fun _ a' => watched k told a').
Proof.
  intros Hd Hw H. rewrite wp_db. apply wp_drawless; [done|]. eapply wp_mono; [exact H|].
  intros x s [He Hs] Hdr. by apply watched_store.
Qed.

Lemma wp_watched_UpdateState k told a id st ex : watched k told a -> wp (db (SessionRepository_UpdateState id st ex)) a (fun _ a' => watched k told a').
Proof.
  intros Hw. apply wp_watched_store; [apply drawless_UpdateState|done|].
  apply wp_UpdateState; unfold state_updated.
  - intros e env He _. split; [done|by left].
  - intros e now r env He _ Hr _. split; [done|]. right. by exists id, r, (upd_state st now r).
  - intros now r env He Hr _. split; [done|]. right. by exists id, r, (upd_state st now r).
  - intros env He _. split; [done|by left].
Qed.

Lemma wp_watched_UpdateRunState k told a id st code err : watched k told a ->
  wp (db (SessionRepository_UpdateRunState id st code err)) a (fun _ a' => watched k told a').
Proof.
  intros Hw. apply wp_watched_store; [apply drawless_UpdateRunState|done|]. apply wp_UpdateRunState. intros e env He. split; [done|by left].
Qed.

Lemma wp_pending k told a : watched k told a ->
  wp (bridge (ApprovalBridge_GetPendingBySession sid)) a (fun l a' => l = [] /\ watched k told a').
Proof.
  intros Hw. unfold bridge, ApprovalBridge_GetPendingBySession. wp_simp. split.
  - pose proof (wt_idle _ _ _ Hw) as Hi. unfold idle in Hi.
    induction Hi as [|l ls Hl Hi IH]; [done|]. rewrite filter_cons, decide_False by exact Hl. exact IH.
  - destruct a. exact Hw.
Qed.

Lemma wp_observe_signal k told a run s sig : quiet (st_env (app_store a0)) -> s_ID s = sid -> watched (S k) told a ->
  sig_Type sig <> SignalApprovalRequest ->
  wp (observe_signal run s sig) a (fun s' a' => s' = s /\ watched k (told ++ option_list (event_of (r_ID run) sig)) a').
Proof.
  intros Hq Hs Hw Hna. unfold observe_signal, event_of. rewrite Hs.
  assert (Hskip : wp (ret s) a (fun s' a' => s' = s /\ watched k (told ++ []) a'))
    by (rewrite wp_ret, app_nil_r; split; [done|by apply watched_skip]).
  assert (Hemit : forall typ p, wp (emit sid typ p;;; ret s) a (fun s' a' => s' = s /\ watched k (told ++ [(typ, JObj p)]) a')).
  { intros typ p. rewrite wp_bind. eapply wp_mono; [by apply wp_emit_told|]. cbn beta; intros _ a' Hw'. by rewrite wp_ret. }
  case_decide; [apply Hemit|]. rewrite decide_False by done. case_decide.
  { unfold handleStatusChange. destruct (decode_StatusChangePayload _); [|exact Hskip]. rewrite Hs. apply Hemit. }
  case_decide; [|case_decide; [apply Hemit|exact Hskip]].
  unfold handleCompletion. destruct (decode_CompletionPayload _) as [p|]; [|exact Hskip]. rewrite Hs, wp_bind.
  eapply wp_mono; [by apply (wp_watched_UpdateRunState (S k) told)|]. cbn beta; intros _ a1 Hw1. rewrite wp_bind.
  eapply wp_mono with (Q := fun _ a' => watched (S k) told a').
  { destruct (StateMachine_CanTransition _ _); [|by rewrite wp_ret]. rewrite wp_bind.
    eapply wp_mono; [by apply wp_watched_UpdateState|]. cbn beta; intros _ a2 Hw2. by rewrite wp_ret. }
  cbn beta; intros _ a2 Hw2. rewrite wp_bind. eapply wp_mono; [by apply (wp_emit_told k told)|]. cbn beta; intros _ a3 Hw3. rewrite wp_bind.
  eapply wp_mono; [by apply wp_pending|]. intros l a4 [-> Hw4]. cbn [for_each]. rewrite wp_bind, !wp_ret. by split.
Qed.

(** The events of a run's signals. *)
Definition events_of (run : string) (signals : list AdapterSignal) : list (string * json) := signals ≫= (fun sig => option_list (event_of run sig)).

Lemma wp_observe_signals run s signals : forall told a, quiet (st_env (app_store a0)) -> s_ID s = sid ->
  watched (length signals) told a -> Forall (fun sig => sig_Type sig <> SignalApprovalRequest) signals ->
  wp (fold_each signals s (observe_signal run)) a (fun _ a' => watched 0 (told ++ events_of (r_ID run) signals) a').
Proof.
  induction signals as [|sig signals IH]; intros told a Hq Hs Hw Hna; cbn [fold_each].
  - rewrite wp_ret. cbn. by rewrite app_nil_r.
  - apply Forall_cons in Hna as [Hsig Hna]. rewrite wp_bind. eapply wp_mono; [by apply (wp_observe_signal (length signals) told)|].
    intros s' a' [-> Hw']. eapply wp_mono; [by apply IH|]. cbn beta; intros _ a2 H2. cbn. by rewrite (assoc_L (++)).
Qed.
End Watch.

(** A run whose observer can work undisturbed. *)
Record observable {W} (sid : string) (n : nat) (a : App W) : Prop := mk_observable {
  ob_quiet : quiet (st_env (app_store a));
  ob_journal : journal_ok (app_db a);
  ob_live : is_Some (sessions (app_db a) !! sid);
  ob_ids : fresh n (st_env (app_store a)) (app_db a);
  ob_room : Z.of_nat (length (journal (app_db a) sid)) + Z.of_nat n < max_int64;
  ob_idle : idle sid a
}.

Lemma wp_observeAdapter {W} (o : observer) signals (a : App W) : observable (s_ID (ob_s o)) (length signals) a ->
  Forall (fun sig => sig_Type sig <> SignalApprovalRequest) signals ->
  wp (observeAdapter o signals) a (fun _ a' => journal_ok (app_db a') /\ forall s, said <$> journal (app_db a') s =
    (said <$> journal (app_db a) s) ++ if decide (s = s_ID (ob_s o)) then events_of (r_ID (ob_run o)) signals else []).
Proof.
  intros [Hq Hok Hlive Hids Hroom Hidle] Hna. unfold observeAdapter. rewrite wp_bind.
  eapply wp_mono; [apply (wp_observe_signals (s_ID (ob_s o)) a (ob_run o) (ob_s o) signals []); try done|].
  - split; [reflexivity|done..|]. intros s. case_decide; by rewrite app_nil_r.
  - cbn [app]. cbn beta; intros _ a1 [_ _ H3 _ _ _ H7]. unfold lifecycle, Manager_CompleteRun. wp_simp. cbn.
    destruct (lm_activeRuns _ !! _); by split.
Qed.


(** ** A fake run, recorded *)

Definition demo_watch : observer :=
  mkObserver (session_of "ses-1" demo_session_row) (mkRun "run-1" "ses-1" RunStateActive None None None None None None 0)
    (mkRunHandle "run-ses-1" "ses-1" 1 0).

(** The scenario of a new fake adapter, played to its end before an observer that
    takes every signal. *)
Definition demo_played : list AdapterSignal :=
  match fa_heap (fake_ops ([FStart (ob_s demo_watch) demo_fake_input] ++ replicate 20 (FStep 0 false) ++ replicate 5 (FReceive 0))
                   (NewFakeAdapter steady_env)).2 !! 0%nat with
  | Some r => fr_received r
  | None => []
  end.

Lemma demo_observable : observable "ses-1" (length demo_played) demo_app.
Proof.
  assert (El : length demo_played = 5%nat) by (vm_compute; reflexivity). rewrite El. split.
  - intros n. reflexivity.
  - split; [intros s; reflexivity| |constructor|constructor].
    intros s row Hr. change (sessions (app_db demo_app)) with ({["ses-1" := demo_session_row]} : gmap string SessionRow) in Hr.
    apply lookup_singleton_Some in Hr as [_ <-]. reflexivity.
  - eexists. vm_compute. reflexivity.
  - assert (Hid : Forall (fun i => exists id, next_id (st_env (app_store demo_app)) i = Some id) (seq 0 5))
      by (repeat constructor; eexists; vm_compute; reflexivity).
    assert (Hne : NoDup ((fun i => next_id (st_env (app_store demo_app)) i) <$> seq 0 5))
      by (apply (bool_decide_unpack _); vm_compute; exact I).
    split.
    + intros i Hi. rewrite Forall_forall in Hid. destruct (Hid i) as [id E]; [apply elem_of_seq; lia|].
      exists id. split; [exact E|constructor].
    + intros i j id Hi Hj Ei Ej.
      assert (Hl : forall x, (x < 5)%nat -> ((fun i => next_id (st_env (app_store demo_app)) i) <$> seq 0 5) !! x = Some (next_id (st_env (app_store demo_app)) x)).
      { intros x Hx. rewrite list_lookup_fmap, lookup_seq_lt by done. done. }
      eapply NoDup_lookup; [exact Hne|rewrite Hl by done; by rewrite Ei|rewrite Hl by done; by rewrite Ej].
  - vm_compute. reflexivity.
  - constructor.
Qed.

