(* ===== verification/Errcat.v ===== *)
(** * The API error catalog (src/internal/errcat/catalog.go) *)

From S2P Require Import Prelude Env Json.

(** ** Codes and their HTTP status (package net/http's numbers) *)

Definition Unauthorized : string := "unauthorized".
Definition Forbidden : string := "forbidden".
Definition NotFound : string := "not_found".
Definition Conflict : string := "conflict".
Definition ExpiredApproval : string := "expired_approval".
Definition IdempotencyConflict : string := "idempotency_conflict".
Definition CursorExpired : string := "cursor_expired".
Definition AdapterUnavailable : string := "adapter_unavailable".
Definition InvalidInput : string := "invalid_input".
Definition RateLimited : string := "rate_limited".
Definition Internal : string := "internal_error".
Definition UnsupportedCommand : string := "unsupported_command".

Definition httpStatus : gmap string Z := list_to_map [
  (Unauthorized, 401); (Forbidden, 403); (NotFound, 404); (Conflict, 409);
  (ExpiredApproval, 409); (IdempotencyConflict, 409); (CursorExpired, 409);
  (AdapterUnavailable, 503); (InvalidInput, 400); (RateLimited, 429); (Internal, 500);
  (UnsupportedCommand, 400)
].

Definition HTTPStatus (c : string) : Z := default 500 (httpStatus !! c).

(** ** Errors *)

Record Error := mkError {
  ec_Code : string;
  ec_Message : string;
  ec_Details : option json;
  ec_cause : option error   (** never serialized *)
}.

Definition defaultMessage (c : string) : string :=
  if decide (c = Unauthorized) then "Authentication required."
  else if decide (c = Forbidden) then "This action is not permitted."
  else if decide (c = NotFound) then "Resource not found."
  else if decide (c = Conflict) then "State conflict."
  else if decide (c = ExpiredApproval) then "Approval is no longer pending."
  else if decide (c = IdempotencyConflict)
  then "Idempotency key was used for a different request."
  else if decide (c = CursorExpired) then "Replay cursor is past retained events."
  else if decide (c = AdapterUnavailable) then "The requested adapter is unavailable."
  else if decide (c = InvalidInput) then "Request was invalid."
  else if decide (c = RateLimited) then "Too many requests."
  else if decide (c = UnsupportedCommand) then "Command is not supported."
  else "Internal error.".

Definition errcat_New (c message : string) : Error :=
  mkError c (if decide (message = "") then defaultMessage c else message) None None.

Definition Error_Error (e : Error) : string := ec_Code e +:+ ": " +:+ ec_Message e.

Definition Error_WithDetails (d : json) (e : Error) : Error :=
  mkError (ec_Code e) (ec_Message e) (Some d) (ec_cause e).

Definition errcat_Wrap (c : string) (cause : error) (message : string) : Error :=
  let e := errcat_New c message in mkError (ec_Code e) (ec_Message e) (ec_Details e) (Some cause).

Definition Error_Cause (e : Error) : option error := ec_cause e.

(** The first sentinel in the error's chain decides. *)
Definition FromAppError (err appNotFound appConflict appInvalid : error) : Error :=
  if errors_Is err appNotFound then errcat_New NotFound (error_Error err)
  else if errors_Is err appConflict then errcat_New Conflict (error_Error err)
  else if errors_Is err appInvalid then errcat_New InvalidInput (error_Error err)
  else errcat_Wrap Internal err "".

(** What a client is sent. *)
Definition serialized (e : Error) : string * string * option json :=
  (ec_Code e, ec_Message e, ec_Details e).

(** An error outside the catalog's sentinels shows the client nothing of itself. *)
Lemma FromAppError_opaque err nf co inv :
  errors_Is err nf = false -> errors_Is err co = false -> errors_Is err inv = false ->
  serialized (FromAppError err nf co inv) = (Internal, "Internal error.", None).
Proof. intros H1 H2 H3. unfold FromAppError. by rewrite H1, H2, H3. Qed.

(** ** Chains

    An error as [errors.As] and [errors.Is] walk it: a catalog error, which has no
    [Unwrap], any other error, or a wrapping of one by [fmt.Errorf] with [%w].
    The targets are catalog errors and sentinels. *)
Inductive chain :=
  | Plain (e : error)
  | Catalog (e : Error)
  | Wrapped (pre : string) (c : chain) (post : string).

(** [errors.As] with a target of type [*Error]. *)
Fixpoint As_Error (c : chain) : option Error :=
  match c with
  | Plain _ => None
  | Catalog e => Some e
  | Wrapped _ c _ => As_Error c
  end.

Definition CodeFrom (c : chain) : string := default "" (ec_Code <$> As_Error c).

Definition Error_Is (e : Error) (target : chain) : bool :=
  match target with Catalog t => bool_decide (ec_Code e = ec_Code t) | _ => false end.

Fixpoint chain_Is (c target : chain) : bool :=
  match c with
  | Plain e => match target with Plain t => errors_Is e t | _ => false end
  | Catalog e => Error_Is e target
  | Wrapped _ c _ => chain_Is c target
  end.

(** The code of an error is what [errors.Is] matches a catalog error by, however
    it is wrapped. *)
Lemma chain_Is_code c t : chain_Is c (Catalog t) = true <-> As_Error c <> None /\ CodeFrom c = ec_Code t.
Proof.
  unfold CodeFrom. induction c as [e|e|pre c IH post]; cbn; [|rewrite bool_decide_eq_true|done].
  - split; [done|]. by intros [H _].
  - split; [by intros ->|]. by intros [_ H].
Qed.

(** The cause of a catalog error stays with the server: no sentinel in it is
    found. *)
Lemma cause_is_hidden c cause message t : chain_Is (Catalog (errcat_Wrap c cause message)) (Plain t) = false.
Proof. done. Qed.
