(* ===== verification/Http.v ===== *)
(** * The pieces of net/http and strconv that the HTTP API uses

    A request is what the server hands to a handler: headers with canonical
    names, decoded query values, and the body with the error that reading it
    ends in, if any.  A response writer is an interface, since the API wraps it
    to record an answer. *)

From S2P Require Import Prelude Env Json GoStrings JsonText.

(** ** Requests *)

(** The authenticated identity that a request's context carries
    (src/internal/api/handlers.go). *)
Record actor := mkActor { actor_id : string; actor_role : string }.

Record http_Request := mkHttpRequest {
  hq_Method : string;
  hq_Path : string;
  hq_Query : list (string * string);
  hq_Header : list (string * string);
  hq_Body : bytes;
  hq_BodyError : option error;
  hq_actor : option actor
}.

(** The first value of a name, or the empty text. *)
Definition first_value (name : string) (l : list (string * string)) : string :=
  default "" (snd <$> (snd <$> list_find (fun kv => kv.1 = name) l)).

Definition Header_Get (r : http_Request) (name : string) : string := first_value name (hq_Header r).
Definition Query_Get (r : http_Request) (name : string) : string := first_value name (hq_Query r).

(** [r.WithContext(withActor(r.Context(), a))]. *)
Definition with_actor (a : actor) (r : http_Request) : http_Request :=
  mkHttpRequest (hq_Method r) (hq_Path r) (hq_Query r) (hq_Header r) (hq_Body r) (hq_BodyError r)
    (Some a).

Definition MethodGet : string := "GET".
Definition MethodPost : string := "POST".
Definition MethodOptions : string := "OPTIONS".

(** ** Responses *)

Class ResponseWriter (T : Type) := {
  Header_Set : string -> string -> T -> T;
  WriteHeader : Z -> T -> T;
  rw_Write : bytes -> T -> T
}.

(** The writer of the server: the header map, the status line and the header
    fields once they are sent, and the body. *)
Record HttpResponse := mkHttpResponse {
  hr_Header : gmap string string;
  hr_sent : option (Z * gmap string string);
  hr_Body : bytes
}.
Definition new_response : HttpResponse := mkHttpResponse ∅ None [].

(** A second status is ignored. *)
Definition send_header (status : Z) (w : HttpResponse) : HttpResponse :=
  match hr_sent w with
  | Some _ => w
  | None => mkHttpResponse (hr_Header w) (Some (status, hr_Header w)) (hr_Body w)
  end.

#[export] Instance HttpResponse_writer : ResponseWriter HttpResponse := {|
  Header_Set k v w := mkHttpResponse (<[k := v]> (hr_Header w)) (hr_sent w) (hr_Body w);
  WriteHeader := send_header;
  rw_Write b w :=
    let w := send_header 200 w in mkHttpResponse (hr_Header w) (hr_sent w) (hr_Body w ++ b)
|}.

(** What the client is sent when the handler has returned. *)
Record answer := mkAnswer { an_status : Z; an_header : gmap string string; an_body : bytes }.
Definition finish (w : HttpResponse) : answer :=
  let '(st, h) := default (200, hr_Header w) (hr_sent w) in mkAnswer st h (hr_Body w).

(** ** [strconv.ParseInt(s, 10, 64)] and [strconv.Atoi] *)

(** The value of the digits and whether they exceed a uint64; [None] for a
    text that is not a number.  The range error comes first. *)
Fixpoint parse_uint (n : Z) (s : bytes) : option (Z * bool) :=
  match s with
  | [] => Some (n, false)
  | c :: s' =>
      if is_digit c then
        let n := n * 10 + (byte_of c - 48) in
        if decide (2 ^ 64 <= n) then Some (2 ^ 64 - 1, true) else parse_uint n s'
      else None
  end.

(** The value that is left when the error is ignored: 0 for a syntax error, the
    nearest int64 for a range error. *)
Definition ParseInt (s : string) : Z :=
  let '(neg, digits) := match chars s with
                        | c :: s' => if decide (byte_of c = 45) then (true, s')
                                     else if decide (byte_of c = 43) then (false, s')
                                     else (false, chars s)
                        | [] => (false, [])
                        end in
  match digits with
  | [] => 0
  | _ =>
      match parse_uint 0 digits with
      | None => 0
      | Some (n, _) => if (neg : bool) then Z.max min_int64 (- n) else Z.min max_int64 n
      end
  end.

Lemma ParseInt_range s : min_int64 <= ParseInt s <= max_int64.
Proof.
  assert (Hp : forall l n m b, 0 <= n -> parse_uint n l = Some (m, b) -> 0 <= m).
  { induction l as [|c l IH]; intros n m b Hn; cbn [parse_uint]; [congruence|].
    destruct (is_digit c) eqn:Hc; [|done]. apply bool_decide_eq_true in Hc.
    case_decide; [intros [= <- _]; lia|]. apply IH. lia. }
  unfold ParseInt. destruct (match chars s with [] => _ | _ => _ end) as [neg digits].
  unfold min_int64, max_int64. destruct digits as [|c l]; [lia|].
  destruct (parse_uint 0 (c :: l)) as [[n b]|] eqn:E; [|lia].
  apply Hp in E; [|done]. destruct neg; lia.
Qed.

Example parsed_numbers :
  (ParseInt "", ParseInt "42", ParseInt "-7", ParseInt "+5", ParseInt "4x", ParseInt "9223372036854775808",
   ParseInt "-99999999999999999999") = (0, 42, -7, 5, 0, max_int64, min_int64).
Proof. vm_compute. reflexivity. Qed.

(** ** Paths *)

(** Up to the first slash, and the rest behind it; without a slash the whole
    text and nothing. *)
Fixpoint cut_slash (s : bytes) : option (bytes * bytes) :=
  match s with
  | [] => None
  | c :: s' =>
      if decide (byte_of c = 47) then Some ([], s')
      else '(a, b) ← cut_slash s'; Some (c :: a, b)
  end.
