(* ===== verification/WsHandler.v ===== *)
(** * A WebSocket connection (src/internal/ws/handler.go)

    Four goroutines serve a connection: the read loop (hello, welcome, replay,
    then reading until an error), the writer (client.go's [runWriter]), the
    heartbeat, which authorizes the token again, and one that closes the socket
    once the client is closed.  Each is a small program counter; a schedule
    interleaves their steps, the steps of other connections, publications and
    calls of the identity service.  A step says how its socket call went.  What
    the peer was sent is a list of frames.  Deadlines are socket errors. *)

From S2P Require Import Prelude Env Json GoStrings JsonText GoTime Config Domain Schema SessionRepo Journal Identity Ws Http.

(** ** Frames and program counters *)

Inductive frame :=
  | FText (env : Envelope)
  | FError (message : string)
  | FPing
  | FClose (code : Z) (reason : string).

Inductive reader :=
  | RHello                                   (** waiting for the first message *)
  | RRefuse (message : string)               (** in [sendErrorAndClose] *)
  | RWelcome (cursors : list Cursor)         (** in [writeJSON] *)
  | RBegin (cursors : list Cursor)
  | RSubscribe (todo cursors : list Cursor)
  | RReplay (todo : list Cursor) (resyncs : list ResyncRequired)
  | RSend (events : list Event) (todo : list Cursor) (resyncs : list ResyncRequired)
  | RFlush (buffer : list Envelope) (resyncs : list ResyncRequired)  (** holding [bufMu] *)
  | RResync (resyncs : list ResyncRequired)
  | RLoop
  | RClosing                                 (** in the deferred function *)
  | RDone.

Inductive writer := WIdle | WWriting (env : Envelope) | WDone.
Inductive pinger := PWaiting | PRefusing | PDone.

Record Conn := mkConn {
  cn_token : string;
  cn_open : bool;
  cn_reader : reader;
  cn_writer : writer;
  cn_pinger : pinger;
  cn_frames : list frame
}.

Definition set_cn_reader (r : reader) (n : Conn) : Conn :=
  mkConn (cn_token n) (cn_open n) r (cn_writer n) (cn_pinger n) (cn_frames n).
Definition set_cn_writer (w : writer) (n : Conn) : Conn :=
  mkConn (cn_token n) (cn_open n) (cn_reader n) w (cn_pinger n) (cn_frames n).
Definition set_cn_pinger (p : pinger) (n : Conn) : Conn :=
  mkConn (cn_token n) (cn_open n) (cn_reader n) (cn_writer n) p (cn_frames n).
Definition set_cn_open (b : bool) (n : Conn) : Conn :=
  mkConn (cn_token n) b (cn_reader n) (cn_writer n) (cn_pinger n) (cn_frames n).
Definition add_frame (f : frame) (n : Conn) : Conn :=
  mkConn (cn_token n) (cn_open n) (cn_reader n) (cn_writer n) (cn_pinger n) (cn_frames n ++ [f]).

(** ** Decoding the hello *)

Definition dec_cursor : decoder Cursor := dec_struct "Hello.cursors" "ws.Cursor"
  [("session_id", at_field cu_SessionID (fun x c => mkCursor x (cu_After c)) (dec_string "Hello.cursors.session_id"));
   ("after", at_field cu_After (fun x c => mkCursor (cu_SessionID c) x) (dec_int "Hello.cursors.after"))].

Definition dec_hello : decoder Hello := dec_struct "" "ws.Hello"
  [("type", at_field he_Type
      (fun x h => mkHello x (he_ProtocolVersion h) (he_DeviceID h) (he_Cursors h)) (dec_string "Hello.type"));
   ("protocol_version", at_field he_ProtocolVersion
      (fun x h => mkHello (he_Type h) x (he_DeviceID h) (he_Cursors h)) (dec_int "Hello.protocol_version"));
   ("device_id", at_field he_DeviceID
      (fun x h => mkHello (he_Type h) (he_ProtocolVersion h) x (he_Cursors h)) (dec_string "Hello.device_id"));
   ("cursors", at_field he_Cursors
      (fun x h => mkHello (he_Type h) (he_ProtocolVersion h) (he_DeviceID h) x)
      (dec_slice "Hello.cursors" "[]ws.Cursor" (mkCursor "" 0) dec_cursor))].

(** [json.Unmarshal] of a message; the text of a syntax error is not modelled. *)
Definition unmarshal_Hello (data : bytes) : result Hello :=
  match json_parse_bytes data with
  | None => Err (ErrNew "invalid JSON")
  | Some v =>
      match dec_hello v (mkHello "" 0 "" []) with
      | Decoded h None => Ok h
      | Decoded _ (Some e) | Fatal e => Err e
      end
  end.

(** The token of an upgrade request. *)
Definition ws_token (r : http_Request) : string :=
  let token := chars (Header_Get r "Authorization") in
  let token := if has_prefix (chars "Bearer ") token && bool_decide (7 < length token)%nat then drop 7 token else token in
  if decide (token = []) then Query_Get r "token" else text token.

(** ** The handler *)

Section Handler.
Context {J : Type} `{EventJournal J}.

Record Gateway := mkGateway {
  gw_hub : Hub J;
  gw_identity : Service;
  gw_conns : gmap nat Conn
}.

Definition set_gw_hub (h : Hub J) (g : Gateway) : Gateway := mkGateway h (gw_identity g) (gw_conns g).
Definition set_gw_identity (x : Service) (g : Gateway) : Gateway := mkGateway (gw_hub g) x (gw_conns g).
Definition set_gw_conns (m : gmap nat Conn) (g : Gateway) : Gateway := mkGateway (gw_hub g) (gw_identity g) m.

Definition on_hub {A} (m : M (Hub J) A) : M Gateway A := zoom gw_hub set_gw_hub m.
Definition on_identity {A} (m : M Service A) : M Gateway A := zoom gw_identity set_gw_identity m.
Definition upd_conn (c : nat) (f : Conn -> Conn) : M Gateway unit :=
  modify (fun g => set_gw_conns (alter f c (gw_conns g)) g).

(** A write to the socket, which fails once it is closed. *)
Definition write_frame (c : nat) (ok : bool) (f : frame) : M Gateway bool :=
  let! g := get in
  let sent := ok && match gw_conns g !! c with Some n => cn_open n | None => false end in
  (if sent then upd_conn c (add_frame f) else ret tt);;; ret sent.

(** [ServeHTTP] up to its goroutines: the answer, or nothing for an upgraded
    connection. *)
Inductive ws_served := Answered (status : Z) | NotUpgraded | Upgraded.

Definition Handler_ServeHTTP (c : nat) (r : http_Request) (upgrades : bool) (choices : list bool) : M Gateway ws_served :=
  let token := ws_token r in
  let! auth := on_identity (Service_AuthorizeWS token) in
  match auth with
  | Err _ => ret (Answered 401)
  | Ok deviceID =>
      if upgrades then
        on_hub (modify (fun h => set_h_clients
          (<[c := newClient deviceID sendBuffer (pair 0%nat <$> choices)]> (h_clients h)) h));;;
        modify (fun g => set_gw_conns (<[c := mkConn token true RHello WIdle PWaiting []]> (gw_conns g)) g);;;
        ret Upgraded
      else ret NotUpgraded
  end.

(** Both writes of [sendErrorAndClose], whose errors are ignored. *)
Definition Handler_sendErrorAndClose (c : nat) (ok ok' : bool) (code : Z) (message : string) : M Gateway unit :=
  write_frame c ok (FError message);;; write_frame c ok' (FClose code message);;; ret tt.

Definition welcome (now : Z) : Envelope :=
  mkEnvelope "welcome" "" zero_time "" 0
    [("protocol_version", JNum 1); ("server_time", JStr (format_UTC now))].

(** [conn.ReadMessage]: a message or an error; an error once it is closed. *)
Definition read_message (n : Conn) (data : option bytes) : option bytes := if cn_open n then data else None.

(** The read loop reads. *)
Definition reader_reads (c : nat) (data : option bytes) : M Gateway unit :=
  let! g := get in
  match gw_conns g !! c with
  | Some n =>
      match cn_reader n, read_message n data with
      | RHello, None => upd_conn c (set_cn_reader RClosing)
      | RHello, Some data =>
          match decodeHello (unmarshal_Hello data) with
          | Err e => upd_conn c (set_cn_reader (RRefuse (error_Error e)))
          | Ok hello => upd_conn c (set_cn_reader (RWelcome (he_Cursors hello)))
          end
      | RLoop, None => upd_conn c (set_cn_reader RClosing)
      | _, _ => ret tt
      end
  | None => ret tt
  end.

(** One cursor's turn, its events still to be sent. *)
Definition reader_cursor (c : nat) (cur : Cursor) (todo : list Cursor) (resyncs : list ResyncRequired) : M Gateway reader :=
  let! limit := gets (fun g => h_replayLimit (gw_hub g)) in
  let! r := on_hub (on_journal (ej_Replay (cu_SessionID cur) (cu_After cur) limit)) in
  match r with
  | Err _ => on_hub (Hub_unsubscribeSession c (cu_SessionID cur));;; ret (RReplay todo resyncs)
  | Ok x =>
      if cr_ResyncRequired x then
        on_hub (Hub_unsubscribeSession c (cu_SessionID cur));;;
        ret (RReplay todo (resyncs ++ [mkResyncRequired (cu_SessionID cur) (cu_After cur)]))
      else ret (RSend (cr_Events x) todo resyncs)
  end.

(** One step of the hello's processing, and where the read loop is then. *)
Definition reader_next (c : nat) (ok ok' : bool) (n : Conn) : M Gateway reader :=
  match cn_reader n with
  | RRefuse message =>
      Handler_sendErrorAndClose c ok ok' CloseProtocolError message;;; ret RClosing
  | RWelcome cursors =>
      let! now := on_identity (in_store (on_env time_Now)) in
      let! sent := write_frame c ok (FText (welcome now)) in
      ret (if sent : bool then RBegin cursors else RClosing)
  | RBegin cursors => on_hub (client_startBuffering c);;; ret (RSubscribe cursors cursors)
  | RSubscribe (cur :: todo) cursors => on_hub (Hub_subscribe c (cu_SessionID cur));;; ret (RSubscribe todo cursors)
  | RSubscribe [] cursors => ret (RReplay cursors [])
  | RReplay (cur :: todo) resyncs => reader_cursor c cur todo resyncs
  | RReplay [] resyncs =>
      let! h := on_hub get in
      ret (RFlush (match h_clients h !! c with Some cl => c_buffer cl | None => [] end) resyncs)
  | RSend (ev :: events) todo resyncs =>
      on_hub (client_sendDirect c (event_envelope ev));;; ret (RSend events todo resyncs)
  | RSend [] todo resyncs => ret (RReplay todo resyncs)
  | RFlush (env :: buffer) resyncs =>
      let! r := on_hub (client_push c env) in
      match r with
      | Pushed => ret (RFlush buffer resyncs)
      | SawClosed => ret (RFlush [] resyncs)
      | Full => on_hub (client_markSlow c);;; ret (RFlush buffer resyncs)
      end
  | RFlush [] resyncs => on_hub (upd_client c (set_c_buffer false []));;; ret (RResync resyncs)
  | RResync (r :: resyncs) => on_hub (client_send c (resync_envelope r));;; ret (RResync resyncs)
  | RResync [] => ret RLoop
  | RClosing =>
      let! h := on_hub get in
      let code := match h_clients h !! c with Some cl => c_closeCode cl | None => CloseNormal end in
      write_frame c ok (FClose code (closeReason code));;;
      upd_conn c (set_cn_open false);;;
      on_hub (client_close c);;;
      ret RDone
  | other => ret other
  end.

(** [readLoop] where it does not read. *)
Definition reader_step (c : nat) (ok ok' : bool) : M Gateway unit :=
  let! g := get in
  match gw_conns g !! c with
  | Some n => let! r := reader_next c ok ok' n in upd_conn c (set_cn_reader r)
  | None => ret tt
  end.

(** [runWriter]: taking an envelope, writing it; or seeing the client closed. *)
Definition writer_step (c : nat) (ok : bool) : M Gateway unit :=
  let! g := get in
  match gw_conns g !! c, h_clients (gw_hub g) !! c with
  | Some n, Some cl =>
      match cn_writer n with
      | WIdle =>
          match c_sent cl !! c_taken cl with
          | Some env =>
              on_hub (upd_client c (fun cl => set_c_writer (S (c_taken cl)) (c_pace cl) cl));;;
              upd_conn c (set_cn_writer (WWriting env))
          | None => ret tt
          end
      | WWriting env =>
          let! sent := write_frame c ok (FText env) in
          if sent : bool then upd_conn c (set_cn_writer WIdle)
          else on_hub (client_close c);;; upd_conn c (set_cn_writer WDone)
      | WDone => ret tt
      end
  | _, _ => ret tt
  end.

Definition is_closed (c : nat) (g : Gateway) : bool :=
  match h_clients (gw_hub g) !! c with Some cl => c_closed cl | None => true end.

Definition writer_stops (c : nat) : M Gateway unit :=
  let! g := get in
  if is_closed c g
  then upd_conn c (fun n => match cn_writer n with WIdle => set_cn_writer WDone n | _ => n end)
  else ret tt.

(** [pinger]: a tick, and the end of a connection that is refused. *)
Definition pinger_ticks (c : nat) (ok : bool) : M Gateway unit :=
  let! g := get in
  match gw_conns g !! c with
  | Some n =>
      match cn_pinger n with
      | PWaiting =>
          let! auth := on_identity (Service_AuthorizeWS (cn_token n)) in
          match auth with
          | Err _ => upd_conn c (set_cn_pinger PRefusing)
          | Ok _ =>
              let! sent := write_frame c ok FPing in
              if sent : bool then ret tt
              else on_hub (client_close c);;; upd_conn c (set_cn_pinger PDone)
          end
      | _ => ret tt
      end
  | None => ret tt
  end.

Definition pinger_refuses (c : nat) (ok ok' : bool) : M Gateway unit :=
  let! g := get in
  match gw_conns g !! c with
  | Some n =>
      match cn_pinger n with
      | PRefusing =>
          Handler_sendErrorAndClose c ok ok' CloseUnauthorized "unauthorized";;;
          on_hub (client_close c);;;
          upd_conn c (set_cn_pinger PDone)
      | _ => ret tt
      end
  | None => ret tt
  end.

(** It ends with the read loop (its context) or the client. *)
Definition pinger_stops (c : nat) : M Gateway unit :=
  let! g := get in
  upd_conn c (fun n => match cn_pinger n, cn_reader n with
                       | PWaiting, RDone => set_cn_pinger PDone n
                       | PWaiting, _ => if is_closed c g then set_cn_pinger PDone n else n
                       | _, _ => n
                       end).

(** [go func() { <-c.closed; conn.Close() }()]. *)
Definition closer_step (c : nat) : M Gateway unit :=
  let! g := get in if is_closed c g then upd_conn c (set_cn_open false) else ret tt.

(** A publication waits while a subscriber's buffer is being flushed. *)
Definition flushing (g : Gateway) (c : nat) : bool :=
  match gw_conns g !! c with Some n => match cn_reader n with RFlush _ _ => true | _ => false end | None => false end.
Definition publish_step (ev : Event) : M Gateway unit :=
  let! g := get in
  if existsb (flushing g) (elements (default ∅ (h_subs (gw_hub g) !! e_SessionID ev))) then ret tt
  else on_hub (Hub_Publish ev).

(** ** Schedules *)

Inductive gw_step :=
  | GConnect (c : nat) (r : http_Request) (upgrades : bool) (choices : list bool)
  | GRead (c : nat) (data : option bytes)
  | GReader (c : nat) (ok ok' : bool)
  | GWriter (c : nat) (ok : bool)
  | GWriterStop (c : nat)
  | GTick (c : nat) (ok : bool)
  | GRefuse (c : nat) (ok ok' : bool)
  | GPingerStop (c : nat)
  | GCloser (c : nat)
  | GPublish (ev : Event)
  | GJournal (f : J -> J)
  | GIdentity (op : identity_op).

Definition gw_run_step (s : gw_step) : M Gateway unit :=
  match s with
  | GConnect c r upgrades choices =>
      let! g := get in
      match gw_conns g !! c with
      | None => Handler_ServeHTTP c r upgrades choices;;; ret tt
      | Some _ => ret tt
      end
  | GRead c data => reader_reads c data
  | GReader c ok ok' => reader_step c ok ok'
  | GWriter c ok => writer_step c ok
  | GWriterStop c => writer_stops c
  | GTick c ok => pinger_ticks c ok
  | GRefuse c ok ok' => pinger_refuses c ok ok'
  | GPingerStop c => pinger_stops c
  | GCloser c => closer_step c
  | GPublish ev => publish_step ev
  | GJournal f => on_hub (on_journal (modify f))
  | GIdentity op => on_identity (run_identity_op op []);;; ret tt
  end.
Definition gw_run (l : list gw_step) : M Gateway unit := for_each l gw_run_step.

Definition NewHandler (j : J) (x : Service) : Gateway := mkGateway (NewHub j) x ∅.
End Handler.
Arguments Gateway J : clear implicits.
Arguments gw_step J : clear implicits.
