(* ===== verification/WsSocket.v ===== *)
(** * What a WebSocket connection is sent

    In every interleaving of the goroutines of all connections the socket gets
    the welcome and then the queued envelopes, in order and once each; the read
    loop and the writer never write at once; a revoked device is cut off by the
    heartbeat. *)

From S2P Require Import Prelude Env Json GoStrings Domain Schema SessionRepo Journal Identity Ws Http WsHandler.

(** ** How a hub's calls change a client *)

Section Client.
Context {J : Type} `{EventJournal J} (c : nat).
Implicit Types h : Hub J.

(** The writer's place in the queue moves only by the writer's own steps. *)
Definition tame (cl : client) : Prop :=
  (c_taken cl <= length (c_sent cl))%nat /\ Forall (fun p => p.1 = 0%nat) (c_pace cl).

Record evolves (cl cl' : client) : Prop := mk_evolves {
  ev_sent : c_sent cl `prefix_of` c_sent cl';
  ev_taken : c_taken cl' = c_taken cl;
  ev_closed : c_closed cl = true -> c_closed cl' = true;
  ev_tame : tame cl -> tame cl'
}.

#[export] Instance evolves_preorder : PreOrder evolves.
Proof.
  split; [by intros cl|]. intros c1 c2 c3 [S1 T1 C1 M1] [S2 T2 C2 M2].
  constructor; [by etransitivity|congruence|auto|auto].
Qed.

Definition unsubscribed h : Prop := forall sid, c ∉ default (∅ : gset nat) (h_subs h !! sid).

(** What any call does to the client, and what a call for other clients does not
    do to one that subscribes to nothing. *)
Definition touches h h' : Prop :=
  forall cl, h_clients h !! c = Some cl -> exists cl', h_clients h' !! c = Some cl' /\ (tame cl -> evolves cl cl').
Definition spares h h' : Prop :=
  unsubscribed h -> unsubscribed h' /\
  forall cl, h_clients h !! c = Some cl -> exists cl', h_clients h' !! c = Some cl' /\ c_sent cl' = c_sent cl.

#[export] Instance touches_preorder : PreOrder touches.
Proof.
  split; [intros h cl Hcl; by exists cl|]. intros h1 h2 h3 H1 H2 cl Hcl.
  destruct (H1 cl Hcl) as (cl2 & Hcl2 & E2), (H2 cl2 Hcl2) as (cl3 & Hcl3 & E3). exists cl3. split; [done|].
  intros Ht. etransitivity; [by apply E2|]. by apply E3, E2.
Qed.
#[export] Instance spares_preorder : PreOrder spares.
Proof.
  split; [intros h Hu; split; [done|]; intros cl Hcl; by exists cl|]. intros h1 h2 h3 H1 H2 Hu.
  destruct (H1 Hu) as [Hu2 Hc2], (H2 Hu2) as [Hu3 Hc3]. split; [done|]. intros cl Hcl.
  destruct (Hc2 cl Hcl) as (cl2 & Hcl2 & E2), (Hc3 cl2 Hcl2) as (cl3 & Hcl3 & E3). exists cl3. split; [done|congruence].
Qed.

(** Computations with a preorder as their effect. *)
Definition does {A} (R : Hub J -> Hub J -> Prop) (m : M (Hub J) A) : Prop := forall h, R h (m h).2.

Section Does.
Context (R : Hub J -> Hub J -> Prop) `{!PreOrder R}.
Lemma does_ret {A} (a : A) : does R (ret a).
Proof. intros h. reflexivity. Qed.
Lemma does_get : does R get.
Proof. intros h. reflexivity. Qed.
Lemma does_bind {A B} (m : M (Hub J) A) (k : A -> M (Hub J) B) :
  does R m -> (forall a, does R (k a)) -> does R (bind m k).
Proof.
  intros Hm Hk h. unfold bind. specialize (Hm h). destruct (m h) as [a h']. etransitivity; [exact Hm|apply Hk].
Qed.
Lemma does_for_each {A} (l : list A) (body : A -> M (Hub J) unit) :
  (forall x, x ∈ l -> does R (body x)) -> does R (for_each l body).
Proof.
  induction l as [|x l IH]; intros Hb; cbn; [apply does_ret|].
  apply does_bind; [apply Hb; constructor|]. intros _. apply IH. intros y Hy. apply Hb. by constructor.
Qed.
End Does.

Lemma does_upd (R : Hub J -> Hub J -> Prop) k f :
  (forall h, R h (set_h_clients (alter f k (h_clients h)) h)) -> does R (upd_client k f).
Proof. done. Qed.

(** *** Any call *)

Lemma touches_upd k f : (forall cl, evolves cl (f cl)) -> does touches (upd_client k f).
Proof.
  intros Hf h cl Hcl. unfold upd_client, modify. cbn. destruct (decide (k = c)) as [->|Hne].
  - rewrite lookup_alter_eq, Hcl. by eexists.
  - rewrite lookup_alter_ne by done. by exists cl.
Qed.
Lemma touches_subs (f : Hub J -> gmap string (gset nat)) : does touches (modify (fun h => set_h_subs (f h) h)).
Proof. intros h cl Hcl. by exists cl. Qed.
Lemma touches_close k : does touches (client_close k).
Proof.
  apply does_bind; [apply _|apply does_get, _|]. intros h.
  destruct (h_clients h !! k) as [cl|]; [destruct (c_closed cl)|]; try (apply does_ret, _).
  apply does_bind; [apply _|by apply touches_upd|]. intros _. apply touches_subs.
Qed.
Lemma touches_markSlow k : does touches (client_markSlow k).
Proof. apply does_bind; [apply _|by apply touches_upd|]. intros _. apply touches_close. Qed.

Lemma push_evolves env cl : tame cl -> evolves cl (push env cl).1.
Proof.
  intros [Ht Hp]. unfold push, writer_moves. destruct (c_pace cl) as [|[n b] p] eqn:Ep.
  - case_bool_decide; cbn; [destruct (_ || _)|]; cbn; try (destruct (c_closed cl) eqn:Ec); cbn;
      constructor; cbn; rewrite ?Ec; try done; try (by eexists); unfold tame; cbn; rewrite ?length_app, ?Ep;
      (split; [lia|done]).
  - inversion_clear Hp as [|?? Hn Hp']. cbn in Hn. subst n.
    assert (Em : min (length (c_sent cl)) (c_taken cl + 0) = c_taken cl) by lia.
    case_bool_decide; cbn; destruct (c_closed cl) eqn:Ec, b; cbn; rewrite ?Em; constructor; cbn; rewrite ?Ec;
      try done; try (by eexists); unfold tame; cbn; rewrite ?length_app; intros; (split; [lia|done]).
Qed.
Lemma touches_push k env : does touches (client_push k env).
Proof.
  intros h cl Hcl. unfold client_push, bind, get. destruct (h_clients h !! k) as [clk|] eqn:E; [|by exists cl].
  destruct (push env clk) as [cl' r] eqn:Ep. cbn. destruct (decide (k = c)) as [->|Hne].
  - rewrite lookup_insert_eq. rewrite Hcl in E. injection E as <-. exists cl'. split; [done|].
    intros Ht. pose proof (push_evolves env cl Ht) as He. by rewrite Ep in He.
  - rewrite lookup_insert_ne by done. by exists cl.
Qed.
Lemma touches_sendDirect k env : does touches (client_sendDirect k env).
Proof.
  apply does_bind; [apply _|apply does_get, _|]. intros h.
  destruct (h_clients h !! k) as [cl|]; [destruct (c_closed cl)|]; try (apply does_ret, _).
  apply does_bind; [apply _|apply touches_push|]. intros []; try (apply does_ret, _). apply touches_markSlow.
Qed.
Lemma touches_send k env : does touches (client_send k env).
Proof.
  apply does_bind; [apply _|apply does_get, _|]. intros h.
  destruct (h_clients h !! k) as [cl|]; [destruct (c_closed cl); [|destruct (c_buffering cl)]|]; try (apply does_ret, _).
  - by apply touches_upd.
  - apply touches_sendDirect.
Qed.
Lemma touches_Publish ev : does touches (Hub_Publish ev).
Proof.
  apply does_bind; [apply _|apply does_get, _|]. intros h. apply does_for_each; [apply _|]. intros; apply touches_send.
Qed.
Lemma touches_journal {A} (m : M J A) : does touches (on_journal m).
Proof. intros h cl Hcl. unfold on_journal, zoom. destruct (m _). by exists cl. Qed.
Lemma touches_anyone_subscribe k sid : does touches (Hub_subscribe k sid).
Proof. apply touches_subs. Qed.
Lemma touches_anyone_unsubscribe k sid : does touches (Hub_unsubscribeSession k sid).
Proof. apply touches_subs. Qed.
Lemma evolves_buffer b l cl : evolves cl (set_c_buffer b l cl).
Proof. by constructor. Qed.
Lemma touches_anyone_buffer k b l : does touches (upd_client k (set_c_buffer b l)).
Proof. apply touches_upd. intros cl. apply evolves_buffer. Qed.
Lemma touches_anyone_start k : does touches (client_startBuffering k).
Proof. apply touches_anyone_buffer. Qed.
Lemma touches_anyone_get : does touches get.
Proof. intros h. reflexivity. Qed.

(** *** Calls for other clients *)

Lemma spares_upd k f : k <> c \/ (forall cl, c_sent (f cl) = c_sent cl) -> does spares (upd_client k f).
Proof.
  intros Hf h Hu. split; [exact Hu|]. intros cl Hcl. unfold upd_client, modify. cbn.
  destruct (decide (k = c)) as [->|Hne].
  - rewrite lookup_alter_eq, Hcl. eexists. split; [done|]. by destruct Hf.
  - rewrite lookup_alter_ne by done. by exists cl.
Qed.
Lemma spares_subs (f : Hub J -> gmap string (gset nat)) :
  (forall h, unsubscribed h -> unsubscribed (set_h_subs (f h) h)) -> does spares (modify (fun h => set_h_subs (f h) h)).
Proof. intros Hf h Hu. split; [by apply Hf|]. intros cl Hcl. by exists cl. Qed.

Lemma drop_sub_unsubscribed k (subs : gset nat) : c ∉ subs -> c ∉ default ∅ (drop_sub k subs).
Proof. intros Hn. unfold drop_sub. case_decide; cbn; set_solver. Qed.
Lemma spares_unsubscribe k : does spares (Hub_unsubscribe k).
Proof.
  apply spares_subs. intros h Hu sid. specialize (Hu sid). cbn. rewrite lookup_omap.
  destruct (h_subs h !! sid) as [subs|]; cbn in *; [by apply drop_sub_unsubscribed|done].
Qed.
Lemma spares_unsubscribeSession k sid0 : does spares (Hub_unsubscribeSession k sid0).
Proof.
  apply spares_subs. intros h Hu sid. specialize (Hu sid). cbn. destruct (decide (sid0 = sid)) as [->|Hne].
  - rewrite lookup_partial_alter_eq. destruct (h_subs h !! sid) as [subs|]; cbn in *; [by apply drop_sub_unsubscribed|done].
  - by rewrite lookup_partial_alter_ne.
Qed.
Lemma spares_subscribe k sid0 : k <> c -> does spares (Hub_subscribe k sid0).
Proof.
  intros Hk. apply spares_subs. intros h Hu sid. specialize (Hu sid). cbn.
  destruct (decide (sid0 = sid)) as [->|Hne]; [rewrite lookup_insert_eq; cbn; set_solver|by rewrite lookup_insert_ne].
Qed.
Lemma spares_close k : does spares (client_close k).
Proof.
  apply does_bind; [apply _|apply does_get, _|]. intros h.
  destruct (h_clients h !! k) as [cl|]; [destruct (c_closed cl)|]; try (apply does_ret, _).
  apply does_bind; [apply _|apply spares_upd; by right|]. intros _. apply spares_unsubscribe.
Qed.
Lemma spares_markSlow k : does spares (client_markSlow k).
Proof. apply does_bind; [apply _|apply spares_upd; by right|]. intros _. apply spares_close. Qed.
Lemma spares_push k env : k <> c -> does spares (client_push k env).
Proof.
  intros Hk h Hu. unfold client_push, bind, get.
  destruct (h_clients h !! k) as [clk|] eqn:E; [|split; [done|]; intros cl Hcl; by exists cl].
  destruct (push env clk) as [cl' r]. cbn. split; [exact Hu|]. intros cl Hcl. rewrite lookup_insert_ne by done. by exists cl.
Qed.
Lemma spares_sendDirect k env : k <> c -> does spares (client_sendDirect k env).
Proof.
  intros Hk. apply does_bind; [apply _|apply does_get, _|]. intros h.
  destruct (h_clients h !! k) as [cl|]; [destruct (c_closed cl)|]; try (apply does_ret, _).
  apply does_bind; [apply _|by apply spares_push|]. intros []; try (apply does_ret, _). apply spares_markSlow.
Qed.
Lemma spares_send k env : k <> c -> does spares (client_send k env).
Proof.
  intros Hk. apply does_bind; [apply _|apply does_get, _|]. intros h.
  destruct (h_clients h !! k) as [cl|]; [destruct (c_closed cl); [|destruct (c_buffering cl)]|]; try (apply does_ret, _).
  - apply spares_upd. by left.
  - by apply spares_sendDirect.
Qed.
Lemma spares_Publish ev : does spares (Hub_Publish ev).
Proof.
  intros h Hu. unfold Hub_Publish, bind, get. apply (does_for_each spares); [|done].
  intros k Hk%elem_of_elements. apply spares_send. intros ->. by apply (Hu (e_SessionID ev)).
Qed.
Lemma spares_journal {A} (m : M J A) : does spares (on_journal m).
Proof. intros h Hu. unfold on_journal, zoom. destruct (m _). split; [done|]. intros cl Hcl. by exists cl. Qed.
End Client.

(** Both: the effect of a call for others. *)
Definition apart {J} (c : nat) (h h' : Hub J) : Prop := touches c h h' /\ spares c h h'.
#[export] Instance apart_preorder {J} (c : nat) : PreOrder (apart (J:=J) c).
Proof.
  split; [by intros h; split|]. intros h1 h2 h3 [T1 S1] [T2 S2]. split; by etransitivity.
Qed.

(** ** The invariant of a connection *)

Definition texts (fs : list frame) : list Envelope :=
  omap (fun f => match f with FText env => Some env | _ => None end) fs.
Lemma texts_app fs fs' : texts (fs ++ fs') = texts fs ++ texts fs'.
Proof. apply omap_app. Qed.

(** Before the welcome, and after it. *)
Definition before_welcome (r : reader) : Prop :=
  match r with RHello | RRefuse _ | RWelcome _ | RClosing | RDone => True | _ => False end.
Definition after_welcome (r : reader) : Prop :=
  match r with RHello | RRefuse _ | RWelcome _ => False | _ => True end.

Section Inv.
Context {J : Type} `{EventJournal J}.
Implicit Types (h : Hub J) (g : Gateway J).

(** Nothing is queued and nothing written. *)
Definition early (c : nat) h (w : writer) (ts : list Envelope) : Prop :=
  ts = [] /\ unsubscribed c h /\ match w with WWriting _ => False | _ => True end /\
  exists cl, h_clients h !! c = Some cl /\ tame cl /\ c_sent cl = [].

(** The welcome, then what the writer has written of the queue. *)
Definition late (c : nat) h (w : writer) (ts : list Envelope) : Prop :=
  exists cl now n, h_clients h !! c = Some cl /\ tame cl /\ ts = welcome now :: take n (c_sent cl) /\
    match w with
    | WIdle => n = c_taken cl
    | WWriting env => S n = c_taken cl /\ c_sent cl !! n = Some env
    | WDone => (n <= c_taken cl)%nat
    end.

Definition conn_ok (c : nat) (n : Conn) h : Prop :=
  before_welcome (cn_reader n) /\ early c h (cn_writer n) (texts (cn_frames n)) \/
  after_welcome (cn_reader n) /\ late c h (cn_writer n) (texts (cn_frames n)).

Definition gw_inv g : Prop := forall c,
  match gw_conns g !! c with Some n => conn_ok c n (gw_hub g) | None => unsubscribed c (gw_hub g) end.

Lemma early_apart c h h' w ts : apart c h h' -> early c h w ts -> early c h' w ts.
Proof.
  intros [Ht Hs] (E & Hu & Hw & cl & Hcl & Htame & Hsent). destruct (Hs Hu) as [Hu' Hc].
  destruct (Hc cl Hcl) as (cl' & Hcl' & E'), (Ht cl Hcl) as (cl2 & Hcl2 & He).
  rewrite Hcl' in Hcl2. injection Hcl2 as <-. split_and!; [done|done|done|]. exists cl'.
  split_and!; [done|by apply He|congruence].
Qed.

Lemma late_touches c h h' w ts : touches c h h' -> late c h w ts -> late c h' w ts.
Proof.
  intros Ht (cl & now & n & Hcl & Htame & E & Hw). destruct (Ht cl Hcl) as (cl' & Hcl' & He).
  destruct (He Htame) as [[l El] Htk Hclosed Htame']. exists cl', now, n.
  assert (Hn : (n <= length (c_sent cl))%nat) by (destruct Htame as [Hle _], w; destruct_and?; lia).
  split_and!; [done|by apply Htame'| |].
  - by rewrite El, take_app_le by done.
  - rewrite Htk, El. destruct w; try done. destruct Hw as [Hn' Hl]. split; [done|by apply lookup_app_l_Some].
Qed.

Lemma conn_ok_apart c n h h' : apart c h h' -> conn_ok c n h -> conn_ok c n h'.
Proof.
  intros Ha [[Hr He]|[Hr Hl]]; [left|right]; (split; [done|]); [by eapply early_apart|].
  eapply late_touches; [apply Ha|done].
Qed.

(** *** Rules for the calls of the handler *)

Lemma wp_does {A} (R : Hub J -> Hub J -> Prop) (m : M (Hub J) A) h Q :
  does R m -> (forall a h', R h h' -> Q a h') -> wp m h Q.
Proof. intros Hm HQ. unfold wp. specialize (Hm h). destruct (m h). by apply HQ. Qed.

Lemma wp_on_hub {A} R (m : M (Hub J) A) g Q :
  does R m -> (forall a h', R (gw_hub g) h' -> Q a (set_gw_hub h' g)) -> wp (on_hub m) g Q.
Proof. intros Hm HQ. unfold on_hub. rewrite wp_zoom. by apply (wp_does R). Qed.

Lemma wp_on_identity {A} (m : M Service A) g Q :
  (forall a x, Q a (set_gw_identity x g)) -> wp (on_identity m) g Q.
Proof. intros HQ. unfold on_identity. rewrite wp_zoom. unfold wp. destruct (m _). apply HQ. Qed.

Lemma wp_write_frame c ok f n g Q : gw_conns g !! c = Some n ->
  (forall g' b, gw_hub g' = gw_hub g -> gw_conns g' !! c = Some (if b : bool then add_frame f n else n) ->
    (forall k, k <> c -> gw_conns g' !! k = gw_conns g !! k) -> Q b g') ->
  wp (write_frame c ok f) g Q.
Proof.
  intros Hn HQ. unfold write_frame. wp_simp. rewrite Hn. destruct (ok && cn_open n); unfold upd_conn; wp_simp; apply HQ;
    cbn; try done; [by rewrite lookup_alter_eq, Hn|]. intros k Hk. by rewrite lookup_alter_ne.
Qed.

(** A step of one connection as the others see it. *)
Definition others (c : nat) {A} (m : M (Gateway J) A) : Prop := forall g,
  gw_conns (m g).2 !! c = gw_conns g !! c /\ apart c (gw_hub g) (gw_hub (m g).2).

Lemma others_ret c {A} (a : A) : others c (ret a).
Proof. intros g. split; [done|reflexivity]. Qed.
Lemma others_get c : others c get.
Proof. intros g. split; [done|reflexivity]. Qed.
Lemma others_gets c {A} (f : Gateway J -> A) : others c (gets f).
Proof. intros g. split; [done|reflexivity]. Qed.
Lemma others_bind c {A B} (m : M (Gateway J) A) (k : A -> M (Gateway J) B) :
  others c m -> (forall a, others c (k a)) -> others c (bind m k).
Proof.
  intros Hm Hk g. unfold bind. destruct (Hm g) as [E1 A1]. destruct (m g) as [a g1]. cbn in *.
  destruct (Hk a g1) as [E2 A2]. split; [congruence|by etransitivity].
Qed.
Lemma others_hub c {A} (m : M (Hub J) A) : does (touches c) m -> does (spares c) m -> others c (on_hub m).
Proof.
  intros Ht Hs g. unfold on_hub, zoom. specialize (Ht (gw_hub g)). specialize (Hs (gw_hub g)).
  destruct (m (gw_hub g)). by split; [|split].
Qed.
Lemma others_identity c {A} (m : M Service A) : others c (on_identity m).
Proof. intros g. unfold on_identity, zoom. destruct (m _). split; [done|reflexivity]. Qed.
Lemma others_upd_conn c k f : k <> c -> others c (upd_conn k f).
Proof. intros Hk g. unfold upd_conn, modify. cbn. split; [by rewrite lookup_alter_ne|reflexivity]. Qed.
End Inv.

Create HintDb others.
#[export] Hint Resolve others_ret others_get others_gets others_bind others_identity others_upd_conn others_hub : others.
#[export] Hint Resolve touches_close touches_markSlow touches_push touches_sendDirect touches_send touches_Publish
  touches_journal touches_subs touches_upd spares_close spares_markSlow spares_push spares_sendDirect spares_send
  spares_Publish spares_journal spares_subscribe spares_unsubscribe spares_unsubscribeSession : others.
#[export] Hint Extern 2 (others _ (match ?x with _ => _ end)) => destruct x : others.

Section Others.
Context {J : Type} `{EventJournal J} (c k : nat) (Hk : k <> c).
Abbreviation others := (others (J:=J) c).

Lemma others_hub_get : others (on_hub get).
Proof. intros g. split; [done|reflexivity]. Qed.
Lemma others_hub_upd f : (forall cl, evolves cl (f cl)) -> others (on_hub (upd_client k f)).
Proof. intros Hf. apply others_hub; [by apply touches_upd|apply spares_upd; by left]. Qed.

Lemma others_write_frame ok f : others (write_frame k ok f).
Proof. unfold write_frame. apply others_bind; [apply others_get|]. intros g. case_match; auto with others. Qed.
Lemma others_sendErrorAndClose ok ok' code m : others (Handler_sendErrorAndClose k ok ok' code m).
Proof. unfold Handler_sendErrorAndClose. auto using others_write_frame with others. Qed.

Hint Resolve touches_anyone_subscribe touches_anyone_unsubscribe others_hub_get others_write_frame others_sendErrorAndClose : others.

Lemma others_reader_reads data : others (reader_reads k data).
Proof.
  unfold reader_reads. apply others_bind; [apply others_get|]. intros g. destruct (gw_conns g !! k) as [n|]; [|auto with others].
  destruct (cn_reader n), (read_message n data); auto with others.
Qed.

Lemma others_buffer b l : others (on_hub (upd_client k (fun cl => set_c_buffer b (l cl) cl))).
Proof. apply others_hub_upd. by intros. Qed.
Lemma others_startBuffering : others (on_hub (client_startBuffering k)).
Proof. apply (others_buffer true (fun _ => [])). Qed.
Lemma others_stopBuffering : others (on_hub (upd_client k (set_c_buffer false []))).
Proof. apply (others_buffer false (fun _ => [])). Qed.
Hint Resolve others_startBuffering others_stopBuffering : others.

Lemma others_reader_cursor cur todo resyncs : others (reader_cursor k cur todo resyncs).
Proof.
  unfold reader_cursor. apply others_bind; [apply others_gets|]. intros limit.
  apply others_bind; [auto with others|]. intros [x|e]; [destruct (cr_ResyncRequired x)|]; auto with others.
Qed.
Hint Resolve others_reader_cursor : others.

Lemma others_reader_next ok ok' n : others (reader_next k ok ok' n).
Proof.
  unfold reader_next. destruct (cn_reader n) as [|m|cs|cs|todo cs|todo rs|evs todo rs|buf rs|rs| | |];
    [..|auto with others|auto 10 with others|auto with others]; try (by auto with others).
  destruct buf; [auto with others|]. apply others_bind; [auto with others|]. intros []; auto with others.
Qed.

Lemma others_reader_step ok ok' : others (reader_step k ok ok').
Proof.
  unfold reader_step. apply others_bind; [apply others_get|]. intros g.
  destruct (gw_conns g !! k); auto using others_reader_next with others.
Qed.

Lemma others_writer_step ok : others (writer_step k ok).
Proof.
  unfold writer_step. apply others_bind; [apply others_get|]. intros g.
  destruct (gw_conns g !! k) as [n|]; [|auto with others]. destruct (h_clients (gw_hub g) !! k) as [cl|]; [|auto with others].
  destruct (cn_writer n) as [|env|]; [|auto 8 with others..]. destruct (c_sent cl !! c_taken cl); [|auto with others].
  apply others_bind; [|auto with others]. intros g'. unfold on_hub, zoom, upd_client, modify. cbn. split; [done|].
  split; [|intros Hu; split; [done|]]; intros cl' Hcl'; exists cl'; cbn; rewrite lookup_alter_ne by done; by split.
Qed.

Lemma others_pinger_ticks ok : others (pinger_ticks k ok).
Proof.
  unfold pinger_ticks. apply others_bind; [apply others_get|]. intros g. destruct (gw_conns g !! k) as [n|]; [|auto with others].
  destruct (cn_pinger n); auto 10 with others.
Qed.
Lemma others_pinger_refuses ok ok' : others (pinger_refuses k ok ok').
Proof.
  unfold pinger_refuses. apply others_bind; [apply others_get|]. intros g. destruct (gw_conns g !! k) as [n|]; [|auto with others].
  destruct (cn_pinger n); auto 10 with others.
Qed.
Lemma others_pinger_stops : others (pinger_stops k).
Proof. unfold pinger_stops. auto with others. Qed.
Lemma others_writer_stops : others (writer_stops k).
Proof. unfold writer_stops. apply others_bind; [apply others_get|]. intros g. auto with others. Qed.
Lemma others_closer_step : others (closer_step k).
Proof. unfold closer_step. apply others_bind; [apply others_get|]. intros g. auto with others. Qed.

Lemma others_connect r upgrades choices : others (gw_run_step (GConnect k r upgrades choices)).
Proof.
  cbn [gw_run_step]. apply others_bind; [apply others_get|]. intros g. destruct (gw_conns g !! k); [auto with others|].
  apply others_bind; [|auto with others]. unfold Handler_ServeHTTP. apply others_bind; [apply others_identity|].
  intros [d|e]; [|auto with others]. destruct upgrades; [|auto with others].
  apply others_bind; [|intros _; apply others_bind; [|auto with others]].
  - apply others_hub; [intros h cl Hcl|intros h Hu; split; [done|]; intros cl Hcl]; exists cl; cbn;
      rewrite lookup_insert_ne by done; by split.
  - intros g'. cbn. rewrite lookup_insert_ne by done. split; [done|reflexivity].
Qed.
End Others.

(** The connection a step belongs to. *)
Definition subject {J} (s : gw_step J) : option nat :=
  match s with
  | GConnect c _ _ _ | GRead c _ | GReader c _ _ | GWriter c _ | GWriterStop c | GTick c _ | GRefuse c _ _
  | GPingerStop c | GCloser c => Some c
  | GPublish _ | GJournal _ | GIdentity _ => None
  end.

Lemma others_step {J} `{EventJournal J} c (s : gw_step J) : subject s <> Some c -> others c (gw_run_step s).
Proof.
  destruct s; cbn [subject]; intros Hs; try (assert (c0 <> c) by congruence).
  - by apply others_connect.
  - by apply others_reader_reads.
  - by apply others_reader_step.
  - by apply others_writer_step.
  - by apply others_writer_stops.
  - by apply others_pinger_ticks.
  - by apply others_pinger_refuses.
  - by apply others_pinger_stops.
  - by apply others_closer_step.
  - cbn [gw_run_step]. unfold publish_step. apply others_bind; [apply others_get|]. intros g.
    case_match; [apply others_ret|]. auto with others.
  - cbn [gw_run_step]. auto with others.
  - cbn [gw_run_step]. auto with others.
Qed.

(** ** A connection's own steps *)

Create HintDb touches.

Section Self.
Context {J : Type} `{EventJournal J} (c : nat).
Implicit Types (h : Hub J) (g : Gateway J).

Definition sound g : Prop :=
  match gw_conns g !! c with Some n => conn_ok c n (gw_hub g) | None => unsubscribed c (gw_hub g) end.

(** The connection is as it was, but for its frames that are no text, its reader
    among those that the invariant allows, its pinger and its socket. *)
Lemma conn_ok_same n n' h : conn_ok c n h -> cn_writer n' = cn_writer n -> texts (cn_frames n') = texts (cn_frames n) ->
  (before_welcome (cn_reader n) -> before_welcome (cn_reader n')) ->
  (after_welcome (cn_reader n) -> after_welcome (cn_reader n')) -> conn_ok c n' h.
Proof. intros [[Hr He]|[Hr Hl]] Ew Et Hb Ha; [left|right]; rewrite Ew, Et; auto. Qed.

Lemma conn_ok_late n r w fs h t o p : after_welcome r -> late c h w (texts fs) ->
  n = mkConn t o r w p fs -> conn_ok c n h.
Proof. intros Hr Hl ->. by right. Qed.

Lemma sound_some n g : gw_conns g !! c = Some n -> conn_ok c n (gw_hub g) -> sound g.
Proof. unfold sound. by intros ->. Qed.

Lemma wp_upd_conn f n g : gw_conns g !! c = Some n -> conn_ok c (f n) (gw_hub g) ->
  wp (upd_conn c f) g (fun _ => sound).
Proof.
  intros Hn Hok. unfold upd_conn. wp_simp. apply (sound_some (f n)); [|done]. cbn. by rewrite lookup_alter_eq, Hn.
Qed.

Lemma apart_close h : apart c h (client_close c h).2.
Proof. split; [apply touches_close|apply spares_close]. Qed.
Lemma does_apart_close : does (apart (J:=J) c) (client_close c).
Proof. intros h. apply apart_close. Qed.

(** Writing frames that are no text. *)
Lemma wp_frame ok f n g Q : gw_conns g !! c = Some n -> conn_ok c n (gw_hub g) ->
  match f with FText _ => False | _ => True end ->
  (forall g' b n', gw_hub g' = gw_hub g -> gw_conns g' !! c = Some n' -> conn_ok c n' (gw_hub g) ->
    cn_reader n' = cn_reader n -> cn_pinger n' = cn_pinger n -> Q b g') -> wp (write_frame c ok f) g Q.
Proof.
  intros Hn Hok Hf HQ. apply (wp_write_frame c ok f n); [done|]. intros g' b Eg Hn' _.
  apply (HQ g' b _ Eg Hn'); [|by destruct b..]. destruct b; [|done].
  apply (conn_ok_same n); try done. cbn. rewrite texts_app. destruct f; try done; cbn; by rewrite app_nil_r.
Qed.

Lemma wp_error_and_close ok ok' code m n g Q : gw_conns g !! c = Some n -> conn_ok c n (gw_hub g) ->
  (forall g' n', gw_hub g' = gw_hub g -> gw_conns g' !! c = Some n' -> conn_ok c n' (gw_hub g) ->
    cn_reader n' = cn_reader n -> cn_pinger n' = cn_pinger n -> Q tt g') ->
  wp (Handler_sendErrorAndClose c ok ok' code m) g Q.
Proof.
  intros Hn Hok HQ. unfold Handler_sendErrorAndClose. rewrite wp_bind. apply (wp_frame ok _ n); [done|done|done|].
  intros g1 b1 n1 E1 Hn1 Hok1 R1 P1. rewrite wp_bind. rewrite <- E1 in Hok1.
  apply (wp_frame ok' _ n1); [done|done|done|]. intros g2 b2 n2 E2 Hn2 Hok2 R2 P2. rewrite wp_ret.
  apply (HQ g2 n2); [congruence|done|by rewrite <- E1|congruence|congruence].
Qed.

(** The read loop's processing of the hello keeps what was queued. *)
Definition reads_on (r : reader) g : Prop :=
  exists n, gw_conns g !! c = Some n /\ conn_ok c (set_cn_reader r n) (gw_hub g).

Lemma wp_late_hub {A} (m : M (Hub J) A) (k : A -> M (Gateway J) reader) n g :
  gw_conns g !! c = Some n -> late c (gw_hub g) (cn_writer n) (texts (cn_frames n)) -> does (touches c) m ->
  (forall a g', gw_conns g' !! c = Some n -> late c (gw_hub g') (cn_writer n) (texts (cn_frames n)) ->
    wp (k a) g' reads_on) ->
  wp (bind (on_hub m) k) g reads_on.
Proof.
  intros Hn Hl Ht Hk. rewrite wp_bind. apply (wp_on_hub (touches c)); [done|]. intros a h' Hh.
  apply Hk; [done|]. by apply (late_touches c (gw_hub g)).
Qed.

Lemma wp_late_ret r n g : gw_conns g !! c = Some n -> late c (gw_hub g) (cn_writer n) (texts (cn_frames n)) ->
  after_welcome r -> wp (ret r) g reads_on.
Proof. intros Hn Hl Hr. rewrite wp_ret. exists n. split; [done|]. right. by destruct n. Qed.

Hint Resolve touches_close touches_markSlow touches_push touches_sendDirect touches_send touches_journal : touches.
Hint Resolve touches_anyone_subscribe touches_anyone_unsubscribe touches_anyone_buffer touches_anyone_start touches_anyone_get : touches.

Lemma wp_reader_late ok ok' n g : gw_conns g !! c = Some n -> after_welcome (cn_reader n) ->
  cn_reader n <> RClosing -> late c (gw_hub g) (cn_writer n) (texts (cn_frames n)) ->
  wp (reader_next c ok ok' n) g reads_on.
Proof.
  intros Hn Hr Hc Hl. unfold reader_next.
  destruct (cn_reader n) as [|m|cs|cs|todo cs|todo rs|evs todo rs|buf rs|rs| | |] eqn:Er; try done.
  - eapply wp_late_hub; eauto with touches. intros. by eapply wp_late_ret.
  - destruct todo; [by eapply wp_late_ret|]. eapply wp_late_hub; eauto with touches. intros. by eapply wp_late_ret.
  - destruct todo as [|cur todo].
    + eapply wp_late_hub; eauto with touches. intros. by eapply wp_late_ret.
    + unfold reader_cursor. rewrite wp_bind, wp_gets. eapply wp_late_hub; eauto with touches.
      intros [x|e] g' Hn' Hl'; [destruct (cr_ResyncRequired x); [|by eapply wp_late_ret]|];
        (eapply wp_late_hub; eauto with touches; intros; by eapply wp_late_ret).
  - destruct evs; [by eapply wp_late_ret|]. eapply wp_late_hub; eauto with touches. intros. by eapply wp_late_ret.
  - destruct buf as [|env buf]; [eapply wp_late_hub; eauto with touches; intros; by eapply wp_late_ret|].
    eapply wp_late_hub; eauto with touches. intros [] g' Hn' Hl'; try by eapply wp_late_ret.
    eapply wp_late_hub; eauto with touches. intros. by eapply wp_late_ret.
  - destruct rs; [by eapply wp_late_ret|]. eapply wp_late_hub; eauto with touches. intros. by eapply wp_late_ret.
  - by eapply wp_late_ret.
  - by eapply wp_late_ret.
Qed.

Lemma wp_reader_next ok ok' n g : gw_conns g !! c = Some n -> conn_ok c n (gw_hub g) ->
  wp (reader_next c ok ok' n) g reads_on.
Proof.
  intros Hn Hok.
  assert (Hkeep : cn_reader n <> RClosing -> wp (ret (cn_reader n)) g reads_on).
  { intros _. rewrite wp_ret. exists n. split; [done|]. by destruct n. }
  assert (Hc : cn_reader n = RClosing \/ cn_reader n <> RClosing) by (destruct (cn_reader n); auto; by right).
  destruct Hc as [Ec|Hc].
  { unfold reader_next. rewrite Ec. rewrite wp_bind. apply (wp_on_hub eq); [by intros h|]. intros a h' <-.
    rewrite wp_bind. apply (wp_frame ok _ n); [done|done|done|]. intros g1 b n1 E1 Hn1 Hok1 R1 _.
    rewrite wp_bind. unfold upd_conn at 1. rewrite wp_modify, wp_bind.
    apply (wp_on_hub (apart c)); [apply does_apart_close|]. intros _ h2 Ha. rewrite wp_ret.
    exists (set_cn_open false n1). split; [cbn; by rewrite lookup_alter_eq, Hn1|].
    cbn [gw_hub set_gw_hub set_gw_conns] in Ha |- *. rewrite E1 in Ha. apply (conn_ok_apart c _ _ _ Ha).
    apply (conn_ok_same n1); try done; rewrite R1, Ec; done. }
  destruct Hok as [[Hr He]|[Hr Hl]]; [|by apply wp_reader_late].
  unfold reader_next. destruct (cn_reader n) as [|m|cs| | | | | | | | |] eqn:Er; try done; try by apply Hkeep.
  - rewrite wp_bind. apply (wp_error_and_close _ _ _ _ n); [done|left; by rewrite Er|].
    intros g1 n1 E1 Hn1 Hok1 R1 _. rewrite wp_ret. exists n1. split; [done|]. rewrite E1.
    apply (conn_ok_same n1); try done; rewrite R1, Er; done.
  - rewrite wp_bind. apply wp_on_identity. intros now x. rewrite wp_bind.
    apply (wp_write_frame c ok _ n); [done|]. intros g1 b E1 Hn1 _. rewrite wp_ret. eexists. split; [exact Hn1|].
    rewrite E1. destruct b; [|by left]. right. split; [done|]. cbn. rewrite texts_app.
    destruct He as (-> & Hu & Hw & cl & Hcl & Ht & Hs). exists cl, now, 0%nat. split_and!; [done|done|done|].
    destruct Ht as [Ht _]. rewrite Hs in Ht. cbn in Ht. destruct (cn_writer n); [lia|done|lia].
Qed.

Lemma wp_reader_step ok ok' n g : gw_conns g !! c = Some n -> conn_ok c n (gw_hub g) ->
  wp (reader_step c ok ok') g (fun _ => sound).
Proof.
  intros Hn Hok. unfold reader_step. rewrite wp_bind, wp_get, Hn, wp_bind.
  eapply wp_mono; [by apply wp_reader_next|]. cbn. intros r g' (n' & Hn' & Hok'). by apply (wp_upd_conn _ n').
Qed.

Lemma wp_reader_reads data n g : gw_conns g !! c = Some n -> conn_ok c n (gw_hub g) ->
  wp (reader_reads c data) g (fun _ => sound).
Proof.
  intros Hn Hok. unfold reader_reads. rewrite wp_bind, wp_get, Hn.
  assert (Hret : wp (ret tt) g (fun _ => sound)) by (rewrite wp_ret; by apply (sound_some n)).
  assert (Hset : forall r, (before_welcome (cn_reader n) -> before_welcome r) ->
    (after_welcome (cn_reader n) -> after_welcome r) -> wp (upd_conn c (set_cn_reader r)) g (fun _ => sound)).
  { intros r Hb Ha. apply (wp_upd_conn _ n); [done|]. by apply (conn_ok_same n). }
  destruct (cn_reader n) eqn:Er; destruct (read_message n data) as [d|]; try apply Hret; try (by apply Hset).
  destruct (decodeHello (unmarshal_Hello d)); by apply Hset.
Qed.

Lemma wp_writer_step ok n g : gw_conns g !! c = Some n -> conn_ok c n (gw_hub g) ->
  wp (writer_step c ok) g (fun _ => sound).
Proof.
  intros Hn Hok. unfold writer_step. rewrite wp_bind, wp_get, Hn.
  assert (Hret : wp (ret tt) g (fun _ => sound)) by (rewrite wp_ret; by apply (sound_some n)).
  destruct (h_clients (gw_hub g) !! c) as [cl|] eqn:Hcl; [|exact Hret].
  destruct (cn_writer n) as [|env|] eqn:Ew; [| |exact Hret].
  - destruct (c_sent cl !! c_taken cl) as [env|] eqn:Es; [|exact Hret].
    destruct Hok as [[_ (_ & _ & _ & cl' & Hcl' & _ & Hs)]|[Hr Hl]].
    { rewrite Hcl in Hcl'. injection Hcl' as <-. by rewrite Hs in Es. }
    rewrite wp_bind. unfold on_hub, upd_client. rewrite wp_zoom, wp_modify. apply (wp_upd_conn _ n); [done|].
    right. split; [done|]. destruct Hl as (cl' & now & k & Hcl' & [Ht Hp] & E & Hk). rewrite Hcl in Hcl'. injection Hcl' as <-.
    rewrite Ew in Hk. subst k. eexists _, now, (c_taken cl). cbn. rewrite lookup_alter_eq, Hcl. split; [done|].
    split; [|by split_and!]. split; [|done]. cbn. by apply lookup_lt_Some in Es.
  - destruct Hok as [[_ (_ & _ & Hw & _)]|[Hr Hl]]; [by rewrite Ew in Hw|].
    destruct Hl as (cl' & now & k & Hcl' & Ht & E & Hk). rewrite Hcl in Hcl'. injection Hcl' as <-. rewrite Ew in Hk.
    destruct Hk as [Hk Hl]. rewrite wp_bind. apply (wp_write_frame c ok _ n); [done|]. intros g1 b Eg Hn1 _. destruct b.
    + apply (wp_upd_conn _ _ _ Hn1). right. split; [done|]. rewrite Eg. exists cl, now, (c_taken cl). split_and!; [done|done| |done].
      cbn. rewrite texts_app, E, <- Hk. cbn. by rewrite (take_S_r _ _ env).
    + rewrite wp_bind. apply (wp_on_hub (touches c)); [apply touches_close|]. intros _ h' Hh. rewrite Eg in Hh.
      apply (wp_upd_conn _ n); [exact Hn1|]. right. split; [done|]. apply (late_touches c (gw_hub g)); [exact Hh|].
      exists cl, now, k. split_and!; [done|done|done|]. cbn. lia.
Qed.

Lemma wp_writer_stops n g : gw_conns g !! c = Some n -> conn_ok c n (gw_hub g) ->
  wp (writer_stops c) g (fun _ => sound).
Proof.
  intros Hn Hok. unfold writer_stops. rewrite wp_bind, wp_get. case_match; [|rewrite wp_ret; by apply (sound_some n)].
  apply (wp_upd_conn _ n); [done|]. destruct (cn_writer n) eqn:Ew; try done.
  destruct Hok as [[Hr (E & Hu & _ & Hc)]|[Hr (cl & now & k & Hcl & Ht & E & Hk)]]; [by left|right].
  split; [done|]. rewrite Ew in Hk. exists cl, now, k. split_and!; try done. cbn. lia.
Qed.

Lemma wp_pinger_ticks ok n g : gw_conns g !! c = Some n -> conn_ok c n (gw_hub g) ->
  wp (pinger_ticks c ok) g (fun _ => sound).
Proof.
  intros Hn Hok. unfold pinger_ticks. rewrite wp_bind, wp_get, Hn.
  destruct (cn_pinger n); try (rewrite wp_ret; by apply (sound_some n)).
  rewrite wp_bind. apply wp_on_identity. intros [d|e] x.
  - rewrite wp_bind. apply (wp_frame ok _ n); [done|done|done|]. intros g1 b n1 E1 Hn1 Hok1 _ _.
    cbn [gw_hub set_gw_identity] in *. rewrite <- E1 in Hok1. destruct b; [rewrite wp_ret; by apply (sound_some n1)|].
    rewrite wp_bind. apply (wp_on_hub (apart c)); [apply does_apart_close|]. intros _ h' Ha.
    apply (wp_upd_conn _ n1); [done|]. apply (conn_ok_apart c _ _ _ Ha). by apply (conn_ok_same n1).
  - apply (wp_upd_conn _ n); [done|]. by apply (conn_ok_same n).
Qed.

Lemma wp_pinger_refuses ok ok' n g : gw_conns g !! c = Some n -> conn_ok c n (gw_hub g) ->
  wp (pinger_refuses c ok ok') g (fun _ => sound).
Proof.
  intros Hn Hok. unfold pinger_refuses. rewrite wp_bind, wp_get, Hn.
  destruct (cn_pinger n); try (rewrite wp_ret; by apply (sound_some n)).
  rewrite wp_bind. apply (wp_error_and_close _ _ _ _ n); [done|done|]. intros g1 n1 E1 Hn1 Hok1 _ _.
  rewrite <- E1 in Hok1. rewrite wp_bind. apply (wp_on_hub (apart c)); [apply does_apart_close|]. intros _ h' Ha.
  apply (wp_upd_conn _ n1); [done|]. apply (conn_ok_apart c _ _ _ Ha). by apply (conn_ok_same n1).
Qed.

Lemma wp_small_step (f : Conn -> Conn) n g : gw_conns g !! c = Some n -> conn_ok c n (gw_hub g) ->
  (cn_writer (f n) = cn_writer n /\ cn_frames (f n) = cn_frames n /\ cn_reader (f n) = cn_reader n) ->
  wp (upd_conn c f) g (fun _ => sound).
Proof.
  intros Hn Hok (Ew & Ef & Er). apply (wp_upd_conn _ n); [done|]. apply (conn_ok_same n); try done; by rewrite ?Ef, ?Er.
Qed.

Lemma wp_connect r upgrades choices g : sound g ->
  wp (gw_run_step (GConnect c r upgrades choices)) g (fun _ => sound).
Proof.
  intros Hs. cbn [gw_run_step]. rewrite wp_bind, wp_get. destruct (gw_conns g !! c) as [n|] eqn:Hn; [by rewrite wp_ret|].
  unfold sound in Hs. rewrite Hn in Hs. unfold Handler_ServeHTTP. wp_simp. apply wp_on_identity.
  assert (Hkeep : forall x, sound (set_gw_identity x g)) by (intros x; unfold sound; cbn; by rewrite Hn).
  intros [d|e] x; [|by rewrite !wp_ret]. destruct upgrades; [|by rewrite !wp_ret].
  unfold on_hub. wp_simp. apply (sound_some (mkConn (ws_token r) true RHello WIdle PWaiting [])).
  - cbn. by rewrite lookup_insert_eq.
  - left. split; [done|]. split_and!; [done|exact Hs|done|]. eexists. cbn. rewrite lookup_insert_eq. split; [done|].
    split; [|done]. split; [done|]. cbn. apply Forall_fmap, Forall_forall. by intros.
Qed.

Lemma own_step s g : subject s = Some c -> sound g -> sound (gw_run_step s g).2.
Proof.
  intros Hs Hg. change (wp (gw_run_step s) g (fun _ => sound)).
  assert (Hnone : gw_conns g !! c = None -> wp (ret tt) g (fun _ => sound)) by (intros; by rewrite wp_ret).
  destruct (gw_conns g !! c) as [n|] eqn:Hn.
  - pose proof Hg as Hok. unfold sound in Hok. rewrite Hn in Hok.
    destruct s; cbn in Hs; try done; injection Hs as ->; cbn [gw_run_step].
    + by apply wp_connect.
    + by apply (wp_reader_reads _ n).
    + by apply (wp_reader_step _ _ n).
    + by apply (wp_writer_step _ n).
    + by apply (wp_writer_stops n).
    + by apply (wp_pinger_ticks _ n).
    + by apply (wp_pinger_refuses _ _ n).
    + unfold pinger_stops. rewrite wp_bind, wp_get. apply (wp_small_step _ n); [done|done|].
      by destruct (cn_pinger n) eqn:?, (cn_reader n) eqn:?, (is_closed c g).
    + unfold closer_step. rewrite wp_bind, wp_get. case_match; [by apply (wp_small_step _ n)|by rewrite wp_ret].
  - assert (Hupd : forall f, wp (upd_conn c f) g (fun _ => sound)).
    { intros f. unfold upd_conn. rewrite wp_modify. unfold sound in *. cbn. rewrite lookup_alter_eq, Hn in *. exact Hg. }
    destruct s; cbn in Hs; try done; injection Hs as ->; cbn [gw_run_step]; [by apply wp_connect|..];
      unfold reader_reads, reader_step, writer_step, writer_stops, pinger_ticks, pinger_refuses, pinger_stops, closer_step;
      rewrite wp_bind, wp_get; rewrite ?Hn;
      first [apply Hupd | by apply Hnone | case_match; [apply Hupd|by apply Hnone]].
Qed.

(** Every step keeps the invariant. *)
Lemma sound_step s g : sound g -> sound (gw_run_step s g).2.
Proof.
  intros Hg. destruct (decide (subject s = Some c)) as [Hs|Hs]; [by apply own_step|].
  destruct (others_step c s Hs g) as [E Ha]. unfold sound in *. rewrite E.
  destruct (gw_conns g !! c) as [n|]; [by apply (conn_ok_apart c n (gw_hub g))|by apply Ha].
Qed.
End Self.

Lemma gw_run_inv {J} `{EventJournal J} (I : Gateway J -> Prop) l g :
  (forall s g, I g -> I (gw_run_step s g).2) -> I g -> I (gw_run l g).2.
Proof.
  intros Hstep. revert g. induction l as [|s l IH]; intros g Hg; cbn; [done|].
  unfold gw_run in *. cbn [for_each]. unfold bind. specialize (Hstep s g Hg). destruct (gw_run_step s g). by apply IH.
Qed.

Lemma sound_run {J} `{EventJournal J} c l g : sound c g -> sound c (gw_run l g).2.
Proof. apply gw_run_inv. intros. by apply sound_step. Qed.
Lemma sound_start {J} `{EventJournal J} c (j : J) x : sound c (NewHandler j x).
Proof. unfold sound. cbn. rewrite lookup_empty. intros sid. cbn. by rewrite lookup_empty. Qed.

(** Goroutines in a call of [WriteMessage]. *)
Definition reader_writes (n : Conn) : Prop := match cn_reader n with RRefuse _ | RWelcome _ => True | _ => False end.
Definition writer_writes (n : Conn) : Prop := match cn_writer n with WWriting _ => True | _ => False end.

