(* ===== verification/WsCut.v ===== *)
(** * How a WebSocket connection ends, and its read loop on its own

    The heartbeat cuts off a device that was revoked; run by itself, the read
    loop is the replay of [Ws].  At the end a connection in detail: two writers
    at once, a slow client that is never told why. *)

From S2P Require Import Prelude Env Json GoStrings JsonText Domain Schema SessionRepo Journal Identity Ws Http WsHandler WsSocket.

(** ** Cutting a connection off *)

Section Cut.
Context {J : Type} `{EventJournal J} (strict : bool) (c : nat).
Implicit Types g : Gateway J.

(** What every step keeps of a connection: its token, and once its socket is
    closed, that and its frames; and most steps keep a refusal. *)
Definition conn_after (n n' : Conn) : Prop :=
  cn_token n' = cn_token n /\ (cn_open n = false -> cn_open n' = false /\ cn_frames n' = cn_frames n) /\
  (strict = true -> cn_pinger n = PRefusing -> cn_pinger n' = PRefusing).
Definition client_stays (h h' : Hub J) : Prop := forall cl, h_clients h !! c = Some cl -> tame cl ->
  exists cl', h_clients h' !! c = Some cl' /\ tame cl' /\ (c_closed cl = true -> c_closed cl' = true).
Definition keeps_conn g g' : Prop := forall n, gw_conns g !! c = Some n ->
  client_stays (gw_hub g) (gw_hub g') /\ exists n', gw_conns g' !! c = Some n' /\ conn_after n n'.

Lemma touches_stays h h' : touches c h h' -> client_stays h h'.
Proof.
  intros Ht cl Hcl Htame. destruct (Ht cl Hcl) as (cl' & Hcl' & He). exists cl'. split; [done|].
  split; [by apply He|]. by apply He.
Qed.
Lemma stays_refl h : client_stays h h.
Proof. intros cl Hcl Ht. by exists cl. Qed.

#[export] Instance conn_after_preorder : PreOrder conn_after.
Proof.
  split; [by intros n|]. intros n1 n2 n3 (T1 & O1 & P1) (T2 & O2 & P2). split; [congruence|].
  split; [|auto]. intros Hc. destruct (O1 Hc) as [H1 F1], (O2 H1) as [H2 F2]. split; congruence.
Qed.
#[export] Instance keeps_conn_preorder : PreOrder keeps_conn.
Proof.
  split; [intros g n Hn; split; [apply stays_refl|by exists n]|]. intros g1 g2 g3 H1 H2 n Hn.
  destruct (H1 n Hn) as (S1 & n2 & Hn2 & A2), (H2 n2 Hn2) as (S2 & n3 & Hn3 & A3). split; [|exists n3; split; [done|by etransitivity]].
  intros cl Hcl Ht. destruct (S1 cl Hcl Ht) as (cl2 & Hcl2 & Ht2 & C2), (S2 cl2 Hcl2 Ht2) as (cl3 & Hcl3 & Ht3 & C3).
  exists cl3. auto.
Qed.

Definition holding {A} (m : M (Gateway J) A) : Prop := forall g, keeps_conn g (m g).2.
Lemma holding_ret {A} (a : A) : holding (ret a).
Proof. intros g. reflexivity. Qed.
Lemma holding_get : holding get.
Proof. intros g. reflexivity. Qed.
Lemma holding_gets {A} (f : Gateway J -> A) : holding (gets f).
Proof. intros g. reflexivity. Qed.
Lemma holding_bind {A B} (m : M (Gateway J) A) (k : A -> M (Gateway J) B) :
  holding m -> (forall a, holding (k a)) -> holding (bind m k).
Proof.
  intros Hm Hk g. unfold bind. specialize (Hm g). destruct (m g) as [a g']. etransitivity; [exact Hm|apply Hk].
Qed.
Lemma holding_hub {A} (m : M (Hub J) A) : does (touches c) m -> holding (on_hub m).
Proof.
  intros Hm g n Hn. unfold on_hub, zoom. specialize (Hm (gw_hub g)). destruct (m (gw_hub g)) as [a h'].
  split; [by apply touches_stays|by exists n].
Qed.
Lemma holding_identity {A} (m : M Service A) : holding (on_identity m).
Proof. intros g n Hn. unfold on_identity, zoom. destruct (m _). split; [apply stays_refl|by exists n]. Qed.
Lemma holding_upd k f : (forall n, conn_after n (f n)) -> holding (upd_conn k f).
Proof.
  intros Hf g n Hn. unfold upd_conn, modify. cbn. split; [apply stays_refl|]. destruct (decide (k = c)) as [->|Hne].
  - rewrite lookup_alter_eq, Hn. by eexists.
  - rewrite lookup_alter_ne by done. by exists n.
Qed.
Lemma holding_reader k r : holding (upd_conn k (set_cn_reader r)).
Proof. by apply holding_upd. Qed.
Lemma holding_writer k w : holding (upd_conn k (set_cn_writer w)).
Proof. by apply holding_upd. Qed.
Lemma holding_pinger k p : strict = false -> holding (upd_conn k (set_cn_pinger p)).
Proof. intros Hs. apply holding_upd. intros n. unfold conn_after. by rewrite Hs. Qed.
Lemma holding_close k : holding (upd_conn k (set_cn_open false)).
Proof. by apply holding_upd. Qed.
Lemma holding_frame k ok f : holding (write_frame k ok f).
Proof.
  intros g n Hn. unfold write_frame, bind, get.
  destruct (ok && _) eqn:E; [|split; [apply stays_refl|by exists n]]. unfold upd_conn, modify. cbn.
  split; [apply stays_refl|].
  destruct (decide (k = c)) as [->|Hne]; [|rewrite lookup_alter_ne by done; by exists n].
  rewrite lookup_alter_eq, Hn in *. eexists. split; [done|]. split; [done|]. split; [|done]. intros Hc.
  apply andb_true_iff in E as [_ E]. congruence.
Qed.
End Cut.

Create HintDb holding.
#[export] Hint Resolve holding_ret holding_get holding_gets holding_bind holding_hub holding_identity holding_reader
  holding_writer holding_pinger holding_close holding_frame : holding.
#[export] Hint Resolve touches_close touches_markSlow touches_push touches_sendDirect touches_send touches_Publish
  touches_journal touches_anyone_subscribe touches_anyone_unsubscribe touches_anyone_buffer touches_anyone_start
  touches_anyone_get : holding.
#[export] Hint Extern 2 (holding _ _ (match ?x with _ => _ end)) => destruct x : holding.

Section CutSteps.
Context {J : Type} `{EventJournal J} (c : nat).
Implicit Types g : Gateway J.

Lemma holding_connect strict k r upgrades choices : holding strict c (gw_run_step (GConnect k r upgrades choices)).
Proof.
  intros g. cbn [gw_run_step]. unfold bind at 1, get. destruct (gw_conns g !! k) as [n0|] eqn:E; [reflexivity|].
  intros n Hn. assert (Hne : k <> c) by congruence.
  destruct (others_connect (J:=J) c k Hne r upgrades choices g) as [Ec Ha].
  cbn [gw_run_step] in Ec, Ha. unfold bind at 1, get in Ec. unfold bind at 1, get in Ha. rewrite E in Ec, Ha. rewrite Ec.
  split; [by apply touches_stays, Ha|by exists n].
Qed.

(** The writer takes what is there. *)
Lemma holding_writer_step strict k ok : holding (J:=J) strict c (writer_step k ok).
Proof.
  intros g. unfold writer_step, bind at 1, get. destruct (gw_conns g !! k) as [n|]; [|reflexivity].
  destruct (h_clients (gw_hub g) !! k) as [cl|] eqn:Hcl; [|reflexivity].
  destruct (cn_writer n) as [|env|]; [| |reflexivity].
  - destruct (c_sent cl !! c_taken cl) as [env|] eqn:Es; [|reflexivity].
    unfold bind at 1. etransitivity; [|apply holding_writer].
    intros n' Hn'. split; [|by exists n']. intros cl' Hcl' [Ht Hp]. unfold on_hub, zoom, upd_client, modify. cbn.
    destruct (decide (k = c)) as [->|Hne]; [|rewrite lookup_alter_ne by done; by exists cl'].
    rewrite Hcl in Hcl'. injection Hcl' as <-. rewrite lookup_alter_eq, Hcl. eexists. split; [done|]. split; [|done].
    split; [|done]. cbn. by apply lookup_lt_Some in Es.
  - apply (holding_bind (J:=J) strict c); auto 8 with holding.
Qed.

(** The heartbeat's own steps apart, a refusal is kept as well. *)
Lemma holding_other strict (s : gw_step J) :
  match s with GTick _ _ | GRefuse _ _ _ => strict = false | _ => True end -> holding strict c (gw_run_step s).
Proof.
  intros Hs. destruct s; cbn [gw_run_step]; try (by auto with holding).
  - apply holding_connect.
  - unfold reader_reads. auto 8 with holding.
  - unfold reader_step, reader_next, Handler_sendErrorAndClose, reader_cursor. apply holding_bind; [apply holding_get|].
    intros g. destruct (gw_conns g !! c0) as [n|]; [|auto with holding]. apply holding_bind; [|auto with holding].
    destruct (cn_reader n); auto 12 with holding.
  - apply holding_writer_step.
  - unfold writer_stops. apply holding_bind; [apply holding_get|]. intros g. destruct (is_closed c0 g); [|auto with holding].
    apply holding_upd. intros n. by destruct (cn_writer n).
  - unfold pinger_ticks. auto 12 with holding.
  - unfold pinger_refuses, Handler_sendErrorAndClose. auto 12 with holding.
  - unfold pinger_stops. apply holding_bind; [apply holding_get|]. intros g. apply holding_upd. intros n.
    unfold conn_after. destruct (cn_pinger n) eqn:E, (cn_reader n), (is_closed c0 g); cbn; (split_and!; [done|done|congruence]).
  - unfold closer_step. auto with holding.
  - unfold publish_step. auto with holding.
Qed.
End CutSteps.

(** ** Refusal *)

Section Refusal.
Context {J : Type} `{EventJournal J} (c : nat).
Implicit Types g : Gateway J.

(** The heartbeat is about to end the connection, or its client is closed. *)
Definition going g : Prop := exists n cl, gw_conns g !! c = Some n /\ h_clients (gw_hub g) !! c = Some cl /\ tame cl /\
  (cn_pinger n = PRefusing \/ c_closed cl = true).
Definition gone g : Prop := exists n cl, gw_conns g !! c = Some n /\ h_clients (gw_hub g) !! c = Some cl /\ tame cl /\
  c_closed cl = true.

Lemma gone_going g : gone g -> going g.
Proof. intros (n & cl & Hn & Hcl & Ht & Hc). exists n, cl. auto. Qed.

Lemma gone_step s g : gone g -> gone (gw_run_step s g).2.
Proof.
  intros (n & cl & Hn & Hcl & Ht & Hc).
  assert (Hk : holding false c (gw_run_step s)) by (apply holding_other; by destruct s).
  destruct (Hk g n Hn) as (Hs & n' & Hn' & _). destruct (Hs cl Hcl Ht) as (cl' & Hcl' & Ht' & Hc').
  exists n', cl'. auto.
Qed.

Lemma close_closes (h : Hub J) cl : h_clients h !! c = Some cl ->
  exists cl', h_clients (client_close c h).2 !! c = Some cl' /\ c_closed cl' = true /\ (tame cl -> tame cl').
Proof.
  intros Hcl. destruct (touches_close c c h cl Hcl) as (cl' & Hcl' & He). exists cl'. split; [done|].
  split; [|intros; by apply He]. revert Hcl'. unfold client_close, bind, get. rewrite Hcl.
  destruct (c_closed cl) eqn:Hc; unfold Hub_unsubscribe, upd_client, modify, ret; cbn; [congruence|].
  rewrite lookup_alter_eq, Hcl. by intros [= <-].
Qed.

Lemma refuse_gone ok ok' g : going g -> gone (gw_run_step (GRefuse c ok ok') g).2.
Proof.
  intros (n & cl & Hn & Hcl & Ht & [Hp|Hc]); [|apply gone_step; by exists n, cl].
  change (wp (pinger_refuses c ok ok') g (fun _ => gone)). unfold pinger_refuses. rewrite wp_bind, wp_get, Hn, Hp, wp_bind.
  unfold Handler_sendErrorAndClose. rewrite wp_bind. apply (wp_write_frame c ok _ n); [done|]. intros g1 b1 E1 Hn1 _.
  rewrite wp_bind. eapply wp_write_frame; [exact Hn1|]. intros g2 b2 E2 Hn2 _. rewrite wp_ret.
  rewrite wp_bind. unfold on_hub. rewrite wp_zoom. unfold wp at 1.
  rewrite <- E1, <- E2 in Hcl. destruct (close_closes _ cl Hcl) as (cl' & Hcl' & Hc' & Ht').
  destruct (client_close c (gw_hub g2)) as [a h']. cbn in Hcl'. unfold upd_conn. rewrite wp_modify.
  eexists _, cl'. cbn. rewrite lookup_alter_eq, Hn2. split_and!; [done|done|auto|done].
Qed.

Lemma going_step s g : going g -> going (gw_run_step s g).2.
Proof.
  intros Hg. pose proof Hg as (n & cl & Hn & Hcl & Ht & Hpc).
  assert (Hkeep : holding true c (gw_run_step s) -> going (gw_run_step s g).2).
  { intros Hk. destruct (Hk g n Hn) as (Hs & n' & Hn' & _ & _ & Hp). destruct (Hs cl Hcl Ht) as (cl' & Hcl' & Ht' & Hc').
    exists n', cl'. split_and!; [done|done|done|]. destruct Hpc; auto. }
  assert (Hother : subject s <> Some c -> going (gw_run_step s g).2).
  { intros Hs. destruct (others_step c s Hs g) as [E [Hto _]]. destruct (touches_stays c _ _ Hto cl Hcl Ht) as (cl' & Hcl' & Ht' & Hc').
    exists n, cl'. rewrite E. split_and!; [done|done|done|]. destruct Hpc; auto. }
  destruct s as [| | | | |k ok|k ok ok'| | | | |]; try (apply Hkeep; by apply holding_other).
  - destruct (decide (k = c)) as [->|Hne]; [|apply Hother; cbn; congruence]. destruct Hpc as [Hp|Hc].
    + cbn [gw_run_step]. unfold pinger_ticks, bind at 1, get. by rewrite Hn, Hp.
    + apply gone_going, gone_step. by exists n, cl.
  - destruct (decide (k = c)) as [->|Hne]; [|apply Hother; cbn; congruence]. by apply gone_going, refuse_gone.
Qed.

Lemma tick_going ok n e g : gw_conns g !! c = Some n -> conn_ok c n (gw_hub g) -> cn_pinger n = PWaiting ->
  (Service_AuthorizeWS (cn_token n) (gw_identity g)).1 = Err e -> going (gw_run_step (GTick c ok) g).2.
Proof.
  intros Hn Hok Hp He. change (wp (pinger_ticks c ok) g (fun _ => going)). unfold pinger_ticks.
  rewrite wp_bind, wp_get, Hn, Hp, wp_bind. unfold on_identity. rewrite wp_zoom. unfold wp at 1.
  destruct (Service_AuthorizeWS _ _) as [r x]. cbn in He. subst r.
  cbn [fst snd]. unfold upd_conn. rewrite wp_modify.
  assert (Hc : exists cl, h_clients (gw_hub g) !! c = Some cl /\ tame cl).
  { destruct Hok as [[_ (_ & _ & _ & cl & ? & ? & _)]|[_ (cl & _ & _ & ? & ? & _)]]; by exists cl. }
  destruct Hc as (cl & Hcl & Ht). eexists _, cl. cbn. rewrite lookup_alter_eq, Hn. split_and!; [done|done|done|by left].
Qed.

Lemma closer_shuts g : gone g -> exists n, gw_conns (gw_run_step (GCloser c) g).2 !! c = Some n /\ cn_open n = false.
Proof.
  intros (n & cl & Hn & Hcl & _ & Hc). cbn [gw_run_step]. unfold closer_step, bind at 1, get, is_closed. rewrite Hcl, Hc.
  unfold upd_conn, modify. cbn. rewrite lookup_alter_eq, Hn. by eexists.
Qed.

(** Nothing is written to a closed socket. *)
Lemma shut_frames l g n : gw_conns g !! c = Some n -> cn_open n = false ->
  exists n', gw_conns (gw_run l g).2 !! c = Some n' /\ cn_frames n' = cn_frames n.
Proof.
  intros Hn Ho. enough (Hk : keeps_conn false c g (gw_run l g).2).
  { destruct (Hk n Hn) as (_ & n' & Hn' & _ & Hc & _). exists n'. split; [done|by apply Hc]. }
  clear n Hn Ho. revert g. induction l as [|s l IH]; intros g; [reflexivity|].
  unfold gw_run in *. cbn [for_each]. unfold bind at 1.
  assert (Hk : holding false c (gw_run_step s)) by (apply holding_other; by destruct s).
  specialize (Hk g). destruct (gw_run_step s g) as [a g']. etransitivity; [exact Hk|apply IH].
Qed.
End Refusal.

(** *** Revocation *)

Section Revocation.
Context {J : Type} `{EventJournal J} (id : string).

Definition revoked_in (g : Gateway J) : Prop := revoked id (st_db (id_store (gw_identity g))).

Lemma pres_hub {A} (m : M (Hub J) A) : preserves revoked_in (on_hub m).
Proof. intros g Hg. unfold on_hub, zoom. by destruct (m _). Qed.
Lemma pres_upd c f : preserves revoked_in (upd_conn c f).
Proof. by intros g Hg. Qed.
Lemma pres_identity {A} (m : M Service A) :
  (forall x, devices_after (st_db (id_store x)) (st_db (id_store (m x).2))) -> preserves revoked_in (on_identity m).
Proof.
  intros Hm g Hg. unfold on_identity, zoom, revoked_in in *. specialize (Hm (gw_identity g)). destruct (m _).
  by apply (revoked_after id _ _ Hg).
Qed.
Lemma pres_authorize t : preserves revoked_in (on_identity (Service_AuthorizeWS t)).
Proof.
  apply pres_identity. intros x. pose proof (wp_AuthorizeToken t x) as Hw. unfold wp in Hw. unfold Service_AuthorizeWS.
  destruct (Service_AuthorizeToken t x). destruct Hw as [-> _]. reflexivity.
Qed.
Lemma pres_clock : preserves revoked_in (on_identity (in_store (on_env time_Now))).
Proof. apply pres_identity. intros x. reflexivity. Qed.
Lemma pres_op op : preserves revoked_in (on_identity (run_identity_op op [])).
Proof.
  apply pres_identity. intros x. pose proof (wp_identity_op op [] x) as Hw. unfold wp in Hw.
  destruct (run_identity_op op [] x). apply Hw.
Qed.
Hint Resolve pres_hub pres_upd pres_authorize pres_clock pres_op : preserves.
Lemma pres_frame c ok f : preserves revoked_in (write_frame c ok f).
Proof. unfold write_frame. apply preserves_bind; [apply preserves_get|]. intros g. case_match; auto with preserves. Qed.
Hint Resolve pres_frame : preserves.

Lemma revoked_step s g : revoked_in g -> revoked_in (gw_run_step s g).2.
Proof.
  enough (Hp : preserves revoked_in (gw_run_step s)) by apply Hp.
  destruct s; cbn [gw_run_step]; try (by auto 8 with preserves).
  - apply preserves_bind; [apply preserves_get|]. intros g0. destruct (gw_conns g0 !! c); [auto with preserves|].
    apply preserves_bind; [|auto with preserves]. unfold Handler_ServeHTTP. apply preserves_bind; [apply pres_authorize|].
    intros [d|e]; [|auto with preserves]. destruct upgrades; auto 6 with preserves.
  - unfold reader_reads. auto 8 with preserves.
  - unfold reader_step, reader_next, Handler_sendErrorAndClose, reader_cursor. apply preserves_bind; [apply preserves_get|].
    intros g0. destruct (gw_conns g0 !! c) as [n|]; [|auto with preserves]. apply preserves_bind; [|auto with preserves].
    destruct (cn_reader n); auto 12 with preserves.
  - unfold writer_step. auto 12 with preserves.
  - unfold writer_stops. auto with preserves.
  - unfold pinger_ticks. auto 12 with preserves.
  - unfold pinger_refuses, Handler_sendErrorAndClose. auto 12 with preserves.
  - unfold closer_step. auto with preserves.
  - unfold publish_step. auto with preserves.
Qed.

(** A revoked device's token is refused. *)
Lemma revoked_refused token x : revoked id (st_db (id_store x)) ->
  (forall t, access_tokens (st_db (id_store x)) !! token = Some t -> tr_device_id t = id) ->
  exists e, (Service_AuthorizeWS token x).1 = Err e.
Proof.
  intros (r & Hr & Hs) Ht. pose proof (wp_AuthorizeToken token x) as Hw. unfold wp in Hw. unfold Service_AuthorizeWS.
  destruct (Service_AuthorizeToken token x) as [[dev|e] x']; [|by exists e]. destruct Hw as (_ & Ha & _).
  destruct (Ha dev eq_refl) as (t & r' & Htok & <- & _ & Hr' & Hn). rewrite (Ht t Htok), Hr in Hr'.
  injection Hr' as <-. done.
Qed.
End Revocation.

Lemma gw_run_app {J} `{EventJournal J} l1 l2 g : (gw_run (l1 ++ l2) g).2 = (gw_run l2 (gw_run l1 g).2).2.
Proof.
  unfold gw_run. revert g. induction l1 as [|s l1 IH]; intros g; [done|]. cbn [app for_each]. unfold bind.
  destruct (gw_run_step s g). apply IH.
Qed.
Lemma gw_run_cons {J} `{EventJournal J} s l g : (gw_run (s :: l) g).2 = (gw_run l (gw_run_step s g).2).2.
Proof. unfold gw_run. cbn [for_each]. unfold bind. by destruct (gw_run_step s g). Qed.

(** C23: A revoked device is cut off.  Once a device has been revoked, a heartbeat on
    a connection whose token is that device's (or is gone) ends it: in every
    schedule, after the heartbeat's next step and the closing goroutine's, the
    socket is closed and no frame is ever written to it again. *)
Theorem revoked_socket_ends {J} `{EventJournal J} (j : J) x id c l0 l1 l2 l3 ok ok1 ok1' n :
  let g0 := (gw_run l0 (NewHandler j x)).2 in
  (Service_RevokeDevice id (gw_identity g0)).1 = Ok tt ->
  let g := (gw_run (GIdentity (IRevokeDevice id) :: l1) g0).2 in
  gw_conns g !! c = Some n -> cn_pinger n = PWaiting ->
  (forall t, access_tokens (st_db (id_store (gw_identity g))) !! cn_token n = Some t -> tr_device_id t = id) ->
  let g' := (gw_run (GTick c ok :: l2 ++ GRefuse c ok1 ok1' :: l3 ++ [GCloser c]) g).2 in
  exists n', gw_conns g' !! c = Some n' /\ cn_open n' = false /\
    forall l, exists n'', gw_conns (gw_run l g').2 !! c = Some n'' /\ cn_frames n'' = cn_frames n'.
Proof.
  intros g0 Hrev g Hn Hp Ht g'.
  assert (Hg : revoked_in id g).
  { unfold g. rewrite gw_run_cons. apply gw_run_inv; [intros; by apply revoked_step|].
    change (wp (gw_run_step (GIdentity (IRevokeDevice id))) g0 (fun _ => revoked_in id)). cbn [gw_run_step run_identity_op].
    unfold on_identity. wp_simp. eapply wp_mono; [apply wp_intro; intros r s' E; exact (conj E (wp_elim _ _ _ _ _ (wp_RevokeDevice id _) E))|].
    cbn. intros r s' [E Hr]. apply Hr. by rewrite E in Hrev. }
  destruct (revoked_refused id (cn_token n) (gw_identity g) Hg Ht) as [e He].
  pose proof (sound_run c (GIdentity (IRevokeDevice id) :: l1) g0 (sound_run c l0 _ (sound_start c j x))) as Hs.
  fold g in Hs. unfold sound in Hs. rewrite Hn in Hs.
  assert (Hgone : gone c (gw_run (GTick c ok :: l2 ++ GRefuse c ok1 ok1' :: l3) g).2).
  { rewrite gw_run_cons, gw_run_app, gw_run_cons. apply gw_run_inv; [intros; by apply gone_step|]. apply refuse_gone.
    apply gw_run_inv; [intros; by apply going_step|]. by apply (tick_going c ok n e). }
  assert (Eg' : g' = (gw_run_step (GCloser c) (gw_run (GTick c ok :: l2 ++ GRefuse c ok1 ok1' :: l3) g).2).2).
  { unfold g'. rewrite !gw_run_cons, !gw_run_app, !gw_run_cons, !gw_run_app, gw_run_cons. done. }
  destruct (closer_shuts c _ Hgone) as (n' & Hn' & Ho). rewrite <- Eg' in Hn'. exists n'. split; [done|]. split; [done|].
  intros l. by apply shut_frames.
Qed.

(** ** The read loop alone is the replay of the hub *)

Section Alone.
Context {J : Type} `{EventJournal J} (c : nat) (x : Service) (conns : gmap nat Conn) (n : Conn).

(** The gateway with the connection's reader at a place. *)
Definition at_reader (r : reader) (h : Hub J) : Gateway J := mkGateway h x (<[c := set_cn_reader r n]> conns).
Definition reach (r : reader) (h : Hub J) (r' : reader) (h' : Hub J) : Prop :=
  exists k, (gw_run (replicate k (GReader c true true)) (at_reader r h)).2 = at_reader r' h'.

Lemma reach_refl r h : reach r h r h.
Proof. by exists 0%nat. Qed.
Lemma reach_trans r1 h1 r2 h2 r3 h3 : reach r1 h1 r2 h2 -> reach r2 h2 r3 h3 -> reach r1 h1 r3 h3.
Proof. intros [k1 E1] [k2 E2]. exists (k1 + k2)%nat. by rewrite replicate_add, gw_run_app, E1. Qed.

Lemma on_hub_at {A} (m : M (Hub J) A) r h : on_hub m (at_reader r h) = ((m h).1, at_reader r (m h).2).
Proof. unfold on_hub, zoom. cbn. by destruct (m h). Qed.

Lemma reach_step r h r' h' :
  reader_next c true true (set_cn_reader r n) (at_reader r h) = (r', at_reader r h') -> reach r h r' h'.
Proof.
  intros E. exists 1%nat. cbn [replicate]. rewrite gw_run_cons. cbn [gw_run_step gw_run for_each ret snd].
  unfold reader_step, bind at 1, get. unfold at_reader at 1. cbn [gw_conns]. rewrite lookup_insert_eq.
  unfold bind. rewrite E. unfold upd_conn, modify, at_reader, set_gw_conns. cbn. f_equal.
  by rewrite alter_insert_eq.
Qed.

(** A call on the hub, and where the reader is then. *)
Lemma reach_call {A} (m : M (Hub J) A) (k : A -> reader) r h :
  reader_next c true true (set_cn_reader r n) = (let! a := on_hub m in ret (k a)) ->
  reach r h (k (m h).1) (m h).2.
Proof. intros E. apply reach_step. rewrite E. unfold bind. by rewrite on_hub_at. Qed.

Lemma reach_subscribes todo cs h :
  reach (RSubscribe todo cs) h (RReplay cs []) (for_each todo (fun cur => Hub_subscribe c (cu_SessionID cur)) h).2.
Proof.
  revert h. induction todo as [|cur todo IH]; intros h; [by apply reach_step|].
  eapply reach_trans; [by apply (reach_call (Hub_subscribe c (cu_SessionID cur)) (fun _ => RSubscribe todo cs))|].
  cbn [for_each]. unfold bind. destruct (Hub_subscribe _ _ h) as [[] h']. apply IH.
Qed.

Lemma reach_sends evs todo rs h :
  reach (RSend evs todo rs) h (RReplay todo rs) (for_each evs (fun ev => client_sendDirect c (event_envelope ev)) h).2.
Proof.
  revert h. induction evs as [|ev evs IH]; intros h; [by apply reach_step|].
  eapply reach_trans; [by apply (reach_call (client_sendDirect c (event_envelope ev)) (fun _ => RSend evs todo rs))|].
  cbn [for_each]. unfold bind. destruct (client_sendDirect _ _ h) as [[] h']. apply IH.
Qed.

Lemma reach_cursor cur todo rs h :
  reach (RReplay (cur :: todo) rs) h (RReplay todo (rs ++ (replay_cursor c cur h).1)) (replay_cursor c cur h).2.
Proof.
  destruct (replay_cursor c cur h) as [r h'] eqn:Er. cbn [fst snd].
  unfold replay_cursor, bind at 1, get in Er.
  set (m := ej_Replay (cu_SessionID cur) (cu_After cur) (h_replayLimit h)) in *.
  assert (E : reader_next c true true (set_cn_reader (RReplay (cur :: todo) rs) n) (at_reader (RReplay (cur :: todo) rs) h) =
    match (on_journal m h).1 with
    | Err _ => (RReplay todo rs, at_reader (RReplay (cur :: todo) rs)
                 (Hub_unsubscribeSession c (cu_SessionID cur) (on_journal m h).2).2)
    | Ok y => if cr_ResyncRequired y
              then (RReplay todo (rs ++ [mkResyncRequired (cu_SessionID cur) (cu_After cur)]),
                    at_reader (RReplay (cur :: todo) rs) (Hub_unsubscribeSession c (cu_SessionID cur) (on_journal m h).2).2)
              else (RSend (cr_Events y) todo rs, at_reader (RReplay (cur :: todo) rs) (on_journal m h).2)
    end).
  { cbn [reader_next cn_reader set_cn_reader]. unfold reader_cursor, bind at 1, gets. cbn [gw_hub at_reader]. fold m.
    unfold bind at 1. rewrite on_hub_at. destruct (on_journal m h) as [[y|e] h1]; cbn [fst snd];
      [destruct (cr_ResyncRequired y)|]; try done; unfold bind; by rewrite on_hub_at. }
  unfold bind in Er. destruct (on_journal m h) as [[y|e] h1]; cbn [fst snd] in E; [destruct (cr_ResyncRequired y)|].
  - destruct (Hub_unsubscribeSession c (cu_SessionID cur) h1) as [[] h2]. injection Er as <- <-. by apply reach_step.
  - eapply reach_trans; [by apply reach_step|]. pose proof (reach_sends (cr_Events y) todo rs h1) as Hr.
    destruct (for_each (cr_Events y) _ h1) as [[] h2]. injection Er as <- <-. by rewrite app_nil_r.
  - destruct (Hub_unsubscribeSession c (cu_SessionID cur) h1) as [[] h2]. injection Er as <- <-. rewrite app_nil_r.
    by apply reach_step.
Qed.

Lemma reach_cursors todo rs h :
  let r := fold_each todo rs (fun rs cur => let! r := replay_cursor c cur in ret (rs ++ r)) h in
  reach (RReplay todo rs) h (RReplay [] r.1) r.2.
Proof.
  revert rs h. induction todo as [|cur todo IH]; intros rs h; [apply reach_refl|].
  eapply reach_trans; [apply reach_cursor|]. cbn [fold_each]. unfold bind.
  destruct (replay_cursor c cur h) as [r h']. exact (IH (rs ++ r) h').
Qed.

Lemma reach_flush buf rs h : reach (RFlush buf rs) h (RFlush [] rs) (flush_loop c buf h).2.
Proof.
  revert h. induction buf as [|env buf IH]; intros h; [apply reach_refl|]. cbn [flush_loop]. unfold bind at 1.
  assert (E : reader_next c true true (set_cn_reader (RFlush (env :: buf) rs) n) (at_reader (RFlush (env :: buf) rs) h) =
    match (client_push c env h).1 with
    | Pushed => (RFlush buf rs, at_reader (RFlush (env :: buf) rs) (client_push c env h).2)
    | SawClosed => (RFlush [] rs, at_reader (RFlush (env :: buf) rs) (client_push c env h).2)
    | Full => (RFlush buf rs, at_reader (RFlush (env :: buf) rs) (client_markSlow c (client_push c env h).2).2)
    end).
  { cbn [reader_next cn_reader set_cn_reader]. unfold bind at 1. rewrite on_hub_at.
    destruct (client_push c env h) as [[] h1]; cbn [fst snd]; try done. unfold bind. by rewrite on_hub_at. }
  destruct (client_push c env h) as [[] h1]; cbn [fst snd] in E.
  - eapply reach_trans; [eapply reach_step; exact E|]. apply IH.
  - eapply reach_step; exact E.
  - eapply reach_trans; [eapply reach_step; exact E|]. unfold bind. destruct (client_markSlow c h1) as [[] h2]. apply IH.
Qed.

Lemma reach_resyncs rs h : reach (RResync rs) h RLoop (for_each rs (fun r => client_send c (resync_envelope r)) h).2.
Proof.
  revert h. induction rs as [|r rs IH]; intros h; [by apply reach_step|].
  eapply reach_trans; [by apply (reach_call (client_send c (resync_envelope r)) (fun _ => RResync rs))|].
  cbn [for_each]. unfold bind. destruct (client_send _ _ h) as [[] h']. apply IH.
Qed.

Lemma reach_afterHello hello h : reach (RBegin (he_Cursors hello)) h RLoop (Handler_afterHello c hello h).2.
Proof.
  destruct (Handler_afterHello c hello h) as [u hf] eqn:Ef.
  unfold Handler_afterHello, Hub_replayAndSubscribe, replay_begin, client_flushAndStopBuffering, bind in Ef.
  set (cs := he_Cursors hello) in *.
  eapply reach_trans; [by apply (reach_call (client_startBuffering c) (fun _ => RSubscribe cs cs))|].
  destruct (client_startBuffering c h) as [[] h1]. cbn [snd fst].
  eapply reach_trans; [apply reach_subscribes|].
  destruct (for_each cs (fun cur => Hub_subscribe c (cu_SessionID cur)) h1) as [[] h2]. cbn [snd].
  pose proof (reach_cursors cs [] h2) as Hr. unfold bind in Hr.
  eapply reach_trans; [exact Hr|]. clear Hr. destruct (fold_each cs [] _ h2) as [rs h3]. cbn [fst snd].
  eapply reach_trans; [by apply (reach_call get (fun h => RFlush (match h_clients h !! c with Some cl => c_buffer cl | None => [] end) rs))|].
  unfold get in *. cbn [fst snd] in *. eapply reach_trans; [apply reach_flush|].
  destruct (flush_loop c _ h3) as [[] h4]. cbn [snd].
  eapply reach_trans; [by apply (reach_call (upd_client c (set_c_buffer false [])) (fun _ => RResync rs))|].
  destruct (upd_client c (set_c_buffer false []) h4) as [[] h5]. cbn [snd].
  pose proof (reach_resyncs rs h5) as Hr. unfold ret in Ef. by rewrite Ef in Hr.
Qed.
End Alone.


(** ** A connection in detail *)

Definition demo_gateway : Gateway CursorJournal := NewHandler (mkCursorJournal 0 demo_journal) demo_paired.
Definition demo_upgrade : http_Request :=
  mkHttpRequest "GET" "/api/v1/ws" [("token", tok_Value demo_token)] [] [] None None.
Definition demo_hello : bytes := chars (dq
  "{'type':'hello','protocol_version':1,'device_id':'dev-1','cursors':[{'session_id':'ses-1','after':1}]}").

(** Connected, welcomed, two of three events queued, none written. *)
Definition demo_connect : list (gw_step CursorJournal) :=
  GConnect 1 demo_upgrade true [] :: GRead 1 (Some demo_hello) :: replicate 12 (GReader 1 true true).
Definition demo_conn (l : list (gw_step CursorJournal)) : Conn :=
  default (mkConn "" false RDone WDone PDone []) (gw_conns (gw_run l demo_gateway).2 !! 1%nat).


Definition demo_device : string := tok_DeviceID demo_token.
Definition demo_waiting : Conn :=
  demo_conn (demo_connect ++ [GWriter 1 true; GIdentity (IRevokeDevice demo_device); GWriter 1 true]).

Lemma revoked_socket_ends_witness :
  let g := (gw_run (GIdentity (IRevokeDevice demo_device) :: [GWriter 1 true])
              (gw_run (demo_connect ++ [GWriter 1 true]) demo_gateway).2).2 in
  let g' := (gw_run (GTick 1 true :: [GWriter 1 true] ++ GRefuse 1 true true :: [GWriter 1 true] ++ [GCloser 1]) g).2 in
  exists n', gw_conns g' !! 1%nat = Some n' /\ cn_open n' = false /\
    forall l, exists n'', gw_conns (gw_run l g').2 !! 1%nat = Some n'' /\ cn_frames n'' = cn_frames n'.
Proof.
  apply (revoked_socket_ends (mkCursorJournal 0 demo_journal) demo_paired demo_device 1
           (demo_connect ++ [GWriter 1 true]) [GWriter 1 true] [GWriter 1 true] [GWriter 1 true] true true true demo_waiting).
  - vm_compute. reflexivity.
  - vm_compute. reflexivity.
  - reflexivity.
  - intros t. vm_compute. by intros [= <-].
Defined.

Definition demo_welcome : list (gw_step CursorJournal) :=
  [GConnect 1 demo_upgrade true []; GRead 1 (Some demo_hello); GReader 1 true true].
Definition demo_welcomed : Gateway CursorJournal :=
  (gw_run demo_welcome demo_gateway).2.
Definition demo_hello_value : Hello := mkHello "hello" 1 "dev-1" [mkCursor "ses-1" 1].


(** The heartbeat that refuses a token writes its error while the writer writes
    an event: two goroutines in [WriteMessage] of one socket, which the library
    forbids. *)
Example two_writers :
  let n := demo_conn (demo_connect ++ [GWriter 1 true; GIdentity (IRevokeDevice demo_device); GTick 1 true]) in
  cn_pinger n = PRefusing /\ match cn_writer n with WWriting env => en_Sequence env = 2 | _ => False end.
Proof. vm_compute. done. Qed.

(** A slow client is not told so.  Its read loop waits for a message, so it sends
    the close code only when reading fails, which is after the closing goroutine
    has closed the socket: the frames hold the welcome and no close. *)
Definition demo_event (i : nat) : Event :=
  mkEvent 0 "ses-1" (Z.of_nat i) "OutputReceived" "" 1 [] 0.
Example slow_client_gets_no_code :
  let l := demo_connect ++ (GPublish ∘ demo_event <$> seq 4 255) ++ [GCloser 1; GRead 1 None; GReader 1 true true] in
  let n := demo_conn l in
  (c_slow <$> h_clients (gw_hub (gw_run l demo_gateway).2) !! 1%nat) = Some true /\
  (c_closeCode <$> h_clients (gw_hub (gw_run l demo_gateway).2) !! 1%nat) = Some CloseBackpressure /\
  match cn_reader n, cn_frames n with RDone, [FText env] => en_Type env = "welcome" | _, _ => False end.
Proof. vm_compute. done. Qed.

(** The upgrade reads the scheme of the header by its case, the API does not. *)
Example lower_case_scheme :
  ws_token (mkHttpRequest "GET" "/api/v1/ws" [] [("Authorization", "bearer tok_1")] [] None None) = "bearer tok_1".
Proof. reflexivity. Qed.
