(* ===== verification/Api.v ===== *)
(** * The HTTP API (src/internal/api/handlers.go,
      src/internal/api/pairing_handlers.go)

    The handlers run over the application core, the identity service, the
    idempotency store and a response writer.  A handler is a function of any
    response writer, since [withIdempotency] wraps the writer to record the
    answer; it ends normally or with a panic, which net/http turns into a
    closed connection.  The observer that [StartRun] starts is not run here:
    its signals are operations of the core.  Logging is left out; the store of
    idempotency keys is never nil, since [app.New] creates it. *)

From S2P Require Import Prelude Env Json GoStrings JsonText GoTime Auth Config Domain StateMachine.
From S2P Require Import Schema SessionRepo Journal ApprovalStore Approval Lifecycle Identity Adapter.
From S2P Require Import App AppEnv Errcat Http.

(** ** State *)

(** [app.App] with the parts that only the API uses.  The identity service works
    on the database of the core, its own store field is a placeholder;
    [api_zone] is the machine's time zone. *)
Record Api (W : Type) := mkApi {
  api_app : App W;
  api_identity : Service;
  api_idempotent : IdempotencyStore;
  api_config : Config;
  api_zone : Z -> Z
}.
Arguments mkApi {W} _ _ _ _ _.
Arguments api_app {W} _.
Arguments api_identity {W} _.
Arguments api_idempotent {W} _.
Arguments api_config {W} _.
Arguments api_zone {W} _ _.

(** A handler's state: the application and the response writer. *)
Record Exchange (W T : Type) := mkExchange { ex_api : Api W; ex_w : T }.
Arguments mkExchange {W T} _ _.
Arguments ex_api {W T} _.
Arguments ex_w {W T} _.

(** [recordingWriter]. *)
Record recordingWriter (T : Type) := mkRecordingWriter {
  rec_ResponseWriter : T; rec_buf : bytes; rec_status : Z }.
Arguments mkRecordingWriter {T} _ _ _.
Arguments rec_ResponseWriter {T} _.
Arguments rec_buf {T} _.
Arguments rec_status {T} _.

Definition newRecordingWriter {T} (w : T) : recordingWriter T := mkRecordingWriter w [] 0.
Definition recordingWriter_WriteHeader `{ResponseWriter T} (status : Z) (r : recordingWriter T)
    : recordingWriter T :=
  mkRecordingWriter (WriteHeader status (rec_ResponseWriter r)) (rec_buf r) status.
Definition recordingWriter_Write `{ResponseWriter T} (b : bytes) (r : recordingWriter T)
    : recordingWriter T :=
  mkRecordingWriter (rw_Write b (rec_ResponseWriter r)) (rec_buf r ++ b)
    (if decide (rec_status r = 0) then 200 else rec_status r).

#[export] Instance recording `{ResponseWriter T} : ResponseWriter (recordingWriter T) := {|
  Header_Set k v r := mkRecordingWriter (Header_Set k v (rec_ResponseWriter r)) (rec_buf r) (rec_status r);
  WriteHeader := recordingWriter_WriteHeader;
  rw_Write := recordingWriter_Write
|}.

Section Api.
Context {W : Type}.

(** [http.HandlerFunc]. *)
Definition HandlerFunc : Type :=
  forall T, ResponseWriter T -> http_Request -> M (Exchange W T) outcome.

Definition set_api_app (a : App W) (g : Api W) : Api W :=
  mkApi a (api_identity g) (api_idempotent g) (api_config g) (api_zone g).
Definition set_api_idempotent (s : IdempotencyStore) (g : Api W) : Api W :=
  mkApi (api_app g) (api_identity g) s (api_config g) (api_zone g).

(** Calls of the parts. *)
Definition core {A} (m : M (App W) A) : M (Api W) A := zoom api_app set_api_app m.
Definition identity {A} (m : M Service A) : M (Api W) A :=
  zoom (fun g => set_id_store (app_store (api_app g)) (api_identity g))
    (fun x g => mkApi (set_app_store (id_store x) (api_app g))
                  (set_id_store (id_store (api_identity g)) x) (api_idempotent g) (api_config g)
                  (api_zone g)) m.
Definition api_env {A} (m : M Env A) : M (Api W) A := core (db (on_env m)).

(** [h.app.APIToken()], [h.app.AllowedOrigin()]. *)
Definition APIToken (g : Api W) : string := sec_APIToken (cfg_Security (api_config g)).
Definition AllowedOrigin (g : Api W) : string := sec_AllowedOrigin (cfg_Security (api_config g)).

(** ** The idempotency store *)

Definition idempotent_Get (key : string) : M (Api W) (option (string * Z)) :=
  let! now := api_env time_Now in gets (fun g => IdempotencyStore_Get now key (api_idempotent g)).
Definition idempotent_Add (key : string) (body : bytes) (status : Z) : M (Api W) unit :=
  let! now := api_env time_Now in
  modify (fun g => set_api_idempotent (IdempotencyStore_Add now key (text body) status (api_idempotent g)) g).

Section Writer.
Context {T : Type} `{HT : ResponseWriter T}.

Definition on_api {A} (m : M (Api W) A) : M (Exchange W T) A :=
  zoom ex_api (fun g x => mkExchange g (ex_w x)) m.
Definition on_writer (f : T -> T) : M (Exchange W T) unit :=
  modify (fun x => mkExchange (ex_api x) (f (ex_w x))).

(** ** Responses *)

Definition ErrorResponse (code message requestID : string) : json :=
  JObj [("code", JStr code); ("message", JStr message); ("request_id", JStr requestID)].

(** A body that cannot be encoded is left out. *)
Definition writeEncoded (status : Z) (body : option json) : M (Exchange W T) outcome :=
  on_writer (Header_Set "Content-Type" "application/json");;;
  on_writer (WriteHeader status);;;
  match body with
  | Some v => on_writer (rw_Write (json_bytes v ++ [newline]));;; ret Returned
  | None => ret Returned
  end.

Definition Handlers_writeJSON (status : Z) (body : json) : M (Exchange W T) outcome :=
  writeEncoded status (Some body).

Definition Handlers_requestID : M Env string :=
  let! b := rand_Read 8 in
  ret (match b with None => "req_fallback" | Some b => "req_" +:+ hex_EncodeToString b end).

Definition Handlers_writeError (status : Z) (code message : string) : M (Exchange W T) outcome :=
  let! id := on_api (api_env Handlers_requestID) in
  Handlers_writeJSON status (ErrorResponse code message id).

Definition Handlers_writeServiceError (err : error) : M (Exchange W T) outcome :=
  let catErr := FromAppError err ErrNotFound ErrConflict ErrInvalid in
  Handlers_writeError (HTTPStatus (ec_Code catErr)) (ec_Code catErr) (ec_Message catErr).

(** [v, err := m; if err != nil { writeServiceError }; k v]. *)
Definition or_service_error {A} (m : M (Api W) (result A)) (k : A -> M (Exchange W T) outcome)
    : M (Exchange W T) outcome :=
  let! r := on_api m in
  match r with Err e => Handlers_writeServiceError e | Ok v => k v end.

(** [if err != nil { writeError(400, bad_request) }; k v]. *)
Definition or_bad_request {A} (r : result A) (k : A -> M (Exchange W T) outcome)
    : M (Exchange W T) outcome :=
  match r with
  | Err e => Handlers_writeError 400 "bad_request" (error_Error e)
  | Ok v => k v
  end.

(** ** Requests *)

Definition Handlers_decodeBody {A} (r : http_Request) (unmarshal : RawMessage -> result A) : result A :=
  match hq_BodyError r with
  | Some e => Err e
  | None =>
      if decide (hq_Body r = []) then Err (ErrNew "request body is required")
      else unmarshal (json_raw (text (hq_Body r)))
  end.

Definition Handlers_requireIdempotencyKey (r : http_Request) : result unit :=
  let key := Header_Get r "Idempotency-Key" in
  if decide (String.length key < 8 \/ 200 < String.length key)%nat
  then Err (ErrNew "Idempotency-Key header (8-200 chars) is required for write requests")
  else Ok tt.

(** [actorFromContext(r.Context()).id]. *)
Definition actorFromContext (r : http_Request) : actor := default (mkActor "unknown" "") (hq_actor r).
Definition actorID (r : http_Request) : string := actor_id (actorFromContext r).

Definition decode_CreateSessionRequest : RawMessage -> result CreateSessionRequest :=
  unmarshal_struct "app.CreateSessionRequest" (fun k v q =>
    let '(mkCreateSessionRequest w a t) := q in
    if names k "workspace_id" then set_field (fun x => mkCreateSessionRequest x a t)
      (assign_string "CreateSessionRequest.workspace_id" v w)
    else if names k "adapter_id" then set_field (fun x => mkCreateSessionRequest w x t)
      (assign_string "CreateSessionRequest.adapter_id" v a)
    else if names k "title" then set_field (fun x => mkCreateSessionRequest w a x)
      (assign_string "CreateSessionRequest.title" v t)
    else Ok q) (mkCreateSessionRequest "" "" "").

Definition decode_text : RawMessage -> result string :=
  unmarshal_struct "struct { Text string }" (fun k v t =>
    if names k "text" then assign_string ".text" v t else Ok t) "".

(** (decision, reason). *)
Definition decode_decision : RawMessage -> result (string * string) :=
  unmarshal_struct "struct { Decision string; Reason string }" (fun k v q =>
    if names k "decision" then set_field (fun x => (x, q.2)) (assign_string ".decision" v q.1)
    else if names k "reason" then set_field (fun x => (q.1, x)) (assign_string ".reason" v q.2)
    else Ok q) ("", "").

(** ** DTOs *)

Definition omitempty (name value : string) : payload :=
  if decide (value = "") then [] else [(name, JStr value)].

Definition toSessionSnapshot (s : Session) : json :=
  JObj ([("id", JStr (s_ID s)); ("workspace_id", JStr (s_WorkspaceID s));
         ("adapter_id", JStr (s_AdapterID s)); ("state", JStr (s_State s));
         ("last_sequence", JNum (s_LastSequence s))] ++
        match s_PendingApproval s with Some a => [("pending_approval_id", JStr a)] | None => [] end).

Definition toApprovalResponse (a : Approval) : json :=
  JObj ([("id", JStr (a_ID a)); ("session_id", JStr (a_SessionID a)); ("state", JStr (a_State a))] ++
        omitempty "category" (a_Category a) ++ [("expires_at", JStr (format_UTC (a_ExpiresAt a)))]).

(** A payload map is marshalled in key order. *)
Definition EventDTO (e : Event) : json :=
  JObj [("type", JStr (e_Type e)); ("message_id", JStr (e_MessageID e));
        ("session_id", JStr (e_SessionID e)); ("sequence", JNum (e_Sequence e));
        ("schema_version", JNum (e_SchemaVersion e)); ("payload", decode_any (JObj (e_Payload e)))].

Definition EventsResponse (r : CursorResult) : json :=
  JObj [("events", JArr (map EventDTO (cr_Events r))); ("next_after", JNum (cr_NextAfter r));
        ("resync_required", JBool (cr_ResyncRequired r))].

(** ** The handlers *)

Definition Handlers_listSessions : M (Exchange W T) outcome :=
  let! r := on_api (core ListSessions) in
  match r with
  | Err _ => Handlers_writeError 500 "internal_error" "Failed to list sessions"
  | Ok sessions => Handlers_writeJSON 200 (JObj [("sessions", JArr (map toSessionSnapshot sessions))])
  end.

Definition Handlers_createSession (r : http_Request) : M (Exchange W T) outcome :=
  or_bad_request (Handlers_requireIdempotencyKey r) (fun _ =>
  or_bad_request (Handlers_decodeBody r decode_CreateSessionRequest) (fun req =>
  or_service_error (core (CreateSession (actorID r) req)) (fun s =>
  Handlers_writeJSON 201 (toSessionSnapshot s)))).

Definition Handlers_getSession (id : string) : M (Exchange W T) outcome :=
  or_service_error (core (GetSession id)) (fun s => Handlers_writeJSON 200 (toSessionSnapshot s)).

Definition Handlers_startRun (r : http_Request) (id : string) : M (Exchange W T) outcome :=
  or_bad_request (Handlers_requireIdempotencyKey r) (fun _ =>
  or_service_error (core (StartRun (actorID r) id)) (fun o =>
  Handlers_writeJSON 202 (JObj [("message", JStr "accepted"); ("run_id", JStr (r_ID (ob_run o)));
                                ("state", JStr (r_State (ob_run o)))]))).

Definition Handlers_submitPrompt (r : http_Request) (id : string) : M (Exchange W T) outcome :=
  or_bad_request (Handlers_requireIdempotencyKey r) (fun _ =>
  or_bad_request (Handlers_decodeBody r decode_text) (fun txt =>
  or_service_error (core (SubmitPrompt (actorID r) id txt)) (fun _ =>
  on_writer (WriteHeader 202);;; ret Returned))).

Definition Handlers_interrupt (r : http_Request) (id : string) : M (Exchange W T) outcome :=
  or_bad_request (Handlers_requireIdempotencyKey r) (fun _ =>
  or_service_error (core (Interrupt (actorID r) id)) (fun _ =>
  on_writer (WriteHeader 202);;; ret Returned)).

(** The query values of [getEvents]. *)
Definition events_after (r : http_Request) : Z :=
  let after := ParseInt (Query_Get r "after") in if decide (after < 0) then 0 else after.
Definition events_limit (r : http_Request) : Z :=
  let limit := ParseInt (Query_Get r "limit") in
  let limit := if decide (limit <= 0) then 100 else limit in
  if decide (500 < limit) then 500 else limit.

Definition Handlers_getEvents (r : http_Request) (id : string) : M (Exchange W T) outcome :=
  or_service_error (core (GetEvents id (events_after r) (events_limit r))) (fun result =>
  Handlers_writeJSON 200 (EventsResponse result)).

Definition approval_at (l : loc) : M (Api W) Approval :=
  gets (fun g => ab_deref l (app_approvals (api_app g))).

Definition Handlers_getApproval (id : string) : M (Exchange W T) outcome :=
  or_service_error (core (GetApproval id)) (fun l =>
  let! a := on_api (approval_at l) in Handlers_writeJSON 200 (toApprovalResponse a)).

(** A nil approval without an error is dereferenced. *)
Definition Handlers_decideApproval (r : http_Request) (id : string) : M (Exchange W T) outcome :=
  or_bad_request (Handlers_requireIdempotencyKey r) (fun _ =>
  or_bad_request (Handlers_decodeBody r decode_decision) (fun '(decision, reason) =>
  or_service_error (core (ResolveApproval (actorID r) id decision reason)) (fun p =>
  match p with
  | None => ret Panicked
  | Some l => let! a := on_api (approval_at l) in Handlers_writeJSON 200 (toApprovalResponse a)
  end))).

(** Identifier and sub-resource of what follows the prefix of a path. *)
Definition split_resource (rest : string) : string * string :=
  match cut_slash (chars rest) with
  | Some (a, b) => (if decide (a = []) then rest else text a, text b)
  | None => (rest, "")
  end.
Definition path_rest (prefix : string) (r : http_Request) : string :=
  text (drop (String.length prefix) (chars (hq_Path r))).

(** ** Middleware *)

Definition unsupported (message : string) : M (Exchange W T) outcome :=
  Handlers_writeError 405 "method_not_allowed" message.
End Writer.

Definition withCORS (handler : HandlerFunc) : HandlerFunc := fun T _ r =>
  on_writer (Header_Set "Access-Control-Allow-Methods" "GET, POST, PUT, DELETE, OPTIONS");;;
  on_writer (Header_Set "Access-Control-Allow-Headers" "Content-Type, Authorization, Idempotency-Key");;;
  on_writer (Header_Set "Vary" "Origin");;;
  let origin := Header_Get r "Origin" in
  let! allowed := on_api (gets AllowedOrigin) in
  (if decide (origin <> "" /\ allowed <> "" /\ origin = allowed)
   then on_writer (Header_Set "Access-Control-Allow-Origin" origin) else ret tt);;;
  handler T _ r.

(** Run [handler] on a recording writer around this one. *)
Definition recorded {T} `{ResponseWriter T} (handler : HandlerFunc) (r : http_Request)
    : M (Exchange W T) (outcome * recordingWriter T) := fun x =>
  let '(o, y) := handler (recordingWriter T) _ r (mkExchange (ex_api x) (newRecordingWriter (ex_w x))) in
  ((o, ex_w y), mkExchange (ex_api y) (rec_ResponseWriter (ex_w y))).

Definition withIdempotency (handler : HandlerFunc) : HandlerFunc := fun T _ r =>
  let key := Header_Get r "Idempotency-Key" in
  if decide (key = "") then handler T _ r
  else
    let! hit := on_api (idempotent_Get key) in
    match hit with
    | Some (body, status) =>
        on_writer (Header_Set "Content-Type" "application/json");;;
        on_writer (Header_Set "X-Idempotent-Replay" "true");;;
        on_writer (WriteHeader status);;;
        on_writer (rw_Write (chars body));;;
        ret Returned
    | None =>
        let! orec := recorded handler r in
        let '(o, rec) := orec in
        match o with
        | Panicked => ret Panicked
        | Returned =>
            (if decide (0 < rec_status rec)
             then on_api (idempotent_Add key (rec_buf rec) (rec_status rec)) else ret tt);;;
            ret Returned
        end
    end.

(** The actor of the request, if its credentials are good. *)
Definition authenticate (r : http_Request) : M (Api W) (result actor) :=
  let token := BearerToken (Header_Get r "Authorization") in
  if decide (token = "") then ret (Err (ErrNew "Missing or invalid Authorization header"))
  else
    let! g := get in
    if ConstantTimeEqual token (APIToken g) then ret (Ok (mkActor "owner" "owner"))
    else
      let! d := identity (Service_AuthorizeToken token) in
      match d with
      | Err _ => ret (Err (ErrNew "Invalid or expired authentication token"))
      | Ok deviceID => ret (Ok (mkActor deviceID "owner"))
      end.

Definition withAuth (handler : HandlerFunc) : HandlerFunc := fun T _ r =>
  if decide (hq_Method r = MethodOptions) then on_writer (WriteHeader 204);;; ret Returned
  else
    let! a := on_api (authenticate r) in
    match a with
    | Err e => Handlers_writeError 401 "unauthorized" (error_Error e)
    | Ok a => handler T _ (with_actor a r)
    end.

(** ** Routing within a resource *)

Definition Handlers_sessions : HandlerFunc := fun T _ r =>
  if decide (hq_Method r = MethodGet) then Handlers_listSessions
  else if decide (hq_Method r = MethodPost)
  then withIdempotency (fun T _ r => Handlers_createSession r) T _ r
  else unsupported "Only GET and POST are supported".

Definition Handlers_sessionDetail : HandlerFunc := fun T _ r =>
  let rest := path_rest "/api/v1/sessions/" r in
  if decide (rest = "") then Handlers_writeError 400 "bad_request" "Session ID is required"
  else
    let '(sessionID, sub) := split_resource rest in
    let is_get := bool_decide (hq_Method r = MethodGet) in
    let is_post := bool_decide (hq_Method r = MethodPost) in
    if bool_decide (sub = "") && is_get then Handlers_getSession sessionID
    else if bool_decide (sub = "runs") && is_post then
      withIdempotency (fun T _ r => Handlers_startRun r sessionID) T _ r
    else if bool_decide (sub = "prompts") && is_post then
      withIdempotency (fun T _ r => Handlers_submitPrompt r sessionID) T _ r
    else if bool_decide (sub = "interrupt") && is_post then
      withIdempotency (fun T _ r => Handlers_interrupt r sessionID) T _ r
    else if bool_decide (sub = "events") && is_get then Handlers_getEvents r sessionID
    else unsupported "Unsupported method for this resource".

Definition Handlers_approvals : HandlerFunc := fun T _ r =>
  let rest := path_rest "/api/v1/approvals/" r in
  if decide (rest = "") then Handlers_writeError 400 "bad_request" "Approval ID is required"
  else
    let '(approvalID, sub) := split_resource rest in
    if bool_decide (sub = "") && bool_decide (hq_Method r = MethodGet) then Handlers_getApproval approvalID
    else if bool_decide (sub = "decision") && bool_decide (hq_Method r = MethodPost) then
      withIdempotency (fun T _ r => Handlers_decideApproval r approvalID) T _ r
    else unsupported "Unsupported method for this resource".

(** ** Pairing and devices (pairing_handlers.go) *)

Section PairingWriter.
Context {T : Type} `{HT : ResponseWriter T}.

Definition writePairingError (status : Z) (code message : string) : M (Exchange W T) outcome :=
  let! id := on_api (api_env Handlers_requestID) in
  writeEncoded status (Some (ErrorResponse code message id)).

(** An instant as [time.Time] marshals it, in the machine's zone. *)
Definition time_json (g : Api W) (t : Z) : option json :=
  JStr <$> time_MarshalJSON (api_zone g (t / Second)) t.

Definition PairingHandlers_pair (r : http_Request) : M (Exchange W T) outcome :=
  if decide (hq_Method r <> MethodPost)
  then writePairingError 405 "method_not_allowed" "Only POST is supported"
  else
    let! c := on_api (identity (Service_CreateChallenge DefaultChallengeTTL)) in
    match c with
    | Err _ => writePairingError 500 "internal_error" "Failed to create challenge"
    | Ok ch =>
        let! g := on_api get in
        writeEncoded 200 (t ← time_json g (ch_ExpiresAt ch);
                          Some (JObj [("code", JStr (ch_Code ch)); ("expires_at", t)]))
    end.

(** [json.NewDecoder(body).Decode]: the first value of the body; what follows an
    object is not read. *)
Definition decode_first (r : http_Request) : option json :=
  '(v, rest) ← parse_value (2 * length (hq_Body r) + 2) 0 (hq_Body r);
  match v, hq_BodyError r, rest with
  | JObj _, _, _ | JArr _, _, _ => Some v
  | _, Some _, [] => None
  | _, _, _ => Some v
  end.

(** (device_name, device_pub_key). *)
Definition decode_pairing (v : json) : result (string * string) :=
  unmarshal_struct "struct { DeviceName string; DevicePubKey string }" (fun k v q =>
    if names k "device_name" then set_field (fun x => (x, q.2)) (assign_string ".device_name" v q.1)
    else if names k "device_pub_key" then set_field (fun x => (q.1, x)) (assign_string ".device_pub_key" v q.2)
    else Ok q) ("", "") (RawJSON v).

Definition PairingHandlers_confirmPair (r : http_Request) : M (Exchange W T) outcome :=
  if decide (hq_Method r <> MethodPost)
  then writePairingError 405 "method_not_allowed" "Only POST is supported"
  else
    let code := path_rest "/api/v1/pair/" r in
    if decide (code = "") then writePairingError 400 "bad_request" "Pairing code is required"
    else
      match decode_pairing <$> decode_first r with
      | None | Some (Err _) => writePairingError 400 "bad_request" "Invalid request body"
      | Some (Ok (name, key)) =>
          let! t := on_api (identity (Service_PairDevice code name key)) in
          match t with
          | Err e =>
              if errors_Is e ErrChallengeNotFound
              then writePairingError 404 "challenge_not_found" "Pairing code not found"
              else if errors_Is e ErrChallengeExpired
              then writePairingError 409 "challenge_expired" "Pairing code expired or already used"
              else writePairingError 400 "bad_request" (error_Error e)
          | Ok token =>
              let! g := on_api get in
              writeEncoded 201 (t ← time_json g (tok_ExpiresAt token);
                                Some (JObj [("access_token", JStr (tok_Value token));
                                            ("device_id", JStr (tok_DeviceID token)); ("expires_at", t)]))
          end
      end.

Definition PairingHandlers_me (r : http_Request) : M (Exchange W T) outcome :=
  if decide (hq_Method r <> MethodGet)
  then writePairingError 405 "method_not_allowed" "Only GET is supported"
  else
    writeEncoded 200 (Some (JObj [("device_id", JStr (actorID r)); ("role", JStr "owner");
                                  ("user", JStr "owner")])).

Definition PairingHandlers_devices (r : http_Request) : M (Exchange W T) outcome :=
  if decide (hq_Method r <> MethodGet)
  then writePairingError 405 "method_not_allowed" "Only GET is supported"
  else writeEncoded 200 (Some (JObj [("devices", JArr [])])).

Definition PairingHandlers_deviceAction (r : http_Request) : M (Exchange W T) outcome :=
  let '(deviceID, sub) := split_resource (path_rest "/api/v1/devices/" r) in
  if bool_decide (sub = "revoke") && bool_decide (hq_Method r = MethodPost) then
    let! d := on_api (identity (Service_RevokeDevice deviceID)) in
    match d with
    | Err e =>
        if errors_Is e ErrDeviceNotFound
        then writePairingError 404 "device_not_found" "Device not found"
        else writePairingError 500 "internal_error" "Failed to revoke device"
    | Ok _ => on_writer (WriteHeader 204);;; ret Returned
    end
  else writePairingError 405 "method_not_allowed" "Unsupported method for this resource".
End PairingWriter.

(** ** The routes and the multiplexer *)

(** The patterns that [Handlers.Register] and [RegisterPairing] register. *)
Definition api_routes : list (string * HandlerFunc) :=
  [("/api/v1/sessions", withCORS (withAuth Handlers_sessions));
   ("/api/v1/sessions/", withCORS (withAuth Handlers_sessionDetail));
   ("/api/v1/approvals/", withCORS (withAuth Handlers_approvals));
   ("/api/v1/pair", fun T _ r => PairingHandlers_pair r);
   ("/api/v1/pair/", fun T _ r => PairingHandlers_confirmPair r);
   ("/api/v1/me", withAuth (fun T _ r => PairingHandlers_me r));
   ("/api/v1/devices", withAuth (fun T _ r => PairingHandlers_devices r));
   ("/api/v1/devices/", withAuth (fun T _ r => PairingHandlers_deviceAction r))].
End Api.
