(* ===== verification/HttpServer.v ===== *)
(** * The HTTP server (src/internal/server/server.go, src/internal/obs/obs.go)

    The routes, the multiplexer and the handlers of the server itself, with the
    counters and the readiness view behind /ready.  The WebSocket endpoint is
    the gateway's.  Listening, signals and the goroutine that serves are not
    modelled; a panic of a handler closes the connection. *)

From S2P Require Import Prelude Env Json GoStrings Paths GoTime Auth Config Schema.
From S2P Require Import Lifecycle App Http Api.

(** ** Metrics (obs.go): counters of 64 bits that wrap around *)

Record Metrics := mkMetrics {
  SessionsCreated : Z; SessionsActive : Z; SessionsCompleted : Z; SessionsFailed : Z;
  ApprovalsRequested : Z; ApprovalsApproved : Z; ApprovalsDenied : Z; ApprovalsExpired : Z;
  EventsReplayed : Z; ReplayResyncs : Z; APIErrors : Z; DBErrors : Z }.

Definition NewRecorder : Metrics := mkMetrics 0 0 0 0 0 0 0 0 0 0 0 0.

(** [atomic.AddUint64]. *)
Definition AddUint64 (n delta : Z) : Z := (n + delta) mod 2 ^ 64.

Definition Recorder_IncSessionsCreated (m : Metrics) : Metrics :=
  let '(mkMetrics a b c d e f g h i j k l) := m in mkMetrics (AddUint64 a 1) b c d e f g h i j k l.
Definition Recorder_IncSessionsActive (m : Metrics) : Metrics :=
  let '(mkMetrics a b c d e f g h i j k l) := m in mkMetrics a (AddUint64 b 1) c d e f g h i j k l.
(** [^uint64(0)] is minus one. *)
Definition Recorder_DecSessionsActive (m : Metrics) : Metrics :=
  let '(mkMetrics a b c d e f g h i j k l) := m in
  mkMetrics a (AddUint64 b (2 ^ 64 - 1)) c d e f g h i j k l.
Definition Recorder_IncSessionsCompleted (m : Metrics) : Metrics :=
  let '(mkMetrics a b c d e f g h i j k l) := m in mkMetrics a b (AddUint64 c 1) d e f g h i j k l.
Definition Recorder_IncSessionsFailed (m : Metrics) : Metrics :=
  let '(mkMetrics a b c d e f g h i j k l) := m in mkMetrics a b c (AddUint64 d 1) e f g h i j k l.
Definition Recorder_IncApprovalRequested (m : Metrics) : Metrics :=
  let '(mkMetrics a b c d e f g h i j k l) := m in mkMetrics a b c d (AddUint64 e 1) f g h i j k l.
Definition Recorder_IncApprovalApproved (m : Metrics) : Metrics :=
  let '(mkMetrics a b c d e f g h i j k l) := m in mkMetrics a b c d e (AddUint64 f 1) g h i j k l.
Definition Recorder_IncApprovalDenied (m : Metrics) : Metrics :=
  let '(mkMetrics a b c d e f g h i j k l) := m in mkMetrics a b c d e f (AddUint64 g 1) h i j k l.
Definition Recorder_IncApprovalExpired (m : Metrics) : Metrics :=
  let '(mkMetrics a b c d e f g h i j k l) := m in mkMetrics a b c d e f g (AddUint64 h 1) i j k l.
Definition Recorder_AddEventsReplayed (n : Z) (m : Metrics) : Metrics :=
  let '(mkMetrics a b c d e f g h i j k l) := m in mkMetrics a b c d e f g h (AddUint64 i n) j k l.
Definition Recorder_IncReplayResync (m : Metrics) : Metrics :=
  let '(mkMetrics a b c d e f g h i j k l) := m in mkMetrics a b c d e f g h i (AddUint64 j 1) k l.
Definition Recorder_IncAPIError (m : Metrics) : Metrics :=
  let '(mkMetrics a b c d e f g h i j k l) := m in mkMetrics a b c d e f g h i j (AddUint64 k 1) l.
Definition Recorder_IncDBError (m : Metrics) : Metrics :=
  let '(mkMetrics a b c d e f g h i j k l) := m in mkMetrics a b c d e f g h i j k (AddUint64 l 1).

Definition encode_Metrics (m : Metrics) : json :=
  let '(mkMetrics a b c d e f g h i j k l) := m in
  JObj [("SessionsCreated", JNum a); ("SessionsActive", JNum b); ("SessionsCompleted", JNum c);
        ("SessionsFailed", JNum d); ("ApprovalsRequested", JNum e); ("ApprovalsApproved", JNum f);
        ("ApprovalsDenied", JNum g); ("ApprovalsExpired", JNum h); ("EventsReplayed", JNum i);
        ("ReplayResyncs", JNum j); ("APIErrors", JNum k); ("DBErrors", JNum l)].

Record HealthStatus := mkHealthStatus {
  hs_Live : bool; hs_Ready : bool; hs_Time : Z; hs_Reason : string; hs_Metrics : Metrics }.

Definition encode_HealthStatus (s : HealthStatus) : option json :=
  t ← time_MarshalJSON 0 (hs_Time s);
  Some (JObj ([("live", JBool (hs_Live s)); ("ready", JBool (hs_Ready s)); ("time", JStr t)] ++
              omitempty "reason" (hs_Reason s) ++ [("metrics", encode_Metrics (hs_Metrics s))])).

(** [Snapshot] loads each counter. *)
Definition Recorder_Snapshot (m : Metrics) : Metrics :=
  mkMetrics (SessionsCreated m) (SessionsActive m) (SessionsCompleted m) (SessionsFailed m)
    (ApprovalsRequested m) (ApprovalsApproved m) (ApprovalsDenied m) (ApprovalsExpired m)
    (EventsReplayed m) (ReplayResyncs m) (APIErrors m) (DBErrors m).

(** ** Correlation identifiers: the one a request's context carries *)

Definition WithCorrelation (ctx : option string) (id : string) : option string := Some id.
Definition CorrelationFrom (ctx : option string) : string := default "" ctx.
Definition LogFields (ctx : option string) : list string :=
  if decide (CorrelationFrom ctx = "") then [] else ["correlation_id"; CorrelationFrom ctx].

(** [corrSeq] is the counter before. *)
Definition NewCorrelationID (corrSeq : Z) : M Env string :=
  let! t := time_Now in ret ("corr_" +:+ Itoa t +:+ "_" +:+ Itoa (AddUint64 corrSeq 1)).

Section Server.
Context {W : Type}.

(** [next] is given the context. *)
Definition CorrelationMiddleware (corrSeq : Z) (ctx : option string) (next : option string -> HandlerFunc (W:=W))
    : HandlerFunc (W:=W) := fun T _ r =>
  let cid := Header_Get r "X-Correlation-ID" in
  let! cid := if decide (cid = "") then on_api (api_env (NewCorrelationID corrSeq)) else ret cid in
  on_writer (Header_Set "X-Correlation-ID" cid);;;
  next (WithCorrelation ctx cid) T _ r.

(** [App.ReadinessProbe]: a ping of the database. *)
Definition ReadinessProbe : M (Api W) (option error) := core (db driver_call).

Definition DiagnosticView_Status (recorder : Metrics) : M (Api W) HealthStatus :=
  let! now := api_env time_Now in
  let! e := ReadinessProbe in
  ret (match e with
       | Some _ => mkHealthStatus true false now "storage unavailable" (Recorder_Snapshot recorder)
       | None => mkHealthStatus true true now "" (Recorder_Snapshot recorder)
       end).

Definition DiagnosticView_HTTPHandler (recorder : Metrics) : HandlerFunc (W:=W) := fun T _ r =>
  let! status := on_api (DiagnosticView_Status recorder) in
  on_writer (Header_Set "Content-Type" "application/json");;;
  on_writer (WriteHeader (if bool_decide (hq_Path r = "/ready") && negb (hs_Ready status)
                          then 503 else 200));;;
  match encode_HealthStatus status with
  | Some v => on_writer (rw_Write (json_bytes v ++ [newline]));;; ret Returned
  | None => ret Returned
  end.

(** ** server.go *)

Definition Server_withCORS (handler : HandlerFunc (W:=W)) : HandlerFunc (W:=W) := fun T _ r =>
  on_writer (Header_Set "Access-Control-Allow-Origin" "*");;;
  on_writer (Header_Set "Access-Control-Allow-Methods" "GET, POST, PUT, DELETE, OPTIONS");;;
  on_writer (Header_Set "Access-Control-Allow-Headers" "Content-Type, Authorization, Idempotency-Key");;;
  if decide (hq_Method r = MethodOptions) then on_writer (WriteHeader 204);;; ret Returned
  else handler T _ r.

Definition generateRequestID : M Env string := let! t := time_Now in ret ("req-" +:+ Itoa t).

Definition Server_writeError {T} `{ResponseWriter T} (status : Z) (code message : string)
    : M (Exchange W T) outcome :=
  on_writer (Header_Set "Content-Type" "application/json");;;
  on_writer (WriteHeader status);;;
  let! id := on_api (api_env generateRequestID) in
  on_writer (rw_Write (json_bytes (ErrorResponse code message id) ++ [newline]));;;
  ret Returned.

Definition Server_withAuth (handler : HandlerFunc (W:=W)) : HandlerFunc (W:=W) := fun T _ r =>
  if decide (hq_Method r = MethodOptions) then handler T _ r
  else
    let token := BearerToken (Header_Get r "Authorization") in
    if decide (token = "")
    then Server_writeError 401 "unauthorized" "Missing or invalid Authorization header"
    else
      let! g := on_api get in
      if negb (ConstantTimeEqual token (APIToken g))
      then Server_writeError 401 "unauthorized" "Invalid authentication token"
      else handler T _ r.

Definition Server_healthHandler : HandlerFunc (W:=W) := fun T _ r =>
  if decide (hq_Method r <> MethodGet)
  then Server_writeError 405 "method_not_allowed" "Only GET is supported"
  else writeEncoded 200 (Some (JObj [("status", JStr "ok")])).

Definition Server_notImplementedHandler : HandlerFunc (W:=W) := fun T _ r =>
  Server_writeError 501 "not_implemented" "This endpoint is not yet implemented".

(** The routes with an application, and without one; [ws] serves the WebSocket
    endpoint. *)
Definition Server_routes (ws : HandlerFunc (W:=W)) : list (string * HandlerFunc (W:=W)) :=
  ("/health", Server_withCORS Server_healthHandler) :: api_routes ++
  [("/api/v1/ws", ws);
   ("/ready", Server_withCORS (DiagnosticView_HTTPHandler NewRecorder))].

Definition Server_bare_routes : list (string * HandlerFunc (W:=W)) :=
  [("/health", Server_withCORS Server_healthHandler);
   ("/api/v1/", Server_withCORS (Server_withAuth Server_notImplementedHandler))].

(** ** [http.ServeMux] *)

Definition cleanPath (p : bytes) : bytes :=
  let p := if path_IsAbs p then p else slash :: p in
  let np := path_Clean p in
  if has_suffix [slash] p && negb (bool_decide (np = [slash])) then np ++ [slash] else np.

(** A pattern that ends with a slash matches every path below it. *)
Definition pattern_matches (path : string) (pattern : string) : bool :=
  bool_decide (pattern = path) ||
  (has_suffix [slash] (chars pattern) && has_prefix (chars pattern) (chars path)).

(** The longest pattern that matches. *)
Definition longest (best : option (string * HandlerFunc (W:=W))) (route : string * HandlerFunc (W:=W))
    : option (string * HandlerFunc (W:=W)) :=
  match best with
  | Some b => if decide (String.length b.1 < String.length route.1)%nat then Some route else best
  | None => Some route
  end.
Definition mux_match (routes : list (string * HandlerFunc (W:=W))) (path : string)
    : option (string * HandlerFunc (W:=W)) :=
  fold_left longest (filter (fun route => pattern_matches path route.1 = true) routes) None.

(** What a client gets: a redirection to the clean path, the page for an
    unknown path, a closed connection or an answer. *)
Inductive served :=
  | Redirected (path : string)
  | Unrouted
  | Closed
  | Answered (a : answer).

Definition run_handler (h : HandlerFunc (W:=W)) (r : http_Request) : M (Api W) served := fun g =>
  let '(o, x) := h HttpResponse _ r (mkExchange g new_response) in
  (match o with Returned => Answered (finish (ex_w x)) | Panicked => Closed end, ex_api x).

Definition http_serve (routes : list (string * HandlerFunc (W:=W))) (r : http_Request) : M (Api W) served :=
  let path := text (cleanPath (chars (hq_Path r))) in
  if decide (path <> hq_Path r) then ret (Redirected path)
  else
    match mux_match routes path with
    | Some (_, h) => run_handler h r
    | None =>
        match mux_match routes (path +:+ "/") with
        | Some (pattern, _) =>
            ret (if decide (pattern = path +:+ "/") then Redirected pattern else Unrouted)
        | None => ret Unrouted
        end
    end.
End Server.

(** Every route of the server is one of the patterns the code registers. *)
Example patterns {W} (ws : HandlerFunc (W:=W)) :
  fst <$> Server_routes ws =
  ["/health"; "/api/v1/sessions"; "/api/v1/sessions/"; "/api/v1/approvals/"; "/api/v1/pair";
   "/api/v1/pair/"; "/api/v1/me"; "/api/v1/devices"; "/api/v1/devices/"; "/api/v1/ws"; "/ready"].
Proof. reflexivity. Qed.
