(* ===== verification/Wiring.v ===== *)
(** * The composition of the server (src/internal/app/app.go,
      src/internal/server/server.go, src/cmd/server/main.go)

    What a process of the server does from its flags to its exit code: the
    services that [app.New] builds on the database, the adapters it registers,
    startup, serving and shutdown.  The database outlives the process: the schema,
    which [Open] migrates, and the rows, which the services share.  While a
    process runs the rows are those of its application.

    The agents of a process are the fake adapter and the last Claude adapter
    built, since a later one replaces an earlier one under the same id.  What
    the requests do while the server serves is an argument, any computation on
    the application, and so is how serving ends.  The run context and logging
    are left out. *)

From S2P Require Import Prelude Env Json GoStrings Paths Domain StateMachine Schema Migrations SessionRepo Journal.
From S2P Require Import ApprovalStore Approval Lifecycle Identity AuditLog Registry Adapter FakeAdapter.
From S2P Require Import OutputParser Wrapper Claude ClaudeRun Config App Http Api HttpServer.

(** ** The machine and the host *)

Record Machine := mkMachine { ma_schema : Migrations.content; ma_store : Store }.

Definition set_ma_store (s : Store) (d : Machine) : Machine := mkMachine (ma_schema d) s.
Definition on_schema {A} (m : M Database A) : M Machine A :=
  zoom (fun d => mkDatabase (ma_schema d) (st_env (ma_store d)))
    (fun b d => mkMachine (da_content b) (mkStore (st_db (ma_store d)) (da_env b))) m.

(** What the operating system answers to the parts of a process. *)
Record Host := mkHost {
  ho_paths : OS;                  (** about workspace paths *)
  ho_fake : Env;
  ho_claude : Env;
  ho_processes : nat -> OSAnswer; (** to the calls of the Claude adapter *)
  ho_zone : Z -> Z
}.

(** ** The adapters *)

Definition Agents : Type := FakeAdapter * ClaudeAdapter.

(** An adapter on a part of a state. *)
Definition part_adapter {V W} (get : W -> V) (set : V -> W -> W) (ad : Adapter V) : Adapter W :=
  mkAdapter (ad_ID ad) (ad_ValidateWorkspace ad) (fun s i => zoom get set (ad_Start ad s i))
    (fun run prompt => zoom get set (ad_SubmitInput ad run prompt))
    (fun run => zoom get set (ad_Interrupt ad run))
    (fun run id ok reason => zoom get set (ad_DecideApproval ad run id ok reason)).

Definition fake_part : Adapter Agents := part_adapter fst (fun f a => (f, a.2)) fake_adapter.
Definition claude_part : Adapter Agents := part_adapter snd (fun c a => (a.1, c)) claude_adapter.

Definition set_adapterEnv (id : string) (env : list (string * string)) (a : App Agents) : App Agents :=
  mkApp (app_workspaces a) (app_approvals a) (app_audit a) (app_lifecycle a) (app_adapters a)
    (<[id := env]> (app_adapterEnv a)) (app_agents a) (app_publisher a) (app_retention a).

(** The adapter of an entry; [claude.New] and [SetMCPPermPath]. *)
Definition configured_claude (h : Host) (ac : AdapterConfig) : ClaudeAdapter :=
  let cad := claude_New (ho_claude h) (ho_processes h) (ac_ExecPath ac) in
  if decide (ac_MCPPermPath ac = "") then cad else (SetMCPPermPath (ac_MCPPermPath ac) cad).2.

(** One turn of the loop over the configured adapters. *)
Definition register_configured (h : Host) (ac : AdapterConfig) : M (App Agents) unit :=
  if decide (ac_ID ac = "" \/ ac_ExecPath ac = "") then ret tt
  else
    (if decide (ac_ID ac = "claude-code") then
       agents (modify (fun a => (a.1, configured_claude h ac)));;;
       RegisterAdapter claude_part
     else ret tt);;;
    if decide (ac_Env ac = []) then ret tt else modify (set_adapterEnv (ac_ID ac) (ac_Env ac)).

(** ** app.New *)

Definition toDomainWorkspaces (cfgs : list WorkspaceConfig) : list Workspace :=
  (fun c => mkWorkspace (wc_ID c) (wc_DisplayName c) (wc_Path c) (wc_AllowedAdapters c)
     (Domain.mkExecutionPolicy (xp_AllowNetworkAccess (wc_ExecutionPolicy c)) (xp_AllowWrites (wc_ExecutionPolicy c))
        (xp_AllowedCommands (wc_ExecutionPolicy c))) 0 0) <$> cfgs.

(** The errors are logged. *)
Definition load_workspaces (h : Host) (cfg : Config) : M (App Agents) unit :=
  let! r := gets app_workspaces in
  let! l := db (Registry_LoadFromConfig (ho_paths h) r (toDomainWorkspaces (cfg_Workspaces cfg))) in
  modify (fun a => mkApp (ld_registry l) (app_approvals a) (app_audit a) (app_lifecycle a)
    (app_adapters a) (app_adapterEnv a) (app_agents a) (app_publisher a) (app_retention a)).

Definition eventRetention : Z := 90 * 24 * Hour.

(** The application before anything is registered. *)
Definition composed (h : Host) (cfg : Config) (s : Store) : App Agents :=
  mkApp (NewRegistry "") (NewApprovalBridge (mkWorld [] (st_db s) (st_env s)))
    (Writer_WithRedactPatterns (sec_RedactionPatterns (cfg_Security cfg))
       (Writer_WithRedactPatterns [sec_APIToken (cfg_Security cfg)] NewWriter))
    (NewManager s) ∅ ∅ (NewFakeAdapter (ho_fake h), claude_New (ho_claude h) (ho_processes h) "")
    None eventRetention.

Definition Service_SetAccessExpiry (d : Z) (s : Service) : Service :=
  mkService (id_store s) (id_challenges s) d.

(** What [New] registers. *)
Definition register_all (h : Host) (cfg : Config) : M (App Agents) unit :=
  RegisterAdapter fake_part;;;
  for_each (cfg_Adapters cfg) (register_configured h);;;
  load_workspaces h cfg.

Definition app_New (h : Host) (cfg : Config) : M Machine (result (Api Agents)) :=
  let? _ := on_schema (Open (st_Type (cfg_Storage cfg))) orelse wrap "opening storage" in
  let! s := gets ma_store in
  let '(_, app) := register_all h cfg (composed h cfg s) in
  modify (set_ma_store (app_store app));;;
  ret (Ok (mkApi app
    (Service_SetAccessExpiry (sec_TokenExpiry (cfg_Security cfg)) (NewService s))
    (NewIdempotencyStore (24 * Hour)) cfg (ho_zone h))).

(** [App.Shutdown]: the database is closed last.  A second call closes the
    idempotency store's closed channel. *)
Definition Api_Shutdown (how : string -> drain) : M (Api Agents) (outcome * option error) :=
  let! o := core (App_Shutdown how) in
  match o with
  | Panicked => ret (Panicked, None)
  | Returned =>
      let! g := get in
      match IdempotencyStore_Close (api_idempotent g) with
      | None => ret (Panicked, None)
      | Some s =>
          modify (set_api_idempotent s);;;
          let! e := core (db driver_call) in
          ret (Returned, wrap "closing database" <$> e)
      end
  end.

(** ** server.go *)

(** How [Serve] ends: a signal comes first, or it returns. *)
Inductive serve_end := Signalled | ServeClosed | ServeFailed (e : error).

(** What the operating system and net/http answer to [Run], and how each wait
    of the drain ends. *)
Record Net := mkNet {
  nt_mkdir : string -> option string;
  nt_Listen : string -> result string; (** the address it listens on *)
  nt_Serve : serve_end;
  nt_Shutdown : option error;          (** [http.Server.Shutdown] within the timeout *)
  nt_drain : string -> drain
}.

Record CarServer := mkCarServer {
  srv_api : Api Agents; srv_httpServer : bool; srv_actualAddr : string }.

Definition on_srv {A} (m : M (Api Agents) A) : M CarServer A :=
  zoom srv_api (fun g s => mkCarServer g (srv_httpServer s) (srv_actualAddr s)) m.

(** [registerRoutes] makes the hub the publisher; the routes are
    [Server_routes]. *)
Definition NewWithApp (g : Api Agents) : CarServer :=
  mkCarServer (set_api_app (set_app_publisher (Some []) (api_app g)) g) false "".

Definition config_address (s : CarServer) : string := ServerConfig_Address (cfg_Server (api_config (srv_api s))).
Definition Server_Address (s : CarServer) : string :=
  if decide (srv_actualAddr s = "") then config_address s else srv_actualAddr s.

Definition Server_Run (net : Net) (serving : M (Api Agents) unit) : M CarServer (outcome * option error) :=
  let! s := get in
  match StorageConfig_EnsureDir (cfg_Storage (api_config (srv_api s))) (nt_mkdir net) with
  | Some e => ret (Returned, Some (wrap "failed to create storage directory" e))
  | None =>
      modify (fun s => mkCarServer (srv_api s) true (srv_actualAddr s));;;
      match nt_Listen net (config_address s) with
      | Err e => ret (Returned, Some (wrap ("listening on " +:+ config_address s) e))
      | Ok actual =>
          modify (fun s => mkCarServer (srv_api s) (srv_httpServer s) actual);;;
          on_srv serving;;;
          match nt_Serve net, nt_Shutdown net with
          | ServeFailed e, _ => ret (Returned, Some (wrap "server error" e))
          | _, Some e => ret (Returned, Some (wrap "server shutdown error" e))
          | _, None =>
              let! x := on_srv (Api_Shutdown (nt_drain net)) in
              ret (x.1, None)
          end
      end
  end.

(** [shutdown] is what [http.Server.Shutdown] answers. *)
Definition Server_Shutdown (shutdown : option error) (s : CarServer) : option error :=
  if srv_httpServer s then shutdown else None.

(** ** main.go *)

Inductive Level := LevelDebug | LevelInfo | LevelWarn | LevelError.
Inductive LogWriter := Stdout_ | Stderr_ | LogFile (path : string).
Inductive LogHandler := JSONHandler | TextHandler.
Record Logger := mkLogger { lo_Handler : LogHandler; lo_Writer : LogWriter; lo_Level : Level }.

(** [openLog] is what opening the log file answers. *)
Definition createLogger (openLog : string -> option error) (cfg : LoggingConfig) : result Logger :=
  let level :=
    let l := strings_ToLower (lg_Level cfg) in
    if decide (l = "debug") then LevelDebug
    else if decide (l = "info") then LevelInfo
    else if decide (l = "warn") then LevelWarn
    else if decide (l = "error") then LevelError
    else LevelInfo in
  let output := strings_ToLower (lg_Output cfg) in
  let writer :=
    if decide (output = "stdout" \/ output = "") then Ok Stdout_
    else if decide (output = "stderr") then Ok Stderr_
    else match openLog (lg_Output cfg) with
         | Some e => Err (wrap "opening log file" e)
         | None => Ok (LogFile (lg_Output cfg))
         end in
  match writer with
  | Err e => Err e
  | Ok w => Ok (mkLogger (if decide (strings_ToLower (lg_Format cfg) = "json") then JSONHandler else TextHandler)
                  w level)
  end.

(** The flags, and the files the process reads before it composes anything. *)
Record Args := mkArgs {
  ar_config : string; ar_version : bool;
  ar_readFile : string -> result bytes; ar_openLog : string -> option error }.

(** How a process ends; a panic is exit code 2 with a trace. *)
Inductive exited := Exit (code : Z) | Crashed.

Definition configure (args : Args) : result Config :=
  match LoadConfig (ar_config args) (ar_readFile args (ar_config args)) with
  | Err e => Err e
  | Ok cfg =>
      match Config_Validate cfg with
      | Some e => Err e
      | None =>
          match createLogger (ar_openLog args) (cfg_Logging cfg) with
          | Err e => Err e
          | Ok _ => Ok cfg
          end
      end
  end.

(** The application, started. *)
Definition boot (h : Host) (cfg : Config) : M Machine (result CarServer) :=
  let? g := app_New h cfg in
  let '(e, g) := core App_Start g in
  modify (set_ma_store (app_store (api_app g)));;;
  match e with
  | Some e => ret (Err e)
  | None => ret (Ok (NewWithApp g))
  end.

Definition server_main (args : Args) (h : Host) (net : Net) (serving : M (Api Agents) unit)
    : M Machine exited :=
  if ar_version args then ret (Exit 0)
  else if decide (ar_config args = "") then ret (Exit 1)
  else
    match configure args with
    | Err _ => ret (Exit 1)
    | Ok cfg =>
        let! srv := boot h cfg in
        match srv with
        | Err _ => ret (Exit 1)
        | Ok s =>
            let '(r, s) := Server_Run net serving s in
            modify (set_ma_store (app_store (api_app (srv_api s))));;;
            match r with
            | (Panicked, _) => ret Crashed
            | (_, Some _) => ret (Exit 1)
            | (_, None) => ret (Exit 0)
            end
        end
    end.

(** ** What startup leaves *)

(** Only rows of workspaces were added or changed. *)
Definition same_but_workspaces (s s' : Store) : Prop :=
  env_after (st_env s) (st_env s') /\ st_db s' = set_workspaces (workspaces (st_db s')) (st_db s).

#[export] Instance same_but_workspaces_preorder : PreOrder same_but_workspaces.
Proof.
  split; [intros [[] e]; by split|]. intros s1 s2 s3 [E1 H1] [E2 H2]. split; [by etransitivity|]. by rewrite H2, H1.
Qed.

Lemma wp_stored_workspace id s :
  wp (WorkspaceRepository_GetByID id) s (fun _ s' => same_but_workspaces s s').
Proof.
  unfold WorkspaceRepository_GetByID. wp_simp.
  apply wp_exec_query; intros; wp_simp; (split; [solve_env|by destruct s as [[] ?]]).
Qed.

Lemma wp_load_one_rows os acc cfg s : wp (load_one os acc cfg) s (fun _ s' => same_but_workspaces s s').
Proof.
  unfold load_one. wp_simp. eapply wp_mono with (Q := fun _ s' => same_but_workspaces s s').
  { unfold Registry_GetByID. case_match; [by wp_simp|]. apply wp_stored_workspace. }
  intros known s1 H1. destruct (is_ok known); [by wp_simp|]. wp_simp. wp_use wp_stored_workspace. intros x s2 H2.
  case_match; [wp_simp; by etransitivity|]. wp_simp. apply wp_Register.
  - intros e env He. wp_simp. etransitivity; [exact H1|]. etransitivity; [exact H2|]. split; [done|by destruct s2 as [[] ?]].
  - intros res r' d' env He Hr. wp_simp. etransitivity; [exact H1|]. etransitivity; [exact H2|]. split; [done|].
    by rewrite (rd_row _ _ _ _ _ _ _ Hr).
Qed.

Definition unique_paths (d : DB) : Prop := forall i j x y,
  workspaces d !! i = Some x -> workspaces d !! j = Some y -> wr_path x = wr_path y -> i = j.

Lemma wp_load_workspaces h cfg a : rg_workspaces (app_workspaces a) = ∅ -> rg_paths (app_workspaces a) = ∅ ->
  wp (load_workspaces h cfg) a (fun _ a' => exists r s',
    same_but_workspaces (app_store a) s' /\ (unique_paths (app_db a) -> registry_ok r (st_db s')) /\
    a' = mkApp r (app_approvals (set_app_store s' a)) (app_audit a) (app_lifecycle a) (app_adapters a) (app_adapterEnv a)
           (app_agents a) (app_publisher a) (app_retention a)).
Proof.
  intros Hw Hp. unfold load_workspaces, db. wp_simp. unfold Registry_LoadFromConfig.
  apply wp_fold_each with (I := fun _ acc s' => same_but_workspaces (app_store a) s' /\
    (unique_paths (app_db a) -> registry_ok (ld_registry acc) (st_db s'))).
  - split; [reflexivity|]. intros Hu. cbn. destruct (app_workspaces a). cbn in Hw, Hp. subst. split; [done| |]; by intros ? ?.
  - intros cfg1 l acc s1 [H1 Hok1].
    pose proof (wp_load_one_rows (ho_paths h) acc cfg1 s1) as Ha. unfold wp in *.
    destruct (load_one (ho_paths h) acc cfg1 s1) as [acc2 s2] eqn:E. split; [by etransitivity|].
    intros Hu. pose proof (wp_load_one_ok (ho_paths h) acc cfg1 s1 (Hok1 Hu)) as Hb. unfold wp in Hb. by rewrite E in Hb.
  - intros acc s' [H Hok]. wp_simp. by exists (ld_registry acc), s'.
Qed.

(** *** The adapters *)

(** The entries of the configuration with this id that name an executable. *)
Definition entries_of (id : string) (l : list AdapterConfig) : list AdapterConfig :=
  filter (fun ac => ac_ID ac = id /\ ac_ExecPath ac <> "") l.

(** The adapters and their environments after the entries [l]. *)
Record configured (h : Host) (l : list AdapterConfig) (a : App Agents) : Prop := mk_configured {
  cd_adapters : app_adapters a =
    match last (entries_of "claude-code" l) with
    | Some _ => {["claude-code" := claude_part; "fake-adapter" := fake_part]}
    | None => {["fake-adapter" := fake_part]}
    end;
  cd_agents : app_agents a = (NewFakeAdapter (ho_fake h),
    match last (entries_of "claude-code" l) with
    | Some ac => configured_claude h ac
    | None => claude_New (ho_claude h) (ho_processes h) ""
    end);
  cd_env : forall id, app_adapterEnv a !! id =
    if decide (id = "") then None else ac_Env <$> last (filter (fun ac => ac_Env ac <> []) (entries_of id l))
}.

(** The rest of the application. *)
Definition rest_of (a : App Agents) :=
  (app_workspaces a, app_approvals a, app_audit a, app_lifecycle a, app_publisher a, app_retention a).

Lemma entries_snoc id l ac : entries_of id (l ++ [ac]) =
  entries_of id l ++ if decide (ac_ID ac = id /\ ac_ExecPath ac <> "") then [ac] else [].
Proof. unfold entries_of. rewrite filter_app, filter_cons, filter_nil. by case_decide. Qed.

Lemma configured_snoc h l ac a : configured h l a ->
  wp (register_configured h ac) a (fun _ a' => configured h (l ++ [ac]) a' /\ rest_of a' = rest_of a).
Proof.
  intros [Had Hag Hen]. unfold register_configured, agents, RegisterAdapter.
  destruct (decide (ac_ID ac = "" \/ ac_ExecPath ac = "")) as [Hskip|Huse]; wp_simp.
  { split; [|done]. split; rewrite ?entries_snoc.
    - rewrite decide_False by (intros [E ?]; destruct Hskip; congruence). by rewrite app_nil_r.
    - rewrite decide_False by (intros [E ?]; destruct Hskip; congruence). by rewrite app_nil_r.
    - intros id. rewrite Hen, entries_snoc. case_decide as Hid; [done|].
      rewrite decide_False; [by rewrite app_nil_r|]. intros [E ?]. destruct Hskip; congruence. }
  assert (Hx : ac_ExecPath ac <> "") by auto. assert (Hi : ac_ID ac <> "") by auto. clear Huse.
  assert (Hlast : forall a1, app_adapterEnv a1 = app_adapterEnv a -> forall id,
    app_adapterEnv (if decide (ac_Env ac = []) then a1 else set_adapterEnv (ac_ID ac) (ac_Env ac) a1) !! id =
    if decide (id = "") then None else ac_Env <$> last (filter (fun ac => ac_Env ac <> []) (entries_of id (l ++ [ac])))).
  { intros a1 E id. rewrite entries_snoc, filter_app. destruct (decide (ac_Env ac = [])) as [He|He].
    - rewrite E, Hen. case_decide; [done|]. f_equal. f_equal. rewrite <- (app_nil_r (filter _ (entries_of id l))) at 1.
      f_equal. case_decide; [|done]. rewrite filter_cons, filter_nil, decide_False; [done|]. by intros Hn.
    - cbn. rewrite E. destruct (decide (ac_ID ac = id)) as [<-|Hne].
      + rewrite lookup_insert_eq, !decide_False, decide_True by tauto.
        rewrite filter_cons, filter_nil, decide_True by done. by rewrite last_snoc.
      + rewrite lookup_insert_ne, Hen by done. case_decide; [done|]. rewrite decide_False by tauto. by rewrite app_nil_r. }
  assert (Hgoal : forall a1, configured h (l ++ [ac]) (if decide (ac_Env ac = []) then a1 else set_adapterEnv (ac_ID ac) (ac_Env ac) a1) /\
      rest_of (if decide (ac_Env ac = []) then a1 else set_adapterEnv (ac_ID ac) (ac_Env ac) a1) = rest_of a ->
    wp (if decide (ac_Env ac = []) then ret tt else modify (set_adapterEnv (ac_ID ac) (ac_Env ac))) a1
      (fun _ a' => configured h (l ++ [ac]) a' /\ rest_of a' = rest_of a)).
  { intros a1 H. case_decide; by wp_simp. }
  destruct (decide (ac_ID ac = "claude-code")) as [Hc|Hc]; wp_simp.
  - apply Hgoal. split; [|by case_decide]. split; [| |by apply Hlast]; rewrite entries_snoc;
      rewrite (decide_True (P := ac_ID ac = "claude-code" /\ _)) by done; rewrite last_snoc.
    + transitivity (<["claude-code" := claude_part]> (app_adapters a)); [by case_decide|].
      rewrite Had. destruct (last (entries_of "claude-code" l)); [|done]. apply insert_insert_eq.
    + rewrite <- (f_equal fst Hag : (app_agents a).1 = NewFakeAdapter (ho_fake h)). by case_decide.
  - apply Hgoal. split; [|by case_decide]. split; [| |by apply Hlast]; rewrite entries_snoc;
      rewrite (decide_False (P := ac_ID ac = "claude-code" /\ _)), app_nil_r by tauto; by case_decide.
Qed.

(** *** Starting *)

(** The sessions of [d'] are those of [d], the unfinished ones failed; other
    tables but the workspaces are as they were. *)
Definition sessions_failed (d d' : DB) : Prop :=
  exists d1, d1 = set_workspaces (workspaces d1) d /\ all_settled (recovered None) d1 d'.

(** A started process over the rows [s0]: nothing of an earlier one is left in
    memory. *)
Record came_up (h : Host) (cfg : Config) (s0 : Store) (g : Api Agents) : Prop := mk_came_up {
  ry_adapters : configured h (cfg_Adapters cfg) (api_app g);
  ry_running : Manager_IsAcceptingRuns (app_lifecycle (api_app g)) = true;
  ry_lifecycle : manager_ok (app_lifecycle (api_app g)) /\ lm_activeRuns (app_lifecycle (api_app g)) = ∅;
  ry_approvals : app_approvals (api_app g) =
    NewApprovalBridge (mkWorld [] (app_db (api_app g)) (st_env (app_store (api_app g))));
  ry_audit : wr_redactPatterns (app_audit (api_app g)) =
    sec_APIToken (cfg_Security cfg) :: sec_RedactionPatterns (cfg_Security cfg);
  ry_registry : unique_paths (st_db s0) -> registry_ok (app_workspaces (api_app g)) (app_db (api_app g));
  ry_publisher : app_publisher (api_app g) = Some [];
  ry_identity : id_challenges (api_identity g) = ∅ /\ id_accessExpiry (api_identity g) = sec_TokenExpiry (cfg_Security cfg);
  ry_idempotent : api_idempotent g = NewIdempotencyStore (24 * Hour);
  ry_config : api_config g = cfg;
  ry_env : env_after (st_env s0) (st_env (app_store (api_app g)));
  ry_rows : sessions_failed (st_db s0) (app_db (api_app g))
}.

Lemma wp_on_schema {A} (m : M Database A) d (Q : A -> Machine -> Prop) :
  wp (on_schema m) d Q <-> wp m (mkDatabase (ma_schema d) (st_env (ma_store d)))
    (fun a b => Q a (mkMachine (da_content b) (mkStore (st_db (ma_store d)) (da_env b)))).
Proof. unfold on_schema. by rewrite wp_zoom. Qed.

(** The application that [app.New] composes and fills. *)
Lemma wp_register_all h cfg s :
  wp (register_all h cfg) (composed h cfg s) (fun _ a => configured h (cfg_Adapters cfg) a /\ same_but_workspaces s (app_store a) /\
      app_approvals a = NewApprovalBridge (mkWorld [] (app_db a) (st_env (app_store a))) /\
      app_lifecycle a = NewManager s /\ app_publisher a = None /\ app_audit a = app_audit (composed h cfg s) /\
      (unique_paths (st_db s) -> registry_ok (app_workspaces a) (app_db a))).
Proof.
  unfold register_all, RegisterAdapter. wp_simp. set (a0 := mkApp _ _ _ _ _ _ _ _ _).
  apply (wp_for_each _ _ (fun rest a => exists dn, cfg_Adapters cfg = dn ++ rest /\ configured h dn a /\ rest_of a = rest_of a0)).
  - exists []. split; [done|]. split; [|done]. split; [done..|]. intros id. cbn. by case_decide.
  - intros ac rest a (dn & -> & Ha & Hr). eapply wp_mono; [by apply configured_snoc|]. cbn. intros _ a' [Ha' Hr'].
    exists (dn ++ [ac]). split; [by rewrite <- (assoc_L (++))|]. split; [done|congruence].
  - intros a (dn & E & Ha & Hr). rewrite app_nil_r in E. subst dn. wp_simp.
    destruct a as [aw aa au al ad ae ag ap ar]. unfold rest_of in Hr. cbn in Hr. injection Hr as -> -> -> -> -> ->.
    eapply wp_mono; [by apply wp_load_workspaces|]. intros _ a' (r & s' & Hs & Hreg & ->). destruct Ha as [H1 H2 H3].
    unfold app_store, app_db in *. cbn in *. destruct s as [d e], s' as [d' e']. cbn in *.
    split; [by split|]. do 5 (split; [done|]). exact Hreg.
Qed.

Lemma wp_boot h cfg d n : at_version n (ma_schema d) -> quiet (st_env (ma_store d)) -> titled (st_db (ma_store d)) ->
  wp (boot h cfg) d (fun r d' => exists g, r = Ok (NewWithApp g) /\ came_up h cfg (ma_store d) (srv_api (NewWithApp g)) /\
    at_version (length Migrations) (ma_schema d') /\ ma_store d' = app_store (api_app g)).
Proof.
  intros Hat Hq Ht. unfold boot. wp_simp. unfold app_New. wp_simp. rewrite wp_on_schema.
  eapply wp_mono; [by apply (wp_Open _ n)|]. intros [u|e] b [Hb Hr]; [|by destruct Hr].
  destruct Hr as [Hv _]. cbn in Hb. wp_simp. cbn [da_content da_env ma_schema ma_store]. set (s := mkStore _ _).
  pose proof (wp_register_all h cfg s) as Hc. unfold wp in Hc.
  destruct (register_all h cfg (composed h cfg s)) as [u1 a].
  cbn [snd] in Hc. destruct Hc as (Hcfg & [He Hrows] & Hap & Hlm & Hpub & Haud & Hreg). wp_simp. cbn.
  unfold core, zoom. cbn [api_app].
  assert (Hs : wp App_Start a (fun e a' => e = None /\ exists s2, env_after (st_env (app_store a)) (st_env s2) /\
     all_settled (recovered None) (app_db a) (st_db s2) /\
     a' = set_app_lifecycle (set_lm_phase PhaseRunning (set_lm_store s2 (NewManager s))) (set_app_store s2 a))).
  { unfold App_Start, lifecycle, Manager_Start, Start_check, Start_finish. wp_simp. cbn. rewrite Hlm, decide_False by (intros H; by apply H).
    wp_simp. rewrite wp_lifecycle_db. cbn. apply wp_reconcile;
      [eapply quiet_after; [|exact Hq]; by etransitivity|change (titled (st_db (app_store a))); rewrite Hrows; exact Ht|].
    intros r s2 He2 Hs2. wp_simp. split; [done|]. by exists s2. }
  unfold wp in Hs. destruct (App_Start a) as [e a']. cbn [fst snd] in Hs. destruct Hs as (-> & s2 & He2 & Hs2 & ->). wp_simp. cbn.
  eexists. split; [reflexivity|]. split; [|done]. destruct a as [aw aa au al ad ae ag ap ar].
  cbn in *. subst. destruct Hcfg as [H1 H2 H3]. constructor; cbn; try done.
  - split; [|done]. split; [by right; left|done|done].
  - rewrite Hap. done.
  - intros Hu. destruct Hs2 as [E _]. destruct (Hreg Hu) as [R1 R2 R3]. rewrite E. by split.
  - etransitivity; [exact Hb|]. by etransitivity.
  - by exists (w_store (ab_world aa)).
Qed.

(** *** Restarting *)

(** How a process ends: shut down, or killed. *)
Definition ended (how : option (string -> drain)) (g : Api Agents) : Api Agents :=
  match how with Some how => (Api_Shutdown how g).2 | None => g end.

(** The sessions whose run a shutdown did not see end. *)
Definition cut_off (how : option (string -> drain)) (g : Api Agents) (sid : string) : bool :=
  match how with
  | Some how => undrained how (map_to_list (lm_activeRuns (app_lifecycle (api_app g)))).*2 sid
  | None => false
  end.

Definition end_target (how : option (string -> drain)) (g : Api Agents) (sid : string) (row : SessionRow)
    : option string :=
  match how with
  | Some how => shut_target how (map_to_list (lm_activeRuns (app_lifecycle (api_app g)))).*2 sid row
  | None => None
  end.

Lemma wp_core {A} (m : M (App Agents) A) g (Q : A -> Api Agents -> Prop) :
  wp (core m) g Q <-> wp m (api_app g) (fun x a => Q x (set_api_app a g)).
Proof. unfold core. by rewrite wp_zoom. Qed.

Lemma wp_db_call (a : App Agents) (Q : option error -> App Agents -> Prop) :
  (forall e a', env_after (st_env (app_store a)) (st_env (app_store a')) -> app_db a' = app_db a -> Q e a') ->
  wp (db driver_call) a Q.
Proof.
  intros HQ. unfold db. rewrite wp_zoom. apply wp_driver_call; [intros e env He _|intros env He]; apply HQ; done.
Qed.

Lemma wp_Api_Shutdown how g (Q : outcome * option error -> Api Agents -> Prop) :
  lm_phase (app_lifecycle (api_app g)) = PhaseRunning -> manager_ok (app_lifecycle (api_app g)) ->
  quiet (st_env (app_store (api_app g))) -> titled (app_db (api_app g)) ->
  (forall x g', env_after (st_env (app_store (api_app g))) (st_env (app_store (api_app g'))) ->
    all_settled (end_target (Some how) g) (app_db (api_app g)) (app_db (api_app g')) -> Q x g') ->
  wp (Api_Shutdown how) g Q.
Proof.
  intros Hp [_ Hsh Hdn] Hq Ht HQ. rewrite Hp in Hsh, Hdn. unfold Api_Shutdown. wp_simp. rewrite wp_core.
  unfold App_Shutdown, lifecycle. rewrite wp_zoom. apply wp_Shutdown; cbn; [done|done|by right|..].
  - destruct (lm_shutdownCh _); [by destruct Hsh as [Hsh _]; specialize (Hsh eq_refl)|done].
  - destruct (lm_done _); [by destruct Hdn as [Hdn _]; specialize (Hdn eq_refl)|done].
  - intros s' He Hs. wp_simp. destruct (IdempotencyStore_Close _); wp_simp.
    + rewrite wp_core. apply wp_db_call. intros e a' He' Hd'. wp_simp. apply HQ; cbn.
      * etransitivity; [exact He|]. by destruct s'.
      * change (all_settled (end_target (Some how) g) (app_db (api_app g)) (app_db a')). rewrite Hd'. by destruct s'.
    + apply HQ; by destruct s'.
Qed.

(** A session that a shutdown settled and a start settled again. *)
Lemma settled_failed (st : bool) target sid now1 now2 row :
  (target sid row = None /\ st = isNonterminalState (sr_state row) \/
   target sid row = (if st then Some SessionStateRecovering else None) /\
   (isNonterminalState (sr_state row) = true -> st = true)) ->
  let row' := settled (recovered None) sid now2 (settled target sid now1 row) in
  if st then exists now, row' = upd_state SessionStateFailed now row else row' = row.
Proof.
  unfold settled, recovered. intros [[-> ->]|[-> Hst]]; cbn.
  - destruct (isNonterminalState (sr_state row)); [by exists now2|done].
  - destruct st; cbn; [by exists now2|]. destruct (isNonterminalState (sr_state row)); [by specialize (Hst eq_refl)|done].
Qed.

Lemma wp_ended how g :
  lm_phase (app_lifecycle (api_app g)) = PhaseRunning -> manager_ok (app_lifecycle (api_app g)) ->
  quiet (st_env (app_store (api_app g))) -> titled (app_db (api_app g)) ->
  quiet (st_env (app_store (api_app (ended how g)))) /\
  all_settled (end_target how g) (app_db (api_app g)) (app_db (api_app (ended how g))).
Proof.
  intros Hp Hok Hq Ht. destruct how as [how|]; cbn [ended]; [|split; [done|apply all_settled_refl]].
  apply (wp_Api_Shutdown how g (fun _ g' => quiet (st_env (app_store (api_app g'))) /\
    all_settled (end_target (Some how) g) (app_db (api_app g)) (app_db (api_app g')))); [done..|].
  intros x g' He Hs. split; [by eapply quiet_after|done].
Qed.


(** ** Serving *)

Lemma configure_valid args cfg : configure args = Ok cfg ->
  LoadConfig (ar_config args) (ar_readFile args (ar_config args)) = Ok cfg /\ Config_Validate cfg = None.
Proof.
  unfold configure. destruct (LoadConfig _ _) as [c|]; [|done]. destruct (Config_Validate c) eqn:Ev; [done|].
  destruct (createLogger _ _); [|done]. intros [= <-]. by split.
Qed.

Lemma all_settled_journal target d d' : all_settled target d d' -> journal_ok d -> journal_ok d'.
Proof.
  intros [E Hs] [H1 H2 H3 H4]. rewrite E. split; cbn; [done| |done|].
  - intros sid row' Hr. specialize (Hs sid). destruct (sessions d !! sid) as [row|] eqn:Er; [|congruence].
    destruct Hs as [now Hs]. rewrite Hs in Hr. injection Hr as <-. transitivity (sr_last_sequence row); [|by apply H2].
    unfold settled. by destruct (target sid row).
  - intros Hfk. eapply Forall_impl; [by apply H4|]. cbn. intros r [row Hr]. specialize (Hs (er_session_id r)).
    rewrite Hr in Hs. destruct Hs as [now ->]. done.
Qed.

Lemma sessions_failed_journal d d' : sessions_failed d d' -> journal_ok d -> journal_ok d'.
Proof.
  intros (d1 & E & Hs) H. eapply all_settled_journal; [exact Hs|]. rewrite E. destruct H. by split.
Qed.

(** What requests do matters only to a server that listens. *)
Lemma Server_Run_unserved net s serving serving' : Server_Run net serving s <> Server_Run net serving' s ->
  exists addr, nt_Listen net (config_address s) = Ok addr.
Proof.
  unfold Server_Run, bind, get. destruct (StorageConfig_EnsureDir _ _); [done|]. cbn.
  destruct (nt_Listen net (config_address s)) as [addr|]; [by exists addr|done].
Qed.


(** ** A server, restarted *)

Definition demo_host : Host :=
  mkHost (mkOS (inl "/srv") Canonical (fun _ => false)) steady_env steady_env ClaudeRun.demo_os (fun _ => 0).
Definition demo_cfg : Config :=
  mkConfig (mkServerConfig "127.0.0.1" 8080 Second Second Second) (mkStorageConfig "sqlite" "car.db" 1 1 0)
    [mkWorkspaceConfig "ws-1" "Demo" "/srv/demo" ["fake-adapter"] (mkExecutionPolicy false true [])]
    (mkSecurityConfig "0123456789abcdef" (12 * Hour) true [] "") (mkLoggingConfig "info" "text" "stdout") [].
Definition demo_disk : Machine := mkMachine (empty_schema, None) (mkStore empty_DB steady_env).

Definition created_id (r : result Session) : string := match r with Ok s => s_ID s | Err _ => "" end.

(** A client creates a session and starts a run. *)
Definition demo_serving : M (Api Agents) unit :=
  let! s := core (CreateSession "dev-1" (mkCreateSessionRequest "ws-1" "fake-adapter" "t")) in
  let! _ := core (StartRun "dev-1" (created_id s)) in ret tt.

Definition demo_booted : result CarServer * Machine := boot demo_host demo_cfg demo_disk.
Definition demo_up : Api Agents :=
  match demo_booted.1 with
  | Ok s => (demo_serving (srv_api s)).2
  | Err _ => mkApi (composed demo_host demo_cfg (ma_store demo_disk)) (NewService (ma_store demo_disk))
               (NewIdempotencyStore 0) demo_cfg (fun _ => 0)
  end.
Definition session_states (d : DB) : list string := sr_state <$> (map_to_list (sessions d)).*2.


Lemma demo_server_quiet : quiet (st_env (app_store (api_app demo_up))).
Proof. intros n. vm_compute. reflexivity. Qed.
Lemma demo_server_titled : titled (app_db (api_app demo_up)).
Proof. apply map_Forall_to_list. vm_compute. repeat constructor. discriminate. Qed.
Lemma demo_server_ok : manager_ok (app_lifecycle (api_app demo_up)).
Proof. split; [right; left; vm_compute; reflexivity|split; vm_compute; discriminate..]. Qed.
Lemma demo_schema_at : at_version (length Migrations) (ma_schema demo_booted.2).
Proof. split; [lia|]. split; [vm_compute; reflexivity|left; vm_compute; reflexivity]. Qed.


Definition demo_args : Args :=
  mkArgs "car.json" false (fun _ => Ok (json_bytes (JObj (encode_members demo_cfg)))) (fun _ => None).
Definition demo_net (listen : string -> result string) (shutdown : option error) : Net :=
  mkNet (fun _ => None) listen Signalled shutdown (fun _ => TimedOut).
Definition in_use : string -> result string := fun addr => Err (ErrNew "bind: address already in use").
Definition observed (x : exited * Machine) : exited * list string := (x.1, session_states (st_db (ma_store x.2))).


(** A shutdown leaves the sessions for the next start to settle; a connection that
    outlives the shutdown timeout prevents it: the process exits with its runs
    neither drained nor marked, and its database open. *)
Example busy_connection_skips_shutdown :
  observed (server_main demo_args demo_host (demo_net Ok None) demo_serving demo_disk) = (Exit 0, ["recovering"]) /\
  observed (server_main demo_args demo_host (demo_net Ok (Some (ErrNew "context deadline exceeded"))) demo_serving demo_disk) =
    (Exit 1, ["active"]).
Proof. split; vm_compute; reflexivity. Qed.

(** A second server on the database of a running one exits because the address is
    in use, but only after it failed the sessions of the first. *)
Example second_server_fails_sessions :
  let d := mkMachine (ma_schema demo_booted.2) (app_store (api_app demo_up)) in
  session_states (st_db (ma_store d)) = ["active"] /\
  observed (server_main demo_args demo_host (demo_net in_use None) (ret tt) d) = (Exit 1, ["failed"]).
Proof. split; vm_compute; reflexivity. Qed.
