(* ===== verification/ApiAuth.v ===== *)
(** * Who may use the HTTP API

    What [authenticate] accepts, that a request without credentials changes
    nothing, and what the open pairing endpoints hand out. *)

From S2P Require Import Prelude Env Json GoStrings JsonText Paths GoTime Auth Config Domain StateMachine.
From S2P Require Import Schema SessionRepo Journal ApprovalStore Approval Lifecycle Identity Adapter.
From S2P Require Import AuditLog Registry App AppEnv Errcat Http Api HttpServer.

Section ApiAuth.
Context {W : Type}.
Implicit Types (g : Api W).

(** ** Reading the environment only *)

Definition env_of g : Env := app_env (api_app g).

(** The same application in another environment. *)
Definition with_env (e : Env) g : Api W :=
  set_api_app (set_app_store (mkStore (app_db (api_app g)) e) (api_app g)) g.

(** Nothing has happened but readings of the environment. *)
Definition untouched g0 g : Prop := exists e, env_after (env_of g0) e /\ g = with_env e g0.

Lemma untouched_refl g : untouched g g.
Proof. exists (env_of g). split; [reflexivity|]. by destruct g as [[? [[]]] ? ? ?]. Qed.

Lemma untouched_env g0 g : untouched g0 g -> env_of g0 = env_of g \/ env_after (env_of g0) (env_of g).
Proof. intros (e & He & ->). by right. Qed.

Definition service_read (x0 x : Service) : Prop :=
  exists e, env_after (st_env (id_store x0)) e /\ x = set_id_store (mkStore (st_db (id_store x0)) e) x0.

Lemma read_in_store {A} (m : M Store A) x0 : later m -> db_rel eq m ->
  preserves (service_read x0) (in_store m).
Proof.
  intros Hl Hd x (e & He & ->). unfold in_store, zoom. cbn.
  specialize (Hl (mkStore (st_db (id_store x0)) e)). specialize (Hd (mkStore (st_db (id_store x0)) e)).
  destruct (m _) as [a [d e']]. cbn in *. subst d. exists e'. split; [by etransitivity|done].
Qed.

Lemma eq_getToken v : db_rel eq (getToken v).
Proof. unfold getToken. auto with db_rel typeclass_instances. Qed.
Lemma eq_getDeviceByID id : db_rel eq (getDeviceByID id).
Proof. unfold getDeviceByID. auto with db_rel typeclass_instances. Qed.
Lemma later_getToken v : later (getToken v).
Proof. unfold getToken. auto with later. Qed.
Lemma later_getDeviceByID id : later (getDeviceByID id).
Proof. unfold getDeviceByID. auto with later. Qed.

Lemma AuthorizeToken_reads token x0 : preserves (service_read x0) (Service_AuthorizeToken token).
Proof.
  unfold Service_AuthorizeToken.
  assert (H1 : preserves (service_read x0) (in_store (on_env time_Now)))
    by (apply read_in_store; [auto with later env|auto with db_rel typeclass_instances]).
  assert (H2 : preserves (service_read x0) (in_store (getToken token)))
    by (apply read_in_store; auto using later_getToken, eq_getToken).
  assert (H3 : forall id, preserves (service_read x0) (in_store (getDeviceByID id)))
    by (intros; apply read_in_store; auto using later_getDeviceByID, eq_getDeviceByID).
  apply preserves_bind; [done|]. intros now. apply preserves_bind; [done|].
  intros [tok|e]; auto with preserves.
Qed.

(** ** Authentication *)

(** The identity service as the API calls it. *)
Definition api_service g : Service := set_id_store (app_store (api_app g)) (api_identity g).

(** The credentials of a request make it the request of [a]. *)
Definition authenticated_as g (r : http_Request) (a : actor) : Prop :=
  let token := BearerToken (Header_Get r "Authorization") in
  token <> "" /\ actor_role a = "owner" /\
  (token = APIToken g /\ actor_id a = "owner" \/
   token <> APIToken g /\ authorizes (app_db (api_app g)) (time_Now (env_of g)).1 token (actor_id a)).

Lemma wp_identity_call {A} (m : M Service A) g (Q : A -> Api W -> Prop) :
  wp m (api_service g) (fun a x =>
    Q a (mkApi (set_app_store (id_store x) (api_app g)) (set_id_store (id_store (api_identity g)) x)
           (api_idempotent g) (api_config g) (api_zone g))) ->
  wp (identity m) g Q.
Proof. unfold identity. by rewrite wp_zoom. Qed.

Lemma wp_api_AuthorizeToken token g :
  wp (identity (Service_AuthorizeToken token)) g (fun d g' => untouched g g' /\
    (forall dev, d = Ok dev -> authorizes (app_db (api_app g)) (time_Now (env_of g)).1 token dev) /\
    (quiet (env_of g) -> forall dev,
       authorizes (app_db (api_app g)) (time_Now (env_of g)).1 token dev -> d = Ok dev)).
Proof.
  apply wp_identity_call.
  pose proof (wp_AuthorizeToken token (api_service g)) as (_ & Ha & Hq).
  pose proof (AuthorizeToken_reads token (api_service g) (api_service g)) as (e & He & Hx).
  { exists (env_of g). split; [reflexivity|]. by destruct g as [[? [[]]] ? ? ?]. }
  unfold wp. rewrite Hx. split; [|split; [exact Ha|exact Hq]].
  exists e. split; [exact He|]. by destruct g as [? [] ? ?].
Qed.

Lemma wp_authenticate r g :
  wp (authenticate r) g (fun res g' => untouched g g' /\
    (forall a, res = Ok a -> authenticated_as g r a) /\
    (quiet (env_of g) -> forall a, authenticated_as g r a -> res = Ok a)).
Proof.
  unfold authenticate, authenticated_as. set (token := BearerToken _).
  case_decide as Ht; wp_simp.
  { split; [apply untouched_refl|]. split; [done|]. by intros _ a [? _]. }
  destruct (ConstantTimeEqual token (APIToken g)) eqn:E; wp_simp.
  { apply ConstantTimeEqual_spec in E. split; [apply untouched_refl|]. split.
    - intros a [= <-]. cbn. auto.
    - intros _ [id role] (_ & Hr & [[_ Hi]|[? _]]); [|done]. cbn in *. by subst. }
  assert (Hne : token <> APIToken g) by (intros H; by rewrite (proj2 (ConstantTimeEqual_spec _ _) H) in E).
  wp_use wp_api_AuthorizeToken. intros d g' (Hu & Ha & Hq).
  destruct d as [dev|err]; wp_simp; (split; [exact Hu|]); split.
  - intros a [= <-]. cbn. split; [done|]. split; [done|]. right. split; [done|]. by apply Ha.
  - intros Hquiet [id role] (_ & Hr & [[? _]|[_ Hau]]); [done|]. cbn in *. subst role.
    specialize (Hq Hquiet id Hau). by injection Hq as ->.
  - done.
  - intros Hquiet [id role] (_ & Hr & [[? _]|[_ Hau]]); [done|]. by specialize (Hq Hquiet id Hau).
Qed.

(** ** Rules for handlers *)

Lemma untouched_trans g0 g1 g2 : untouched g0 g1 -> untouched g1 g2 -> untouched g0 g2.
Proof.
  intros (e1 & H1 & ->) (e2 & H2 & ->). exists e2. split; [|by destruct g0 as [[? [[]]] ? ? ?]].
  etransitivity; [exact H1|exact H2].
Qed.

Lemma wp_core_db {A} (m : M Store A) g (Q : A -> Api W -> Prop) : later m -> db_rel eq m ->
  (forall a g', untouched g g' -> Q a g') -> wp (core (db m)) g Q.
Proof.
  intros Hl Hd HQ. unfold core, db. rewrite !wp_zoom. apply wp_intro. intros a s E.
  specialize (Hl (app_store (api_app g))). specialize (Hd (app_store (api_app g))). rewrite E in Hl, Hd.
  apply HQ. exists (st_env s). split; [exact Hl|]. unfold with_env. destruct s. cbn in *. by subst.
Qed.

Lemma wp_api_env {A} (m : M Env A) g (Q : A -> Api W -> Prop) : reads m ->
  (forall a g', untouched g g' -> Q a g') -> wp (api_env m) g Q.
Proof. intros Hm. apply wp_core_db; [by apply later_on_env|auto with db_rel typeclass_instances]. Qed.

Context {T : Type} `{ResponseWriter T}.

Lemma wp_on_api {A} (m : M (Api W) A) (x : Exchange W T) (Q : A -> Exchange W T -> Prop) :
  wp m (ex_api x) (fun a g => Q a (mkExchange g (ex_w x))) -> wp (on_api m) x Q.
Proof. unfold on_api. by rewrite wp_zoom. Qed.

Lemma wp_on_writer (f : T -> T) (x : Exchange W T) (Q : unit -> Exchange W T -> Prop) :
  wp (on_writer f) x Q <-> Q tt (mkExchange (ex_api x) (f (ex_w x))).
Proof. done. Qed.

Lemma reads_requestID : reads Handlers_requestID.
Proof. unfold Handlers_requestID. apply reads_bind; auto with env. Qed.

(** The one answer of a handler, on any writer. *)
Definition reply (status : Z) (body : json) (w : T) : T :=
  rw_Write (json_bytes body ++ [newline]) (WriteHeader status (Header_Set "Content-Type" "application/json" w)).

Lemma wp_writeError status code message (x : Exchange W T) (Q : outcome -> Exchange W T -> Prop) :
  (forall id g, untouched (ex_api x) g ->
     Q Returned (mkExchange g (reply status (ErrorResponse code message id) (ex_w x)))) ->
  wp (Handlers_writeError status code message) x Q.
Proof.
  intros HQ. unfold Handlers_writeError. wp_simp. apply wp_on_api, wp_api_env; [apply reads_requestID|].
  intros id g Hg. unfold Handlers_writeJSON, writeEncoded. wp_simp. by apply HQ.
Qed.

(** Without credentials a protected handler is not reached. *)
Lemma wp_withAuth_refused (h : HandlerFunc (W:=W)) r (x : Exchange W T)
    (Q : outcome -> Exchange W T -> Prop) :
  (forall a, ~ authenticated_as (ex_api x) r a) ->
  (hq_Method r = MethodOptions -> Q Returned (mkExchange (ex_api x) (WriteHeader 204 (ex_w x)))) ->
  (forall message id g, untouched (ex_api x) g ->
     Q Returned (mkExchange g (reply 401 (ErrorResponse "unauthorized" message id) (ex_w x)))) ->
  wp (withAuth h T _ r) x Q.
Proof.
  intros Hno Hopt HQ. unfold withAuth. case_decide; [by apply Hopt|]. wp_simp. apply wp_on_api.
  wp_use wp_authenticate. intros [a|e] g (Hu & Ha & _); [by destruct (Hno a); apply Ha|].
  apply wp_writeError. intros id g' Hg'. apply HQ. by eapply untouched_trans.
Qed.
End ApiAuth.
#[export] Hint Rewrite @wp_on_writer : wp.

(** ** The whole server *)

Section Serve.
Context {W : Type} (ws : HandlerFunc (W:=W)).

(** The endpoints that need no credentials of the API: pairing, and the
    WebSocket gateway, which checks its own. *)
Definition open_path (path : string) : bool :=
  bool_decide (path = "/api/v1/pair") || has_prefix (chars "/api/v1/pair/") (chars path) ||
  bool_decide (path = "/api/v1/ws").

Lemma mux_match_in (routes : list (string * HandlerFunc (W:=W))) path route :
  mux_match routes path = Some route -> route ∈ routes /\ pattern_matches path route.1 = true.
Proof.
  unfold mux_match.
  assert (H : forall l best, (forall b, best = Some b -> b ∈ routes /\ pattern_matches path b.1 = true) ->
    (forall b, b ∈ l -> b ∈ routes /\ pattern_matches path b.1 = true) ->
    forall b, fold_left longest l best = Some b -> b ∈ routes /\ pattern_matches path b.1 = true).
  { induction l as [|x l IH]; intros best Hb Hl; cbn; [exact Hb|].
    apply IH; [|intros b Hin; apply Hl; by right]. intros b. unfold longest.
    destruct best as [b0|]; [case_decide|]; try (by intros [= <-]; apply Hl; left). by apply Hb. }
  intros E. eapply H; [| |exact E]; [done|]. intros b [? ?]%list_elem_of_filter. done.
Qed.

(** What a request without credentials is answered. *)
Definition refusal (r : http_Request) (s : served) : Prop :=
  match s with
  | Answered a =>
      an_status a = 401 \/ hq_Method r = MethodOptions /\ an_status a = 204 /\ an_body a = [] \/
      hq_Path r = "/health" \/ hq_Path r = "/ready"
  | Redirected _ | Unrouted => True
  | Closed => False
  end.

Definition refused (r : http_Request) (h : HandlerFunc (W:=W)) : Prop := forall g,
  (forall a, ~ authenticated_as g r a) ->
  wp (run_handler h r) g (fun s g' => untouched g g' /\ refusal r s).

Lemma run_handler_wp (h : HandlerFunc (W:=W)) r g (Q : served -> Api W -> Prop) :
  wp (h HttpResponse _ r) (mkExchange g new_response) (fun o x =>
    Q (match o with Returned => Answered (finish (ex_w x)) | Panicked => Closed end) (ex_api x)) ->
  wp (run_handler h r) g Q.
Proof. unfold wp, run_handler. by destruct (h _ _ _ _). Qed.

Lemma refusal_reply r message id w : hr_sent w = None ->
  refusal r (Answered (finish (reply 401 (ErrorResponse "unauthorized" message id) w))).
Proof. destruct w as [h o b]. cbn [hr_sent]. intros ->. by left. Qed.
Lemma refusal_preflight r w : hq_Method r = MethodOptions -> hr_sent w = None -> hr_Body w = [] ->
  refusal r (Answered (finish (WriteHeader 204 w))).
Proof. destruct w as [h o b]. cbn [hr_sent hr_Body]. intros Hm -> ->. right. by left. Qed.

Lemma refused_on_writer h r g w : hr_sent w = None -> hr_Body w = [] ->
  (forall a, ~ authenticated_as g r a) ->
  wp (withAuth h HttpResponse _ r) (mkExchange g w) (fun o (x : Exchange W HttpResponse) => untouched g (ex_api x) /\
    refusal r (match o with Returned => Answered (finish (ex_w x)) | Panicked => Closed end)).
Proof.
  intros Hs Hb Hno. apply wp_withAuth_refused; [exact Hno|..].
  - intros Hm. split; [apply untouched_refl|]. by apply refusal_preflight.
  - intros message id g' Hg'. split; [exact Hg'|]. by apply refusal_reply.
Qed.

Lemma refused_withAuth h r : refused r (withAuth h).
Proof. intros g Hno. apply run_handler_wp. by apply refused_on_writer. Qed.

Lemma refused_withCORS h r : refused r (withCORS (withAuth h)).
Proof.
  intros g Hno. apply run_handler_wp. unfold withCORS. wp_simp.
  apply wp_on_api. rewrite wp_gets. case_decide; wp_simp; by apply refused_on_writer.
Qed.

(** The server's own pages answer everybody, and change nothing. *)
Lemma untouched_page (h : HandlerFunc (W:=W)) r : hq_Path r = "/health" \/ hq_Path r = "/ready" ->
  (forall x : Exchange W HttpResponse, wp (h HttpResponse _ r) x (fun o x' =>
     o = Returned /\ untouched (ex_api x) (ex_api x'))) ->
  refused r h.
Proof.
  intros Hp Hh g _. apply run_handler_wp. wp_use Hh. intros o x [-> Hu].
  split; [exact Hu|]. right. by right.
Qed.

Lemma reads_generateRequestID : reads generateRequestID.
Proof. unfold generateRequestID. apply reads_bind; auto with env. Qed.

Lemma health_page (r : http_Request) (x : Exchange W HttpResponse) :
  wp (Server_withCORS Server_healthHandler HttpResponse _ r) x (fun o x' =>
    o = Returned /\ untouched (ex_api x) (ex_api x')).
Proof.
  unfold Server_withCORS, Server_healthHandler, Server_writeError, writeEncoded. wp_simp.
  case_decide; wp_simp; [split; [done|apply untouched_refl]|].
  case_decide; wp_simp; [|split; [done|apply untouched_refl]].
  apply wp_on_api, wp_api_env; [apply reads_generateRequestID|]. intros id g Hg. by wp_simp.
Qed.

Lemma ready_page recorder (r : http_Request) (x : Exchange W HttpResponse) :
  wp (Server_withCORS (DiagnosticView_HTTPHandler recorder) HttpResponse _ r) x (fun o x' =>
    o = Returned /\ untouched (ex_api x) (ex_api x')).
Proof.
  unfold Server_withCORS, DiagnosticView_HTTPHandler, DiagnosticView_Status. wp_simp.
  case_decide; wp_simp; [split; [done|apply untouched_refl]|].
  apply wp_on_api. wp_simp. apply wp_api_env; [auto with env|]. intros now g1 H1. wp_simp.
  apply wp_core_db; [auto with later|auto with db_rel typeclass_instances|]. intros e g2 H2.
  wp_simp. destruct (encode_HealthStatus _); wp_simp; (split; [done|by eapply untouched_trans]).
Qed.

(** A pattern that does not end with a slash matches itself only. *)
Lemma exact_pattern path pattern : has_suffix [slash] (chars pattern) = false ->
  pattern_matches path pattern = true -> path = pattern.
Proof.
  unfold pattern_matches. intros -> H. rewrite andb_false_l, orb_false_r in H.
  by apply bool_decide_eq_true in H.
Qed.

Lemma Server_routes_cases route : route ∈ Server_routes ws ->
  (exists h, route.2 = withAuth h) \/ (exists h, route.2 = withCORS (withAuth h)) \/
  route.1 = "/api/v1/pair" \/ route.1 = "/api/v1/pair/" \/ route.1 = "/api/v1/ws" \/
  route = ("/health", Server_withCORS Server_healthHandler) \/
  route = ("/ready", Server_withCORS (DiagnosticView_HTTPHandler NewRecorder)).
Proof.
  unfold Server_routes, api_routes. cbn [app]. rewrite !elem_of_cons, elem_of_nil.
  intros [->|[->|[->|[->|[->|[->|[->|[->|[->|[->|[->|[]]]]]]]]]]]]; cbn [fst snd].
  - do 5 right. by left.
  - right. left. by eexists.
  - right. left. by eexists.
  - right. left. by eexists.
  - do 2 right. by left.
  - do 3 right. by left.
  - left. by eexists.
  - left. by eexists.
  - left. by eexists.
  - do 4 right. by left.
  - by do 6 right.
Qed.

Lemma route_refused r route : route ∈ Server_routes ws ->
  pattern_matches (hq_Path r) route.1 = true -> open_path (hq_Path r) = false -> refused r route.2.
Proof.
  intros Hin Hm Hopen. unfold open_path in Hopen.
  apply orb_false_iff in Hopen as [Hopen Hws]. apply orb_false_iff in Hopen as [Hpair Hsub].
  apply bool_decide_eq_false in Hws, Hpair.
  apply Server_routes_cases in Hin as [[h ->]|[[h ->]|[H|[H|[H|[->| ->]]]]]].
  - apply refused_withAuth.
  - apply refused_withCORS.
  - rewrite H in Hm. by apply exact_pattern in Hm.
  - rewrite H in Hm. unfold pattern_matches in Hm. rewrite Hsub, andb_false_r, orb_false_r in Hm.
    apply bool_decide_eq_true in Hm. rewrite <- Hm in Hsub. done.
  - rewrite H in Hm. by apply exact_pattern in Hm.
  - apply untouched_page; [left; by apply exact_pattern in Hm|apply health_page].
  - apply untouched_page; [right; by apply exact_pattern in Hm|apply ready_page].
Qed.
End Serve.

(** C6: Without credentials nothing happens.  Whatever the state, the method, the
    path, the headers and the body, a request that presents neither the
    configured token nor a good device token, to any path but the pairing
    endpoints and the WebSocket gateway, leaves everything as it was (tables,
    agents, approvals, idempotency keys, challenges); it is redirected, unknown,
    answered 401, a preflight answered 204 without a body, or one of the two
    health pages. *)
Theorem unauthenticated_changes_nothing {W} (ws : HandlerFunc (W:=W)) r g :
  (forall a, ~ authenticated_as g r a) -> open_path (hq_Path r) = false ->
  let '(s, g') := http_serve (Server_routes ws) r g in untouched g g' /\ refusal r s.
Proof.
  intros Hno Hopen.
  assert (Hw : wp (http_serve (Server_routes ws) r) g (fun s g' => untouched g g' /\ refusal r s));
    [|unfold wp in Hw; by destruct (http_serve _ r g)].
  unfold http_serve. case_decide as Hp; wp_simp; [split; [apply untouched_refl|done]|].
  rewrite Hp. destruct (mux_match _ (hq_Path r)) as [[pat h]|] eqn:E.
  - apply mux_match_in in E as [Hin Hm]. exact (route_refused ws r (pat, h) Hin Hm Hopen g Hno).
  - destruct (mux_match _ (hq_Path r +:+ "/")) as [[pat h]|]; wp_simp; (split; [apply untouched_refl|]); [by case_decide|done].
Qed.

(** ** A concrete server *)

Definition demo_api : Api nat :=
  mkApi demo_app (NewService demo_store) (NewIdempotencyStore (24 * Hour)) demo_config (fun _ => 0).
Definition demo_ws : HandlerFunc (W:=nat) := fun T _ r => ret Returned.
Definition demo_call (method path : string) (header : list (string * string)) (body : string) : http_Request :=
  mkHttpRequest method path [] header (chars body) None None.
Definition demo_serve (r : http_Request) : M (Api nat) served := http_serve (Server_routes demo_ws) r.

Definition demo_stop : http_Request :=
  demo_call "POST" "/api/v1/sessions/ses-1/interrupt" [("Authorization", "Bearer guess")] "".

Lemma unauthenticated_changes_nothing_witness :
  (exists e, (demo_serve demo_stop demo_api).2 = with_env e demo_api) /\
  match (demo_serve demo_stop demo_api).1 with Answered a => an_status a = 401 | _ => False end.
Proof.
  split; [|vm_compute; reflexivity].
  pose proof (unauthenticated_changes_nothing demo_ws demo_stop demo_api) as H.
  assert (Hno : forall a, ~ authenticated_as demo_api demo_stop a).
  { intros a (_ & _ & [[H1 _]|(_ & t & r & Ht & _)]); [vm_compute in H1; discriminate H1|].
    vm_compute in Ht. discriminate Ht. }
  specialize (H Hno eq_refl). unfold demo_serve.
  destruct (http_serve (Server_routes demo_ws) demo_stop demo_api) as [s g'].
  destruct H as [(e & _ & ->) _]. by exists e.
Defined.

(** A member of the JSON object that a client is sent. *)
Definition sent_member (k : string) (s : served) : string :=
  match s with
  | Answered a =>
      match json_parse_bytes (an_body a) with
      | Some (JObj p) => match snd <$> (snd <$> list_find (fun kv => kv.1 = k) p) with
                         | Some (JStr v) => v | _ => "" end
      | _ => ""
      end
  | _ => ""
  end.
Definition status_of (s : served) : Z := match s with Answered a => an_status a | _ => 0 end.

(** Two requests without credentials make anybody an owner: the challenge is
    handed to whoever asks for it, and nobody confirms the device. *)
Example stranger_becomes_owner :
  let '(s1, g1) := demo_serve (demo_call "POST" "/api/v1/pair" [] "") demo_api in
  let '(s2, g2) := demo_serve (demo_call "POST" ("/api/v1/pair/" +:+ sent_member "code" s1) []
                                 (dq "{'device_name': 'x', 'device_pub_key': 'y'}")) g1 in
  let '(s3, g3) := demo_serve (demo_call "POST" "/api/v1/sessions"
                                 [("Authorization", "Bearer " +:+ sent_member "access_token" s2);
                                  ("Idempotency-Key", "key-00001")]
                                 (dq "{'workspace_id': 'ws-1', 'adapter_id': 'fake-adapter'}")) g2 in
  (status_of s1, status_of s2, status_of s3) = (200, 201, 201).
Proof. vm_compute. reflexivity. Qed.
