(* ===== verification/ApiReplay.v ===== *)
(** * A retried command is replayed

    The handlers of the API leave the idempotency store alone, answer once, and
    only read on in the environment; so what [withIdempotency] stored under a
    key is what every later command with that key is answered, until it
    expires. *)

From S2P Require Import Prelude Env Json GoStrings JsonText GoTime Auth Config Domain StateMachine.
From S2P Require Import Schema SessionRepo Journal ApprovalStore Approval Lifecycle Identity Adapter.
From S2P Require Import AuditLog Registry App AppEnv Errcat Http Api HttpServer ApiAuth.

(** ** Computations whose effect stays within a preorder on the state *)

Definition stays {S A} (R : relation S) (m : M S A) : Prop := forall s, R s (m s).2.

Section Stays.
Context {S : Type} (R : relation S) `{!PreOrder R}.
Lemma stays_ret {A} (a : A) : stays R (ret a).
Proof. intros s. cbn. reflexivity. Qed.
Lemma stays_get : stays R get.
Proof. intros s. cbn. reflexivity. Qed.
Lemma stays_gets {A} (f : S -> A) : stays R (gets f).
Proof. intros s. cbn. reflexivity. Qed.
Lemma stays_bind {A B} (m : M S A) (k : A -> M S B) :
  stays R m -> (forall a, stays R (k a)) -> stays R (bind m k).
Proof.
  intros Hm Hk s. unfold bind. specialize (Hm s). destruct (m s) as [a s']. cbn in Hm.
  etransitivity; [exact Hm|apply Hk].
Qed.
Lemma stays_try {A B} w (m : M S (result A)) (k : A -> M S (result B)) :
  stays R m -> (forall a, stays R (k a)) -> stays R (try_bind w m k).
Proof. intros Hm Hk. apply stays_bind; [done|]. intros [a|e]; [apply Hk|apply stays_ret]. Qed.
End Stays.

Create HintDb stays.
#[export] Hint Resolve stays_ret stays_get stays_gets stays_bind stays_try : stays.
#[export] Hint Extern 2 (stays _ (match ?x with _ => _ end)) => destruct x : stays.

(** ** The identity service *)

Definition service_later (x x' : Service) : Prop := env_after (st_env (id_store x)) (st_env (id_store x')).
#[export] Instance service_later_preorder : PreOrder service_later.
Proof. split; [intros x|intros x y z]; unfold service_later; [reflexivity|by etransitivity]. Qed.

Lemma stays_in_store {A} (m : M Store A) : later m -> stays service_later (in_store m).
Proof.
  intros Hm x. unfold in_store, zoom. specialize (Hm (id_store x)). by destruct (m (id_store x)).
Qed.
Lemma stays_service_modify f : (forall x, id_store (f x) = id_store x) -> stays service_later (modify f).
Proof. intros Hf x. unfold service_later. cbn. by rewrite Hf. Qed.
#[local] Hint Resolve stays_in_store : stays.
#[local] Hint Extern 1 (stays service_later (modify _)) => apply stays_service_modify; intros; done : stays.
#[local] Hint Extern 1 (PreOrder _) => apply _ : stays.

Lemma reads_newID p : reads (newID p).
Proof. apply reads_bind; [auto with env|]. intros [b|]; [auto with env|]. apply reads_bind; auto with env. Qed.
Lemma reads_challenge_code : reads generateChallengeCode.
Proof. unfold generateChallengeCode. apply reads_bind; [auto with env|]. intros []; auto with env. Qed.
#[local] Hint Resolve reads_newID reads_challenge_code : env.

Lemma later_issueToken id now ttl : later (issueToken id now ttl).
Proof. unfold issueToken, deleteExpiredTokens, persistToken. auto 20 with later env. Qed.
Lemma later_updateDevice d : later (updateDevice d).
Proof. unfold updateDevice. auto 20 with later. Qed.
#[local] Hint Resolve later_issueToken later_updateDevice later_getDeviceByID later_getToken : later.
Lemma later_register name key now expiry : later (PairDevice_register name key now expiry).
Proof. unfold PairDevice_register, persistDevice. auto 20 with later env. Qed.
#[local] Hint Resolve later_register : later.
#[local] Hint Extern 1 (later _) => solve [auto 10 with later env] : stays.

Lemma stays_CreateChallenge ttl : stays service_later (Service_CreateChallenge ttl).
Proof. unfold Service_CreateChallenge. auto 20 with stays. Qed.
Lemma stays_PairDevice code name key : stays service_later (Service_PairDevice code name key).
Proof. unfold Service_PairDevice, PairDevice_consume. auto 20 with stays. Qed.
Lemma stays_RevokeDevice id : stays service_later (Service_RevokeDevice id).
Proof. unfold Service_RevokeDevice. auto 20 with stays. Qed.
Lemma stays_AuthorizeToken token : stays service_later (Service_AuthorizeToken token).
Proof. unfold Service_AuthorizeToken. auto 20 with stays. Qed.
#[local] Hint Resolve stays_CreateChallenge stays_PairDevice stays_RevokeDevice stays_AuthorizeToken : stays.

(** ** The handlers leave the idempotency store alone *)

Section Steps.
Context {W : Type}.

Definition steps (g g' : Api W) : Prop :=
  env_after (env_of g) (env_of g') /\ api_idempotent g' = api_idempotent g.
#[export] Instance steps_preorder : PreOrder steps.
Proof.
  split; [by intros g; split|]. intros g1 g2 g3 [H1 H2] [H3 H4].
  split; [by etransitivity|congruence].
Qed.

Lemma stays_core {A} (m : M (App W) A) : (forall e0, preserves (onward e0) m) -> stays steps (core m).
Proof.
  intros Hm g. unfold core, zoom. specialize (Hm (env_of g) (api_app g)).
  destruct (m (api_app g)) as [a x]. split; [|done]. apply Hm. unfold onward. reflexivity.
Qed.
Lemma stays_identity {A} (m : M Service A) : stays service_later m -> stays steps (identity m).
Proof.
  intros Hm g. unfold identity, zoom.
  specialize (Hm (set_id_store (app_store (api_app g)) (api_identity g))). unfold service_later in Hm.
  destruct (m _) as [a x]. split; [exact Hm|done].
Qed.
Lemma untouched_steps g g' : untouched g g' -> steps g g'.
Proof. intros (e & He & ->). by split. Qed.
Lemma stays_api_env {A} (m : M Env A) : reads m -> stays steps (api_env m).
Proof.
  intros Hm g. apply (wp_api_env m g (fun _ g' => steps g g')); [done|]. intros a g'. apply untouched_steps.
Qed.

Definition xsteps {T} (x x' : Exchange W T) : Prop := steps (ex_api x) (ex_api x').
#[export] Instance xsteps_preorder {T} : PreOrder (@xsteps T).
Proof. split; [intros x|intros x y z]; unfold xsteps; [reflexivity|by etransitivity]. Qed.

Lemma stays_on_api {A T} (m : M (Api W) A) : stays steps m -> stays xsteps (on_api (T:=T) m).
Proof.
  intros Hm x. unfold on_api, zoom. specialize (Hm (ex_api x)). by destruct (m (ex_api x)).
Qed.
Lemma stays_on_writer {T} (f : T -> T) : stays xsteps (on_writer (W:=W) f).
Proof. intros x. unfold xsteps. cbn. reflexivity. Qed.

#[local] Hint Extern 1 (PreOrder _) => apply _ : stays.
#[local] Hint Resolve stays_core stays_identity stays_api_env stays_on_api stays_on_writer
  reads_requestID : stays.
#[local] Hint Extern 1 (preserves _ _) => solve [auto with preserves] : stays.
#[local] Hint Extern 1 (reads _) => solve [auto with env] : stays.

(** A handler that only moves on. *)
Definition calm (h : HandlerFunc (W:=W)) : Prop := forall T (HT : ResponseWriter T) r, stays xsteps (h T HT r).

Context {T : Type} {HT : ResponseWriter T}.
Abbreviation calmly m := (stays (xsteps (T:=T)) m).

Lemma calm_writeEncoded st b : calmly (writeEncoded st b).
Proof. unfold writeEncoded. auto 20 with stays. Qed.
Lemma calm_writeJSON st b : calmly (Handlers_writeJSON st b).
Proof. apply calm_writeEncoded. Qed.
#[local] Hint Resolve calm_writeEncoded calm_writeJSON : stays.
Lemma calm_writeError st c m : calmly (Handlers_writeError st c m).
Proof. unfold Handlers_writeError. auto 20 with stays. Qed.
Lemma calm_pairingError st c m : calmly (writePairingError st c m).
Proof. unfold writePairingError. auto 20 with stays. Qed.
#[local] Hint Resolve calm_writeError calm_pairingError : stays.
Lemma calm_service_error {A} (m : M (Api W) (result A)) k :
  stays steps m -> (forall a, calmly (k a)) -> calmly (or_service_error m k).
Proof. intros Hm Hk. unfold or_service_error, Handlers_writeServiceError. auto 20 with stays. Qed.
Lemma calm_bad_request {A} (r : result A) k : (forall a, calmly (k a)) -> calmly (or_bad_request r k).
Proof. intros Hk. unfold or_bad_request. auto 20 with stays. Qed.
#[local] Hint Resolve calm_service_error calm_bad_request : stays.

Lemma calm_listSessions : calmly Handlers_listSessions.
Proof. unfold Handlers_listSessions. auto 20 with stays. Qed.
Lemma calm_createSession r : calmly (Handlers_createSession r).
Proof. unfold Handlers_createSession. auto 20 with stays. Qed.
Lemma calm_getSession id : calmly (Handlers_getSession id).
Proof. unfold Handlers_getSession. auto 20 with stays. Qed.
Lemma calm_startRun r id : calmly (Handlers_startRun r id).
Proof. unfold Handlers_startRun. auto 20 with stays. Qed.
Lemma calm_submitPrompt r id : calmly (Handlers_submitPrompt r id).
Proof. unfold Handlers_submitPrompt. auto 20 with stays. Qed.
Lemma calm_interrupt r id : calmly (Handlers_interrupt r id).
Proof. unfold Handlers_interrupt. auto 20 with stays. Qed.
Lemma calm_getEvents r id : calmly (Handlers_getEvents r id).
Proof. unfold Handlers_getEvents. auto 20 with stays. Qed.
Lemma calm_getApproval id : calmly (Handlers_getApproval id).
Proof. unfold Handlers_getApproval, approval_at. auto 20 with stays. Qed.
Lemma calm_decideApproval r id : calmly (Handlers_decideApproval r id).
Proof.
  unfold Handlers_decideApproval, approval_at. apply calm_bad_request. intros _.
  apply calm_bad_request. intros [d reason]. apply calm_service_error; auto 20 with stays.
Qed.
Lemma calm_pair r : calmly (PairingHandlers_pair r).
Proof. unfold PairingHandlers_pair. auto 20 with stays. Qed.
Lemma calm_confirmPair r : calmly (PairingHandlers_confirmPair r).
Proof. unfold PairingHandlers_confirmPair. auto 20 with stays. Qed.
Lemma calm_me r : calmly (PairingHandlers_me r).
Proof. unfold PairingHandlers_me. auto 20 with stays. Qed.
Lemma calm_devices r : calmly (PairingHandlers_devices r).
Proof. unfold PairingHandlers_devices. auto 20 with stays. Qed.
Lemma calm_deviceAction r : calmly (PairingHandlers_deviceAction r).
Proof. unfold PairingHandlers_deviceAction. destruct (split_resource _). auto 20 with stays. Qed.
Lemma calm_authenticate r : stays steps (authenticate r).
Proof. unfold authenticate. auto 20 with stays. Qed.
Lemma calm_health r : calmly (Server_healthHandler T HT r).
Proof. unfold Server_healthHandler, Server_writeError, generateRequestID. auto 20 with stays. Qed.
Lemma calm_ready rec r : calmly (DiagnosticView_HTTPHandler rec T HT r).
Proof.
  unfold DiagnosticView_HTTPHandler, DiagnosticView_Status, ReadinessProbe.
  assert (Hd : stays steps (core (W:=W) (db driver_call)))
    by (apply stays_core; intros; apply onward_db; auto with later).
  auto 20 with stays.
Qed.
End Steps.
#[local] Hint Extern 1 (PreOrder _) => apply _ : stays.

(** ** An entry is held until it expires *)

Section Held.
Context {W : Type} (e0 : Env) (key : string) (entry : idempotencyEntry).

(** No clock reading up to the state [g] is after the entry's expiry. *)
Definition in_time (g : Api W) : Prop :=
  forall n, (n < env_ticks (env_of g))%nat -> env_clock e0 n <= ie_expiresAt entry.

Definition held (g : Api W) : Prop :=
  env_after e0 (env_of g) /\ (in_time g -> is_keys (api_idempotent g) !! key = Some entry).

Lemma in_time_before g g' : env_after (env_of g) (env_of g') -> in_time g' -> in_time g.
Proof. intros He Ht n Hn. apply Ht. pose proof (after_ticks _ _ He). lia. Qed.

Lemma held_steps g g' : held g -> steps g g' -> held g'.
Proof.
  intros [He Hk] [He' Hi]. split; [by etransitivity|]. intros Ht. rewrite Hi.
  by apply Hk, (in_time_before g g').
Qed.

(** The reading of a clock that a later state has passed is in time. *)
Lemma wp_lookup k g (Q : option (string * Z) -> Api W -> Prop) :
  (forall g', untouched g g' -> (env_ticks (env_of g) < env_ticks (env_of g'))%nat ->
     Q (IdempotencyStore_Get (env_clock (env_of g) (env_ticks (env_of g))) k (api_idempotent g)) g') ->
  wp (idempotent_Get k) g Q.
Proof.
  intros HQ. unfold idempotent_Get, api_env, core, db, on_env. wp_simp. unfold wp. cbn -[env_of].
  apply (HQ (with_env (env_tick (env_of g)) g)); [|cbn; lia].
  exists (env_tick (env_of g)). split; [apply env_after_tick|done].
Qed.

Lemma wp_store k body status g (Q : unit -> Api W -> Prop) :
  (forall g', untouched g g' -> (env_ticks (env_of g) < env_ticks (env_of g'))%nat ->
     Q tt (set_api_idempotent (IdempotencyStore_Add (env_clock (env_of g) (env_ticks (env_of g))) k
                                 (text body) status (api_idempotent g)) g')) ->
  wp (idempotent_Add k body status) g Q.
Proof.
  intros HQ. unfold idempotent_Add, api_env, core, db, on_env. wp_simp. unfold wp. cbn -[env_of].
  apply (HQ (with_env (env_tick (env_of g)) g)); [|cbn; lia].
  exists (env_tick (env_of g)). split; [apply env_after_tick|done].
Qed.

(** Such a handler keeps the entry. *)
Definition keeping (h : HandlerFunc (W:=W)) : Prop := forall T (HT : ResponseWriter T) r (x : Exchange W T),
  held (ex_api x) -> held (ex_api (h T HT r x).2).

Lemma calm_keeping h : calm h -> keeping h.
Proof. intros Hc T HT r x Hx. eapply held_steps; [exact Hx|apply Hc]. Qed.

Lemma held_other k body status now g : held g -> k <> key ->
  held (set_api_idempotent (IdempotencyStore_Add now k body status (api_idempotent g)) g).
Proof.
  intros [He Hk] Hne. split; [exact He|]. intros Ht. cbn. rewrite lookup_insert_ne by done. by apply Hk.
Qed.

(** The entry, while it is in time, is a hit for its key. *)
Lemma hit g g' : held g -> untouched g g' -> (env_ticks (env_of g) < env_ticks (env_of g'))%nat ->
  in_time g' ->
  IdempotencyStore_Get (env_clock (env_of g) (env_ticks (env_of g))) key (api_idempotent g) =
    Some (ie_response entry, ie_status entry).
Proof.
  intros [He Hk] Hu Hlt Ht. unfold IdempotencyStore_Get.
  rewrite Hk by (eapply in_time_before; [apply untouched_steps, Hu|exact Ht]).
  rewrite (after_clock _ _ He). by rewrite decide_False by (specialize (Ht _ Hlt); lia).
Qed.

Lemma keeping_bind {A T} (m : M (Exchange W T) A) (k : A -> M (Exchange W T) outcome) x :
  stays xsteps m -> (forall a x', held (ex_api x') -> held (ex_api (k a x').2)) ->
  held (ex_api x) -> held (ex_api (bind m k x).2).
Proof.
  intros Hm Hk Hx. unfold bind. specialize (Hm x). destruct (m x) as [a x']. apply Hk.
  eapply held_steps; [exact Hx|exact Hm].
Qed.

Lemma keeping_withAuth h : keeping h -> keeping (withAuth h).
Proof.
  intros Hh T HT r x Hx. unfold withAuth. case_decide.
  - eapply held_steps; [exact Hx|]. unfold xsteps, bind. cbn. reflexivity.
  - apply keeping_bind; [apply stays_on_api, calm_authenticate| |exact Hx].
    intros [a|e] x' Hx'; [by apply Hh|]. eapply held_steps; [exact Hx'|apply calm_writeError].
Qed.

Lemma keeping_withCORS h : keeping h -> keeping (withCORS h).
Proof.
  intros Hh T HT r x Hx. unfold withCORS.
  repeat (apply keeping_bind; [|intros _ ? ?|done]); try apply stays_on_writer.
  apply keeping_bind; [apply stays_on_api, stays_gets, _| |done]. intros allowed x1 Hx1.
  apply keeping_bind; [|intros _ ? ?; by apply Hh|done].
  case_decide; [apply stays_on_writer|apply stays_ret, _].
Qed.

Lemma keeping_serverCORS h : keeping h -> keeping (Server_withCORS h).
Proof.
  intros Hh T HT r x Hx. unfold Server_withCORS.
  repeat (apply keeping_bind; [apply stays_on_writer|intros _ ? ?|done]).
  case_decide; [|by apply Hh]. apply keeping_bind; [apply stays_on_writer|done..].
Qed.

Lemma stays_recorded {T} {HT : ResponseWriter T} h r : calm h -> stays (xsteps (W:=W)) (recorded (T:=T) h r).
Proof.
  intros Hh x. unfold recorded.
  specialize (Hh _ recording r (mkExchange (ex_api x) (newRecordingWriter (ex_w x)))).
  destruct (h _ _ _ _) as [o y]. exact Hh.
Qed.

(** What is left after a miss of another key. *)
Lemma keeping_recorded {T} {HT : ResponseWriter T} h r k x : calm h -> k <> key ->
  held (ex_api x) ->
  held (ex_api ((let! orec := recorded (T:=T) h r in
    let '(o, rec) := orec in
    match o with
    | Panicked => ret Panicked
    | Returned =>
        (if decide (0 < rec_status rec)
         then on_api (idempotent_Add k (rec_buf rec) (rec_status rec)) else ret tt);;;
        ret Returned
    end) x).2).
Proof.
  intros Hh Hne. apply keeping_bind; [by apply stays_recorded|]. intros [[] rec] x1 H1; [|exact H1].
  case_decide; [|exact H1].
  assert (Hw : wp (on_api (idempotent_Add k (rec_buf rec) (rec_status rec));;; ret Returned) x1
    (fun _ x => held (ex_api x))); [|exact Hw].
  wp_simp. apply wp_on_api, wp_store. intros g' Hu _. wp_simp. cbn [ex_api].
  destruct Hu as (e & He & ->). apply (held_other _ _ _ _ (with_env e (ex_api x1))); [|done].
  eapply held_steps; [exact H1|]. by split.
Qed.

(** The clock moves on through a command. *)
Lemma command_moves_on {T} {HT : ResponseWriter T} h r k (x : Exchange W T) : calm h ->
  env_after (env_of (ex_api x)) (env_of (ex_api ((let! orec := recorded h r in
    let '(o, rec) := orec in
    match o with
    | Panicked => ret Panicked
    | Returned =>
        (if decide (0 < rec_status rec)
         then on_api (idempotent_Add k (rec_buf rec) (rec_status rec)) else ret tt);;;
        ret Returned
    end) x).2)).
Proof.
  intros Hh.
  match goal with |- env_after ?e (env_of (ex_api (?m ?x).2)) =>
    change (wp m x (fun _ x' => env_after e (env_of (ex_api x')))) end.
  wp_simp. apply wp_intro. intros [[] rec] x1 E; wp_simp.
  all: pose proof (stays_recorded h r Hh x) as [He _]; rewrite E in He; cbn [snd] in He; try exact He.
  case_decide; wp_simp; [|exact He]. apply wp_on_api, wp_store. intros g' (e & He' & ->) _. wp_simp.
  cbn. etransitivity; [exact He|exact He'].
Qed.

Lemma keeping_withIdempotency h : calm h -> keeping (withIdempotency h).
Proof.
  intros Hh T HT r x Hx. unfold withIdempotency. case_decide; [by apply calm_keeping|].
  match goal with |- held (ex_api (?m ?x).2) => change (wp m x (fun _ x' => held (ex_api x'))) end.
  wp_simp. apply wp_on_api, wp_lookup. intros g1 Hu Hlt.
  assert (H1 : held g1) by (eapply held_steps; [exact Hx|by apply untouched_steps]).
  destruct (IdempotencyStore_Get _ _ _) as [[body status]|] eqn:E.
  - wp_simp. exact H1.
  - destruct (decide (Header_Get r "Idempotency-Key" = key)) as [Ek|Hne].
    + pose proof (command_moves_on h r key (mkExchange g1 (ex_w x)) Hh) as He. rewrite Ek in *.
      split; [etransitivity; [apply H1|exact He]|]. intros Ht. exfalso.
      assert (Ht1 : in_time g1) by (eapply in_time_before; [exact He|exact Ht]).
      pose proof (hit _ _ Hx Hu Hlt Ht1). congruence.
    + by apply (keeping_recorded h r _ (mkExchange g1 (ex_w x))).
Qed.

(** ** Requests and everything else that happens *)

Lemma keeping_sessions : keeping Handlers_sessions.
Proof.
  intros T HT r x Hx. unfold Handlers_sessions. case_decide; [|case_decide].
  - eapply held_steps; [exact Hx|apply calm_listSessions].
  - apply keeping_withIdempotency; [|exact Hx]. intros T' HT' r'. apply calm_createSession.
  - eapply held_steps; [exact Hx|apply calm_writeError].
Qed.

(** Every branch of a dispatch is calm or a recorded command. *)
Ltac calm_handler :=
  lazymatch goal with
  | |- stays _ (Handlers_startRun _ _) => apply calm_startRun
  | |- stays _ (Handlers_submitPrompt _ _) => apply calm_submitPrompt
  | |- stays _ (Handlers_interrupt _ _) => apply calm_interrupt
  | |- stays _ (Handlers_decideApproval _ _) => apply calm_decideApproval
  end.
Ltac keep_branch Hx :=
  lazymatch goal with
  | |- held (ex_api (withIdempotency _ _ _ _ _).2) =>
      apply keeping_withIdempotency; [intros ? ? ?; calm_handler|exact Hx]
  | |- held (ex_api (Handlers_getSession _ _).2) => eapply held_steps; [exact Hx|apply calm_getSession]
  | |- held (ex_api (Handlers_getEvents _ _ _).2) => eapply held_steps; [exact Hx|apply calm_getEvents]
  | |- held (ex_api (Handlers_getApproval _ _).2) => eapply held_steps; [exact Hx|apply calm_getApproval]
  | |- _ => eapply held_steps; [exact Hx|apply calm_writeError]
  end.

Lemma keeping_sessionDetail : keeping Handlers_sessionDetail.
Proof.
  intros T HT r x Hx. unfold Handlers_sessionDetail. case_decide; [keep_branch Hx|].
  destruct (split_resource _) as [sid sub]. cbn zeta.
  repeat match goal with |- context [if ?b then _ else _] => destruct b; [keep_branch Hx|] end.
  keep_branch Hx.
Qed.

Lemma keeping_approvals : keeping Handlers_approvals.
Proof.
  intros T HT r x Hx. unfold Handlers_approvals. case_decide; [keep_branch Hx|].
  destruct (split_resource _) as [sid sub].
  repeat match goal with |- context [if ?b then _ else _] => destruct b; [keep_branch Hx|] end.
  keep_branch Hx.
Qed.

Lemma keeping_routes ws route : calm ws -> route ∈ Server_routes ws -> keeping route.2.
Proof.
  intros Hws. unfold Server_routes, api_routes. cbn [app]. rewrite !elem_of_cons, elem_of_nil.
  intros [->|[->|[->|[->|[->|[->|[->|[->|[->|[->|[->|[]]]]]]]]]]]]; cbn [snd].
  - apply keeping_serverCORS, calm_keeping. intros T HT r. apply calm_health.
  - apply keeping_withCORS, keeping_withAuth, keeping_sessions.
  - apply keeping_withCORS, keeping_withAuth, keeping_sessionDetail.
  - apply keeping_withCORS, keeping_withAuth, keeping_approvals.
  - apply calm_keeping. intros T HT r. apply calm_pair.
  - apply calm_keeping. intros T HT r. apply calm_confirmPair.
  - apply keeping_withAuth, calm_keeping. intros T HT r. apply calm_me.
  - apply keeping_withAuth, calm_keeping. intros T HT r. apply calm_devices.
  - apply keeping_withAuth, calm_keeping. intros T HT r. apply calm_deviceAction.
  - by apply calm_keeping.
  - apply keeping_serverCORS, calm_keeping. intros T HT r. apply calm_ready.
Qed.

Lemma held_serve ws r g : calm ws -> held g -> held (http_serve (Server_routes ws) r g).2.
Proof.
  intros Hws Hg. unfold http_serve. case_decide; [exact Hg|].
  destruct (mux_match _ (text (cleanPath (chars (hq_Path r))))) as [[pat h]|] eqn:E.
  - apply mux_match_in in E as [Hin _]. unfold run_handler.
    pose proof (keeping_routes ws _ Hws Hin HttpResponse _ r (mkExchange g new_response) Hg) as Hk.
    cbn [snd] in Hk. by destruct (h _ _ _ _).
  - by destruct (mux_match _ (text (cleanPath (chars (hq_Path r))) +:+ "/")) as [[]|].
Qed.
End Held.

(** What can happen between two requests: any request, any operation of the
    core (observers' signals, sweeps, startup, shutdown), the sweep of the
    idempotency store. *)
Inductive api_op (W : Type) :=
  | ARequest (r : http_Request)
  | ACore (op : app_op W)
  | ACleanup.
Arguments ARequest {W} r.
Arguments ACore {W} op.
Arguments ACleanup {W}.

Definition run_api_op {W} (ws : HandlerFunc (W:=W)) (op : api_op W) : M (Api W) unit :=
  match op with
  | ARequest r => ignore (http_serve (Server_routes ws) r)
  | ACore op => core (run_app_op op)
  | ACleanup =>
      let! now := api_env time_Now in
      modify (fun g => set_api_idempotent (IdempotencyStore_cleanup now (api_idempotent g)) g)
  end.
Definition run_api_ops {W} (ws : HandlerFunc (W:=W)) (ops : list (api_op W)) : M (Api W) unit :=
  for_each ops (run_api_op ws).

(** The sweep deletes what has expired. *)
Lemma held_cleanup {W} e0 key entry ws (g : Api W) : held e0 key entry g ->
  held e0 key entry (run_api_op ws ACleanup g).2.
Proof.
  intros [He Hk]. cbn [run_api_op]. unfold api_env, core, db, on_env.
  split; [etransitivity; [exact He|apply env_after_tick]|]. intros Ht. cbn.
  assert (Hlt : in_time e0 entry g) by (refine (in_time_before e0 entry g _ _ Ht); exact (env_after_tick (env_of g))).
  apply map_lookup_filter_Some. split; [by apply Hk|]. cbn [snd].
  assert (Hn : env_clock e0 (env_ticks (env_of g)) <= ie_expiresAt entry)
    by (apply Ht; exact (Nat.lt_succ_diag_r (env_ticks (env_of g)))).
  rewrite <- (after_clock _ _ He) in Hn. intros Hlt'. exact (Z.lt_irrefl _ (Z.lt_le_trans _ _ _ Hlt' Hn)).
Qed.

Lemma held_ops {W} e0 key entry ws ops (g : Api W) : calm ws -> held e0 key entry g ->
  held e0 key entry (run_api_ops ws ops g).2.
Proof.
  intros Hws. revert g. induction ops as [|op ops IH]; intros g Hg; [exact Hg|].
  unfold run_api_ops. cbn [for_each]. unfold bind. destruct (run_api_op ws op g) as [u g'] eqn:E.
  apply IH. replace g' with (run_api_op ws op g).2 by (by rewrite E). destruct op as [r|op|].
  - cbn [run_api_op]. unfold ignore, bind. pose proof (held_serve e0 key entry ws r g Hws Hg) as Hs.
    by destruct (http_serve _ r g).
  - eapply held_steps; [exact Hg|]. apply stays_core. auto with preserves.
  - by apply held_cleanup.
Qed.

(** ** A command answers once *)

Section Once.
Context {W T : Type} {HT : ResponseWriter T}.

(** An answer on any writer. *)
Definition respond (status : Z) (body : option json) (w : T) : T :=
  match body with Some v => reply status v w | None => WriteHeader status w end.

(** When the handler returns it has answered exactly once, with a status. *)
Definition once (m : M (Exchange W T) outcome) : Prop := forall x, wp m x (fun o x' =>
  o = Returned -> exists status body, 0 < status /\ ex_w x' = respond status body (ex_w x)).

Lemma once_writeJSON st v : 0 < st -> once (Handlers_writeJSON st v).
Proof. intros Hst x. unfold Handlers_writeJSON, writeEncoded. wp_simp. intros _. by exists st, (Some v). Qed.
Lemma once_header st : 0 < st -> once (on_writer (WriteHeader st);;; ret Returned).
Proof. intros Hst x. wp_simp. intros _. by exists st, None. Qed.
Lemma once_writeError st c m : 0 < st -> once (Handlers_writeError st c m).
Proof.
  intros Hst x. apply wp_writeError. intros id g _ _.
  by exists st, (Some (ErrorResponse c m id)).
Qed.
Lemma status_positive e : 0 < HTTPStatus (ec_Code (FromAppError e ErrNotFound ErrConflict ErrInvalid)).
Proof. unfold FromAppError. by repeat split_match. Qed.
Lemma once_service_error {A} (m : M (Api W) (result A)) k :
  (forall a, once (k a)) -> once (or_service_error m k).
Proof.
  intros Hk x. unfold or_service_error. wp_simp. apply wp_on_api, wp_intro. intros [a|e] g _.
  - apply (Hk a (mkExchange g (ex_w x))).
  - apply (once_writeError _ _ _ (status_positive e) (mkExchange g (ex_w x))).
Qed.
Lemma once_bad_request {A} (r : result A) k : (forall a, once (k a)) -> once (or_bad_request r k).
Proof. intros Hk. destruct r; [apply Hk|by apply once_writeError]. Qed.
Lemma once_approval l : once (let! a := on_api (approval_at l) in Handlers_writeJSON 200 (toApprovalResponse a)).
Proof. intros x. wp_simp. apply wp_on_api, wp_intro. intros a g _.
  apply (once_writeJSON 200 _ eq_refl (mkExchange g (ex_w x))).
Qed.
End Once.

(** The handlers behind [idempotent], by the arguments they get from the path. *)
Inductive command {W} : HandlerFunc (W:=W) -> Prop :=
  | CreateSession_command : command (fun T _ r => Handlers_createSession r)
  | StartRun_command id : command (fun T _ r => Handlers_startRun r id)
  | SubmitPrompt_command id : command (fun T _ r => Handlers_submitPrompt r id)
  | Interrupt_command id : command (fun T _ r => Handlers_interrupt r id)
  | DecideApproval_command id : command (fun T _ r => Handlers_decideApproval r id).

Lemma command_calm {W} (h : HandlerFunc (W:=W)) : command h -> calm h.
Proof.
  intros [] T HT r; [apply calm_createSession|apply calm_startRun|apply calm_submitPrompt
    |apply calm_interrupt|apply calm_decideApproval].
Qed.

Lemma command_once {W} (h : HandlerFunc (W:=W)) : command h ->
  forall T (HT : ResponseWriter T) r, once (h T HT r).
Proof.
  intros Hc T HT r. destruct Hc.
  all: repeat first [ apply once_bad_request; intros ? | apply once_service_error; intros ? ].
  - by apply once_writeJSON.
  - by apply once_writeJSON.
  - by apply once_header.
  - by apply once_header.
  - match goal with |- once (let '(d, reason) := ?p in _) => destruct p as [d reason] end.
    apply once_service_error. intros [l|]; [apply once_approval|]. intros x. wp_simp. done.
Qed.

(** The way of a command from the multiplexer's route to its handler. *)
Definition posted {W} (h : HandlerFunc (W:=W)) : HandlerFunc (W:=W) :=
  withCORS (withAuth (withIdempotency h)).

(** It is that of the dispatching handlers. *)
Lemma sessions_command {W T} {HT : ResponseWriter T} r : hq_Method r = MethodPost ->
  Handlers_sessions (W:=W) T HT r = withIdempotency (fun T _ r => Handlers_createSession r) T HT r.
Proof. intros Hm. unfold Handlers_sessions. by rewrite Hm. Qed.

Lemma sessionDetail_command {W T} {HT : ResponseWriter T} r id sub : hq_Method r = MethodPost ->
  path_rest "/api/v1/sessions/" r <> "" ->
  split_resource (path_rest "/api/v1/sessions/" r) = (id, sub) ->
  forall h, (sub, h) ∈ [("runs", fun T _ r => Handlers_startRun r id : M (Exchange W T) outcome);
                        ("prompts", fun T _ r => Handlers_submitPrompt r id);
                        ("interrupt", fun T _ r => Handlers_interrupt r id)] ->
  Handlers_sessionDetail T HT r = withIdempotency h T HT r.
Proof.
  intros Hm Hr Hs h Hin. unfold Handlers_sessionDetail. rewrite decide_False by done. rewrite Hs, Hm.
  rewrite !elem_of_cons, elem_of_nil in Hin. by destruct Hin as [[= -> ->]|[[= -> ->]|[[= -> ->]|[]]]].
Qed.

Lemma approvals_command {W T} {HT : ResponseWriter T} r id : hq_Method r = MethodPost ->
  path_rest "/api/v1/approvals/" r <> "" ->
  split_resource (path_rest "/api/v1/approvals/" r) = (id, "decision") ->
  Handlers_approvals (W:=W) T HT r = withIdempotency (fun T _ r => Handlers_decideApproval r id) T HT r.
Proof.
  intros Hm Hr Hs. unfold Handlers_approvals. rewrite decide_False by done. by rewrite Hs, Hm.
Qed.

(** ** The first answer and what is stored *)

(** What recording an answer leaves. *)
Lemma recorded_respond {T} {HT : ResponseWriter T} st body (w : T) : 0 < st ->
  exists buf, respond st body (newRecordingWriter w) = mkRecordingWriter (respond st body w) buf st /\
    buf = match body with Some v => json_bytes v ++ [newline] | None => [] end.
Proof.
  intros Hst. destruct body as [v|]; cbn; [|by eexists].
  unfold reply, rw_Write, recording. cbn. unfold recordingWriter_Write. cbn.
  rewrite decide_False by lia. by eexists.
Qed.

(** A status and a body on a fresh writer are what the client is sent. *)
Lemma finish_respond st body w : hr_sent w = None -> hr_Body w = [] ->
  let a := finish (respond st body w) in
  an_status a = st /\ an_body a = match body with Some v => json_bytes v ++ [newline] | None => [] end.
Proof. destruct w as [h o b]. cbn. intros -> ->. by destruct body. Qed.

Section First.
Context {W : Type}.

(** A command with a new key: either the connection is closed, or its answer is
    what the store has under the key from then on. *)
Lemma wp_first {T} {HT : ResponseWriter T} h r (x : Exchange W T) :
  let key := Header_Get r "Idempotency-Key" in
  command h -> key <> "" -> is_keys (api_idempotent (ex_api x)) !! key = None ->
  wp (withIdempotency h T HT r) x (fun o x' => o = Returned ->
    exists status body now, ex_w x' = respond status body (ex_w x) /\
      env_after (env_of (ex_api x)) (env_of (ex_api x')) /\
      is_keys (api_idempotent (ex_api x')) !! key = Some (mkIdempotencyEntry
        (text (match body with Some v => json_bytes v ++ [newline] | None => [] end)) status now
        (now + is_expiry (api_idempotent (ex_api x))))).
Proof.
  intros key Hc Hk Hnone. unfold withIdempotency. fold key. rewrite decide_False by done. wp_simp.
  apply wp_on_api, wp_lookup. intros g1 Hu _. unfold IdempotencyStore_Get. rewrite Hnone. wp_simp.
  apply wp_intro. intros [o rec] x1 E. unfold recorded in E. cbn [ex_api ex_w] in E.
  destruct (h (recordingWriter T) recording r _) as [o' y] eqn:Eh. injection E as -> <- <-.
  pose proof (command_once h Hc _ recording r (mkExchange g1 (newRecordingWriter (ex_w x)))) as Ho.
  pose proof (command_calm h Hc _ recording r (mkExchange g1 (newRecordingWriter (ex_w x)))) as [He Hs].
  unfold wp in Ho. rewrite Eh in Ho, He, Hs. cbn [fst snd ex_w ex_api] in Ho, He, Hs.
  destruct o; wp_simp; [|done]. destruct (Ho eq_refl) as (st & body & Hst & Hw).
  destruct (recorded_respond st body (ex_w x) Hst) as (buf & Hrec & Hbuf). rewrite Hrec in Hw.
  rewrite Hw. cbn [rec_status rec_ResponseWriter rec_buf]. rewrite decide_True by done. wp_simp.
  apply wp_on_api, wp_store. intros g2 (e & He2 & ->) _. wp_simp. intros _. cbn [ex_api ex_w].
  exists st, body. eexists. split; [done|]. split.
  - etransitivity; [apply untouched_steps, Hu|]. etransitivity; [exact He|exact He2].
  - cbn [api_idempotent set_api_idempotent IdempotencyStore_Add is_keys]. rewrite lookup_insert_eq.
    rewrite <- Hbuf, Hs. by destruct Hu as (e' & _ & ->).
Qed.

(** A command with the key of a live entry is answered from the store. *)
Lemma wp_again {T} {HT : ResponseWriter T} h r (x : Exchange W T) e0 entry :
  let key := Header_Get r "Idempotency-Key" in
  calm h -> key <> "" -> held e0 key entry (ex_api x) ->
  wp (withIdempotency h T HT r) x (fun o x' => in_time e0 entry (ex_api x') ->
    o = Returned /\ untouched (ex_api x) (ex_api x') /\
    ex_w x' = rw_Write (chars (ie_response entry)) (WriteHeader (ie_status entry)
      (Header_Set "X-Idempotent-Replay" "true" (Header_Set "Content-Type" "application/json" (ex_w x))))).
Proof.
  intros key Hc Hk Hh. unfold withIdempotency. fold key. rewrite decide_False by done. wp_simp.
  apply wp_on_api, wp_lookup. intros g1 Hu Hlt.
  destruct (IdempotencyStore_Get _ _ _) as [[body st]|] eqn:E.
  - wp_simp. intros Ht. cbn [ex_api ex_w] in *. rewrite (hit e0 key entry _ _ Hh Hu Hlt Ht) in E.
    by injection E as <- <-.
  - pose proof (command_moves_on h r key (mkExchange g1 (ex_w x)) Hc) as He. unfold wp.
    intros Ht. exfalso.
    assert (Ht1 : in_time e0 entry g1) by (eapply in_time_before; [exact He|exact Ht]).
    by rewrite (hit e0 key entry _ _ Hh Hu Hlt Ht1) in E.
Qed.

(** Through the middleware, with good credentials. *)
Lemma wp_posted h r g (Q : outcome -> Exchange W HttpResponse -> Prop) :
  hq_Method r <> MethodOptions ->
  (forall a g' w, untouched g g' -> (authenticate r g).1 = Ok a -> hr_sent w = None -> hr_Body w = [] ->
     wp (withIdempotency h HttpResponse _ (with_actor a r)) (mkExchange g' w) Q) ->
  is_ok (authenticate r g).1 = true ->
  wp (posted h HttpResponse _ r) (mkExchange g new_response) Q.
Proof.
  intros Hm HQ Hok.
  assert (Hauth : forall w, hr_sent w = None -> hr_Body w = [] ->
    wp (withAuth (withIdempotency h) HttpResponse _ r) (mkExchange g w) Q).
  { intros w Hs Hb. unfold withAuth. rewrite decide_False by done. wp_simp. apply wp_on_api.
    pose proof (wp_authenticate r g) as (Hu & _). cbn [ex_api].
    destruct (authenticate r g) as [[a|e] g'] eqn:E; [|done]. unfold wp at 1. rewrite E. cbn [fst snd] in *.
    by apply HQ. }
  unfold posted, withCORS. wp_simp. apply wp_on_api. rewrite wp_gets.
  case_decide; wp_simp; by apply Hauth.
Qed.

Lemma run_first (h : HandlerFunc (W:=W)) r g : let key := Header_Get r "Idempotency-Key" in
  command h -> key <> "" -> hq_Method r <> MethodOptions -> is_ok (authenticate r g).1 = true ->
  is_keys (api_idempotent g) !! key = None ->
  wp (run_handler (posted h) r) g (fun s g' => forall a, s = Answered a ->
    exists entry, is_keys (api_idempotent g') !! key = Some entry /\
      ie_expiresAt entry = ie_createdAt entry + is_expiry (api_idempotent g) /\
      env_after (env_of g) (env_of g') /\
      an_status a = ie_status entry /\ an_body a = chars (ie_response entry)).
Proof.
  intros key Hc Hk Hm Ho Hnew. apply run_handler_wp, wp_posted; [done| |done]. intros a g' w Hu _ Hs Hb.
  pose proof (untouched_steps _ _ Hu) as [He Hi].
  eapply wp_mono; [apply wp_first; [done|exact Hk|cbn [ex_api]; by rewrite Hi]|].
  intros o x' Hx a' [= Ha]. destruct o; [|done]. destruct (Hx eq_refl) as (st & body & now & Hw & Hax & Hkeys).
  injection Ha as <-. change (Header_Get (with_actor a r) _) with key in Hkeys.
  cbn [ex_api] in Hkeys, Hax. rewrite Hi in Hkeys. eexists. split; [exact Hkeys|]. cbn.
  rewrite Hw, chars_text. cbn [ex_w]. destruct (finish_respond st body w Hs Hb) as [-> ->].
  split; [done|]. split; [by etransitivity|done].
Qed.

Lemma run_again (h : HandlerFunc (W:=W)) r g e0 entry : let key := Header_Get r "Idempotency-Key" in
  calm h -> key <> "" -> hq_Method r <> MethodOptions -> is_ok (authenticate r g).1 = true ->
  held e0 key entry g ->
  wp (run_handler (posted h) r) g (fun s g' => in_time e0 entry g' -> untouched g g' /\
    exists a, s = Answered a /\ an_status a = ie_status entry /\ an_body a = chars (ie_response entry)).
Proof.
  intros key Hc Hk Hm Ho Hh. apply run_handler_wp, wp_posted; [done| |done]. intros a g' w Hu _ Hs Hb.
  eapply wp_mono; [apply wp_again with (e0 := e0) (entry := entry); [done|exact Hk|]|].
  - eapply held_steps; [exact Hh|by apply untouched_steps].
  - intros o x' Hx Ht. destruct (Hx Ht) as (-> & Hu' & Hw). split; [by eapply untouched_trans|].
    eexists. split; [done|]. rewrite Hw. destruct w as [hd snt bd]. cbn [hr_sent hr_Body] in Hs, Hb. by subst.
Qed.
End First.

(** C7: A retried command is replayed, not executed.  When a command with a new
    key was answered, the store holds its status and body under the key for the
    configured time; whatever then happens (other requests, signals, sweeps,
    restarts of the lifecycle), every later authenticated command with that key,
    whatever it is, is answered the same status and body and changes nothing,
    as long as no clock reading is past the expiry. *)
Theorem api_retry_replays {W} (ws : HandlerFunc (W:=W)) h1 h2 r1 r2 g a1 g1 ops :
  let key := Header_Get r1 "Idempotency-Key" in
  let g2 := (run_api_ops ws ops g1).2 in
  calm ws -> command h1 -> command h2 -> key <> "" -> Header_Get r2 "Idempotency-Key" = key ->
  hq_Method r1 <> MethodOptions -> hq_Method r2 <> MethodOptions ->
  is_ok (authenticate r1 g).1 = true -> is_ok (authenticate r2 g2).1 = true ->
  is_keys (api_idempotent g) !! key = None ->
  run_handler (posted h1) r1 g = (Answered a1, g1) ->
  exists entry, is_keys (api_idempotent g1) !! key = Some entry /\
    ie_expiresAt entry = ie_createdAt entry + is_expiry (api_idempotent g) /\
    let '(s, g3) := run_handler (posted h2) r2 g2 in
    in_time (env_of g) entry g3 ->
    untouched g2 g3 /\
    exists a2, s = Answered a2 /\ an_status a2 = an_status a1 /\ an_body a2 = an_body a1.
Proof.
  intros key g2 Hws Hc1 Hc2 Hk Hk2 Hm1 Hm2 Ho1 Ho2 Hnew E1.
  destruct (wp_elim _ _ _ _ _ (run_first h1 r1 g Hc1 Hk Hm1 Ho1 Hnew) E1 a1 eq_refl)
    as (entry & Hkeys & Hexp & He & Hst & Hbody).
  exists entry. split; [done|]. split; [done|].
  assert (Hh : held (env_of g) key entry g2) by (apply held_ops; [done|]; by split).
  rewrite <- Hk2 in Hh, Hk. rewrite Hst, Hbody.
  pose proof (run_again h2 r2 g2 (env_of g) entry (command_calm _ Hc2) Hk Hm2 Ho2 Hh) as H2.
  unfold wp in H2. by destruct (run_handler (posted h2) r2 g2) as [s g3].
Qed.

(** A session is created, the store is swept and the sessions are listed; then
    the key comes back with a request to interrupt another session, which is
    answered the created session. *)
Definition demo_owner (key : string) : list (string * string) :=
  [("Authorization", "Bearer 0123456789abcdef"); ("Idempotency-Key", key)].
Definition demo_create : HandlerFunc (W:=nat) := fun T _ r => Handlers_createSession r.
Definition demo_interrupt : HandlerFunc (W:=nat) := fun T _ r => Handlers_interrupt r "ses-1".
Definition demo_post : http_Request :=
  demo_call "POST" "/api/v1/sessions" (demo_owner "key-00001")
    (dq "{'workspace_id': 'ws-1', 'adapter_id': 'fake-adapter'}").
Definition demo_retry : http_Request :=
  demo_call "POST" "/api/v1/sessions/ses-1/interrupt" (demo_owner "key-00001") "".
Definition demo_between : list (api_op nat) :=
  [ACleanup; ARequest (demo_call "GET" "/api/v1/sessions" (demo_owner "") ""); ACore OSweep].

Definition demo_first : served := (run_handler (posted demo_create) demo_post demo_api).1.
Definition demo_after : Api nat :=
  (run_api_ops demo_ws demo_between (run_handler (posted demo_create) demo_post demo_api).2).2.

Lemma api_retry_replays_witness :
  match demo_first, (run_handler (posted demo_interrupt) demo_retry demo_after).1 with
  | Answered a1, Answered a2 => an_status a1 = 201 /\ an_status a2 = an_status a1 /\ an_body a2 = an_body a1
  | _, _ => False
  end.
Proof.
  destruct (run_handler (posted demo_create) demo_post demo_api) as [s g1] eqn:E1.
  assert (Es : s = demo_first) by (unfold demo_first; by rewrite E1).
  assert (Eg : g1 = (run_handler (posted demo_create) demo_post demo_api).2) by (by rewrite E1).
  destruct demo_first as [| | |a1] eqn:Ef; try (exfalso; vm_compute in Ef; discriminate Ef). subst s.
  pose proof (api_retry_replays demo_ws demo_create demo_interrupt demo_post demo_retry demo_api a1 g1
    demo_between) as H.
  cbv zeta in H. rewrite Eg in H. fold demo_after in H.
  destruct H as (entry & Hkeys & Hexp & H).
  - intros T HT r x. cbn. reflexivity.
  - constructor.
  - constructor.
  - vm_compute. discriminate.
  - reflexivity.
  - vm_compute. discriminate.
  - vm_compute. discriminate.
  - vm_compute. reflexivity.
  - vm_compute. reflexivity.
  - reflexivity.
  - rewrite E1. by rewrite Eg, E1.
  - assert (Hst : an_status a1 = 201).
    { change (status_of (Answered a1) = 201). rewrite <- Ef. vm_compute. reflexivity. }
    revert H. destruct (run_handler (posted demo_interrupt) demo_retry demo_after) as [s g3] eqn:E3.
    intros H. cbn [fst]. destruct H as (_ & a2 & -> & H2 & H3);
      [|exact (conj Hst (conj H2 H3))].
    intros n Hn. apply (f_equal snd) in E3. cbn [snd] in E3. rewrite <- E3 in Hn. clear E3.
    assert (Ht : (n < 60)%nat) by (eapply Nat.lt_le_trans; [exact Hn|]; apply Nat.leb_le; vm_compute; reflexivity).
    rewrite Hexp. vm_compute in Hkeys. injection Hkeys as <-. cbn [ie_createdAt].
    change (env_clock (env_of demo_api) n) with (1000 * Hour + Z.of_nat n * Second).
    change (is_expiry (api_idempotent demo_api)) with (24 * Hour). unfold Hour, Minute, Second. lia.
Defined.

(** The store is asked and written in two steps, so two concurrent requests with
    one key are both executed. *)
Example idempotency_race :
  let '(hit1, g1) := idempotent_Get "key-00001" demo_api in
  let '(hit2, g2) := idempotent_Get "key-00001" g1 in
  let run g := recorded demo_create (with_actor (mkActor "owner" "owner") demo_post) (mkExchange g new_response) in
  let '(_, x3) := run g2 in
  let '(_, x4) := run (ex_api x3) in
  (hit1, hit2, size (sessions (app_db (api_app g2))), size (sessions (app_db (api_app (ex_api x4))))) =
  (None, None, 1%nat, 3%nat).
Proof. vm_compute. reflexivity. Qed.
