(* ===== verification/Protocol.v ===== *)
(** * The command protocol (src/internal/protocol/dispatcher.go, schemas.go)

    A dispatcher's handlers and its authenticator act on a world [W] (the rest
    of the server); its idempotency store is an instance of a class with laws,
    which the in-process map [key_map] satisfies.  [Dispatch] is the sequence
    check ([Dispatch_check]), then handling ([Dispatch_handle]). *)

From S2P Require Import Prelude Env Json Errcat.

Definition SupportedProtocolVersion : Z := 1.

Definition CmdSessionStart : string := "session.start".
Definition CmdSessionPrompt : string := "session.prompt".
Definition CmdSessionInterrupt : string := "session.interrupt".
Definition CmdApprovalDecide : string := "approval.decide".

Definition documentedCommands : list string :=
  [CmdSessionStart; CmdSessionPrompt; CmdSessionInterrupt; CmdApprovalDecide].

Definition IsDocumented (t : string) : bool := bool_decide (t ∈ documentedCommands).

Record Command := mkCommand {
  cmd_CommandID : string;
  cmd_Type : string;
  cmd_SessionID : string;
  cmd_IdempotencyKey : string;
  cmd_Payload : RawMessage;
  cmd_ProtocolVersion : Z
}.

Record Result := mkResult {
  res_Accepted : bool;
  res_Message : string;
  res_Error : option Error;
  res_EventTypes : list string
}.

Definition rejected (code message : string) : Result :=
  mkResult false "" (Some (errcat_New code message)) [].

(** ** Payload schemas *)

(** [len(s)]: bytes. *)
Definition strlen (s : string) : Z := Z.of_nat (String.length s).

Definition MaxPromptLength : Z := 100000.
Definition MaxReasonLength : Z := 2000.
Definition MinIdempotencyLen : Z := 8.
Definition MaxIdempotencyLen : Z := 200.

Record PromptPayload := mkPromptPayload { pp_Text : string }.
Record StartPayload := mkStartPayload {
  sp_WorkspaceID : string; sp_AdapterID : string; sp_Title : string }.
Record DecisionPayload := mkDecisionPayload { dp_Decision : string; dp_Reason : string }.

Definition decode_PromptPayload : RawMessage -> result PromptPayload :=
  unmarshal_struct "protocol.PromptPayload" (fun k v p =>
    if names k "text" then set_field mkPromptPayload
      (assign_string "PromptPayload.text" v (pp_Text p))
    else Ok p) (mkPromptPayload "").

Definition decode_StartPayload : RawMessage -> result StartPayload :=
  unmarshal_struct "protocol.StartPayload" (fun k v p =>
    let '(mkStartPayload w a t) := p in
    if names k "workspace_id" then set_field (fun x => mkStartPayload x a t)
      (assign_string "StartPayload.workspace_id" v w)
    else if names k "adapter_id" then set_field (fun x => mkStartPayload w x t)
      (assign_string "StartPayload.adapter_id" v a)
    else if names k "title" then set_field (mkStartPayload w a)
      (assign_string "StartPayload.title" v t)
    else Ok p) (mkStartPayload "" "" "").

Definition decode_DecisionPayload : RawMessage -> result DecisionPayload :=
  unmarshal_struct "protocol.DecisionPayload" (fun k v p =>
    let '(mkDecisionPayload d r) := p in
    if names k "decision" then set_field (fun x => mkDecisionPayload x r)
      (assign_string "DecisionPayload.decision" v d)
    else if names k "reason" then set_field (mkDecisionPayload d)
      (assign_string "DecisionPayload.reason" v r)
    else Ok p) (mkDecisionPayload "" "").

Definition decode_InterruptPayload : RawMessage -> result unit :=
  unmarshal_struct "protocol.InterruptPayload" (fun _ _ p => Ok p) tt.

(** A schema answers the validation error, if there is one. *)
Abbreviation CommandSchema := (RawMessage -> option error) (only parsing).

Definition promptSchema_Validate (payload : RawMessage) : option error :=
  match decode_PromptPayload payload with
  | Err e => Some (wrap "invalid prompt payload" e)
  | Ok p =>
      if decide (pp_Text p = "") then Some (ErrNew "text is required")
      else if decide (MaxPromptLength < strlen (pp_Text p))
      then Some (ErrNew ("text exceeds " +:+ Itoa MaxPromptLength +:+ " characters"))
      else None
  end.

Definition startSchema_Validate (payload : RawMessage) : option error :=
  match decode_StartPayload payload with
  | Err e => Some (wrap "invalid start payload" e)
  | Ok p =>
      if decide (sp_WorkspaceID p = "") then Some (ErrNew "workspace_id is required")
      else if decide (sp_AdapterID p = "") then Some (ErrNew "adapter_id is required")
      else None
  end.

Definition interruptSchema_Validate (payload : RawMessage) : option error :=
  match payload with
  | RawEmpty | RawJSON JNull => None
  | _ => match decode_InterruptPayload payload with
         | Err e => Some (wrap "invalid interrupt payload" e)
         | Ok _ => None
         end
  end.

Definition decideSchema_Validate (payload : RawMessage) : option error :=
  match decode_DecisionPayload payload with
  | Err e => Some (wrap "invalid decision payload" e)
  | Ok p =>
      if decide (dp_Decision p <> "approve" /\ dp_Decision p <> "deny")
      then Some (ErrNew "decision must be approve or deny")
      else if decide (MaxReasonLength < strlen (dp_Reason p))
      then Some (ErrNew ("reason exceeds " +:+ Itoa MaxReasonLength +:+ " characters"))
      else None
  end.

Definition Schemas : gmap string CommandSchema := list_to_map [
  (CmdSessionStart, startSchema_Validate); (CmdSessionPrompt, promptSchema_Validate);
  (CmdSessionInterrupt, interruptSchema_Validate); (CmdApprovalDecide, decideSchema_Validate)
].

Definition ValidateIdempotencyKey (key : string) : option error :=
  if decide (strlen key < MinIdempotencyLen \/ MaxIdempotencyLen < strlen key)
  then Some (ErrNew ("idempotency key must be " +:+ Itoa MinIdempotencyLen +:+ "-" +:+
                     Itoa MaxIdempotencyLen +:+ " characters"))
  else None.

(** ** The idempotency store the dispatcher is given *)

Class protocol_IdempotencyStore (K : Type) := mkprotocol_IdempotencyStore {
  idem_Get : string -> K -> option Result;
  idem_Add : string -> Result -> K -> K
}.

(** What the dispatcher relies on: a stored result is found until another is
    stored under its key. *)
Class IdempotencyStoreLaws (K : Type) `{protocol_IdempotencyStore K} := {
  idem_Get_Add : forall k r s, idem_Get k (idem_Add k r s) = Some r;
  idem_Get_Add_ne : forall k k' r s, k <> k' -> idem_Get k (idem_Add k' r s) = idem_Get k s
}.

#[export] Instance key_map : protocol_IdempotencyStore (gmap string Result) := {|
  idem_Get k s := s !! k;
  idem_Add k r s := <[k := r]> s
|}.
#[export] Instance key_map_laws : IdempotencyStoreLaws (gmap string Result).
Proof.
  split; intros; cbn; [apply lookup_insert_eq|by apply lookup_insert_ne].
Defined.

(** ** The dispatcher *)

Record Dispatcher (K W : Type) := mkDispatcher {
  dp_handlers : gmap string (Command -> M W Result);
  dp_schemas : gmap string CommandSchema;
  dp_auth : option (Command -> M W (result string));
  dp_idempotent : option K;
  dp_world : W
}.
Arguments mkDispatcher {K W} _ _ _ _ _.
Arguments dp_handlers {K W} _.
Arguments dp_schemas {K W} _.
Arguments dp_auth {K W} _.
Arguments dp_idempotent {K W} _.
Arguments dp_world {K W} _.

Section Dispatch.
Context {K W : Type} `{protocol_IdempotencyStore K}.

Definition set_dp_world (w : W) (d : Dispatcher K W) : Dispatcher K W :=
  mkDispatcher (dp_handlers d) (dp_schemas d) (dp_auth d) (dp_idempotent d) w.
Definition set_dp_idempotent (k : option K) (d : Dispatcher K W) : Dispatcher K W :=
  mkDispatcher (dp_handlers d) (dp_schemas d) (dp_auth d) k (dp_world d).
Definition in_world {A} (m : M W A) : M (Dispatcher K W) A := zoom dp_world set_dp_world m.

Definition NewDispatcher (auth : option (Command -> M W (result string))) (idempotent : option K)
    (w : W) : Dispatcher K W :=
  mkDispatcher ∅ ∅ auth idempotent w.

Definition Dispatcher_Register (t : string) (schema : CommandSchema)
    (h : Command -> M W Result) : M (Dispatcher K W) unit :=
  modify (fun d => mkDispatcher (<[t := h]> (dp_handlers d)) (<[t := schema]> (dp_schemas d))
    (dp_auth d) (dp_idempotent d) (dp_world d)).

(** Whether the command comes with a key the store is used for. *)
Definition keyed (cmd : Command) (d : Dispatcher K W) : option K :=
  if decide (cmd_IdempotencyKey cmd = "") then None else dp_idempotent d.

(** Steps 1 to 5: an answer, or the handler to run. *)
Definition Dispatch_check (cmd : Command)
    : M (Dispatcher K W) (Result + (Command -> M W Result)) :=
  let! d := get in
  let! authErr := match dp_auth d with
                  | Some auth => let! r := in_world (auth cmd) in ret (negb (is_ok r))
                  | None => ret false
                  end in
  if (authErr : bool) then ret (inl (rejected Unauthorized ""))
  else if decide (cmd_ProtocolVersion cmd <> 0 /\ SupportedProtocolVersion < cmd_ProtocolVersion cmd)
  then ret (inl (rejected UnsupportedCommand
         ("protocol version " +:+ Itoa (cmd_ProtocolVersion cmd) +:+ " is not supported (max " +:+
          Itoa SupportedProtocolVersion +:+ ")")))
  else
    match keyed cmd d ≫= idem_Get (cmd_IdempotencyKey cmd) with
    | Some r => ret (inl r)
    | None =>
        if negb (IsDocumented (cmd_Type cmd))
        then ret (inl (rejected UnsupportedCommand ("unknown command type " +:+ cmd_Type cmd)))
        else
          match dp_handlers d !! cmd_Type cmd, dp_schemas d !! cmd_Type cmd with
          | Some handler, Some schema =>
              match schema (cmd_Payload cmd) with
              | Some e => ret (inl (rejected InvalidInput (error_Error e)))
              | None => ret (inr handler)
              end
          | _, _ => ret (inl (rejected UnsupportedCommand "command not configured"))
          end
    end.

(** Steps 6 and 7. *)
Definition Dispatch_handle (cmd : Command) (handler : Command -> M W Result)
    : M (Dispatcher K W) Result :=
  let! r := in_world (handler cmd) in
  let r := if decide (res_Error r = None /\ res_Accepted r = false)
           then mkResult true (res_Message r) (res_Error r) (res_EventTypes r) else r in
  modify (fun d => match keyed cmd d with
                   | Some k => set_dp_idempotent (Some (idem_Add (cmd_IdempotencyKey cmd) r k)) d
                   | None => d
                   end);;;
  ret r.

Definition Dispatcher_Dispatch (cmd : Command) : M (Dispatcher K W) Result :=
  let! c := Dispatch_check cmd in
  match c with
  | inl r => ret r
  | inr handler => Dispatch_handle cmd handler
  end.
End Dispatch.

(** ** Specifications *)

(** A payload of the documented shape, per command. *)
Definition well_formed (cmd : Command) : Prop :=
  (cmd_Type cmd = CmdSessionStart /\ exists p, decode_StartPayload (cmd_Payload cmd) = Ok p /\
     sp_WorkspaceID p <> "" /\ sp_AdapterID p <> "") \/
  (cmd_Type cmd = CmdSessionPrompt /\ exists p, decode_PromptPayload (cmd_Payload cmd) = Ok p /\
     pp_Text p <> "" /\ strlen (pp_Text p) <= 100000) \/
  (cmd_Type cmd = CmdSessionInterrupt /\
     (cmd_Payload cmd = RawEmpty \/ cmd_Payload cmd = RawJSON JNull \/
      exists p, cmd_Payload cmd = RawJSON (JObj p))) \/
  (cmd_Type cmd = CmdApprovalDecide /\ exists p, decode_DecisionPayload (cmd_Payload cmd) = Ok p /\
     (dp_Decision p = "approve" \/ dp_Decision p = "deny") /\ strlen (dp_Reason p) <= 2000).

Lemma Schemas_well_formed cmd schema :
  Schemas !! cmd_Type cmd = Some schema -> schema (cmd_Payload cmd) = None -> well_formed cmd.
Proof.
  unfold Schemas, well_formed. cbn [list_to_map foldr uncurry curry fst snd].
  rewrite !lookup_insert_Some, lookup_empty.
  intros [[Ht <-]|[_ [[Ht <-]|[_ [[Ht <-]|[_ [[Ht <-]|[_ ?]]]]]]]] Hs; [..|done].
  - left. split; [done|]. unfold startSchema_Validate in Hs.
    destruct (decode_StartPayload _) as [p|]; [|done]. repeat case_decide; naive_solver.
  - right; left. split; [done|]. unfold promptSchema_Validate in Hs.
    destruct (decode_PromptPayload _) as [p|]; [|done]. exists p. unfold MaxPromptLength in *.
    repeat case_decide; try done. split; [done|]. split; [done|lia].
  - right; right; left. split; [done|].
    destruct (cmd_Payload cmd) as [|why|v]; [by left|done|]. right.
    destruct v; try done; [by left|right; eauto].
  - right; right; right. split; [done|]. unfold decideSchema_Validate in Hs.
    destruct (decode_DecisionPayload _) as [p|]; [|done]. exists p. unfold MaxReasonLength in *.
    repeat case_decide; try done. split; [done|]. split; [|lia].
    destruct (decide (dp_Decision p = "approve")); [by left|]. right.
    destruct (decide (dp_Decision p = "deny")); [done|]. by destruct_and?; naive_solver.
Qed.

Section Spec.
Context {K W : Type} `{IdempotencyStoreLaws K}.
Implicit Types d : Dispatcher K W.

(** The dispatcher after the authenticator was asked, and its answer. *)
Definition asked (cmd : Command) d : Dispatcher K W :=
  match dp_auth d with
  | None => d
  | Some auth => set_dp_world (auth cmd (dp_world d)).2 d
  end.
Definition authenticated (cmd : Command) d : bool :=
  match dp_auth d with
  | None => true
  | Some auth => is_ok (auth cmd (dp_world d)).1
  end.

(** Checking moves the world by the authenticator only; a command goes to its
    handler when it is authenticated, documented, valid and new. *)
Lemma wp_check cmd d (Q : Result + (Command -> M W Result) -> Dispatcher K W -> Prop) :
  (forall r, Q (inl r) (asked cmd d)) ->
  (forall h schema, authenticated cmd d = true ->
     keyed cmd d ≫= idem_Get (cmd_IdempotencyKey cmd) = None ->
     IsDocumented (cmd_Type cmd) = true -> dp_handlers d !! cmd_Type cmd = Some h ->
     dp_schemas d !! cmd_Type cmd = Some schema -> schema (cmd_Payload cmd) = None ->
     Q (inr h) (asked cmd d)) ->
  wp (Dispatch_check cmd) d Q.
Proof.
  intros HR HH. unfold Dispatch_check. wp_simp.
  apply (wp_mono _ _ (fun b d' => b = negb (authenticated cmd d) /\ d' = asked cmd d)).
  { unfold authenticated, asked, in_world. destruct (dp_auth d); wp_simp; [|done].
    apply wp_intro. intros r w Hr. wp_simp. by rewrite Hr. }
  intros b d' [-> ->]. destruct (authenticated cmd d) eqn:Ea; cbn; [|apply HR].
  case_decide; [apply HR|].
  destruct (keyed cmd d ≫= _) eqn:Hk; [apply HR|].
  destruct (IsDocumented _) eqn:Hd; cbn; [|apply HR].
  destruct (dp_handlers d !! _) eqn:Hh; [|apply HR].
  destruct (dp_schemas d !! _) as [schema|] eqn:Hs; [|apply HR].
  destruct (schema _) eqn:Hv; [apply HR|]. by eapply HH.
Qed.

Lemma asked_keeps cmd d : dp_handlers (asked cmd d) = dp_handlers d /\
  dp_schemas (asked cmd d) = dp_schemas d /\ dp_auth (asked cmd d) = dp_auth d /\
  dp_idempotent (asked cmd d) = dp_idempotent d.
Proof. unfold asked. destruct (dp_auth d) eqn:E; cbn; by rewrite ?E. Qed.
End Spec.

(** ** A stored result stays *)

Section Stored.
Context {K W : Type} `{IdempotencyStoreLaws K} (key : string) (r : Result).
Hypothesis key_nonempty : key <> "".

Definition stored (d : Dispatcher K W) : Prop :=
  exists k, dp_idempotent d = Some k /\ idem_Get key k = Some r.

Lemma stored_dispatch cmd : preserves stored (Dispatcher_Dispatch cmd).
Proof.
  intros d (k & Hk & Hr).
  change (wp (Dispatcher_Dispatch cmd) d (fun _ => stored)). unfold Dispatcher_Dispatch. wp_simp.
  destruct (asked_keeps cmd d) as (_ & _ & _ & Hk'). rewrite Hk in Hk'.
  apply wp_check; [intros r'; wp_simp; by exists k|]. intros h schema _ Hnew _ _ _ _. wp_simp.
  unfold Dispatch_handle, in_world. wp_simp. apply wp_intro. intros r' w _. wp_simp.
  unfold keyed in *. cbn. rewrite Hk in Hnew. rewrite Hk'.
  destruct (decide (cmd_IdempotencyKey cmd = "")); [by exists k|]. cbn in *.
  eexists. split; [done|]. rewrite idem_Get_Add_ne; [done|]. intros Heq. rewrite <- Heq in Hnew.
  congruence.
Qed.
End Stored.

(** ** Handlers run once per key, on well-formed commands *)

Section Log.
Context {K W : Type} `{IdempotencyStoreLaws K}.
Context (hs : string -> Command -> M W Result) (auth : Command -> M W (result string)).

(** The world with the list of the commands that reached a handler. *)
Definition lift {A} (m : M W A) : M (W * list Command) A :=
  zoom fst (fun w p => (w, p.2)) m.
Definition logged (h : Command -> M W Result) (cmd : Command) : M (W * list Command) Result :=
  modify (fun p => (p.1, p.2 ++ [cmd]));;; lift (h cmd).

(** A dispatcher with the documented commands registered. *)
Definition serve (k : K) (w : W) : Dispatcher K (W * list Command) :=
  (for_each documentedCommands (fun t =>
     match Schemas !! t with
     | Some schema => Dispatcher_Register t schema (logged (hs t))
     | None => ret tt
     end) (NewDispatcher (Some (fun cmd => lift (auth cmd))) (Some k) (w, []))).2.

Definition keys_of (l : list Command) : list string :=
  filter (fun k => k <> "") (cmd_IdempotencyKey <$> l).

Record log_ok (d : Dispatcher K (W * list Command)) : Prop := mk_log_ok {
  lo_handlers : forall t h, dp_handlers d !! t = Some h -> h = logged (hs t);
  lo_schemas : forall t schema, dp_schemas d !! t = Some schema -> Schemas !! t = Some schema;
  lo_auth : dp_auth d = Some (fun cmd => lift (auth cmd));
  lo_store : exists k, dp_idempotent d = Some k /\
    forall key, key ∈ keys_of (dp_world d).2 -> is_Some (idem_Get key k);
  lo_nodup : NoDup (keys_of (dp_world d).2);
  lo_valid : Forall (fun cmd => well_formed cmd /\ exists w, is_ok (auth cmd w).1 = true)
    (dp_world d).2
}.

Lemma serve_ok k w : log_ok (serve k w).
Proof.
  apply (preserves_for_each log_ok).
  - intros t d Hd. destruct (Schemas !! t) as [schema|] eqn:Es; [|done].
    destruct Hd. split; try done; cbn.
    + intros t' h. rewrite lookup_insert_Some. intros [[-> <-]|[_ ?]]; eauto.
    + intros t' s. rewrite lookup_insert_Some. intros [[-> <-]|[_ ?]]; eauto.
  - split; cbn; try done; [|constructor]. exists k. split; [done|].
    by intros key ?%not_elem_of_nil.
Qed.

Lemma lift_log {A} (m : M W A) p : (lift m p).2.2 = p.2 /\ (lift m p).1 = (m p.1).1.
Proof. destruct p as [w l]. unfold lift, zoom. cbn. by destruct (m w). Qed.

Lemma log_asked cmd d : log_ok d -> log_ok (asked cmd d) /\
  (authenticated cmd d = true -> exists w, is_ok (auth cmd w).1 = true) /\
  (dp_world (asked cmd d)).2 = (dp_world d).2.
Proof.
  intros Hd. unfold asked, authenticated. rewrite (lo_auth _ Hd).
  destruct (lift_log (auth cmd) (dp_world d)) as [Hl Hr]. split; [|split; [|exact Hl]].
  - destruct Hd. split; cbn; rewrite ?Hl; done.
  - rewrite Hr. eauto.
Qed.

Lemma log_dispatch cmd : preserves log_ok (Dispatcher_Dispatch cmd).
Proof.
  intros d Hd. change (wp (Dispatcher_Dispatch cmd) d (fun _ => log_ok)).
  destruct (log_asked cmd d Hd) as (Hd' & Hauth & Hlog).
  destruct (asked_keeps cmd d) as (_ & _ & _ & Hk').
  unfold Dispatcher_Dispatch. wp_simp. apply wp_check; [intros; by wp_simp|].
  intros h schema Ha Hnew _ Hh Hs Hv. wp_simp.
  rewrite (lo_handlers _ Hd _ _ Hh).
  pose proof (Schemas_well_formed cmd schema (lo_schemas _ Hd _ _ Hs) Hv) as Hwf.
  destruct Hd' as [Dh Ds Da (k & Dk & Dkeys) Dn Dv]. rewrite Hlog in Dkeys, Dn, Dv.
  rewrite Hk' in Dk. unfold Dispatch_handle, in_world, logged. wp_simp.
  apply wp_intro. intros r p Hp.
  assert (Hp2 : p.2 = (dp_world (asked cmd d)).2 ++ [cmd]).
  { destruct (lift_log (hs (cmd_Type cmd) cmd)
      ((dp_world (asked cmd d)).1, (dp_world (asked cmd d)).2 ++ [cmd])) as [Hl _].
    by rewrite Hp in Hl. }
  rewrite Hlog in Hp2. wp_simp. unfold keyed in *. cbn. rewrite Dk in Hk', Hnew. rewrite Hk'.
  assert (Hv' : Forall (fun cmd => well_formed cmd /\ exists w, is_ok (auth cmd w).1 = true) p.2).
  { rewrite Hp2. apply Forall_app_2; [done|]. apply Forall_singleton. split; [done|]. by apply Hauth. }
  assert (Hkeys : keys_of p.2 = keys_of (dp_world d).2 ++
    (if decide (cmd_IdempotencyKey cmd = "") then [] else [cmd_IdempotencyKey cmd])).
  { rewrite Hp2. unfold keys_of. rewrite fmap_app, filter_app. f_equal. cbn.
    by repeat case_decide. }
  destruct (decide (cmd_IdempotencyKey cmd = "")) as [He|Hne]; cbn in *.
  - rewrite app_nil_r in Hkeys. split; try done; cbn; rewrite ?Hkeys; eauto.
  - split; try done; cbn; rewrite ?Hkeys.
    + eexists. split; [done|]. intros key. rewrite elem_of_app, list_elem_of_singleton.
      destruct (decide (key = cmd_IdempotencyKey cmd)) as [->|Hk]; [by rewrite idem_Get_Add|].
      intros [Hin|?]; [|done]. rewrite idem_Get_Add_ne by done. auto.
    + apply NoDup_app. split; [done|]. split; [|apply NoDup_singleton].
      intros key Hin%Dkeys ->%list_elem_of_singleton. by rewrite Hnew in Hin; destruct Hin.
Qed.
End Log.

(** ** Properties *)

(** C18: a command reaches its handler at most once, and only if it should.
    Whatever commands a dispatcher with the documented schemas is given, in
    whatever order: every command that reached a handler was let through by
    the authenticator and has the documented payload, and no two of them carry
    the same idempotency key. *)
Theorem handlers_run_once {K W} `{IdempotencyStoreLaws K} (hs : string -> Command -> M W Result)
    auth (k : K) w cmds :
  let d := (for_each cmds (fun cmd => let! _ := Dispatcher_Dispatch cmd in ret tt)
              (serve hs auth k w)).2 in
  NoDup (keys_of (dp_world d).2) /\
  Forall (fun cmd => well_formed cmd /\ exists w, is_ok (auth cmd w).1 = true) (dp_world d).2.
Proof.
  intros d.
  assert (Hok : log_ok hs auth d).
  { apply (preserves_for_each (log_ok hs auth)); [|apply serve_ok]. intros cmd.
    apply preserves_bind; [apply log_dispatch|]. intros. apply preserves_ret. }
  split; apply Hok.
Qed.

(** A handler that counts its calls, and a prompt sent three times. *)
Definition demo_handler (t : string) (cmd : Command) : M nat Result :=
  fun n => (mkResult false t None [], S n).
Definition demo_auth (cmd : Command) : M nat (result string) := ret (Ok "dev-1").
Definition demo_prompt (key txt : string) : Command :=
  mkCommand "c" CmdSessionPrompt "ses-1" key (RawJSON (JObj [("Text", JStr txt)])) 1.
Definition demo_commands : list Command :=
  [demo_prompt "key-00001" "hello"; demo_prompt "key-00001" "other"; demo_prompt "key-00002" ""].

Lemma handlers_run_once_witness :
  let d := (for_each demo_commands (fun cmd => let! _ := Dispatcher_Dispatch cmd in ret tt)
              (serve demo_handler demo_auth (∅ : gmap string Result) 0%nat)).2 in
  (dp_world d).2 = [demo_prompt "key-00001" "hello"] /\
  NoDup (keys_of (dp_world d).2) /\
  Forall (fun cmd => well_formed cmd /\ exists w, is_ok (demo_auth cmd w).1 = true) (dp_world d).2.
Proof.
  intros d. split; [vm_compute; reflexivity|].
  apply (handlers_run_once demo_handler demo_auth (∅ : gmap string Result) 0%nat demo_commands).
Defined.

(** A retry is answered with the first result.  Once a command with a key
    was handled, every later command with that key that the authenticator lets
    through, of a supported version, is answered with the same result and
    touches nothing, whatever was dispatched in between.  The body is not
    compared: a different command under the same key gets the first one's
    result. *)
Theorem retry_replays {K W} `{IdempotencyStoreLaws K} (d d1 : Dispatcher K W) c1 r h cmds c2 :
  is_Some (dp_idempotent d) -> cmd_IdempotencyKey c1 <> "" ->
  (Dispatch_check c1 d).1 = inr h -> Dispatcher_Dispatch c1 d = (r, d1) ->
  cmd_IdempotencyKey c2 = cmd_IdempotencyKey c1 -> cmd_ProtocolVersion c2 <= 1 ->
  let d2 := (for_each cmds (fun cmd => let! _ := Dispatcher_Dispatch cmd in ret tt) d1).2 in
  authenticated c2 d2 = true ->
  Dispatcher_Dispatch c2 d2 = (r, asked c2 d2).
Proof.
  intros [k Hk] Hne Hc E Hkey Hver d2 Ha.
  assert (H1 : stored (cmd_IdempotencyKey c1) r d1).
  { revert E. unfold Dispatcher_Dispatch, bind. pose proof (wp_check c1 d
      (fun x d' => x = inr h -> dp_idempotent d' = Some k)) as Hw. unfold wp in Hw.
    destruct (Dispatch_check c1 d) as [x d']. cbn in *. subst x.
    destruct (asked_keeps c1 d) as (_ & _ & _ & Hk'). rewrite Hk in Hk'.
    specialize (Hw ltac:(done) ltac:(done) eq_refl). intros E. revert E.
    unfold Dispatch_handle, in_world, bind, zoom, modify, ret.
    destruct (h c1 (dp_world d')) as [r0 w]. cbn. unfold keyed. cbn.
    rewrite (decide_False (P := cmd_IdempotencyKey c1 = "")) by done. rewrite Hw. intros [= <- <-]. eexists. split; [done|]. apply idem_Get_Add. }
  assert (H2 : stored (cmd_IdempotencyKey c1) r d2).
  { apply (preserves_for_each (stored (cmd_IdempotencyKey c1) r)); [|done]. intros cmd.
    apply preserves_bind; [by apply stored_dispatch|]. intros. apply preserves_ret. }
  destruct H2 as (k2 & Hk2 & Hget). clearbody d2.
  assert (Hnone : keyed c2 d2 ≫= idem_Get (cmd_IdempotencyKey c2) = Some r).
  { unfold keyed. rewrite Hkey, decide_False by done. by rewrite Hk2. }
  unfold Dispatcher_Dispatch, Dispatch_check, bind, get.
  assert (Hauth : match dp_auth d2 with
      | Some auth => let! r := in_world (auth c2) in ret (negb (is_ok r))
      | None => ret false end d2 = (false, asked c2 d2)).
  { revert Ha. unfold authenticated, asked, bind, in_world, zoom.
    destruct (dp_auth d2) as [auth|]; [|done]. destruct (auth c2 (dp_world d2)) as [[a|e] w]; done. }
  unfold bind in Hauth. rewrite Hauth. rewrite decide_False by (unfold SupportedProtocolVersion; lia).
  by rewrite Hnone.
Qed.

Definition demo_server : Dispatcher (gmap string Result) (nat * list Command) :=
  serve demo_handler demo_auth ∅ 0%nat.
Definition demo_first : Command := demo_prompt "key-00001" "hello".
Definition demo_retry : Command := demo_prompt "key-00001" "other".
Definition demo_result : Result := mkResult true CmdSessionPrompt None [].
Definition demo_later : Dispatcher (gmap string Result) (nat * list Command) :=
  (for_each [demo_prompt "key-00003" "more"] (fun cmd => let! _ := Dispatcher_Dispatch cmd in ret tt)
     (Dispatcher_Dispatch demo_first demo_server).2).2.

Lemma retry_replays_witness :
  Dispatcher_Dispatch demo_retry demo_later = (demo_result, asked demo_retry demo_later).
Proof.
  apply (retry_replays demo_server (Dispatcher_Dispatch demo_first demo_server).2 demo_first
           demo_result (logged (demo_handler CmdSessionPrompt)) [demo_prompt "key-00003" "more"]
           demo_retry).
  - vm_compute. eauto.
  - discriminate.
  - vm_compute. reflexivity.
  - apply run_answer. vm_compute. reflexivity.
  - reflexivity.
  - vm_compute. discriminate.
  - vm_compute. reflexivity.
Defined.
